(* ===== verification/_CoqProject ===== *)
-Q . S2P
Prelude.v
PyData.v
Struct.v
Text.v
StrOps.v
Floats.v
Paths.v
Digest.v
Errors.v
ArgParse.v
Json.v
JsonParse.v
JsonRoundTrip.v
Protocol.v
CaptureModel.v
HeapWriter.v
Golden.v
Collector.v
Artifact.v
Capture.v
CaptureEnds.v
Conforming.v
SmallTarget.v
HeapModel.v
HeapReader.v
LoadedHeap.v
RoundTrip.v
Delivery.v
Cascade.v
RetainedModel.v
Deletions.v
Subtrees.v
Retained.v
Report.v
Reports.v
ReportText.v
Cache.v
AnalyzerCli.v
Target.v
Targets.v
LoaderModel.v
Loader.v
Loaders.v
CaptureCli.v
CaptureParser.v
CaptureCommand.v
Pipeline.v
