(* ===== verification/Prelude.v ===== *)
(** * Pydump: verification library

    Pydump dumps the heap of a live CPython process.  A small native Agent is
    loaded into the target and talks to the Collector over a Unix socket; the
    Collector walks the object graph and streams it into a PyHeap v1 artifact;
    an analyzer that shares nothing with the Collector but the artifact's format
    reads it back, computes what every object retains and prints a report.  This
    library models the two Python programs and proves what they promise.  Source
    paths below are relative to [src/capture/collector/src/pydump/] (the
    Collector) and [src/analyzer/python/src/pydump_analyzer/] (the analyzer).

    ** Foundations

    - [Prelude]: results, the state-and-exception monad [M], [try]/[finally],
      shared lemmas.  A Python statement sequence is a function of the state that
      returns a value or an exception together with the state reached.
    - [PyData]: dictionaries (association lists in insertion order), sets and
      their unspecified iteration order (the interface [SetOrder], against which
      every loop over a set is modelled), the stable sort.
    - [Struct], [Text], [StrOps], [Paths], [Digest], [Errors]: the [struct]
      formats, UTF-8 with its error handlers, the string methods the sources use,
      paths and files, SHA-256 and SHA-1, the exceptions ([errors.py]).  [Errors]
      also has the interface [Interpreter]: how many calls the rendering of an
      object may nest, and how many arrays and objects the JSON parser, before
      the interpreter raises [RecursionError].
    - [Floats]: the doubles as integers times powers of two, with their
      arithmetic, the formats the output uses and [float] of a text.
    - [ArgParse]: the part of [argparse] the two command lines use, with the lemmas
      by which a parser's properties follow from its options'.
    - [Json], [JsonParse], [JsonRoundTrip]: what [json.dump] writes and
      [json.load] reads, and that reading inverts writing.

    ** The capture side

    - [Protocol] ([protocol.py]): payload codecs, bulk batches and
      [FramedSocket] over a socket that delivers its bytes in chunks of any size
      and may fail.  The peer is a list of answers, functions from the bytes of the
      next message to what is delivered for it, so that what is sent decides what
      can be read.  [receive] is refined to the peer's logical stream of frames.
    - [CaptureModel], [HeapWriter] ([model.py], [heap_writer.py]): the streaming
      writer on a file with a position and a limited disk.  [Artifact] is the
      declarative layout of [contracts/heap-v1.md], and the writer refines it.
    - [Collector] ([collector.py]): the session ([_capture]) and delivery
      ([capture]).  [Capture] proves that a session that completes has recorded a
      closed set of objects, each once; [CaptureEnds] that every session ends;
      [Conforming] that an Agent ([Agent], [reply]) that answers each message as
      the protocol asks is served to the end, for every finite heap, batching and
      chunking, and what it has then been sent; [Delivery] that the artifact
      appears under its final name whole or not at all.
    - [Target] ([target.py]), with its properties in [Targets]: the process, its
      version and its container.
    - [LoaderModel], [Loader] ([loader/]), with their properties in [Loaders]:
      the environment check, the installation of the Agent, the two loaders and
      the choice between them.  The machine is the interface [OperatingSystem].
    - [CaptureCli] ([cli.py]): the parser and the whole command, which composes all
      of the above, with the wait for the Agent's connection while the loader
      works in its own thread, and its output.  Its properties are in
      [CaptureParser] and [CaptureCommand].
    - [Golden] and [SmallTarget] hold concrete heaps for the witnesses.

    ** The analyzer

    - [HeapModel], [HeapReader] ([model.py], [reader.py]): the object model, the
      text of an object, the reader.  [LoadedHeap] proves that whatever is
      accepted is well formed; [RoundTrip] that the reader inverts the writer.
    - [RetainedModel] ([retained.py]): the inbound index, strict subtrees, the
      deletion loop.  [Cascade] is the specification of retained size on an
      abstract graph; [Deletions] shows that one deletion run computes one
      cascade, [Subtrees] that the subtree shortcut is exact, and [Retained] that
      the calculator gives every object and thread the size of its cascade,
      whatever the order in which sets are visited.
    - [Cache] ([RetainedHeapCache]), [Report], [Reports] and [ReportText]
      ([report.py]), [AnalyzerCli] ([cli.py]): the cache is transparent, the report's
      tables are what they claim, its text is read back as the report, and the
      commands print it, or the text table, for every accepted file.

    - [Pipeline]: capture and analyzer put together.

    ** What the groups of theorems show

    - From the command line to the artifact: [accepted_arguments] and
      [arguments_roundtrip] for the parser; [run_delivers] and
      [conforming_capture_delivered] (which pin the messages sent as well as the
      file) and [delivered_artifact_complete] follow the objects from the Agent's
      frames to the file, [capture_then_analyze] from there to the printed report;
      [capture_atomic] and [run_files] account for every file on every
      failure; [accept_loop_correct] bounds the wait.
    - The contract between the two programs: [writer_refines_layout],
      [reader_inverts_writer], [load_heap_wellformed], [artifacts_prefix_free].
    - The analysis: [calculate_correct] against the cascade, with
      [strict_subtrees_exact], [retained_is_dominated] (exact dominator sizes on
      acyclic heaps) and [calculate_order_independent].
    - Around them: the codecs, the loaders' verdicts, the cache, the report.

    ** Bounds and fuel

    Integers are [Z] with the width checks of [struct] written out.  Loops that
    Python runs until something happens take fuel, and a theorem shows that it
    does not run out: the loops of a session take the number of answers the peer
    has left and then the length of the channel's backlog, which every frame
    shortens ([receive_progress_or_transport_error], [CaptureEnds]); a
    deletion run takes one round for each address with inbound references; the
    climb through strict subtrees a bound quadratic in the number of objects,
    since the front only loses or moves up ([Subtrees]); rendering an object
    and parsing JSON the depths of [Interpreter], which are no artifice: where
    they run out the program raises [RecursionError], and
    [loaded_objects_render] says exactly when; [first_free] one candidate more
    than there are files and directories; the wait for the Agent two rounds
    more than there are polls in the timeout; the JSON parser two steps for
    each character.

    ** Not modelled

    - What [argparse] prints, and the rounding of the doubles in which the command
      computes its deadline: the clock counts whole nanoseconds there.
    - The interpreter's limit on the digits of [int], and its recursion limit
      anywhere but in rendering and JSON parsing; surrogates in file names;
      symbolic links; [/proc] files are read whole.
    - The source text of the disposable helper process of the GDB probe, the
      Agent, the native loader and the Go analyzer (other languages; the Agent's
      side of the protocol is the hypothesis [conforming] of the session
      theorems), benchmarks and the fixture generator. *)
From Stdlib Require Import ZArith Lia.
From stdpp Require Import base tactics numbers list sets gmap fin_maps strings.

#[global] Open Scope Z_scope.

Create HintDb pydump.
Create Rewrite HintDb pydump.

(** ** Results and exceptions as values *)

Inductive result (E A : Type) : Type :=
| Ok (a : A)
| Err (e : E).
Arguments Ok {E A} _.
Arguments Err {E A} _.

#[export] Instance result_ret {E} : MRet (result E) := λ A a, Ok a.
#[export] Instance result_bind {E} : MBind (result E) :=
  λ A B f m, match m with Ok a => f a | Err e => Err e end.

#[export] Instance result_fmap {E} : FMap (result E) :=
  λ A B f m, match m with Ok a => Ok (f a) | Err e => Err e end.

Definition is_ok {E A} (r : result E A) : bool :=
  match r with Ok _ => true | Err _ => false end.

Lemma Ok_inj {E A} (a b : A) : @Ok E A a = Ok b → a = b.
Proof. by injection 1. Qed.

Lemma result_bind_inv {E A B} (m : result E A) (f : A → result E B) b :
  (m ≫= f) = Ok b → ∃ a, m = Ok a ∧ f a = Ok b.
Proof. destruct m as [a|e]; [eauto | discriminate]. Qed.

(** ** Stateful computations that may raise

    A Python statement sequence is a function of the state; an exception keeps
    the state reached when it was raised, as [try]/[except] sees it. *)

Definition M (S E A : Type) : Type := S → result E A * S.

#[export] Instance M_ret {S E} : MRet (M S E) := λ A a s, (Ok a, s).
#[export] Instance M_bind {S E} : MBind (M S E) :=
  λ A B f m s, match m s with
               | (Ok a, s') => f a s'
               | (Err e, s') => (Err e, s')
               end.

Definition raise {S E A} (e : E) : M S E A := λ s, (Err e, s).
Definition get {S E} : M S E S := λ s, (Ok s, s).
Definition modify {S E} (f : S → S) : M S E unit := λ s, (Ok tt, f s).
Definition lift {S E A} (r : result E A) : M S E A := λ s, (r, s).

(** [try: m except BaseException: h; raise] *)
Definition on_error {S E A} (m : M S E A) (h : M S E unit) : M S E A :=
  λ s, match m s with
       | (Ok a, s') => (Ok a, s')
       | (Err e, s') => match h s' with
                        | (Ok _, s'') => (Err e, s'')
                        | (Err e', s'') => (Err e', s'')
                        end
       end.

(** [try: m finally: h] *)
Definition finally {S E A} (m : M S E A) (h : M S E unit) : M S E A :=
  λ s, let '(r, s') := m s in
       match h s' with
       | (Ok _, s'') => (r, s'')
       | (Err e', s'') => (Err e', s'')
       end.

(** [for x in xs: body x] *)
Fixpoint for_each {S E A} (xs : list A) (body : A → M S E unit) : M S E unit :=
  match xs with
  | [] => mret tt
  | x :: xs => body x ;; for_each xs body
  end.

(** [[m() for _ in range(n)]] *)
Fixpoint repeat_m {S E A} (n : nat) (m : M S E A) : M S E (list A) :=
  match n with
  | O => mret []
  | S n => x ← m; xs ← repeat_m n m; mret (x :: xs)
  end.

Section MonadLemmas.
Context {S E : Type}.
Implicit Types s : S.

Lemma bind_ok {A B} (m : M S E A) (f : A → M S E B) s a s' :
  m s = (Ok a, s') → (m ≫= f) s = f a s'.
Proof. intros H. unfold mbind, M_bind. by rewrite H. Qed.

Lemma bind_err {A B} (m : M S E A) (f : A → M S E B) s e s' :
  m s = (Err e, s') → (m ≫= f) s = (Err e, s').
Proof. intros H. unfold mbind, M_bind. by rewrite H. Qed.

Lemma bind_inv {A B} (m : M S E A) (f : A → M S E B) s b s'' :
  (m ≫= f) s = (Ok b, s'') →
  ∃ a s', m s = (Ok a, s') ∧ f a s' = (Ok b, s'').
Proof.
  unfold mbind, M_bind. destruct (m s) as [[a|e] s']; [eauto | discriminate].
Qed.

Lemma bind_err_inv {A B} (m : M S E A) (f : A → M S E B) s e s'' :
  (m ≫= f) s = (Err e, s'') →
  m s = (Err e, s'') ∨ ∃ a s', m s = (Ok a, s') ∧ f a s' = (Err e, s'').
Proof.
  unfold mbind, M_bind. destruct (m s) as [[a|e'] s'] eqn:Hm; intros H; [eauto |].
  left. congruence.
Qed.

Lemma lift_inv {A} (r : result E A) s a s' :
  lift r s = (Ok a, s') → r = Ok a ∧ s' = s.
Proof. unfold lift. intros [= -> ->]. done. Qed.

Lemma bind_assoc {A B C} (m : M S E A) (f : A → M S E B) (g : B → M S E C) s :
  ((m ≫= f) ≫= g) s = (m ≫= λ a, f a ≫= g) s.
Proof. unfold mbind, M_bind. by destruct (m s) as [[?|?] ?]. Qed.

Lemma bind_ext {A B} (m : M S E A) (f g : A → M S E B) s :
  (∀ a s', f a s' = g a s') → (m ≫= f) s = (m ≫= g) s.
Proof. intros H. unfold mbind, M_bind. destruct (m s) as [[?|?] ?]; auto. Qed.

(** Three statements in front of the rest *)
Lemma bind_prefix3 {A} (m1 m2 m3 : M S E unit) (k : M S E A) s :
  (m1;; m2;; m3;; k) s = ((m1;; m2;; m3);; k) s.
Proof. rewrite bind_assoc. apply bind_ext. intros [] s'. by rewrite bind_assoc. Qed.

(** A loop body that preserves [I] on success preserves it over the loop. *)
Lemma for_each_inv {A} (I : S → Prop) (xs : list A) (body : A → M S E unit) s s' :
  (∀ x s1 s2, x ∈ xs → I s1 → body x s1 = (Ok tt, s2) → I s2) →
  I s → for_each xs body s = (Ok tt, s') → I s'.
Proof.
  revert s. induction xs as [|x xs IH]; intros s Hstep HI; cbn [for_each].
  - by intros [= <-].
  - intros ([] & s1 & H1 & H2)%bind_inv.
    eapply IH; [| |exact H2].
    + intros; eapply Hstep; eauto. by right.
    + eapply Hstep; eauto. by left.
Qed.
End MonadLemmas.

(** [mon_inv H] splits a successful run of a sequence into the runs of its
    statements. *)
Ltac mon_inv H :=
  lazymatch type of H with
  | (mbind _ _) _ = (Ok _, _) =>
      let a := fresh "v" in let s := fresh "s" in let H1 := fresh "Hm" in
      apply bind_inv in H as (a & s & H1 & H); mon_inv H1; mon_inv H
  | lift _ _ = (Ok _, _) =>
      let H1 := fresh "Hl" in apply lift_inv in H as [H1 ->]
  | mret _ _ = (Ok _, _) =>
      unfold mret, M_ret in H; injection H as H; subst
  | raise _ _ = (Ok _, _) => discriminate H
  | _ => idtac
  end.

(** Case analysis on the scrutinee of the innermost test of a hypothesis. *)
Ltac case_in H :=
  match type of H with
  | context [if ?b then _ else _] => destruct b eqn:?
  | context [match ?b with _ => _ end] => destruct b eqn:?
  end.

(** ** Lists *)

Lemma filter_none {A} (P : A → Prop) `{∀ x, Decision (P x)} (l : list A) :
  Forall (λ x, ¬ P x) l → filter P l = [].
Proof. induction 1 as [|x l Hx Hl IH]; [done|]. by rewrite filter_cons_False. Qed.

Lemma bind_fmap {A B C} (f : A → B) (g : B → list C) (l : list A) :
  (f <$> l) ≫= g = l ≫= (g ∘ f).
Proof. induction l as [|x l IH]; cbn in *; congruence. Qed.
