(* ===== verification/PyData.v ===== *)
(** * Python's built-in containers and orderings

    Dictionaries keep insertion order, so they are association lists with
    Python's update-in-place rule; sets have an iteration order that the
    language leaves unspecified, so code that iterates over one is modelled
    against the interface [SetOrder]; [sort] and [sorted] are a stable sort. *)
From stdpp Require Import fin_sets.
From stdpp Require Import base tactics numbers list sorting gmap fin_maps.
From S2P Require Import Prelude.

(** ** Dictionaries *)

Abbreviation dict K V := (list (K * V)) (only parsing).

Section Dict.
Context {K V : Type} `{EqDecision K}.
Implicit Types (d : dict K V) (k : K) (v : V).

(** [d.get(k)] *)
Fixpoint dict_get d k : option V :=
  match d with
  | [] => None
  | (k', v) :: d => if decide (k = k') then Some v else dict_get d k
  end.

(** [d[k] = v]: an existing key keeps its position, a new one goes last. *)
Fixpoint dict_set d k v : dict K V :=
  match d with
  | [] => [(k, v)]
  | (k', v') :: d => if decide (k = k') then (k', v) :: d else (k', v') :: dict_set d k v
  end.

(** [d.setdefault(k, v)], the stored dictionary *)
Definition dict_setdefault d k v : dict K V :=
  match dict_get d k with Some _ => d | None => dict_set d k v end.

(** [dict(pairs)] *)
Definition dict_of (pairs : list (K * V)) : dict K V :=
  foldl (λ d '(k, v), dict_set d k v) [] pairs.

Definition dict_keys d : list K := d.*1.
Definition dict_values d : list V := d.*2.

(** What every Python dictionary satisfies: its keys are distinct. *)
Definition dict_wf d : Prop := NoDup d.*1.

Lemma dict_get_set d k v k' :
  dict_get (dict_set d k v) k' = if decide (k' = k) then Some v else dict_get d k'.
Proof.
  induction d as [|[k0 v0] d IH]; cbn.
  - by repeat case_decide.
  - repeat (case_decide; cbn); subst; congruence.
Qed.

Lemma dict_get_set_eq d k v : dict_get (dict_set d k v) k = Some v.
Proof. rewrite dict_get_set. by rewrite decide_True. Qed.

Lemma dict_get_set_ne d k v k' : k' ≠ k → dict_get (dict_set d k v) k' = dict_get d k'.
Proof. intros. rewrite dict_get_set. by rewrite decide_False. Qed.

Lemma dict_get_None d k : dict_get d k = None ↔ k ∉ d.*1.
Proof.
  induction d as [|[k0 v0] d IH]; cbn; [set_solver|].
  case_decide; subst; rewrite not_elem_of_cons; naive_solver.
Qed.

Lemma dict_get_elem d k v : dict_get d k = Some v → (k, v) ∈ d.
Proof.
  induction d as [|[k0 v0] d IH]; cbn; [done|].
  case_decide as Hk; intros H.
  - injection H as ->. subst. left.
  - right; auto.
Qed.

Lemma dict_get_is_Some d k : is_Some (dict_get d k) ↔ k ∈ d.*1.
Proof.
  destruct (dict_get d k) as [v|] eqn:H.
  - apply dict_get_elem in H. split; [|eauto].
    intros _. apply list_elem_of_fmap. by exists (k, v).
  - apply dict_get_None in H. split; [by intros [? ?] | done].
Qed.

Lemma dict_elem_get d k v : dict_wf d → (k, v) ∈ d → dict_get d k = Some v.
Proof.
  unfold dict_wf. induction d as [|[k0 v0] d IH]; cbn; [by intros _ ?%elem_of_nil|].
  intros [Hnot Hnd]%NoDup_cons [[= -> ->]|Hin]%elem_of_cons; [by rewrite decide_True|].
  rewrite decide_False; [auto|].
  intros ->. apply Hnot. apply list_elem_of_fmap. by exists (k0, v).
Qed.

Lemma dict_set_keys_old d k v : k ∈ d.*1 → (dict_set d k v).*1 = d.*1.
Proof.
  induction d as [|[k0 v0] d IH]; cbn; [by intros ?%elem_of_nil|].
  intros [->|H]%elem_of_cons; [by rewrite decide_True|].
  case_decide; cbn; [done|]. by rewrite IH.
Qed.

Lemma dict_set_new d k v : k ∉ d.*1 → dict_set d k v = d ++ [(k, v)].
Proof.
  induction d as [|[k0 v0] d IH]; cbn; [done|].
  intros [? ?]%not_elem_of_cons. rewrite decide_False by done. by rewrite IH.
Qed.

Lemma dict_set_id d k v : dict_get d k = Some v → dict_set d k v = d.
Proof.
  induction d as [|[k0 v0] d IH]; cbn; [done|].
  case_decide as Hk; intros H; [by injection H as -> |]. by rewrite IH.
Qed.

Lemma dict_set_keys d k v x : x ∈ (dict_set d k v).*1 ↔ x = k ∨ x ∈ d.*1.
Proof.
  destruct (decide (k ∈ d.*1)) as [Hin|Hin].
  - rewrite dict_set_keys_old by done. naive_solver.
  - rewrite dict_set_new by done. rewrite fmap_app, elem_of_app. cbn. set_solver.
Qed.

Lemma dict_set_wf d k v : dict_wf d → dict_wf (dict_set d k v).
Proof.
  unfold dict_wf. intros Hd. destruct (decide (k ∈ d.*1)) as [Hin|Hin].
  - by rewrite dict_set_keys_old.
  - rewrite dict_set_new by done. rewrite fmap_app. cbn.
    apply NoDup_app. repeat split; [done| |apply NoDup_singleton].
    intros x Hx ->%list_elem_of_singleton. done.
Qed.

Lemma dict_get_app d1 d2 k :
  dict_get (d1 ++ d2) k = match dict_get d1 k with Some v => Some v | None => dict_get d2 k end.
Proof. induction d1 as [|[k0 v0] d1 IH]; cbn; [done|]. by case_decide. Qed.

Lemma dict_of_app ps qs :
  dict_of (ps ++ qs) = foldl (λ d '(k, v), dict_set d k v) (dict_of ps) qs.
Proof. unfold dict_of. by rewrite foldl_app. Qed.

Lemma dict_of_snoc ps k v : dict_of (ps ++ [(k, v)]) = dict_set (dict_of ps) k v.
Proof. by rewrite dict_of_app. Qed.

Lemma dict_of_wf ps : dict_wf (dict_of ps).
Proof.
  induction ps as [|[k v] ps IH] using rev_ind; [constructor|].
  rewrite dict_of_snoc. by apply dict_set_wf.
Qed.

Lemma dict_of_keys ps k : k ∈ (dict_of ps).*1 ↔ k ∈ ps.*1.
Proof.
  induction ps as [|[k0 v] ps IH] using rev_ind; [done|].
  rewrite dict_of_snoc, dict_set_keys, IH, fmap_app, elem_of_app. cbn. set_solver.
Qed.

Lemma dict_set_elem d k v e : e ∈ dict_set d k v → e = (k, v) ∨ e ∈ d.
Proof.
  induction d as [|[k0 v0] d IH]; cbn; [intros ->%list_elem_of_singleton; by left|].
  case_decide; subst; rewrite !elem_of_cons; naive_solver.
Qed.

Lemma dict_of_elem ps e : e ∈ dict_of ps → e ∈ ps.
Proof.
  induction ps as [|[k v] ps IH] using rev_ind; [done|].
  rewrite dict_of_snoc. intros [->|He]%dict_set_elem; set_solver.
Qed.

(** Building a dictionary from pairs with distinct keys stores those pairs. *)
Lemma dict_of_NoDup ps : NoDup ps.*1 → dict_of ps = ps.
Proof.
  induction ps as [|[k v] ps IH] using rev_ind; [done|].
  rewrite fmap_app. intros (Hnd & Hdisj & _)%NoDup_app.
  rewrite dict_of_snoc, IH by done. apply dict_set_new.
  intros Hin. apply (Hdisj _ Hin). cbn. set_solver.
Qed.
End Dict.

#[export] Hint Resolve dict_set_wf dict_of_wf : pydump.
#[export] Hint Rewrite @dict_get_set_eq : pydump.

(** ** Sums *)

(** Python's [sum] of integers *)
Definition zsum (l : list Z) : Z := foldr Z.add 0 l.

Lemma zsum_app l1 l2 : zsum (l1 ++ l2) = zsum l1 + zsum l2.
Proof. induction l1 as [|x l1 IH]; cbn; [done|]. unfold zsum in *. lia. Qed.

#[export] Instance zsum_Permutation : Proper ((≡ₚ) ==> (=)) zsum.
Proof. induction 1; unfold zsum in *; cbn; lia. Qed.

(** The sum of a weight over a finite set *)
Definition gsum (f : Z → Z) (s : gset Z) : Z := zsum (f <$> elements s).

Lemma gsum_empty f : gsum f ∅ = 0.
Proof. unfold gsum. by rewrite elements_empty. Qed.

Lemma gsum_union f s t : s ## t → gsum f (s ∪ t) = gsum f s + gsum f t.
Proof.
  intros H. unfold gsum. rewrite elements_disj_union by done.
  by rewrite fmap_app, zsum_app.
Qed.

Lemma gsum_singleton f x : gsum f {[x]} = f x.
Proof. unfold gsum. rewrite elements_singleton. cbn. lia. Qed.

Lemma gsum_insert f x s : x ∉ s → gsum f ({[x]} ∪ s) = f x + gsum f s.
Proof. intros. rewrite gsum_union by set_solver. by rewrite gsum_singleton. Qed.

Lemma gsum_ext f g s : (∀ x, x ∈ s → f x = g x) → gsum f s = gsum g s.
Proof.
  intros H. unfold gsum. f_equal. apply list_fmap_ext.
  intros i x Hx. apply H. apply elem_of_elements. by eapply list_elem_of_lookup_2.
Qed.

Lemma zsum_add {A} (f g : A → Z) l :
  zsum ((λ x, f x + g x) <$> l) = zsum (f <$> l) + zsum (g <$> l).
Proof. induction l as [|x l IH]; [done|]. unfold zsum in *. cbn. lia. Qed.

Lemma gsum_add f g s : gsum (λ x, f x + g x) s = gsum f s + gsum g s.
Proof. apply zsum_add. Qed.

(** Summing where a set holds *)
Lemma gsum_restrict g s t :
  gsum (λ x, if bool_decide (x ∈ t) then g x else 0) s = gsum g (t ∩ s).
Proof.
  induction s as [|x s Hx IH] using set_ind_L.
  - rewrite (intersection_empty_r_L t). by rewrite !gsum_empty.
  - rewrite gsum_insert by done. rewrite IH. case_bool_decide as Hxt.
    + replace (t ∩ ({[x]} ∪ s)) with ({[x]} ∪ t ∩ s) by set_solver.
      rewrite gsum_insert by set_solver. done.
    + by replace (t ∩ ({[x]} ∪ s)) with (t ∩ s) by set_solver.
Qed.

Lemma gsum_set_bind g (f : Z → gset Z) s :
  (∀ x y, x ∈ s → y ∈ s → x ≠ y → f x ## f y) →
  gsum g (set_bind f s) = gsum (λ x, gsum g (f x)) s.
Proof.
  induction s as [|x s Hx IH] using set_ind_L; intros Hdis.
  - assert (set_bind f (∅ : gset Z) = (∅ : gset Z)) as ->; [|by rewrite !gsum_empty].
    apply set_eq. intros z. rewrite elem_of_set_bind. set_solver.
  - rewrite gsum_insert by done. rewrite <- IH by set_solver.
    replace (set_bind f ({[x]} ∪ s)) with (f x ∪ set_bind f s).
    2:{ apply set_eq. intros z. rewrite elem_of_union, !elem_of_set_bind. set_solver. }
    apply gsum_union. intros z Hz (y & Hy & Hzy)%elem_of_set_bind.
    assert (y ∈ s) as Hys by done. assert (x ≠ y) by (intros ->; done).
    apply (Hdis x y) with z; set_solver.
Qed.

Lemma gsum_nonneg g s : (∀ x, x ∈ s → 0 <= g x) → 0 <= gsum g s.
Proof.
  induction s as [|x s Hx IH] using set_ind_L; intros Hg; [by rewrite gsum_empty|].
  rewrite gsum_insert by done. assert (0 <= g x) by (apply Hg; set_solver).
  assert (0 <= gsum g s) by (apply IH; intros; apply Hg; set_solver). lia.
Qed.

Lemma gsum_subseteq g s t : s ⊆ t → (∀ x, x ∈ t → 0 <= g x) → gsum g s <= gsum g t.
Proof.
  intros Hst Hg. rewrite (union_difference_L s t Hst), gsum_union by set_solver.
  assert (0 <= gsum g (t ∖ s)); [|lia]. apply gsum_nonneg. intros x Hx. apply Hg. set_solver.
Qed.

Lemma list_to_set_size_le (l : list Z) : (size (list_to_set l : gset Z) ≤ length l)%nat.
Proof.
  induction l as [|x l IH]; [done|]. rewrite list_to_set_cons. cbn [length].
  destruct (decide (x ∈ (list_to_set l : gset Z))).
  - replace ({[x]} ∪ list_to_set l) with (list_to_set l : gset Z) by set_solver. lia.
  - rewrite size_union, size_singleton by set_solver. lia.
Qed.

(** ** The iteration order of a set

    CPython's order depends on hashes and on insertion history.  [set_iter s]
    is the order in which a loop over [s] visits its elements: all that the
    language promises is that each element comes exactly once. *)
Class SetOrder : Type := {
  set_iter : gset Z → list Z;
  set_iter_elements : ∀ s, set_iter s ≡ₚ elements s;
}.

Section SetOrderLemmas.
Context `{SetOrder}.

Lemma elem_of_set_iter s x : x ∈ set_iter s ↔ x ∈ s.
Proof. rewrite set_iter_elements. apply elem_of_elements. Qed.

Lemma NoDup_set_iter s : NoDup (set_iter s).
Proof. rewrite set_iter_elements. apply NoDup_elements. Qed.

Lemma zsum_set_iter f s : zsum (f <$> set_iter s) = gsum f s.
Proof. unfold gsum. by rewrite set_iter_elements. Qed.
End SetOrderLemmas.

(** Two concrete orders, for evaluating the model. *)
Definition elements_order : SetOrder :=
  {| set_iter := λ s, elements s; set_iter_elements := λ s, reflexivity _ |}.

Lemma reverse_elements_perm (s : gset Z) : reverse (elements s) ≡ₚ elements s.
Proof. apply reverse_Permutation. Qed.

Definition reversed_order : SetOrder :=
  {| set_iter := λ s, reverse (elements s); set_iter_elements := reverse_elements_perm |}.

(** ** Sorting

    [list.sort] and [sorted] are stable: [py_sort le] puts an element before
    the first one it may precede, working from the right, so equal elements
    keep their order.  [le x y] is [key x <= key y], and [key y <= key x] for
    [reverse=True], which Python also keeps stable. *)
Section Sort.
Context {A : Type}.

Fixpoint py_insert (le : A → A → bool) (x : A) (l : list A) : list A :=
  match l with
  | [] => [x]
  | y :: l => if le x y then x :: y :: l else y :: py_insert le x l
  end.

Definition py_sort (le : A → A → bool) (l : list A) : list A := foldr (py_insert le) [] l.

Lemma py_insert_perm le x l : py_insert le x l ≡ₚ x :: l.
Proof.
  induction l as [|y l IH]; cbn; [done|].
  destruct (le x y); [done|]. rewrite IH. constructor.
Qed.

Lemma py_sort_perm le l : py_sort le l ≡ₚ l.
Proof. induction l as [|x l IH]; cbn; [done|]. by rewrite py_insert_perm, IH. Qed.

Lemma length_py_sort le l : length (py_sort le l) = length l.
Proof. by rewrite py_sort_perm. Qed.

(** An order that Python's comparison of keys gives: total and transitive. *)
Class KeyOrder (le : A → A → bool) : Prop := {
  key_total : ∀ x y, le x y = true ∨ le y x = true;
  key_trans : ∀ x y z, le x y = true → le y z = true → le x z = true;
}.

Context (le : A → A → bool) `{!KeyOrder le}.

Abbreviation sorted := (StronglySorted (λ x y, le x y = true)).

Lemma py_insert_sorted x l : sorted l → sorted (py_insert le x l).
Proof.
  induction 1 as [|y l Hl IH Hall]; cbn; [repeat constructor|].
  destruct (le x y) eqn:Hxy.
  - constructor; [by constructor|]. constructor; [done|].
    eapply Forall_impl; [exact Hall|]. intros z. by apply key_trans.
  - constructor; [done|]. rewrite (py_insert_perm le x l). constructor; [|done].
    destruct (key_total x y); congruence.
Qed.

Lemma py_sort_sorted l : sorted (py_sort le l).
Proof. induction l; cbn; [constructor|]. by apply py_insert_sorted. Qed.

(** Stability: the elements with equal keys keep their order. *)
Lemma py_insert_stable (P : A → Prop) `{∀ x, Decision (P x)} x l :
  (∀ y, P x → P y → le x y = true) →
  filter P (py_insert le x l) = filter P (x :: l).
Proof.
  intros HP. induction l as [|y l IH]; cbn [py_insert]; [done|].
  destruct (le x y) eqn:Hxy; [done|].
  rewrite filter_cons, IH, !filter_cons.
  do 2 case_decide; try done. by rewrite HP in Hxy.
Qed.

Lemma py_sort_stable (P : A → Prop) `{∀ x, Decision (P x)} l :
  (∀ x y, P x → P y → le x y = true) →
  filter P (py_sort le l) = filter P l.
Proof.
  intros HP. induction l as [|x l IH]; cbn [py_sort foldr]; [done|].
  change (foldr (py_insert le) [] l) with (py_sort le l).
  rewrite py_insert_stable by auto. rewrite !filter_cons, IH. done.
Qed.
End Sort.

Lemma StronglySorted_lookup {A} (R : A → A → Prop) l i j x y :
  StronglySorted R l → (i < j)%nat → l !! i = Some x → l !! j = Some y → R x y.
Proof.
  intros Hl. revert i j. induction Hl as [|z l Hl IH Hall]; intros i j Hij Hi Hj; [discriminate Hi|].
  destruct j as [|j]; [lia|]. cbn in Hj. destruct i as [|i].
  - injection Hi as <-. eapply Forall_lookup in Hall; eauto.
  - apply (IH i j); [lia|done|done].
Qed.

#[export] Instance KeyOrder_Zkey {A} (key : A → Z) : KeyOrder (λ x y, key x <=? key y).
Proof. split; intros; rewrite !Z.leb_le in *; lia. Qed.

#[export] Instance KeyOrder_Zkey_reverse {A} (key : A → Z) : KeyOrder (λ x y, key y <=? key x).
Proof. split; intros; rewrite !Z.leb_le in *; lia. Qed.
