(* ===== verification/Struct.v ===== *)
(** * Bytes and the [struct] module

    Big-endian integers, and the [struct.Struct("!...")] formats the code
    declares: a format is a list of codes, [pack] checks the range of every
    argument as [struct.error] does, [unpack] decodes exactly [calcsize]
    bytes. *)
From stdpp Require Import base tactics numbers list.
From Stdlib Require Import Strings.Byte.
From S2P Require Import Prelude PyData.

(** ** Bytes *)

Abbreviation bytes := (list byte).

Definition byte_val (b : byte) : Z := Z.of_N (Byte.to_N b).
Definition byte_of (z : Z) : byte := default x00 (Byte.of_N (Z.to_N (z mod 256))).

(** [len] of a bytes object *)
Definition blen {A} (bs : list A) : Z := Z.of_nat (length bs).

(** [xs[:n]] *)
Definition py_prefix {A} (n : Z) (xs : list A) : list A :=
  if 0 <=? n then take (Z.to_nat n) xs else take (Z.to_nat (blen xs + n)) xs.

#[export] Instance byte_eq_dec : EqDecision byte := Byte.byte_eq_dec.

Lemma byte_val_range b : 0 <= byte_val b < 256.
Proof.
  unfold byte_val. pose proof (Byte.to_N_bounded b). lia.
Qed.

Lemma byte_val_of z : byte_val (byte_of z) = z mod 256.
Proof.
  unfold byte_val, byte_of.
  pose proof (Z.mod_pos_bound z 256 ltac:(lia)) as Hr.
  destruct (Byte.of_N (Z.to_N (z mod 256))) as [b|] eqn:Hb; cbn.
  - apply Byte.to_of_N in Hb. rewrite Hb. lia.
  - apply Byte.of_N_None_iff in Hb. lia.
Qed.

Lemma byte_of_val b : byte_of (byte_val b) = b.
Proof.
  unfold byte_of. rewrite Z.mod_small by apply byte_val_range.
  unfold byte_val. rewrite N2Z.id, Byte.of_to_N. done.
Qed.

Lemma byte_val_inj b c : byte_val b = byte_val c → b = c.
Proof. intros H. by rewrite <- (byte_of_val b), H, byte_of_val. Qed.

Lemma blen_app {A} (l1 l2 : list A) : blen (l1 ++ l2) = blen l1 + blen l2.
Proof. unfold blen. rewrite length_app. lia. Qed.

Lemma blen_nonneg {A} (l : list A) : 0 <= blen l.
Proof. unfold blen. lia. Qed.

Lemma blen_cons {A} (x : A) l : blen (x :: l) = 1 + blen l.
Proof. unfold blen. cbn [length]. lia. Qed.

Lemma blen_nil {A} : blen (@nil A) = 0.
Proof. done. Qed.

#[export] Hint Resolve byte_val_range blen_nonneg : pydump.
#[export] Hint Rewrite @blen_app @blen_cons @blen_nil : pydump.

(** ** Big-endian integers *)

Lemma pow256_pos n : 0 <= n → 0 < 256 ^ n.
Proof. intros. by apply Z.pow_pos_nonneg. Qed.

Fixpoint be_encode (n : nat) (v : Z) : bytes :=
  match n with
  | O => []
  | S n => byte_of (v / 256 ^ Z.of_nat n) :: be_encode n v
  end.

Definition be_decode (bs : bytes) : Z := foldl (λ acc b, acc * 256 + byte_val b) 0 bs.

Lemma pow256_succ {A} (l : list A) : 256 ^ (1 + blen l) = 256 * 256 ^ blen l.
Proof. rewrite Z.pow_add_r by (pose proof (blen_nonneg l); lia). done. Qed.

Lemma length_be_encode n v : length (be_encode n v) = n.
Proof. induction n; cbn; congruence. Qed.

Lemma foldl_be acc bs :
  foldl (λ acc b, acc * 256 + byte_val b) acc bs = acc * 256 ^ blen bs + be_decode bs.
Proof.
  unfold be_decode. revert acc. induction bs as [|b bs IH]; intros acc; cbn [foldl].
  - rewrite blen_nil. lia.
  - rewrite (IH (acc * 256 + _)), (IH (0 * 256 + _)), blen_cons, pow256_succ. lia.
Qed.

Lemma be_decode_cons b bs : be_decode (b :: bs) = byte_val b * 256 ^ blen bs + be_decode bs.
Proof. unfold be_decode at 1. cbn [foldl]. by rewrite foldl_be. Qed.

Lemma be_decode_range bs : 0 <= be_decode bs < 256 ^ blen bs.
Proof.
  induction bs as [|b bs IH]; [done|].
  rewrite be_decode_cons, blen_cons, pow256_succ.
  pose proof (byte_val_range b). nia.
Qed.

Lemma be_decode_encode n v : be_decode (be_encode n v) = v mod 256 ^ Z.of_nat n.
Proof.
  induction n as [|n IH]; cbn [be_encode]; [by rewrite Z.mod_1_r|].
  rewrite be_decode_cons, IH, byte_val_of. unfold blen. rewrite length_be_encode.
  rewrite Nat2Z.inj_succ, (Z.pow_succ_r 256 (Z.of_nat n)) by lia.
  pose proof (pow256_pos (Z.of_nat n) ltac:(lia)).
  rewrite (Z.mul_comm 256), Z.rem_mul_r by lia. lia.
Qed.

(** Only the low [n] bytes matter. *)
Lemma be_encode_add n v w : be_encode n (w * 256 ^ Z.of_nat n + v) = be_encode n v.
Proof.
  revert w. induction n as [|n IH]; intros w; cbn [be_encode]; [done|].
  rewrite Nat2Z.inj_succ, (Z.pow_succ_r 256 (Z.of_nat n)) by lia.
  pose proof (pow256_pos (Z.of_nat n) ltac:(lia)).
  rewrite Z.mul_assoc, IH. f_equal. apply byte_val_inj. rewrite !byte_val_of.
  rewrite Z.div_add_l by lia. by rewrite Z.add_comm, Z.mod_add by lia.
Qed.

Lemma be_encode_decode bs : be_encode (length bs) (be_decode bs) = bs.
Proof.
  induction bs as [|b bs IH]; [done|].
  cbn [length be_encode]. rewrite be_decode_cons. fold (blen bs).
  pose proof (be_decode_range bs) as Hr.
  f_equal.
  - rewrite Z.div_add_l by lia. rewrite Z.div_small by lia.
    rewrite Z.add_0_r. apply byte_of_val.
  - unfold blen. by rewrite be_encode_add.
Qed.

(** ** Format strings *)

(** One format code: [?], [B], [h], [H], [i], [I], [Q] and [<n>s]. *)
Inductive fmt := Fbool | FB | Fh | FH | Fi | FI | FQ | Fs (n : nat).

Definition fmt_size (f : fmt) : nat :=
  match f with
  | Fbool | FB => 1
  | Fh | FH => 2
  | Fi | FI => 4
  | FQ => 8
  | Fs n => n
  end.

(** The Python value a code packs *)
Definition fmt_val (f : fmt) : Type :=
  match f with Fbool => bool | Fs _ => bytes | _ => Z end.

Definition pack_uint (n : nat) (v : Z) : option bytes :=
  if (0 <=? v) && (v <? 256 ^ Z.of_nat n) then Some (be_encode n v) else None.

Definition pack_sint (n : nat) (v : Z) : option bytes :=
  let half := 256 ^ Z.of_nat n / 2 in
  if (- half <=? v) && (v <? half) then Some (be_encode n v) else None.

Definition to_signed (n : nat) (u : Z) : Z :=
  if u <? 256 ^ Z.of_nat n / 2 then u else u - 256 ^ Z.of_nat n.

(** [s] truncates a longer argument and pads a shorter one with zeros. *)
Definition pack1 (f : fmt) : fmt_val f → option bytes :=
  match f with
  | Fbool => λ v, Some [if (v : bool) then x01 else x00]
  | FB => pack_uint 1
  | Fh => pack_sint 2
  | FH => pack_uint 2
  | Fi => pack_sint 4
  | FI => pack_uint 4
  | FQ => pack_uint 8
  | Fs n => λ v, Some (take n v ++ replicate (n - length v) x00)
  end.

Definition unpack1 (f : fmt) (bs : bytes) : fmt_val f :=
  match f with
  | Fbool => negb (be_decode bs =? 0)
  | FB | FH | FI | FQ => be_decode bs
  | Fh => to_signed 2 (be_decode bs)
  | Fi => to_signed 4 (be_decode bs)
  | Fs _ => bs
  end.

(** A [struct.Struct] object *)
Abbreviation format := (list fmt).

Fixpoint fmt_vals (fs : format) : Type :=
  match fs with [] => unit | f :: fs => (fmt_val f * fmt_vals fs)%type end.

Fixpoint calcsize (fs : format) : nat :=
  match fs with [] => O | f :: fs => (fmt_size f + calcsize fs)%nat end.

(** [Struct.pack(...)]; [None] is [struct.error] *)
Fixpoint pack (fs : format) : fmt_vals fs → option bytes :=
  match fs with
  | [] => λ _, Some []
  | f :: fs => λ '(v, vs), b ← pack1 f v; bs ← pack fs vs; Some (b ++ bs)
  end.

Fixpoint unpack_fields (fs : format) (bs : bytes) : fmt_vals fs :=
  match fs with
  | [] => tt
  | f :: fs => (unpack1 f (take (fmt_size f) bs), unpack_fields fs (drop (fmt_size f) bs))
  end.

(** [Struct.unpack(buffer)] *)
Definition unpack (fs : format) (bs : bytes) : option (fmt_vals fs) :=
  if decide (length bs = calcsize fs) then Some (unpack_fields fs bs) else None.

(** [Struct.unpack_from(buffer, offset)] *)
Definition unpack_from (fs : format) (bs : bytes) (offset : nat) : option (fmt_vals fs) :=
  if decide (offset + calcsize fs ≤ length bs)%nat
  then Some (unpack_fields fs (take (calcsize fs) (drop offset bs)))
  else None.

(** The arguments a format packs without loss *)
Definition fits1 (f : fmt) : fmt_val f → Prop :=
  match f with
  | Fbool => λ _, True
  | FB => λ v, 0 <= v < 2 ^ 8
  | Fh => λ v, - 2 ^ 15 <= v < 2 ^ 15
  | FH => λ v, 0 <= v < 2 ^ 16
  | Fi => λ v, - 2 ^ 31 <= v < 2 ^ 31
  | FI => λ v, 0 <= v < 2 ^ 32
  | FQ => λ v, 0 <= v < 2 ^ 64
  | Fs n => λ v, length v = n
  end.

Fixpoint fits (fs : format) : fmt_vals fs → Prop :=
  match fs with
  | [] => λ _, True
  | f :: fs => λ '(v, vs), fits1 f v ∧ fits fs vs
  end.

Lemma pack_uint_Some n v :
  0 <= v < 256 ^ Z.of_nat n →
  pack_uint n v = Some (be_encode n v) ∧ be_decode (be_encode n v) = v.
Proof.
  intros H. unfold pack_uint. split.
  - destruct (Z.leb_spec 0 v), (Z.ltb_spec v (256 ^ Z.of_nat n)); cbn; try done; lia.
  - rewrite be_decode_encode. by apply Z.mod_small.
Qed.

Lemma pack_uint_None n v : ¬ (0 <= v < 256 ^ Z.of_nat n) → pack_uint n v = None.
Proof.
  intros H. unfold pack_uint.
  destruct (Z.leb_spec 0 v), (Z.ltb_spec v (256 ^ Z.of_nat n)); cbn; try done; lia.
Qed.

Lemma pack_uint_inv n v bs :
  pack_uint n v = Some bs → 0 <= v < 256 ^ Z.of_nat n ∧ bs = be_encode n v.
Proof.
  unfold pack_uint.
  destruct (Z.leb_spec 0 v), (Z.ltb_spec v (256 ^ Z.of_nat n)); cbn; try done.
  by intros [= <-].
Qed.

Lemma pack_sint_Some n v h :
  256 ^ Z.of_nat n = 2 * h → - h <= v < h →
  pack_sint n v = Some (be_encode n v) ∧ to_signed n (be_decode (be_encode n v)) = v.
Proof.
  intros Hn H. unfold pack_sint, to_signed.
  rewrite be_decode_encode, Hn, (Z.mul_comm 2), Z.div_mul by lia. split.
  - destruct (Z.leb_spec (- h) v), (Z.ltb_spec v h); cbn; try done; lia.
  - destruct (decide (0 <= v)).
    + rewrite Z.mod_small by lia. destruct (Z.ltb_spec v h); lia.
    + replace (v mod (h * 2)) with (v + h * 2).
      * destruct (Z.ltb_spec (v + h * 2) h); lia.
      * rewrite <- (Z.mod_add v 1) by lia. rewrite Z.mod_small; lia.
Qed.

Lemma pack_sint_inv n v bs :
  pack_sint n v = Some bs → - (256 ^ Z.of_nat n / 2) <= v < 256 ^ Z.of_nat n / 2.
Proof.
  unfold pack_sint. set (h := 256 ^ Z.of_nat n / 2).
  destruct (Z.leb_spec (- h) v), (Z.ltb_spec v h); cbn; (done || lia).
Qed.

(** Packing one value that fits succeeds and decodes to that value. *)
Lemma unpack1_pack1 f v :
  fits1 f v → ∃ bs, pack1 f v = Some bs ∧ length bs = fmt_size f ∧ unpack1 f bs = v.
Proof.
  destruct f as [| | | | | | | n]; cbn [fits1 pack1 fmt_size unpack1]; intros H.
  - destruct v; eexists; repeat split; done.
  - destruct (pack_uint_Some 1 v) as [-> E]; [done|]. eauto using length_be_encode.
  - destruct (pack_sint_Some 2 v (2 ^ 15)) as [-> E]; [done..|]. eauto using length_be_encode.
  - destruct (pack_uint_Some 2 v) as [-> E]; [done|]. eauto using length_be_encode.
  - destruct (pack_sint_Some 4 v (2 ^ 31)) as [-> E]; [done..|]. eauto using length_be_encode.
  - destruct (pack_uint_Some 4 v) as [-> E]; [done|]. eauto using length_be_encode.
  - destruct (pack_uint_Some 8 v) as [-> E]; [done|]. eauto using length_be_encode.
  - cbn in v. subst n. rewrite Nat.sub_diag, take_ge, app_nil_r by lia. eauto.
Qed.

Lemma unpack_fields_pack fs vs :
  fits fs vs → ∃ bs, pack fs vs = Some bs ∧ length bs = calcsize fs ∧ unpack_fields fs bs = vs.
Proof.
  induction fs as [|f fs IH]; cbn [fits pack calcsize unpack_fields].
  - destruct vs. eauto.
  - destruct vs as [v vs]. intros [Hv Hvs].
    destruct (unpack1_pack1 f v Hv) as (b & -> & Hb & E).
    destruct (IH vs Hvs) as (bs & -> & Hbs & Es). cbn.
    exists (b ++ bs). split_and!; [done| rewrite length_app; lia |].
    by rewrite <- Hb, take_app_length, drop_app_length, E, Es.
Qed.

(** The round trip every codec below rests on. *)
Lemma unpack_pack fs vs :
  fits fs vs → ∃ bs, pack fs vs = Some bs ∧ length bs = calcsize fs ∧ unpack fs bs = Some vs.
Proof.
  intros (bs & Hp & Hl & Hu)%unpack_fields_pack. exists bs. unfold unpack.
  rewrite decide_True by done. by rewrite Hu.
Qed.

Lemma unpack_from_app fs vs bs pre post :
  fits fs vs → pack fs vs = Some bs →
  unpack_from fs (pre ++ bs ++ post) (length pre) = Some vs.
Proof.
  intros (bs' & Hp & Hl & Hu)%unpack_fields_pack Hp'. rewrite Hp in Hp'. injection Hp' as ->.
  unfold unpack_from. rewrite !length_app, Hl, decide_True by lia.
  rewrite drop_app_length. rewrite <- Hl, take_app_length. by rewrite Hu.
Qed.

Lemma unpack_Some fs bs vs : unpack fs bs = Some vs → length bs = calcsize fs.
Proof. unfold unpack. by case_decide. Qed.

(** Conversely decoding loses nothing, except which true byte a [?] was. *)
Lemma pack_uint_decode bs : pack_uint (length bs) (be_decode bs) = Some bs.
Proof.
  destruct (pack_uint_Some (length bs) (be_decode bs)) as [-> _].
  - apply be_decode_range.
  - by rewrite be_encode_decode.
Qed.

Lemma pack_sint_decode bs h :
  256 ^ blen bs = 2 * h → pack_sint (length bs) (to_signed (length bs) (be_decode bs)) = Some bs.
Proof.
  intros Hn. pose proof (be_decode_range bs) as Hr. rewrite Hn in Hr.
  assert (be_encode (length bs) (be_decode bs + -1 * 256 ^ blen bs) = bs) as Hneg.
  { rewrite Z.add_comm. unfold blen. by rewrite be_encode_add, be_encode_decode. }
  unfold to_signed. fold (blen bs). rewrite Hn in Hneg |- *.
  rewrite (Z.mul_comm 2), Z.div_mul by lia. destruct (Z.ltb_spec (be_decode bs) h).
  - rewrite (proj1 (pack_sint_Some _ (be_decode bs) h Hn ltac:(lia))). by rewrite be_encode_decode.
  - rewrite (proj1 (pack_sint_Some _ (be_decode bs - h * 2) h Hn ltac:(lia))).
    f_equal. rewrite <- Hneg at 3. f_equal. lia.
Qed.

Lemma pack1_unpack1 f bs :
  f ≠ Fbool → length bs = fmt_size f → pack1 f (unpack1 f bs) = Some bs.
Proof.
  intros Hf Hl. destruct f as [| | | | | | | n]; cbn in Hl |- *; try rewrite <- Hl.
  - done.
  - apply pack_uint_decode.
  - apply (pack_sint_decode bs (2 ^ 15)). unfold blen. by rewrite Hl.
  - apply pack_uint_decode.
  - apply (pack_sint_decode bs (2 ^ 31)). unfold blen. by rewrite Hl.
  - apply pack_uint_decode.
  - apply pack_uint_decode.
  - by rewrite Nat.sub_diag, take_ge, app_nil_r by lia.
Qed.

Lemma pack_unpack_fields fs bs :
  Forall (λ f, f ≠ Fbool) fs → length bs = calcsize fs → pack fs (unpack_fields fs bs) = Some bs.
Proof.
  intros Hfs. revert bs. induction Hfs as [|f fs Hf Hfs IH]; intros bs Hl; cbn in Hl |- *.
  - by destruct bs.
  - rewrite pack1_unpack1, IH; cbn; [by rewrite take_drop|..]; try done.
    + rewrite length_drop. lia.
    + rewrite length_take. lia.
Qed.

Lemma pack_unpack fs bs vs :
  Forall (λ f, f ≠ Fbool) fs → unpack fs bs = Some vs → pack fs vs = Some bs.
Proof.
  unfold unpack. intros ?. case_decide; [|done]. intros [= <-]. by apply pack_unpack_fields.
Qed.

Lemma pack_unpack_from fs bs offset vs :
  Forall (λ f, f ≠ Fbool) fs → unpack_from fs bs offset = Some vs →
  pack fs vs = Some (take (calcsize fs) (drop offset bs)).
Proof.
  unfold unpack_from. intros ?. case_decide; [|done]. intros [= <-].
  apply pack_unpack_fields; [done|]. rewrite length_take, length_drop. lia.
Qed.

Lemma to_signed_range n u h :
  256 ^ Z.of_nat n = 2 * h → 0 <= u < 2 * h → - h <= to_signed n u < h.
Proof.
  intros Hn Hu. unfold to_signed. rewrite Hn, (Z.mul_comm 2), Z.div_mul by lia.
  destruct (Z.ltb_spec u h); lia.
Qed.

Lemma fits_unpack1 f bs : length bs = fmt_size f → fits1 f (unpack1 f bs).
Proof.
  intros Hl. pose proof (be_decode_range bs) as Hr. unfold blen in Hr. rewrite Hl in Hr.
  destruct f.
  - exact I.
  - exact Hr.
  - by apply (to_signed_range 2 _ (2 ^ 15)).
  - exact Hr.
  - by apply (to_signed_range 4 _ (2 ^ 31)).
  - exact Hr.
  - exact Hr.
  - exact Hl.
Qed.

Lemma fits_unpack_fields fs bs : length bs = calcsize fs → fits fs (unpack_fields fs bs).
Proof.
  revert bs. induction fs as [|f fs IH]; intros bs Hl; cbn in Hl |- *; [done|]. split.
  - apply fits_unpack1. rewrite length_take. lia.
  - apply IH. rewrite length_drop. lia.
Qed.

Lemma unpack_fits fs bs vs : unpack fs bs = Some vs → fits fs vs.
Proof. unfold unpack. case_decide; [|done]. intros [= <-]. by apply fits_unpack_fields. Qed.

Lemma unpack_from_fits fs bs offset vs : unpack_from fs bs offset = Some vs → fits fs vs.
Proof.
  unfold unpack_from. case_decide; [|done]. intros [= <-]. apply fits_unpack_fields.
  rewrite length_take, length_drop. lia.
Qed.

Lemma unpack_from_is_Some fs bs offset :
  (offset + calcsize fs ≤ length bs)%nat → ∃ vs, unpack_from fs bs offset = Some vs.
Proof. intros. unfold unpack_from. rewrite decide_True by done. eauto. Qed.

(** Discharges [Forall (λ f, f ≠ Fbool) fs] for a literal format. *)
Ltac no_bool_format := repeat constructor; discriminate.

(** A [pack] that succeeds was given values in range, once its [s] arguments
    have the declared lengths. *)
Fixpoint exact_strings (fs : format) : fmt_vals fs → Prop :=
  match fs with
  | [] => λ _, True
  | f :: fs => λ '(v, vs),
      match f return fmt_val f → Prop with Fs n => λ v, length v = n | _ => λ _, True end v
      ∧ exact_strings fs vs
  end.

Lemma pack_fits fs vs bs : exact_strings fs vs → pack fs vs = Some bs → fits fs vs.
Proof.
  revert vs bs. induction fs as [|f fs IH]; intros vs bs; [done|].
  destruct vs as [v vs]. cbn [pack fits exact_strings]. intros [Hs Hss] H.
  destruct (pack1 f v) as [b|] eqn:Hp; [|done]. cbn [mbind option_bind] in H.
  destruct (pack fs vs) as [bs'|] eqn:Hps; [|done]. split; [|by eapply IH].
  destruct f; cbn [pack1] in Hp; try done.
  all: first [apply pack_uint_inv in Hp as [Hv _]; exact Hv
             | apply pack_sint_inv in Hp; exact Hp].
Qed.
