(* ===== verification/Text.v ===== *)
(** * Python strings and UTF-8 with [backslashreplace]

    A [str] is a list of code points.  Every text field of the wire protocol
    and of the artifact is written with [encode("utf-8", "backslashreplace")]
    and read with [decode("utf-8", "backslashreplace")]; some files of the target
    are read with [errors="replace"]. *)
From stdpp Require Import base tactics numbers list strings.
From Stdlib Require Import Strings.Byte Ascii.
From S2P Require Import Prelude PyData Struct.

Abbreviation str := (list Z).

(** A string literal of the source *)
Definition lit (s : string) : str :=
  (λ a, Z.of_N (N_of_ascii a)) <$> String.list_ascii_of_string s.

(** The code points a Python string may hold; surrogates are among them. *)
Definition is_code_point (c : Z) : bool := (0 <=? c) && (c <? 0x110000).
Definition is_surrogate (c : Z) : bool := (0xD800 <=? c) && (c <? 0xE000).

Definition str_wf (s : str) : Prop := Forall (λ c, is_code_point c = true) s.

(** What UTF-8 can represent: no lone surrogates. *)
Definition is_scalar (c : Z) : bool := is_code_point c && negb (is_surrogate c).
Definition str_scalar (s : str) : Prop := Forall (λ c, is_scalar c = true) s.

(** ** Hexadecimal digits *)

Definition hex_digit (d : Z) : Z := if d <? 10 then 48 + d else 87 + d.

(** The [n] low hexadecimal digits of [v], lower case *)
Fixpoint hex_fixed (n : nat) (v : Z) : str :=
  match n with
  | O => []
  | S n => hex_digit ((v / 16 ^ Z.of_nat n) mod 16) :: hex_fixed n v
  end.

(** ** Encoding *)

(** [\udXXX], the [backslashreplace] form of a surrogate *)
Definition escape_surrogate (c : Z) : str := lit "\u" ++ hex_fixed 4 c.

Definition utf8_code_point (c : Z) : bytes :=
  if c <? 0x80 then [byte_of c]
  else if c <? 0x800 then [byte_of (0xC0 + c / 64); byte_of (0x80 + c mod 64)]
  else if c <? 0x10000 then
    [byte_of (0xE0 + c / 4096); byte_of (0x80 + (c / 64) mod 64); byte_of (0x80 + c mod 64)]
  else
    [byte_of (0xF0 + c / 262144); byte_of (0x80 + (c / 4096) mod 64);
     byte_of (0x80 + (c / 64) mod 64); byte_of (0x80 + c mod 64)].

Definition encode_code_point (c : Z) : bytes :=
  if is_surrogate c then byte_of <$> escape_surrogate c else utf8_code_point c.

(** [value.encode("utf-8", "backslashreplace")] *)
Definition utf8_encode (s : str) : bytes := s ≫= encode_code_point.

(** ** Decoding *)

(** [\xNN], the [backslashreplace] form of an undecodable byte *)
Definition escape_byte (b : byte) : str := lit "\x" ++ hex_fixed 2 (byte_val b).

Definition is_cont (b : byte) : bool := (0x80 <=? byte_val b) && (byte_val b <? 0xC0).

(** Second bytes that make a three or four byte sequence well formed: no
    overlong forms, no surrogates, nothing above U+10FFFF. *)
Definition second_ok3 (b0 b1 : byte) : bool :=
  is_cont b1 &&
  (if byte_val b0 =? 0xE0 then 0xA0 <=? byte_val b1
   else if byte_val b0 =? 0xED then byte_val b1 <? 0xA0 else true).
Definition second_ok4 (b0 b1 : byte) : bool :=
  is_cont b1 &&
  (if byte_val b0 =? 0xF0 then 0x90 <=? byte_val b1
   else if byte_val b0 =? 0xF4 then byte_val b1 <? 0x90 else true).

Definition in_range (lo hi : Z) (b : byte) : bool := (lo <=? byte_val b) && (byte_val b <=? hi).

Definition low6 (b : byte) : Z := byte_val b - 0x80.

(** [bs.decode("utf-8", "backslashreplace")].  CPython replaces each byte of an
    ill-formed subsequence by its own escape, and the bytes after the first of
    such a subsequence are continuation bytes, which start nothing; so escaping
    one byte and going on with the next gives the same text. *)
Fixpoint utf8_decode (bs : bytes) : str :=
  match bs with
  | [] => []
  | b0 :: r0 =>
    let bad := λ _ : unit, escape_byte b0 ++ utf8_decode r0 in
    if byte_val b0 <? 0x80 then byte_val b0 :: utf8_decode r0
    else if in_range 0xC2 0xDF b0 then
      match r0 with
      | b1 :: r1 =>
        if is_cont b1 then ((byte_val b0 - 0xC0) * 64 + low6 b1) :: utf8_decode r1 else bad tt
      | [] => bad tt
      end
    else if in_range 0xE0 0xEF b0 then
      match r0 with
      | b1 :: b2 :: r2 =>
        if second_ok3 b0 b1 && is_cont b2
        then ((byte_val b0 - 0xE0) * 4096 + low6 b1 * 64 + low6 b2) :: utf8_decode r2 else bad tt
      | _ => bad tt
      end
    else if in_range 0xF0 0xF4 b0 then
      match r0 with
      | b1 :: b2 :: b3 :: r3 =>
        if second_ok4 b0 b1 && is_cont b2 && is_cont b3
        then ((byte_val b0 - 0xF0) * 262144 + low6 b1 * 4096 + low6 b2 * 64 + low6 b3)
               :: utf8_decode r3
        else bad tt
      | _ => bad tt
      end
    else bad tt
  end.

(** [bs.decode("utf-8", "replace")]: one replacement character for what could
    have begun a character, as far as it could. *)
Fixpoint utf8_decode_replace (bs : bytes) : str :=
  match bs with
  | [] => []
  | b0 :: r0 =>
    if byte_val b0 <? 0x80 then byte_val b0 :: utf8_decode_replace r0
    else if in_range 0xC2 0xDF b0 then
      match r0 with
      | b1 :: r1 =>
        if is_cont b1 then ((byte_val b0 - 0xC0) * 64 + low6 b1) :: utf8_decode_replace r1
        else 0xFFFD :: utf8_decode_replace r0
      | [] => [0xFFFD]
      end
    else if in_range 0xE0 0xEF b0 then
      match r0 with
      | b1 :: r1 =>
        if second_ok3 b0 b1 then
          match r1 with
          | b2 :: r2 =>
            if is_cont b2
            then ((byte_val b0 - 0xE0) * 4096 + low6 b1 * 64 + low6 b2) :: utf8_decode_replace r2
            else 0xFFFD :: utf8_decode_replace r1
          | [] => [0xFFFD]
          end
        else 0xFFFD :: utf8_decode_replace r0
      | [] => [0xFFFD]
      end
    else if in_range 0xF0 0xF4 b0 then
      match r0 with
      | b1 :: r1 =>
        if second_ok4 b0 b1 then
          match r1 with
          | b2 :: r2 =>
            if is_cont b2 then
              match r2 with
              | b3 :: r3 =>
                if is_cont b3
                then ((byte_val b0 - 0xF0) * 262144 + low6 b1 * 4096 + low6 b2 * 64 + low6 b3)
                       :: utf8_decode_replace r3
                else 0xFFFD :: utf8_decode_replace r2
              | [] => [0xFFFD]
              end
            else 0xFFFD :: utf8_decode_replace r1
          | [] => [0xFFFD]
          end
        else 0xFFFD :: utf8_decode_replace r0
      | [] => [0xFFFD]
      end
    else 0xFFFD :: utf8_decode_replace r0
  end.

Example utf8_decode_replace_example :
  utf8_decode_replace [x61; xf0; x9f; x98; x62; xff; xc3; xa9; xed; xa0; x80] =
  [0x61; 0xFFFD; 0x62; 0xFFFD; 0xE9; 0xFFFD; 0xFFFD; 0xFFFD].
Proof. reflexivity. Qed.

(** ** Lemmas *)

Lemma is_code_point_spec c : is_code_point c = true ↔ 0 <= c < 0x110000.
Proof. unfold is_code_point. rewrite andb_true_iff, Z.leb_le, Z.ltb_lt. done. Qed.

Lemma is_surrogate_spec c : is_surrogate c = true ↔ 0xD800 <= c < 0xE000.
Proof. unfold is_surrogate. rewrite andb_true_iff, Z.leb_le, Z.ltb_lt. done. Qed.

Lemma is_scalar_spec c :
  is_scalar c = true ↔ 0 <= c < 0x110000 ∧ ¬ (0xD800 <= c < 0xE000).
Proof.
  unfold is_scalar. rewrite andb_true_iff, negb_true_iff, is_code_point_spec.
  rewrite <- is_surrogate_spec. destruct (is_surrogate c); naive_solver.
Qed.

Ltac div_lia := try Z.div_mod_to_equations; lia.

(** Decides the comparisons of byte values the decoder makes, outermost test
    first, so that branches not taken disappear. *)
Ltac byte_test :=
  match goal with
  | |- (if ?t then _ else _) = _ =>
      match t with
      | context [Z.ltb ?a ?b] => destruct (Z.ltb_spec a b); try lia
      | context [Z.leb ?a ?b] => destruct (Z.leb_spec a b); try lia
      | context [Z.eqb ?a ?b] => destruct (Z.eqb_spec a b); try lia
      end; cbn [andb]
  end.

Lemma byte_val_of_small z : 0 <= z < 256 → byte_val (byte_of z) = z.
Proof. intros. rewrite byte_val_of. by apply Z.mod_small. Qed.

Ltac byte_vals :=
  repeat match goal with
  | |- context [byte_val (byte_of ?z)] =>
      rewrite (byte_val_of_small z) by lia
  end.

(** The base-64 digits of a code point *)
Lemma digits64 c :
  0 <= c →
  ∃ q, c / 64 = q ∧ 0 <= q ∧ 0 <= c mod 64 < 64 ∧ c = q * 64 + c mod 64.
Proof. intros. eexists. split; [done|]. div_lia. Qed.

Lemma div_4096 c : c / 4096 = c / 64 / 64.
Proof. by rewrite Z.div_div by lia. Qed.
Lemma div_262144 c : c / 262144 = c / 64 / 64 / 64.
Proof. by rewrite !Z.div_div by lia. Qed.

(** A scalar value decodes to itself whatever follows it. *)
Lemma utf8_decode_code_point c rest :
  is_scalar c = true → utf8_decode (utf8_code_point c ++ rest) = c :: utf8_decode rest.
Proof.
  rewrite is_scalar_spec. intros [Hc Hs]. unfold utf8_code_point.
  rewrite div_262144, div_4096.
  destruct (digits64 c) as (c1 & -> & H1 & Hm1 & E1); [lia|].
  destruct (digits64 c1) as (c2 & -> & H2 & Hm2 & E2); [lia|].
  destruct (digits64 c2) as (c3 & -> & H3 & Hm3 & E3); [lia|].
  generalize dependent (c mod 64). generalize dependent (c1 mod 64).
  generalize dependent (c2 mod 64). intros m2 Hm2 -> m1 Hm1 -> m0 Hm0 E.
  destruct (Z.ltb_spec c 0x80); [|destruct (Z.ltb_spec c 0x800);
    [|destruct (Z.ltb_spec c 0x10000)]]; cbn [app utf8_decode];
    unfold in_range, second_ok3, second_ok4, is_cont, low6; byte_vals;
    repeat byte_test; f_equal; lia.
Qed.

Lemma utf8_decode_ascii c rest :
  0 <= c < 0x80 → utf8_decode (byte_of c :: rest) = c :: utf8_decode rest.
Proof.
  intros H. rewrite <- (utf8_decode_code_point c) by (apply is_scalar_spec; lia).
  unfold utf8_code_point. destruct (Z.ltb_spec c 0x80); [done | lia].
Qed.

Lemma utf8_decode_ascii_list s rest :
  Forall (λ c, 0 <= c < 0x80) s → utf8_decode ((byte_of <$> s) ++ rest) = s ++ utf8_decode rest.
Proof.
  induction 1 as [|c s Hc Hs IH]; [done|].
  change ((byte_of <$> c :: s) ++ rest) with (byte_of c :: ((byte_of <$> s) ++ rest)).
  rewrite utf8_decode_ascii by done. by rewrite IH.
Qed.

Lemma hex_digit_ascii d : 0 <= d < 16 → 0 <= hex_digit d < 0x80.
Proof. intros. unfold hex_digit. destruct (Z.ltb_spec d 10); lia. Qed.

Lemma hex_fixed_ascii n v : Forall (λ c, 0 <= c < 0x80) (hex_fixed n v).
Proof.
  induction n; cbn [hex_fixed]; constructor; [|done].
  apply hex_digit_ascii, Z.mod_pos_bound. lia.
Qed.

Lemma escape_surrogate_ascii c : Forall (λ c, 0 <= c < 0x80) (escape_surrogate c).
Proof.
  unfold escape_surrogate. apply Forall_app. split; [|apply hex_fixed_ascii].
  cbn. repeat constructor; lia.
Qed.

(** The text a field reads back as: surrogates come back as their escapes. *)
Definition utf8_visible (s : str) : str :=
  s ≫= λ c, if is_surrogate c then escape_surrogate c else [c].

Lemma utf8_visible_cons c s :
  utf8_visible (c :: s) = (if is_surrogate c then escape_surrogate c else [c]) ++ utf8_visible s.
Proof. done. Qed.

Lemma utf8_encode_cons c s : utf8_encode (c :: s) = encode_code_point c ++ utf8_encode s.
Proof. done. Qed.

Lemma utf8_encode_app s1 s2 : utf8_encode (s1 ++ s2) = utf8_encode s1 ++ utf8_encode s2.
Proof. unfold utf8_encode. by rewrite bind_app. Qed.

Lemma utf8_decode_encode_app s rest :
  str_wf s → utf8_decode (utf8_encode s ++ rest) = utf8_visible s ++ utf8_decode rest.
Proof.
  induction 1 as [|c s Hc Hs IH]; [done|].
  rewrite utf8_encode_cons, utf8_visible_cons, <- !app_assoc, <- IH.
  unfold encode_code_point. destruct (is_surrogate c) eqn:Hsur.
  - apply utf8_decode_ascii_list, escape_surrogate_ascii.
  - apply utf8_decode_code_point.
    unfold is_scalar. by rewrite Hc, Hsur.
Qed.

Lemma utf8_visible_scalar s : str_scalar s → utf8_visible s = s.
Proof.
  induction 1 as [|c s Hc Hs IH]; [done|]. rewrite utf8_visible_cons, IH.
  apply is_scalar_spec in Hc as [_ Hc].
  destruct (is_surrogate c) eqn:H; [by apply is_surrogate_spec in H | done].
Qed.

Lemma str_scalar_wf s : str_scalar s → str_wf s.
Proof.
  intros H. eapply Forall_impl; [exact H|]. cbn. intros c.
  rewrite is_scalar_spec, is_code_point_spec. tauto.
Qed.

(** Text without surrogates survives the round trip unchanged. *)
Lemma utf8_decode_encode s : str_scalar s → utf8_decode (utf8_encode s) = s.
Proof.
  intros Hs. rewrite <- (app_nil_r (utf8_encode s)), utf8_decode_encode_app
    by (by apply str_scalar_wf).
  by rewrite utf8_visible_scalar, app_nil_r.
Qed.

Lemma lit_scalar (s : string) :
  forallb (λ a, N_of_ascii a <? 128)%N (String.list_ascii_of_string s) = true →
  str_scalar (lit s).
Proof.
  unfold lit. induction (String.list_ascii_of_string s) as [|a l IH]; cbn; [constructor|].
  intros [Ha Hl]%andb_true_iff. apply N.ltb_lt in Ha. constructor; [|by apply IH].
  apply is_scalar_spec. lia.
Qed.

Definition ascii (s : str) : Prop := Forall (λ c, 0 <= c < 0x80) s.

Lemma ascii_scalar s : ascii s → str_scalar s.
Proof. intros Hs. eapply Forall_impl; [exact Hs|]. intros c [? ?]. apply is_scalar_spec. lia. Qed.

Lemma str_scalar_app s t : str_scalar s → str_scalar t → str_scalar (s ++ t).
Proof. apply Forall_app_2. Qed.

Lemma escape_byte_scalar b : str_scalar (escape_byte b).
Proof. apply str_scalar_app; [by apply lit_scalar|apply ascii_scalar, hex_fixed_ascii]. Qed.

Lemma utf8_decode_scalar bs : str_scalar (utf8_decode bs).
Proof.
  remember (length bs) as n eqn:Hn. revert bs Hn. induction n as [n IH] using lt_wf_ind. intros bs ->.
  assert (∀ t, (length t < length bs)%nat → str_scalar (utf8_decode t)) as Ht by (intros; by eapply IH). clear IH.
  destruct bs as [|b0 r0]; [constructor|]. cbn [utf8_decode].
  assert (str_scalar (escape_byte b0 ++ utf8_decode r0)) as Hbad
    by (apply str_scalar_app; [apply escape_byte_scalar|apply Ht; cbn; lia]).
  pose proof (byte_val_range b0) as Hb0. unfold in_range.
  destruct (byte_val b0 <? 0x80) eqn:H1.
  { constructor; [apply is_scalar_spec; lia|apply Ht; cbn; lia]. }
  destruct ((0xC2 <=? byte_val b0) && (byte_val b0 <=? 0xDF)) eqn:H2.
  { destruct r0 as [|b1 r1]; [done|]. destruct (is_cont b1) eqn:Hc; [|done]. unfold is_cont, low6 in *.
    constructor; [apply is_scalar_spec; lia|apply Ht; cbn; lia]. }
  destruct ((0xE0 <=? byte_val b0) && (byte_val b0 <=? 0xEF)) eqn:H3.
  { destruct r0 as [|b1 [|b2 r2]]; [done..|]. destruct (second_ok3 b0 b1 && is_cont b2) eqn:Hc; [|done].
    unfold second_ok3, is_cont, low6 in *. constructor; [apply is_scalar_spec|apply Ht; cbn; lia].
    destruct (byte_val b0 =? 0xE0) eqn:E1, (byte_val b0 =? 0xED) eqn:E2; lia. }
  destruct ((0xF0 <=? byte_val b0) && (byte_val b0 <=? 0xF4)) eqn:H4; [|done].
  destruct r0 as [|b1 [|b2 [|b3 r3]]]; [done..|]. destruct (second_ok4 b0 b1 && is_cont b2 && is_cont b3) eqn:Hc; [|done].
  unfold second_ok4, is_cont, low6 in *. constructor; [apply is_scalar_spec|apply Ht; cbn; lia].
  destruct (byte_val b0 =? 0xF0) eqn:E1, (byte_val b0 =? 0xF4) eqn:E2; lia.
Qed.

(** ** Hexadecimal and decimal renderings used by messages and reports *)

(** [f"{v:x}"] of a non-negative integer: its digits, most significant first,
    without leading zeros. [fuel] bounds the number of digits. *)
Fixpoint digits (base : Z) (fuel : nat) (v : Z) (acc : str) : str :=
  match fuel with
  | O => acc
  | S fuel =>
    let acc := hex_digit (v mod base) :: acc in
    if v / base =? 0 then acc else digits base fuel (v / base) acc
  end.

Definition format_nat (base v : Z) : str := digits base (S (Z.to_nat (Z.log2 v))) v [].

(** [f"{v:x}"] *)
Definition hex_string (v : Z) : str := if v <? 0 then lit "-" ++ format_nat 16 (- v) else format_nat 16 v.
(** [str(v)] *)
Definition dec_string (v : Z) : str := if v <? 0 then lit "-" ++ format_nat 10 (- v) else format_nat 10 v.

Example hex_string_example : hex_string 0x2f00 = lit "2f00".
Proof. reflexivity. Qed.
Example dec_string_example : dec_string 1050 = lit "1050".
Proof. reflexivity. Qed.
Example utf8_decode_invalid :
  utf8_decode [x61; xff; xe2; x82] = lit "a\xff\xe2\x82".
Proof. reflexivity. Qed.

(** Numerals are distinct for distinct numbers: their value is found again. *)
Definition digit_value (c : Z) : Z := if c <? 58 then c - 48 else c - 87.

Lemma digit_value_hex d : 0 <= d < 16 → digit_value (hex_digit d) = d.
Proof. intros Hd. unfold hex_digit. destruct (Z.ltb_spec d 10); unfold digit_value; case_match; lia. Qed.

Lemma digits_value base fuel v acc :
  2 <= base <= 16 → 0 <= v < base ^ Z.of_nat fuel → (0 < fuel)%nat →
  foldl (λ n c, n * base + digit_value c) 0 (digits base fuel v acc)
  = foldl (λ n c, n * base + digit_value c) v acc.
Proof.
  intros Hb. revert v acc. induction fuel as [|fuel IH]; intros v acc Hv Hf; [lia|].
  cbn [digits]. pose proof (Z.div_mod v base ltac:(lia)) as Hdm.
  pose proof (Z.mod_pos_bound v base ltac:(lia)) as Hm.
  destruct (Z.eqb_spec (v / base) 0) as [E|E].
  - cbn [foldl]. rewrite digit_value_hex by lia. f_equal. lia.
  - rewrite Nat2Z.inj_succ, Z.pow_succ_r in Hv by lia.
    assert (v / base < base ^ Z.of_nat fuel) as Hlt by (apply Z.div_lt_upper_bound; lia).
    assert (0 < v / base) as Hpos by (pose proof (Z.div_pos v base ltac:(lia) ltac:(lia)); lia).
    rewrite IH; [|lia|destruct fuel; [cbn in Hlt; lia|lia]].
    cbn [foldl]. rewrite digit_value_hex by lia. f_equal. lia.
Qed.

Lemma format_nat_value base v :
  2 <= base <= 16 → 0 <= v → foldl (λ n c, n * base + digit_value c) 0 (format_nat base v) = v.
Proof.
  intros Hb Hv. unfold format_nat. rewrite digits_value; [done|done| |lia].
  split; [done|]. rewrite Nat2Z.inj_succ, Z2Nat.id by apply Z.log2_nonneg.
  destruct (decide (v = 0)) as [->|]; [cbn; lia|].
  apply (Z.lt_le_trans _ (2 ^ Z.succ (Z.log2 v))); [apply Z.log2_spec; lia|].
  apply Z.pow_le_mono_l. lia.
Qed.

Lemma dec_string_inj i j : 0 <= i → 0 <= j → dec_string i = dec_string j → i = j.
Proof.
  intros Hi Hj. unfold dec_string. rewrite !(proj2 (Z.ltb_ge _ _)) by done. intros E.
  rewrite <- (format_nat_value 10 i), <- (format_nat_value 10 j) by lia. by rewrite E.
Qed.

(** [bs.hex()], also [digest.hexdigest()] *)
Definition bytes_hex (bs : bytes) : str :=
  bs ≫= λ b, [hex_digit (byte_val b / 16); hex_digit (byte_val b mod 16)].

Lemma digits_ascii base fuel v acc : 0 < base <= 16 → ascii acc → ascii (digits base fuel v acc).
Proof.
  intros Hb. revert v acc. induction fuel as [|fuel IH]; intros v acc Hacc; cbn [digits]; [done|]. cbv zeta.
  assert (ascii (hex_digit (v mod base) :: acc)) as Hacc'.
  { constructor; [|done]. apply hex_digit_ascii. pose proof (Z.mod_pos_bound v base). lia. }
  case_match; [done|by apply IH].
Qed.

Lemma hex_string_scalar v : str_scalar (hex_string v).
Proof.
  assert (∀ w, str_scalar (format_nat 16 w)) as Hn by (intros w; apply ascii_scalar, digits_ascii; [lia|constructor]).
  unfold hex_string. case_match; [|done]. apply str_scalar_app; [by apply lit_scalar|done].
Qed.

Lemma bytes_hex_scalar bs : str_scalar (bytes_hex bs).
Proof.
  apply ascii_scalar. induction bs as [|b bs IH]; [constructor|]. pose proof (byte_val_range b).
  change (bytes_hex (b :: bs)) with ([hex_digit (byte_val b / 16); hex_digit (byte_val b mod 16)] ++ bytes_hex bs).
  pose proof (Z.mod_pos_bound (byte_val b) 16). pose proof (Z.div_mod (byte_val b) 16).
  constructor; [apply hex_digit_ascii; lia|]. constructor; [apply hex_digit_ascii; lia|exact IH].
Qed.

#[global] Arguments lit : simpl never.
#[global] Arguments utf8_encode : simpl never.
#[global] Arguments utf8_decode : simpl never.
#[global] Arguments hex_string : simpl never.
#[global] Arguments dec_string : simpl never.

(** ** Comparing and joining strings *)

(** Strings compare by code point, a proper prefix first. *)
Fixpoint str_leb (s t : str) : bool :=
  match s, t with
  | [], _ => true
  | _ :: _, [] => false
  | c :: s, d :: t => if c =? d then str_leb s t else c <? d
  end.

(** [sep.join(parts)] *)
Fixpoint join (sep : str) (parts : list str) : str :=
  match parts with
  | [] => []
  | [p] => p
  | p :: parts => p ++ sep ++ join sep parts
  end.

Lemma join_scalar sep parts : str_scalar sep → Forall str_scalar parts → str_scalar (join sep parts).
Proof.
  intros Hs. induction 1 as [|p parts Hp Hps IH]; [constructor|]. destruct parts as [|q parts]; [done|].
  change (join sep (p :: q :: parts)) with (p ++ sep ++ join sep (q :: parts)). by do 2 (apply str_scalar_app; [done|]).
Qed.

Lemma str_leb_refl s : str_leb s s = true.
Proof. induction s; cbn; [done|]. by rewrite Z.eqb_refl. Qed.

Lemma str_leb_total s t : str_leb s t = true ∨ str_leb t s = true.
Proof.
  revert t. induction s as [|c s IH]; intros [|d t]; cbn; auto.
  rewrite (Z.eqb_sym d c). destruct (Z.eqb_spec c d); [auto|].
  rewrite !Z.ltb_lt. lia.
Qed.

Lemma str_leb_trans s t u : str_leb s t = true → str_leb t u = true → str_leb s u = true.
Proof.
  revert t u. induction s as [|c s IH]; intros [|d t] [|e u]; cbn; try done.
  destruct (Z.eqb_spec c d) as [->|], (Z.eqb_spec d e) as [->|]; rewrite ?Z.ltb_lt; intros.
  - eauto.
  - done.
  - destruct (Z.eqb_spec c e); [done|]. by rewrite Z.ltb_lt.
  - destruct (Z.eqb_spec c e); [lia|]. rewrite Z.ltb_lt. lia.
Qed.

Lemma str_leb_antisym s t : str_leb s t = true → str_leb t s = true → s = t.
Proof.
  revert t. induction s as [|c s IH]; intros [|d t]; cbn; try done.
  rewrite (Z.eqb_sym d c). destruct (Z.eqb_spec c d) as [->|]; rewrite ?Z.ltb_lt.
  - intros. f_equal. auto.
  - lia.
Qed.

#[export] Instance KeyOrder_str {A} (key : A → str) : KeyOrder (λ x y, str_leb (key x) (key y)).
Proof.
  split; intros; [apply str_leb_total | by eapply str_leb_trans].
Qed.

(** ** Tuples as keys

    Tuples compare by their first components that differ. *)
Definition lex_Z {A} (key : A → Z) (rest : A → A → bool) (x y : A) : bool :=
  if key x =? key y then rest x y else key x <? key y.

Definition lex_str {A} (key : A → str) (rest : A → A → bool) (x y : A) : bool :=
  if bool_decide (key x = key y) then rest x y else str_leb (key x) (key y).

#[export] Instance KeyOrder_lex_Z {A} (key : A → Z) (rest : A → A → bool) :
  KeyOrder rest → KeyOrder (lex_Z key rest).
Proof.
  intros Hrest. unfold lex_Z. split.
  - intros x y. rewrite (Z.eqb_sym (key y)). destruct (Z.eqb_spec (key x) (key y)).
    + apply key_total.
    + rewrite !Z.ltb_lt. lia.
  - intros x y z. destruct (Z.eqb_spec (key x) (key y)) as [E|], (Z.eqb_spec (key y) (key z)) as [E'|].
    + rewrite E, E', Z.eqb_refl. apply key_trans.
    + intros _. rewrite E. by destruct (Z.eqb_spec (key y) (key z)).
    + intros Hlt _. rewrite <- E'. by destruct (Z.eqb_spec (key x) (key y)).
    + rewrite !Z.ltb_lt. intros. destruct (Z.eqb_spec (key x) (key z)); [lia|]. rewrite Z.ltb_lt. lia.
Qed.

#[export] Instance KeyOrder_lex_str {A} (key : A → str) (rest : A → A → bool) :
  KeyOrder rest → KeyOrder (lex_str key rest).
Proof.
  intros Hrest. unfold lex_str. split.
  - intros x y. destruct (decide (key x = key y)) as [E|].
    + rewrite !bool_decide_true by done. apply key_total.
    + rewrite !bool_decide_false by congruence. apply str_leb_total.
  - intros x y z. repeat case_bool_decide; try congruence.
    + apply key_trans.
    + intros Hxy Hyz. assert (key x = key y) by (apply str_leb_antisym; congruence). congruence.
    + apply str_leb_trans.
Qed.
