(* ===== verification/StrOps.v ===== *)
(** * Operations of Python strings

    White space, stripping, splitting, searching and replacing, [int] of a
    text and [repr], as the target inspection, the loaders, the cache and the
    command lines use them.  What depends on the Unicode character database
    outside ASCII is the [Unicode] interface. *)
From stdpp Require Import base tactics numbers list strings.
From Stdlib Require Import Strings.Byte.
From S2P Require Import Prelude PyData Struct Text.

(** The character database of the interpreter: decimal digits and printable
    characters differ between its versions. *)
Class Unicode : Type := {
  uni_decimal : Z → option Z;
  uni_printable : Z → bool;
}.

(** The ASCII part on its own, for evaluating the model *)
Definition ascii_only : Unicode := {| uni_decimal := λ _, None; uni_printable := λ _, false |}.

(** Text with [~] for the double quote *)
Definition quoted (s : string) : str := (λ c, if c =? 126 then 34 else c) <$> lit s.

(** ** White space *)

(** [str.isspace] of one character *)
Definition is_space (c : Z) : bool :=
  ((9 <=? c) && (c <=? 13)) || ((0x1C <=? c) && (c <=? 0x20)) || (c =? 0x85) || (c =? 0xA0)
  || (c =? 0x1680) || ((0x2000 <=? c) && (c <=? 0x200A)) || (c =? 0x2028) || (c =? 0x2029)
  || (c =? 0x202F) || (c =? 0x205F) || (c =? 0x3000).

(** The white space [int] skips *)
Definition is_c_space (c : Z) : bool := (c =? 32) || ((9 <=? c) && (c <=? 13)).

(** Where [splitlines] ends a line *)
Definition is_line_break (c : Z) : bool :=
  ((10 <=? c) && (c <=? 13)) || ((0x1C <=? c) && (c <=? 0x1E)) || (c =? 0x85) || (c =? 0x2028) || (c =? 0x2029).

Definition is_digit (c : Z) : bool := (48 <=? c) && (c <=? 57).
Definition is_ascii (c : Z) : bool := (0 <=? c) && (c <? 0x80).

Fixpoint drop_while (P : Z → bool) (s : str) : str :=
  match s with c :: s' => if P c then drop_while P s' else s | [] => [] end.

Fixpoint take_while (P : Z → bool) (s : str) : str :=
  match s with c :: s' => if P c then c :: take_while P s' else [] | [] => [] end.

Definition strip_by (P : Z → bool) (s : str) : str := reverse (drop_while P (reverse (drop_while P s))).

(** [s.strip()] *)
Definition strip (s : str) : str := strip_by is_space s.

(** [s.lstrip(c)] *)
Definition lstrip_char (c : Z) (s : str) : str := drop_while (λ d, d =? c) s.

(** ** Searching *)

(** [s.startswith(p)] *)
Fixpoint starts_with (p s : str) : bool :=
  match p, s with
  | [], _ => true
  | c :: p, d :: s => (c =? d) && starts_with p s
  | _ :: _, [] => false
  end.

(** [p in s] *)
Fixpoint contains (p s : str) : bool :=
  starts_with p s || match s with _ :: s => contains p s | [] => false end.

(** [s.replace(old, new)], for [old] of length [S k]: occurrences from the left,
    each skipped once replaced *)
Fixpoint replace_from (old new : str) (skip : nat) (s : str) : str :=
  match s with
  | [] => []
  | c :: s' =>
      match skip with
      | S k => replace_from old new k s'
      | O => if starts_with old s then new ++ replace_from old new (length old - 1) s'
             else c :: replace_from old new 0 s'
      end
  end.

Definition replace (old new s : str) : str := replace_from old new 0 s.

(** ** Splitting *)

(** [s.split(maxsplit=n)]: words, the last one with whatever white space
    follows it when the splits are used up *)
Fixpoint split_words (n : nat) (fuel : nat) (s : str) : list str :=
  match fuel, drop_while is_space s with
  | _, [] => []
  | O, _ => []
  | S fuel, s =>
      match n with
      | O => [s]
      | S n => take_while (negb ∘ is_space) s :: split_words n fuel (drop_while (negb ∘ is_space) s)
      end
  end.

Definition split_max (n : nat) (s : str) : list str := split_words n (S n) s.

(** [s.split()] *)
Definition split (s : str) : list str := split_words (length s) (S (length s)) s.

(** The lines of a text between the characters that end one; ["\r\n"] is one
    end. [line] is the current line, backwards. *)
Fixpoint splitlines_from (line : str) (s : str) : list str :=
  match s with
  | [] => match line with [] => [] | _ => [reverse line] end
  | c :: s' =>
      if is_line_break c then
        match s' with
        | d :: s'' => if (c =? 13) && (d =? 10) then reverse line :: splitlines_from [] s''
                      else reverse line :: splitlines_from [] s'
        | [] => [reverse line]
        end
      else splitlines_from (c :: line) s'
  end.

(** [s.splitlines()] *)
Definition splitlines (s : str) : list str := splitlines_from [] s.

(** What text mode makes of line ends *)
Fixpoint universal_newlines (s : str) : str :=
  match s with
  | [] => []
  | c :: s' =>
      if c =? 13 then
        10 :: match s' with d :: s'' => if d =? 10 then universal_newlines s'' else universal_newlines s' | [] => [] end
      else c :: universal_newlines s'
  end.

(** [for line in file]: each line with its ["\n"], the last one perhaps without *)
Fixpoint file_lines_from (line : str) (s : str) : list str :=
  match s with
  | [] => match line with [] => [] | _ => [reverse line] end
  | c :: s' => if c =? 10 then reverse (c :: line) :: file_lines_from [] s' else file_lines_from (c :: line) s'
  end.

Definition file_lines (s : str) : list str := file_lines_from [] s.

(** [s.split(c)] for a single character *)
Fixpoint split_char_from (c : Z) (part : str) (s : str) : list str :=
  match s with
  | [] => [reverse part]
  | d :: s => if d =? c then reverse part :: split_char_from c [] s else split_char_from c (d :: part) s
  end.

Definition split_char (c : Z) (s : str) : list str := split_char_from c [] s.

(** The components of a path; empty ones and ["."] do not count. *)
Definition path_parts (s : str) : list str :=
  filter (λ part, part ≠ [] ∧ part ≠ lit ".") (split_char 0x2F s).

(** [Path(s).name] *)
Definition path_name (s : str) : str := default [] (last (path_parts s)).

(** The slashes a path starts with: two, and no more, stay two. *)
Definition path_root (s : str) : str :=
  if starts_with (lit "///") s then lit "/"
  else if starts_with (lit "//") s then lit "//"
  else if starts_with (lit "/") s then lit "/" else [].

(** [str(Path(s))] *)
Definition path_text (s : str) : str :=
  match path_root s ++ join (lit "/") (path_parts s) with [] => lit "." | text => text end.

(** ** Strict UTF-8

    [bytes.decode("utf-8")]: [None] is [UnicodeDecodeError].  What the lenient
    decoder had to escape does not encode to the same bytes again. *)
Definition utf8_decode_strict (bs : bytes) : option str :=
  let s := utf8_decode bs in if bool_decide (utf8_encode s = bs) then Some s else None.

(** ** [int] of a text *)

(** Digits, with single underscores between them *)
Fixpoint int_digits (acc : Z) (s : str) : option Z :=
  match s with
  | [] => Some acc
  | c :: s' =>
      if is_digit c then int_digits (acc * 10 + (c - 48)) s'
      else if c =? 0x5F then
        match s' with
        | d :: s'' => if is_digit d then int_digits (acc * 10 + (d - 48)) s'' else None
        | [] => None
        end
      else None
  end.

Definition int_unsigned (s : str) : option Z :=
  match s with c :: s' => if is_digit c then int_digits (c - 48) s' else None | [] => None end.

(** In a text that is not ASCII, other decimal digits and white space count. *)
Definition to_ascii `{Unicode} (c : Z) : Z :=
  if c <? 0x7F then c
  else if is_space c then 32
  else match uni_decimal c with Some d => 48 + d | None => 0x3F end.

(** [int(text)]; [None] is [ValueError] *)
Definition int_of_str `{Unicode} (s : str) : option Z :=
  let s := if forallb is_ascii s then s else to_ascii <$> s in
  match strip_by is_c_space s with
  | c :: s' => if c =? 0x2D then Z.opp <$> int_unsigned s'
               else if c =? 0x2B then int_unsigned s' else int_unsigned (c :: s')
  | [] => None
  end.

(** ** [repr] of a string *)

Definition repr_char `{Unicode} (quote : Z) (c : Z) : str :=
  if c =? 0x5C then lit "\\"
  else if c =? quote then [0x5C; c]
  else if c =? 9 then lit "\t"
  else if c =? 10 then lit "\n"
  else if c =? 13 then lit "\r"
  else if c <? 0x7F then if 0x20 <=? c then [c] else lit "\x" ++ hex_fixed 2 c
  else if (0x7F <? c) && uni_printable c then [c]
  else if c <? 0x100 then lit "\x" ++ hex_fixed 2 c
  else if c <? 0x10000 then lit "\u" ++ hex_fixed 4 c
  else lit "\U" ++ hex_fixed 8 c.

Definition repr_str `{Unicode} (s : str) : str :=
  let single := existsb (λ c, c =? 0x27) s in
  let double := existsb (λ c, c =? 0x22) s in
  let quote := if single && negb double then 0x22 else 0x27 in
  [quote] ++ (s ≫= repr_char quote) ++ [quote].

(** ** Numerals are read back *)

Lemma hex_digit_dec d : 0 <= d < 10 → is_digit (hex_digit d) = true ∧ hex_digit d - 48 = d.
Proof. intros Hd. unfold hex_digit, is_digit. destruct (Z.ltb_spec d 10); [|lia]. lia. Qed.

Lemma digits_dec fuel v acc :
  0 <= v → Forall (λ c, is_digit c = true) acc → Forall (λ c, is_digit c = true) (digits 10 fuel v acc).
Proof.
  revert v acc. induction fuel as [|fuel IH]; intros v acc Hv Ha; cbn [digits]; [done|].
  pose proof (Z.mod_pos_bound v 10 ltac:(lia)) as Hm.
  assert (Forall (λ c, is_digit c = true) (hex_digit (v mod 10) :: acc)) as Hacc
    by (constructor; [by apply hex_digit_dec|done]).
  destruct (v / 10 =? 0); [done|]. apply IH; [by apply Z.div_pos|done].
Qed.

Lemma digits_nonempty base fuel v acc : (0 < fuel)%nat ∨ acc ≠ [] → digits base fuel v acc ≠ [].
Proof.
  revert v acc. induction fuel as [|fuel IH]; intros v acc Hf; cbn [digits]; [by destruct Hf; [lia|]|].
  destruct (_ =? 0); [done|]. apply IH. by right.
Qed.

Lemma int_digits_value acc s :
  Forall (λ c, is_digit c = true) s → int_digits acc s = Some (foldl (λ n c, n * 10 + digit_value c) acc s).
Proof.
  intros Hs. revert acc. induction Hs as [|c s Hc Hs IH]; intros acc; [done|]. cbn [int_digits foldl].
  rewrite Hc, IH. do 2 f_equal. unfold is_digit, digit_value in *. destruct (Z.ltb_spec c 58); lia.
Qed.

Lemma int_unsigned_value s :
  s ≠ [] → Forall (λ c, is_digit c = true) s → int_unsigned s = Some (foldl (λ n c, n * 10 + digit_value c) 0 s).
Proof.
  intros Hne Hs. destruct s as [|c s]; [done|]. inversion Hs as [|? ? Hc Hs']; subst. cbn [int_unsigned].
  rewrite Hc, int_digits_value by done. cbn [foldl]. do 2 f_equal.
  unfold is_digit, digit_value in *. destruct (Z.ltb_spec c 58); lia.
Qed.

Lemma format_nat_digits v : 0 <= v → Forall (λ c, is_digit c = true) (format_nat 10 v) ∧ format_nat 10 v ≠ [].
Proof. intros Hv. split; [by apply digits_dec|]. apply digits_nonempty. left. lia. Qed.

Lemma int_unsigned_format v : 0 <= v → int_unsigned (format_nat 10 v) = Some v.
Proof.
  intros Hv. destruct (format_nat_digits v Hv) as [Hd Hne].
  by rewrite int_unsigned_value, format_nat_value by (done || lia).
Qed.

Lemma drop_while_id P c s : P c = false → drop_while P (c :: s) = c :: s.
Proof. intros Hc. cbn. by rewrite Hc. Qed.

(** Text without the characters to strip stays as it is. *)
Lemma strip_by_id P s : Forall (λ c, P c = false) s → strip_by P s = s.
Proof.
  intros Hs. unfold strip_by. destruct s as [|c s]; [done|].
  inversion Hs as [|? ? Hc Hs']; subst. rewrite drop_while_id by done.
  destruct (reverse (c :: s)) as [|d r] eqn:Hr.
  - by apply (f_equal length) in Hr; rewrite length_reverse in Hr.
  - rewrite drop_while_id, <- Hr; [apply reverse_involutive|].
    assert (d ∈ reverse (c :: s)) as Hd by (rewrite Hr; by left). rewrite elem_of_reverse in Hd.
    exact (proj1 (Forall_forall _ _) Hs d Hd).
Qed.

Lemma digit_not_space c : is_digit c = true → is_c_space c = false.
Proof. unfold is_digit, is_c_space. lia. Qed.

(** ** Prefixes *)

Lemma starts_with_app p s : starts_with p s = true ↔ ∃ t, s = p ++ t.
Proof.
  revert s. induction p as [|c p IH]; intros s; cbn; [split; [by exists s|done]|].
  destruct s as [|d s]; [split; [done|by intros [t Ht]]|]. rewrite andb_true_iff, Z.eqb_eq, IH. split.
  - intros [-> [t ->]]. by exists t.
  - intros [t [= -> ->]]. split; [done|by exists t].
Qed.

Lemma starts_with_prefix (u v : str) : starts_with u (u ++ v) = true.
Proof. apply starts_with_app. by exists v. Qed.

(** ** ASCII text *)

Lemma lit_ascii (s : string) :
  forallb (λ a, Ascii.N_of_ascii a <? 128)%N (String.list_ascii_of_string s) = true → ascii (lit s).
Proof.
  unfold lit. induction (String.list_ascii_of_string s) as [|a l IH]; cbn; [constructor|].
  intros [Ha Hl]%andb_true_iff. apply N.ltb_lt in Ha. constructor; [lia|by apply IH].
Qed.

Lemma digit_ascii c : is_digit c = true → 0 <= c < 0x80.
Proof. unfold is_digit. lia. Qed.

Lemma dec_string_ascii v : ascii (dec_string v).
Proof.
  assert (∀ w, 0 <= w → ascii (format_nat 10 w)) as Hn.
  { intros w Hw. eapply Forall_impl; [apply (format_nat_digits w Hw)|]. apply digit_ascii. }
  unfold dec_string. destruct (Z.ltb_spec v 0); [|by apply Hn].
  apply Forall_app. split; [by apply lit_ascii|apply Hn; lia].
Qed.

Lemma ascii_forallb s : ascii s → forallb is_ascii s = true.
Proof.
  intros Hs. induction Hs as [|c s Hc Hs IH]; [done|].
  cbn. rewrite IH. unfold is_ascii. lia.
Qed.

Lemma int_of_dec_string `{Unicode} v : int_of_str (dec_string v) = Some v.
Proof.
  unfold int_of_str. rewrite (ascii_forallb _ (dec_string_ascii v)). unfold dec_string.
  destruct (Z.ltb_spec v 0) as [Hv|Hv].
  - destruct (format_nat_digits (- v) ltac:(lia)) as [Hd Hne]. rewrite strip_by_id.
    + change (lit "-" ++ format_nat 10 (- v)) with (0x2D :: format_nat 10 (- v)). cbv iota.
      change (0x2D =? 0x2D) with true. cbv iota. rewrite int_unsigned_format by lia. cbn. f_equal. lia.
    + change (lit "-" ++ format_nat 10 (- v)) with (0x2D :: format_nat 10 (- v)).
      constructor; [done|]. eapply Forall_impl; [exact Hd|]. apply digit_not_space.
  - destruct (format_nat_digits v Hv) as [Hd Hne].
    rewrite strip_by_id; [|eapply Forall_impl; [exact Hd|apply digit_not_space]].
    pose proof (int_unsigned_format v Hv) as Hi. destruct (format_nat 10 v) as [|c s]; [done|].
    inversion Hd as [|? ? Hc _]; subst.
    destruct (Z.eqb_spec c 0x2D) as [->|]; [done|]. by destruct (Z.eqb_spec c 0x2B) as [->|].
Qed.

(** ** Examples *)

Example strip_example : strip (lit "  a b" ++ [0xA0; 10]) = lit "a b".
Proof. reflexivity. Qed.
Example split_max_example :
  split_max 5 (lit "7f-80 r-xp 0 08:01 42     /usr/lib/a b.so ") =
  [lit "7f-80"; lit "r-xp"; lit "0"; lit "08:01"; lit "42"; lit "/usr/lib/a b.so "].
Proof. reflexivity. Qed.
Example split_example : split (lit "Uid: 0	1  2 ") = [lit "Uid:"; lit "0"; lit "1"; lit "2"].
Proof. reflexivity. Qed.
Example splitlines_example : splitlines (lit "a" ++ [13; 10] ++ lit "b" ++ [11; 10] ++ lit "c") = [lit "a"; lit "b"; []; lit "c"].
Proof. reflexivity. Qed.
Example file_lines_example : file_lines (universal_newlines ([65; 13; 10; 13; 66])) = [[65; 10]; [10]; [66]].
Proof. reflexivity. Qed.
Example replace_example : replace (lit "aa") (lit "b") (lit "aaaxaa") = lit "baxb".
Proof. reflexivity. Qed.
Example path_name_example : path_name (lit "/usr/bin/./python3.11/") = lit "python3.11".
Proof. reflexivity. Qed.
Example path_text_example : path_text (lit "/usr//bin/./gdb/") = lit "/usr/bin/gdb" ∧ path_text [] = lit ".".
Proof. split; reflexivity. Qed.
Example repr_example : @repr_str ascii_only (lit "it's") = [0x22] ++ lit "it's" ++ [0x22].
Proof. reflexivity. Qed.
Example strict_example : utf8_decode_strict [x61; xff] = None ∧ utf8_decode_strict [xc3; xa9] = Some [0xE9].
Proof. split; reflexivity. Qed.
