(* ===== verification/Floats.v ===== *)
(** * Floating-point numbers

    Python's [float]: the IEEE doubles as integers times powers of two, with
    arithmetic rounded to nearest, ties to even; their text in the formats the
    sources use ([.2f], [,.0f], [.1f], [g]); and [float] of a text. *)
From stdpp Require Import base tactics numbers list strings.
From S2P Require Import Prelude PyData Struct Text StrOps.

(** [Finite negative mantissa exponent], with a mantissa that is not negative, is
    plus or minus [mantissa * 2 ^ exponent]; there are two zeros. *)
Inductive float :=
| Finite (negative : bool) (mantissa exponent : Z)
| Infinity (negative : bool)
| NaN.

(** ** Rounding *)

(** The integer nearest to [num / den], ties to even *)
Definition round_half_even (num den : Z) : Z :=
  let q := num / den in
  let r := 2 * (num mod den) in
  if r <? den then q else if den <? r then q + 1 else if Z.even q then q else q + 1.

(** [num / den * 2 ^ (- e)] as a quotient of integers *)
Definition scaled (num den e : Z) : Z * Z := (num * 2 ^ Z.max 0 (- e), den * 2 ^ Z.max 0 e).

(** The exponent of the doubles around [num / den], both positive *)
Definition binade (num den : Z) : Z :=
  let e := Z.log2 num - Z.log2 den - 53 in
  let '(n, d) := scaled num den e in
  Z.max (if n / d <? 2 ^ 53 then e else e + 1) (-1074).

(** The double nearest to [num / den], with a sign *)
Definition round_quotient (negative : bool) (num den : Z) : float :=
  if num =? 0 then Finite negative 0 0
  else
    let e := binade num den in
    let '(n, d) := scaled num den e in
    let m := round_half_even n d in
    if Z.log2 m + e <? 1024 then Finite negative m e else Infinity negative.

(** [float(f"{mantissa}e{exponent}")], with a sign *)
Definition float_of_decimal (negative : bool) (mantissa exponent : Z) : float :=
  round_quotient negative (mantissa * 10 ^ Z.max 0 exponent) (10 ^ Z.max 0 (- exponent)).

Example float_rounds : float_of_decimal false 90071992547409930 (-1) = Finite false 4503599627370496 1.
Proof. vm_compute. reflexivity. Qed.
Example float_half : float_of_decimal false 15 (-1) = Finite false 6755399441055744 (-52).
Proof. vm_compute. reflexivity. Qed.
Example float_overflow :
  float_of_decimal false 1 309 = Infinity false ∧
  float_of_decimal true 17976931348623157 292 = Finite true 9007199254740991 971.
Proof. split; vm_compute; reflexivity. Qed.
Example float_tiny :
  float_of_decimal false 5 (-324) = Finite false 1 (-1074) ∧ float_of_decimal false 2 (-324) = Finite false 0 (-1074).
Proof. split; vm_compute; reflexivity. Qed.

(** ** Arithmetic *)

Definition float_of_Z (n : Z) : float := round_quotient (n <? 0) (Z.abs n) 1.

(** The double nearest to [n * 2 ^ e]; [zero] is the sign of a zero. *)
Definition float_of_dyadic (zero : bool) (n e : Z) : float :=
  round_quotient (if n =? 0 then zero else n <? 0) (Z.abs n * 2 ^ Z.max 0 e) (2 ^ Z.max 0 (- e)).

Definition signed (negative : bool) (m : Z) : Z := if negative then - m else m.

(** [x + y] *)
Definition float_add (x y : float) : float :=
  match x, y with
  | Finite s m e, Finite t n f =>
      let k := Z.min e f in
      float_of_dyadic (s && t) (signed s m * 2 ^ (e - k) + signed t n * 2 ^ (f - k)) k
  | Infinity s, Infinity t => if Bool.eqb s t then Infinity s else NaN
  | Infinity s, Finite _ _ _ | Finite _ _ _, Infinity s => Infinity s
  | NaN, _ | _, NaN => NaN
  end.

Definition float_opp (x : float) : float :=
  match x with Finite s m e => Finite (negb s) m e | Infinity s => Infinity (negb s) | NaN => NaN end.

(** [x - y] *)
Definition float_sub (x y : float) : float := float_add x (float_opp y).

(** [x * y] *)
Definition float_mul (x y : float) : float :=
  match x, y with
  | Finite s m e, Finite t n f =>
      float_of_dyadic (xorb s t) (signed (xorb s t) (m * n)) (e + f)
  | Infinity s, Infinity t => Infinity (xorb s t)
  | Infinity s, Finite t n _ | Finite t n _, Infinity s => if n =? 0 then NaN else Infinity (xorb s t)
  | NaN, _ | _, NaN => NaN
  end.

(** [x / y], for [y] other than zero *)
Definition float_div (x y : float) : float :=
  match x, y with
  | Finite s m e, Finite t n f =>
      round_quotient (xorb s t) (m * 2 ^ Z.max 0 (e - f)) (n * 2 ^ Z.max 0 (f - e))
  | Finite s _ _, Infinity t => Finite (xorb s t) 0 0
  | Infinity s, Finite t _ _ => Infinity (xorb s t)
  | Infinity _, Infinity _ | NaN, _ | _, NaN => NaN
  end.

(** [bool(x)] *)
Definition float_true (x : float) : bool :=
  match x with Finite _ m _ => negb (m =? 0) | _ => true end.

(** ** Text *)

Definition sign_text (negative : bool) : str := if negative then lit "-" else [].

(** [n] in at least [width] digits *)
Definition zero_pad (width : nat) (n : Z) : str :=
  let s := dec_string n in replicate (width - length s) 48 ++ s.

(** A comma in front of every third digit from the end *)
Fixpoint comma_groups (s : str) : str :=
  match s with
  | [] => []
  | c :: s' =>
      let rest := comma_groups s' in
      if (length s' mod 3 =? 0)%nat && negb (bool_decide (s' = [])) then c :: lit "," ++ rest else c :: rest
  end.

(** [f"{n:,}"] of an integer *)
Definition grouped (n : Z) : str := sign_text (n <? 0) ++ comma_groups (dec_string (Z.abs n)).

(** [num / den] to [d] digits after the point, with [show] for the integer part *)
Definition fixed_digits (show : Z → str) (d : nat) (num den : Z) : str :=
  let q := round_half_even (num * 10 ^ Z.of_nat d) den in
  show (q / 10 ^ Z.of_nat d) ++ match d with O => [] | _ => lit "." ++ zero_pad d (q mod 10 ^ Z.of_nat d) end.

Definition format_with (show : Z → str) (d : nat) (x : float) : str :=
  match x with
  | Finite s m e => sign_text s ++ fixed_digits show d (m * 2 ^ Z.max 0 e) (2 ^ Z.max 0 (- e))
  | Infinity s => sign_text s ++ lit "inf"
  | NaN => lit "nan"
  end.

(** [f"{x:.<d>f}"] and [f"{x:,.<d>f}"] *)
Definition format_fixed : nat → float → str := format_with dec_string.
Definition format_grouped : nat → float → str := format_with grouped.

(** The decimal exponent of [num / den], both positive: the [k] with
    [10 ^ k <= num / den < 10 ^ (k + 1)] *)
Definition decimal_exponent (num den : Z) : Z :=
  if den <=? num then blen (dec_string (num / den)) - 1
  else - blen (dec_string ((den - 1) / num)).

Fixpoint drop_zeros (s : str) : str :=
  match s with
  | [] => []
  | c :: s' => match drop_zeros s' with [] => if c =? 48 then [] else [c] | r => c :: r end
  end.

(** An integer part and the digits after the point, without the zeros at the end *)
Definition with_fraction (whole fraction : str) : str :=
  whole ++ match drop_zeros fraction with [] => [] | digits => lit "." ++ digits end.

(** [num / den] in the format [g]: six significant digits *)
Definition general_digits (num den : Z) : str :=
  let k := decimal_exponent num den in
  let q := round_half_even (num * 10 ^ Z.max 0 (5 - k)) (den * 10 ^ Z.max 0 (k - 5)) in
  let '(q, k) := if q =? 10 ^ 6 then (10 ^ 5, k + 1) else (q, k) in
  let digits := dec_string q in
  if (k <? -4) || (6 <=? k) then
    with_fraction (take 1 digits) (drop 1 digits) ++ lit "e" ++ (if k <? 0 then lit "-" else lit "+")
    ++ zero_pad 2 (Z.abs k)
  else if k <? 0 then with_fraction (lit "0") (replicate (Z.to_nat (- k - 1)) 48 ++ digits)
  else with_fraction (take (Z.to_nat (k + 1)) digits) (drop (Z.to_nat (k + 1)) digits).

(** [f"{x:g}"] *)
Definition format_general (x : float) : str :=
  match x with
  | Finite s m e =>
      sign_text s ++ if m =? 0 then lit "0" else general_digits (m * 2 ^ Z.max 0 e) (2 ^ Z.max 0 (- e))
  | Infinity s => sign_text s ++ lit "inf"
  | NaN => lit "nan"
  end.

(** ** [float] of a text *)

(** The text without its underscores, which may only stand between two digits;
    [digit]: the character before was one *)
Fixpoint drop_underscores (digit : bool) (s : str) : option str :=
  match s with
  | [] => Some []
  | c :: s' =>
      if c =? 0x5F then
        if digit && match s' with d :: _ => is_digit d | [] => false end then drop_underscores false s' else None
      else (c ::.) <$> drop_underscores (is_digit c) s'
  end.

Definition lower (c : Z) : Z := if (65 <=? c) && (c <=? 90) then c + 32 else c.

Definition digits_value_of (ds : str) : Z := foldl (λ n c, n * 10 + (c - 48)) 0 ds.

(** [[eE][-+]?[0-9]+], or nothing, up to the end *)
Definition exponent_of (s : str) : option Z :=
  match s with
  | [] => Some 0
  | c :: s =>
      if lower c =? 101 then
        let '(sign, s) := match s with
                          | c :: s' => if c =? 0x2D then (-1, s') else if c =? 0x2B then (1, s') else (1, s)
                          | [] => (1, s)
                          end in
        if bool_decide (s ≠ []) && forallb is_digit s then Some (sign * digits_value_of s) else None
      else None
  end.

Definition unsigned_float (negative : bool) (s : str) : option float :=
  let word := lower <$> s in
  if bool_decide (word = lit "inf") || bool_decide (word = lit "infinity") then Some (Infinity negative)
  else if bool_decide (word = lit "nan") then Some NaN
  else
    let whole := take_while is_digit s in
    let s := drop_while is_digit s in
    let '(fraction, s) := match s with
                          | c :: s' => if c =? 0x2E then (take_while is_digit s', drop_while is_digit s') else ([], s)
                          | [] => ([], s)
                          end in
    if bool_decide (whole ++ fraction = []) then None
    else e ← exponent_of s; Some (float_of_decimal negative (digits_value_of (whole ++ fraction)) (e - blen fraction)).

(** [float(text)]; [None] is [ValueError] *)
Definition float_of_str `{Unicode} (s : str) : option float :=
  let s := if forallb is_ascii s then s else to_ascii <$> s in
  s ← drop_underscores false (strip_by is_c_space s);
  match s with
  | c :: s' => if c =? 0x2D then unsigned_float true s'
               else if c =? 0x2B then unsigned_float false s' else unsigned_float false s
  | [] => None
  end.

(** ** Checked against CPython *)

Example float_text_examples :
  (format_fixed 2 (float_of_decimal false 125 (-3)), format_fixed 2 (Finite true 0 0), format_fixed 1 (float_of_decimal false 9995 (-2)),
   format_grouped 0 (float_of_decimal false 12345678 (-1)), format_grouped 0 (Infinity true), grouped (-1234567))
  = (lit "0.12", lit "-0.00", lit "100.0", lit "1,234,568", lit "-inf", lit "-1,234,567").
Proof. vm_compute. reflexivity. Qed.
Example float_general_examples :
  map format_general
    [Finite false 30 0; Finite true 0 0; float_of_decimal false 9999995 (-1); float_of_decimal false 12345678 (-11);
     float_of_decimal false 1 (-5); float_of_decimal false 1 100; float_of_decimal false 999999 0; float_of_decimal true 25 (-1)]
  = map lit ["30"; "-0"; "1e+06"; "0.000123457"; "1e-05"; "1e+100"; "999999"; "-2.5"]%string.
Proof. vm_compute. reflexivity. Qed.
Example float_of_str_examples :
  map (@float_of_str ascii_only) (map lit [" 1_0.5e1 "; "-.5E+0"; "Infinity"; "-nan"; "5."]%string)
  = [Some (float_of_decimal false 105 0); Some (float_of_decimal true 5 (-1)); Some (Infinity false); Some NaN;
     Some (float_of_decimal false 5 0)] ∧
  forallb (λ s, negb (bool_decide (is_Some (@float_of_str ascii_only (lit s)))))
    [""; "."; "e5"; "1e"; "1e_1"; "1__0"; "_1"; "1_"; "1._5"; "infin"; "0x1"; "1 2"; "+-1"; "1.5.2"]%string = true.
Proof. split; vm_compute; reflexivity. Qed.
Example float_arithmetic_examples :
  float_sub (float_of_decimal false 3 (-1)) (float_of_decimal false 2 (-1)) = Finite false 7205759403792792 (-56) ∧
  float_div (float_of_Z 1) (float_of_Z 3) = float_of_decimal false 33333333333333331 (-17) ∧
  float_mul (float_of_decimal false 1 (-1)) (float_of_Z 3) = float_of_decimal false 30000000000000004 (-17) ∧
  float_sub (Infinity false) (Infinity false) = NaN.
Proof. vm_compute. auto. Qed.

(** ** The clock *)

(** [time.monotonic()] when the clock stands at [t] nanoseconds *)
Definition clock_seconds (t : Z) : float :=
  if t mod 1000000000 =? 0 then float_of_Z (t / 1000000000) else float_div (float_of_Z t) (float_of_Z 1000000000).

(** The difference of two such readings *)
Definition seconds_between (from to : Z) : float := float_sub (clock_seconds to) (clock_seconds from).

(** A number of seconds in nanoseconds, rounded away from zero, as the interpreter
    converts timeouts *)
Definition nanoseconds (x : float) : Z :=
  match float_mul x (float_of_Z 1000000000) with
  | Finite s m e => signed s (if 0 <=? e then m * 2 ^ e else - (- m / 2 ^ (- e)))
  | _ => 0
  end.

Example clock_examples :
  format_fixed 2 (seconds_between 5000000000 12345678901) = lit "7.35" ∧ nanoseconds (float_of_decimal false 25 (-1)) = 2500000000 ∧
  nanoseconds (float_of_decimal true 1 (-12)) = -1 ∧ clock_seconds 3000000000 = float_of_Z 3.
Proof. vm_compute. auto. Qed.
