(* ===== verification/Paths.v ===== *)
(** * Paths and files

    A path is its directory and its last component; the files are the regular
    ones that exist, with their contents. *)
From stdpp Require Import base tactics numbers list gmap strings.
From S2P Require Import Prelude PyData Struct Text StrOps.

Abbreviation Path := (str * str)%type.
Abbreviation Files := (gmap Path bytes).

(** [str(path)]; the directory of a relative name is empty. *)
Definition path_str (p : Path) : str :=
  match p with
  | ([], []) => lit "."
  | (directory, name) =>
      match last directory with
      | Some c => if c =? 0x2F then directory ++ name else directory ++ lit "/" ++ name
      | None => name
      end
  end.

(** [Path(s)] *)
Definition path_of (s : str) : Path :=
  (path_root s ++ join (lit "/") (removelast (path_parts s)), path_name s).

(** ** A path's text *)

Lemma split_char_free c part s p : p ∈ split_char_from c part s → c ∉ part → c ∉ p.
Proof.
  revert part. induction s as [|d s IH]; intros part; cbn [split_char_from].
  - intros ->%list_elem_of_singleton Hc. by rewrite elem_of_reverse.
  - destruct (Z.eqb_spec d c) as [->|Hd].
    + intros [->|Hp]%elem_of_cons Hc; [by rewrite elem_of_reverse|]. by apply (IH [] Hp), not_elem_of_nil.
    + intros Hp Hc. apply (IH _ Hp). by apply not_elem_of_cons.
Qed.

Lemma path_parts_wf s : Forall (λ p, p ≠ [] ∧ 0x2F ∉ p) (path_parts s).
Proof.
  apply Forall_forall. intros p [[Hne _] Hp]%list_elem_of_filter. split; [done|].
  by apply (split_char_free _ _ _ _ Hp), not_elem_of_nil.
Qed.

Lemma join_snoc sep ps p : ps ≠ [] → join sep (ps ++ [p]) = join sep ps ++ sep ++ p.
Proof.
  induction ps as [|q ps IH]; [done|]. intros _. destruct ps as [|r ps]; [done|].
  change ((q :: r :: ps) ++ [p]) with (q :: (r :: ps) ++ [p]).
  change (join sep (q :: (r :: ps) ++ [p])) with (q ++ sep ++ join sep ((r :: ps) ++ [p])).
  rewrite IH by done. change (join sep (q :: r :: ps)) with (q ++ sep ++ join sep (r :: ps)).
  by rewrite <- !app_assoc.
Qed.

(** Directories end with their last component. *)
Lemma join_last ps : ps ≠ [] → Forall (λ p, p ≠ [] ∧ 0x2F ∉ p) ps →
  ∃ c, last (join (lit "/") ps) = Some c ∧ c ≠ 0x2F.
Proof.
  intros Hne Hps. destruct (exists_last Hne) as (ds & p & ->).
  apply Forall_app in Hps as [_ Hp]. apply Forall_singleton in Hp as [Hp Hfree].
  assert (∃ c, last p = Some c ∧ c ≠ 0x2F) as (c & Hc & Hslash).
  { destruct (exists_last Hp) as (q & c & ->). exists c. rewrite last_snoc. split; [done|].
    intros ->. apply Hfree, elem_of_app. right. by apply list_elem_of_singleton. }
  exists c. split; [|done]. destruct ds as [|d ds]; [done|].
  rewrite join_snoc by done. by rewrite !last_app, Hc.
Qed.

Lemma path_str_of s : path_str (path_of s) = path_text s.
Proof.
  unfold path_of, path_text, path_name. pose proof (path_parts_wf s) as Hps.
  assert (path_root s = [] ∨ ∃ r, path_root s = r ++ [0x2F]) as Hroot.
  { unfold path_root. destruct (starts_with (lit "///") s); [right; by exists []|].
    destruct (starts_with (lit "//") s); [right; by exists [0x2F]|].
    destruct (starts_with (lit "/") s); [right; by exists []|by left]. }
  destruct (path_parts s) as [|p0 ps0].
  { cbn [last removelast default join]. rewrite app_nil_r. destruct Hroot as [->|[r ->]]; [done|].
    cbn [default from_option]. unfold path_str. destruct (r ++ [0x2F]) as [|c d] eqn:E; [by destruct r|].
    rewrite <- E, last_snoc. by rewrite Z.eqb_refl, app_nil_r. }
  destruct (exists_last (l := p0 :: ps0)) as (ds & p & E); [done|]. rewrite E in *. rewrite last_snoc, removelast_last.
  cbn [default from_option]. apply Forall_app in Hps as [Hds Hp]. apply Forall_singleton in Hp as [Hp _].
  destruct ds as [|d ds].
  - cbn [app join]. rewrite app_nil_r. destruct Hroot as [->|[r ->]].
    + unfold path_str. destruct p; [done|]. done.
    + unfold path_str. rewrite last_snoc, Z.eqb_refl. destruct (r ++ [0x2F]) eqn:E2; [by destruct r|]. done.
  - destruct (join_last (d :: ds)) as (c & Hc & Hslash); [done|done|].
    rewrite join_snoc by done. set (dir := join (lit "/") (d :: ds)) in *.
    rewrite app_assoc. assert (last (path_root s ++ dir) = Some c) as Hl by (by rewrite last_app, Hc).
    unfold path_str. rewrite Hl. destruct (path_root s ++ dir); [done|]. by destruct (Z.eqb_spec c 0x2F).
Qed.

Lemma path_str_in directory name c :
  last directory = Some c → c ≠ 0x2F → path_str (directory, name) = directory ++ lit "/" ++ name.
Proof.
  intros Hl Hc. unfold path_str. rewrite Hl. destruct directory; [done|]. by destruct (Z.eqb_spec c 0x2F).
Qed.

Example path_examples :
  map path_of (map lit ["heap.pyheap"; "/tmp//x/./a"; "//a"; "."; "/"; "b/"]%string)
  = [([], lit "heap.pyheap"); (lit "/tmp/x", lit "a"); (lit "//", lit "a"); ([], []); (lit "/", []); ([], lit "b")].
Proof. vm_compute. reflexivity. Qed.
