(* ===== verification/Digest.v ===== *)
(** * Message digests

    [hashlib.sha256] and [hashlib.sha1] as the report, the cache and the Agent
    installation use them: the digest of a whole file, in hexadecimal.  Words
    are integers below [2 ^ 32]; feeding a file in blocks gives the digest of
    its bytes. *)
From stdpp Require Import base tactics numbers list strings.
From Stdlib Require Import Strings.Byte.
From S2P Require Import Prelude PyData Struct Text.

Definition word (x : Z) : Z := x mod 2 ^ 32.
Definition rotr (n x : Z) : Z := Z.lor (Z.shiftr x n) (word (Z.shiftl x (32 - n))).
Definition rotl (n x : Z) : Z := rotr (32 - n) x.
Definition wnot (x : Z) : Z := Z.lxor x 0xFFFFFFFF.

(** Padding to whole blocks of 64 bytes: a one bit, zeros, the bit length *)
Definition pad (bs : bytes) : bytes :=
  bs ++ [x80] ++ replicate (Z.to_nat ((55 - blen bs) mod 64)) x00 ++ be_encode 8 (8 * blen bs).

(** [n] big-endian words *)
Fixpoint words (n : nat) (bs : bytes) : list Z :=
  match n with O => [] | S n => be_decode (take 4 bs) :: words n (drop 4 bs) end.

(** The bytes of a list of words *)
Definition word_bytes (ws : list Z) : bytes := ws ≫= be_encode 4.

(** The blocks of a padded message, folded into the state *)
Fixpoint blocks {A} (n : nat) (step : A → list Z → A) (state : A) (bs : bytes) : A :=
  match n with O => state | S n => blocks n step (step state (words 16 (take 64 bs))) (drop 64 bs) end.

Definition digest (step : list Z → list Z → list Z) (initial : list Z) (bs : bytes) : bytes :=
  let padded := pad bs in
  word_bytes (blocks (length padded / 64) step initial padded).

(** ** SHA-256 *)

(** The first 64 primes by trial division *)
Definition small_primes : list Z :=
  filter (λ p, forallb (λ d, bool_decide (p `mod` d ≠ 0)) (seqZ 2 (Z.sqrt p - 1)) = true) (seqZ 2 310).

(** The largest [r + x] with [x < 2^n] whose cube is at most [v] *)
Fixpoint cube_root (n : nat) (v r : Z) : Z :=
  match n with
  | O => r
  | S n =>
      let r' := r + 2 ^ Z.of_nat n in
      cube_root n v (if r' * r' * r' <=? v then r' else r)
  end.

(** The constants are the first 32 bits of the fractional parts of the cube roots (and, for the
    initial state, the square roots) of the first primes *)
Definition sha256_k : list Z := Eval vm_compute in
  map (λ p, word (cube_root 36 (p * 2 ^ 96) 0)) small_primes.

Definition sha256_initial : list Z := Eval vm_compute in
  map (λ p, word (Z.sqrt (p * 2 ^ 64))) (take 8 small_primes).

(** The message schedule, newest word first *)
Fixpoint sha256_schedule (n : nat) (w : list Z) : list Z :=
  match n with
  | O => w
  | S n =>
      let at_ := λ i, nth i w 0 in
      let s0 := Z.lxor (Z.lxor (rotr 7 (at_ 14%nat)) (rotr 18 (at_ 14%nat))) (Z.shiftr (at_ 14%nat) 3) in
      let s1 := Z.lxor (Z.lxor (rotr 17 (at_ 1%nat)) (rotr 19 (at_ 1%nat))) (Z.shiftr (at_ 1%nat) 10) in
      sha256_schedule n (word (at_ 15%nat + s0 + at_ 6%nat + s1) :: w)
  end.

Definition sha256_round (state : list Z) (kw : Z * Z) : list Z :=
  match state with
  | [a; b; c; d; e; f; g; h] =>
      let s1 := Z.lxor (Z.lxor (rotr 6 e) (rotr 11 e)) (rotr 25 e) in
      let ch := Z.lxor (Z.land e f) (Z.land (wnot e) g) in
      let t1 := h + s1 + ch + kw.1 + kw.2 in
      let s0 := Z.lxor (Z.lxor (rotr 2 a) (rotr 13 a)) (rotr 22 a) in
      let maj := Z.lxor (Z.lxor (Z.land a b) (Z.land a c)) (Z.land b c) in
      [word (t1 + s0 + maj); a; b; c; word (d + t1); e; f; g]
  | _ => state
  end.

Definition sha256_block (state : list Z) (block : list Z) : list Z :=
  let w := reverse (sha256_schedule 48 (reverse block)) in
  zip_with (λ x y, word (x + y)) state (foldl sha256_round state (zip sha256_k w)).

Definition sha256 (bs : bytes) : bytes := digest sha256_block sha256_initial bs.

(** ** SHA-1 *)

Definition sha1_initial : list Z := [0x67452301; 0xefcdab89; 0x98badcfe; 0x10325476; 0xc3d2e1f0].

Fixpoint sha1_schedule (n : nat) (w : list Z) : list Z :=
  match n with
  | O => w
  | S n =>
      let at_ := λ i, nth i w 0 in
      sha1_schedule n
        (rotl 1 (Z.lxor (Z.lxor (at_ 2%nat) (at_ 7%nat)) (Z.lxor (at_ 13%nat) (at_ 15%nat))) :: w)
  end.

Definition sha1_round (state : list Z) (tw : nat * Z) : list Z :=
  match state with
  | [a; b; c; d; e] =>
      let '(f, k) :=
        if (tw.1 <? 20)%nat then (Z.lor (Z.land b c) (Z.land (wnot b) d), 0x5a827999)
        else if (tw.1 <? 40)%nat then (Z.lxor (Z.lxor b c) d, 0x6ed9eba1)
        else if (tw.1 <? 60)%nat
        then (Z.lor (Z.lor (Z.land b c) (Z.land b d)) (Z.land c d), 0x8f1bbcdc)
        else (Z.lxor (Z.lxor b c) d, 0xca62c1d6) in
      [word (rotl 5 a + f + e + k + tw.2); a; rotl 30 b; c; d]
  | _ => state
  end.

Definition sha1_block (state : list Z) (block : list Z) : list Z :=
  let w := reverse (sha1_schedule 64 (reverse block)) in
  zip_with (λ x y, word (x + y)) state (foldl sha1_round state (zip (seq 0 80) w)).

Definition sha1 (bs : bytes) : bytes := digest sha1_block sha1_initial bs.

(** The standard's examples *)
Example sha256_abc :
  bytes_hex (sha256 [x61; x62; x63])
  = lit "ba7816bf8f01cfea414140de5dae2223b00361a396177a9cb410ff61f20015ad".
Proof. vm_compute. reflexivity. Qed.
Example sha256_empty :
  bytes_hex (sha256 []) = lit "e3b0c44298fc1c149afbf4c8996fb92427ae41e4649b934ca495991b7852b855".
Proof. vm_compute. reflexivity. Qed.
Example sha1_abc :
  bytes_hex (sha1 [x61; x62; x63]) = lit "a9993e364706816aba3e25717850c26c9cd0d89d".
Proof. vm_compute. reflexivity. Qed.
