(* ===== verification/Errors.v ===== *)
(** * Exceptions

    [pydump/errors.py] and the built-in exceptions the code raises or lets
    through, with the message text the code formats. *)
From stdpp Require Import base tactics numbers list strings.
From Stdlib Require Import Strings.Byte Ascii.
From S2P Require Import Prelude PyData Struct Text.

(** [PydumpError] is raised by the capture side; [ProtocolError] is its
    subclass; [HeapFormatError] is the analyzer's, a subclass of [ValueError].
    The remaining ones are Python's. [OutOfFuel] is no Python exception: it
    marks a loop of the model that was cut off, and the theorems exclude it. *)
Inductive exc : Type :=
| PydumpError (msg : str)
| ProtocolError (msg : str)
| HeapFormatError (msg : str)
| ValueError (msg : str)
| KeyError
| IndexError
| StructError
| OSError (msg : str)
| FileExistsError
| PermissionError (msg : str)
| TypeError
| AttributeError
| OverflowError
| UnicodeDecodeError
| TimeoutExpired (msg : str)
| ArgumentTypeError (msg : str)
| KeyboardInterrupt
| RecursionError
| OutOfFuel.

(** How deep the interpreter lets calls nest before it raises [RecursionError]:
    calls of [_string_representation], and the arrays and objects of [json.load].
    A single call is possible, and so are the documents the program itself
    writes, at most seven deep. *)
Class Interpreter := {
  rendering_depth : nat;
  json_depth : nat;
  rendering_some : (0 < rendering_depth)%nat;
  json_depth_enough : (16 <= json_depth)%nat;
}.

(** About what a limit of 1000 frames leaves *)
Definition default_limits : Interpreter :=
  {| rendering_depth := 490; json_depth := 990;
     rendering_some := proj1 (Nat.ltb_lt 0 490) eq_refl; json_depth_enough := proj1 (Nat.leb_le 16 990) eq_refl |}.

(** [except PydumpError] *)
Definition is_PydumpError (e : exc) : bool :=
  match e with PydumpError _ | ProtocolError _ => true | _ => false end.

(** [except ValueError] *)
Definition is_ValueError (e : exc) : bool :=
  match e with HeapFormatError _ | ValueError _ | UnicodeDecodeError => true | _ => false end.

(** [except OSError] *)
Definition is_OSError (e : exc) : bool :=
  match e with OSError _ | FileExistsError | PermissionError _ => true | _ => false end.

(** [str(error)] of the errors whose text the code shows *)
Definition exc_text (e : exc) : str :=
  match e with
  | PydumpError m | ProtocolError m | HeapFormatError m | ValueError m | OSError m | PermissionError m
  | TimeoutExpired m | ArgumentTypeError m => m
  | FileExistsError => lit "File exists"
  | _ => []
  end.

(** A [struct] call: [None] is [struct.error]. *)
Definition or_struct_error {A} (o : option A) : result exc A :=
  match o with Some a => Ok a | None => Err StructError end.

(** A subscript [d[k]]: [None] is [KeyError]. *)
Definition or_key_error {A} (o : option A) : result exc A :=
  match o with Some a => Ok a | None => Err KeyError end.

(** [int(text)]: [None] is [ValueError]. *)
Definition or_value_error {A} (o : option A) : result exc A :=
  match o with Some a => Ok a | None => Err (ValueError (lit "invalid literal for int() with base 10")) end.

(** [repr] of a bytes object, for [{magic!r}] *)
Definition repr_byte (quote : Z) (b : byte) : str :=
  let v := byte_val b in
  if v =? 0x5C then lit "\\"
  else if v =? quote then [0x5C; v]
  else if v =? 9 then lit "\t"
  else if v =? 10 then lit "\n"
  else if v =? 13 then lit "\r"
  else if (0x20 <=? v) && (v <? 0x7F) then [v]
  else escape_byte b.

Definition repr_bytes (bs : bytes) : str :=
  let single := existsb (λ b, byte_val b =? 0x27) bs in
  let double := existsb (λ b, byte_val b =? 0x22) bs in
  let quote := if single && negb double then 0x22 else 0x27 in
  lit "b" ++ [quote] ++ (bs ≫= repr_byte quote) ++ [quote].

Lemma or_key_error_Ok {A} (o : option A) a : or_key_error o = Ok a ↔ o = Some a.
Proof. destruct o; cbn; split; congruence. Qed.

Lemma or_struct_error_Ok {A} (o : option A) a : or_struct_error o = Ok a ↔ o = Some a.
Proof. destruct o; cbn; split; congruence. Qed.

(** What a call may raise *)
Definition raises {A} (P : exc → Prop) (r : result exc A) : Prop := ∀ e, r = Err e → P e.

Lemma raises_bind {A B} (P : exc → Prop) (r : result exc A) (f : A → result exc B) :
  raises P r → (∀ a, raises P (f a)) → raises P (r ≫= f).
Proof. intros Hr Hf e. destruct r as [a|e']; cbn; [apply Hf|]. intros [= ->]. by apply Hr. Qed.

Lemma raises_mono {A} (P Q : exc → Prop) (r : result exc A) : (∀ e, P e → Q e) → raises P r → raises Q r.
Proof. intros HPQ Hr e He. by apply HPQ, Hr. Qed.

Lemma raises_key {A} (P : exc → Prop) (o : option A) : P KeyError → raises P (or_key_error o).
Proof. intros HP e. destruct o; [done|]. by intros [= <-]. Qed.
