(* ===== verification/ArgParse.v ===== *)
(** * Command-line parsers

    What the two command lines use of [argparse]: options with one value or
    none, long and short, [--option=value] and [-ovalue], abbreviations of long
    options, groups of which at most or at least one is given, and subcommands.
    What a parser prints is not modelled, only how it ends.  This is
    CPython 3.11's parser, except that [--] as an explicit value ([--option=--])
    stays a text, as in later versions; 3.11 makes it an empty list. *)
From stdpp Require Import base tactics numbers list strings.
From S2P Require Import Prelude PyData Struct Text StrOps Errors.

(** A parser that returns nothing: the process exits, after printing help, the
    version or a usage error, or an exception goes through. *)
Inductive stop :=
| Exits (code : Z)
| Raises (error : exc).

Definition usage_error {A} : result stop A := Err (Exits 2).

(** What [type=...] may raise to refuse a value *)
Definition refuses (error : exc) : bool :=
  match error with ArgumentTypeError _ | TypeError => true | _ => is_ValueError error end.

Section Parser.
Context `{Unicode} {N : Type}.

(** ** Declarations *)

(** What an option does to the namespace *)
Inductive action :=
| Help
| Version
| StoreTrue (set : N → N)
| Store (set : str → result exc (N → N)).

Record argument := mkArgument { option_strings : list str; act : action }.

(** The name an option goes by in the groups *)
Definition name_of (a : argument) : str := default [] (head (option_strings a)).

Record parser := mkParser {
  allow_abbrev : bool;
  arguments : list argument;
  exclusive : list (list str);   (** at most one of each *)
  required : list (list str);    (** at least one of each *)
  (** [add_subparsers]: what the words from the first positional on do, and
      whether something among them was not recognized *)
  command : option (list str → N → result stop (N * bool));
}.

Definition help_argument : argument := mkArgument [lit "-h"; lit "--help"] Help.

Context (p : parser).

Definition find_option (s : str) : option argument :=
  List.find (λ a, bool_decide (s ∈ option_strings a)) (arguments p).

(** ** Words *)

(** A positional argument or an option's value, ["--"], or an option with the
    value in the same word, if any; [None] is an option nobody declared. *)
Inductive word :=
| Value
| Separator
| Flag (a : option argument) (option_string : str) (explicit : option str).

Definition is_decimal (c : Z) : bool := is_digit c || ((0x80 <=? c) && bool_decide (is_Some (uni_decimal c))).

Definition chomp (s : str) : str :=
  match reverse s with c :: r => if c =? 10 then reverse r else s | [] => [] end.

(** [^-\d+$|^-\d*\.\d+$] *)
Definition negative_number (s : str) : bool :=
  match s with
  | c :: s' =>
      let t := chomp s' in
      (c =? 0x2D) &&
      match drop_while is_decimal t with
      | [] => negb (bool_decide (t = []))
      | d :: fraction => (d =? 0x2E) && negb (bool_decide (fraction = [])) && forallb is_decimal fraction
      end
  | [] => false
  end.

(** [s.split("=", 1)] *)
Definition split_equals (s : str) : option (str * str) :=
  match drop_while (λ c, negb (c =? 0x3D)) s with
  | _ :: value => Some (take_while (λ c, negb (c =? 0x3D)) s, value)
  | [] => None
  end.

(** [--option=value] *)
Definition with_equals (s : str) : option word :=
  '(name, value) ← split_equals s; a ← find_option name; Some (Flag (Some a) name (Some value)).

(** [-ovalue] *)
Definition with_tail (s : str) : option word :=
  match s with
  | _ :: d :: _ =>
      if d =? 0x2D then None
      else a ← find_option (take 2 s); Some (Flag (Some a) (take 2 s) (Some (drop 2 s)))
  | _ => None
  end.

(** An abbreviated long option, with or without a value: what it can stand for *)
Definition abbreviated (s : str) : list word :=
  if allow_abbrev p && starts_with (lit "--") s then
    let '(prefix, explicit) := match split_equals s with Some (prefix, value) => (prefix, Some value) | None => (s, None) end in
    (λ option_string, Flag (find_option option_string) option_string explicit)
      <$> filter (λ option_string, starts_with prefix option_string = true) (arguments p ≫= option_strings)
  else [].

Definition candidates (s : str) : list word :=
  match with_equals s with Some w => [w] | None => option_list (with_tail s) ++ abbreviated s end.

(** [_parse_optional]; [None] is an ambiguous abbreviation. *)
Definition classify (s : str) : option word :=
  match s with
  | [] => Some Value
  | c :: s' =>
      if negb (c =? 0x2D) then Some Value
      else match find_option s with
           | Some a => Some (Flag (Some a) s None)
           | None =>
               if bool_decide (s' = []) then Some Value
               else match candidates s with
                    | [w] => Some w
                    | [] => Some (if negative_number s || existsb (λ c, c =? 32) s then Value else Flag None s None)
                    | _ => None
                    end
           end
  end.

Fixpoint classify_all (argv : list str) : option (list (str * word)) :=
  match argv with
  | [] => Some []
  | s :: argv =>
      if bool_decide (s = lit "--") then Some ((s, Separator) :: ((λ v, (v, Value)) <$> argv))
      else w ← classify s; ws ← classify_all argv; Some ((s, w) :: ws)
  end.

(** ** Taking the words *)

Record parsing := mkParsing { namespace : N; seen : list str; extras : bool }.

Definition add_extra (st : parsing) : parsing := mkParsing (namespace st) (seen st) true.

(** Some other option of a group that [a] is in was given. *)
Definition conflicts (a : argument) (st : parsing) : bool :=
  existsb (λ group, bool_decide (name_of a ∈ group) &&
                    existsb (λ other, bool_decide (other ≠ name_of a) && bool_decide (other ∈ seen st)) group)
    (exclusive p).

(** An option and its value: the conversion, the groups, then the namespace *)
Definition take_value (a : argument) (set : str → result exc (N → N)) (value : str) (st : parsing) : result stop parsing :=
  match set value with
  | Err error => if refuses error then usage_error else Err (Raises error)
  | Ok f => if conflicts a st then usage_error
            else mret (mkParsing (f (namespace st)) (name_of a :: seen st) (extras st))
  end.

(** An option without a value *)
Definition take_flag (a : argument) (st : parsing) : result stop parsing :=
  match act a with
  | Help | Version => Err (Exits 0)
  | StoreTrue f => if conflicts a st then usage_error
                   else mret (mkParsing (f (namespace st)) (name_of a :: seen st) (extras st))
  | Store _ => usage_error
  end.

Definition takes_value (a : argument) : option (str → result exc (N → N)) :=
  match act a with Store set => Some set | _ => None end.

(** [-xyz]: the further options in the tail of one without a value, and the last
    one if it takes a value, with what is left for it *)
Fixpoint tail_options (tail : str) : option (list argument * option (argument * option str)) :=
  match tail with
  | [] => Some ([], None)
  | c :: tail =>
      a ← find_option [0x2D; c];
      match takes_value a with
      | Some _ => Some ([], Some (a, match tail with [] => None | _ => Some tail end))
      | None => '(more, last) ← tail_options tail; Some (a :: more, last)
      end
  end.

Fixpoint take_flags (flags : list argument) (st : parsing) : result stop parsing :=
  match flags with [] => mret st | a :: flags => st ← take_flag a st; take_flags flags st end.

(** There is a value, in the same word or the next. *)
Definition is_value (explicit : option str) (next : option (str * word)) : bool :=
  match explicit, next with Some _, _ => true | None, Some (_, Value) => true | None, _ => false end.

(** The options of one word, and how many of the following words, of which
    [next] is the first, are taken as a value *)
Definition take_option (a : argument) (option_string : str) (explicit : option str) (next : option (str * word))
    (st : parsing) : result stop (parsing * nat) :=
  let value a set explicit st :=
    match explicit, next with
    | Some v, _ => st ← take_value a set v st; mret (st, 0%nat)
    | None, Some (v, Value) => st ← take_value a set v st; mret (st, 1%nat)
    | None, _ => usage_error
    end in
  match takes_value a, explicit with
  | Some set, _ => value a set explicit st
  | None, None => st ← take_flag a st; mret (st, 0%nat)
  | None, Some tail =>
      if bool_decide (take 2 option_string = lit "--") || bool_decide (tail = []) then usage_error
      else match tail_options tail with
           | None => usage_error
           | Some (flags, None) => st ← take_flags (a :: flags) st; mret (st, 0%nat)
           | Some (flags, Some (b, explicit)) =>
               if negb (is_value explicit next) then usage_error
               else st ← take_flags (a :: flags) st;
                    match takes_value b with Some set => value b set explicit st | None => usage_error end
           end
  end.

(** A subcommand with the words from it on *)
Definition take_command (run : list str → N → result stop (N * bool)) (ws : list (str * word)) (st : parsing)
    : result stop parsing :=
  '(n, unrecognized) ← run ws.*1 (namespace st);
  mret (mkParsing n (lit "command" :: seen st) (extras st || unrecognized)).

(** [skip] words were taken as values already. *)
Fixpoint consume (skip : nat) (ws : list (str * word)) (st : parsing) : result stop parsing :=
  match ws with
  | [] => mret st
  | (s, w) :: ws' =>
      match skip with
      | S skip => consume skip ws' st
      | O =>
          match w with
          | Flag None _ _ => consume 0 ws' (add_extra st)
          | Flag (Some a) option_string explicit =>
              '(st, n) ← take_option a option_string explicit (head ws') st; consume n ws' st
          | Value | Separator =>
              match command p, w, ws' with
              | Some _, Separator, [] => mret (add_extra st)
              | Some run, _, _ => take_command run ws st
              | None, _, _ => consume 0 ws' (add_extra st)
              end
          end
      end
  end.

(** ** [parse_known_args] and [parse_args] *)

Definition parse_known_args (argv : list str) (n : N) : result stop (N * bool) :=
  ws ← match classify_all argv with Some ws => mret ws | None => usage_error end;
  st ← consume 0 ws (mkParsing n [] false);
  if forallb (λ group, existsb (λ name, bool_decide (name ∈ seen st)) group) (required p)
  then mret (namespace st, extras st) else usage_error.

Definition parse_args (argv : list str) (n : N) : result stop N :=
  '(n, extras) ← parse_known_args argv n;
  if (extras : bool) then usage_error else mret n.
(** ** What parsing preserves *)

Lemma find_option_inv s a : find_option s = Some a → a ∈ arguments p ∧ s ∈ option_strings a.
Proof.
  intros [Ha Hs]%find_some. apply list_elem_of_In in Ha. by apply bool_decide_eq_true in Hs.
Qed.

Lemma split_equals_inv s name value : split_equals s = Some (name, value) → s = name ++ 0x3D :: value.
Proof.
  unfold split_equals. intros Hs. enough (s = take_while (λ c, negb (c =? 0x3D)) s ++ drop_while (λ c, negb (c =? 0x3D)) s
    ∧ ∀ c r, drop_while (λ c, negb (c =? 0x3D)) s = c :: r → c = 0x3D) as [E Hc].
  { destruct (drop_while _ s) as [|c r] eqn:Ed; [done|]. injection Hs as <- <-. rewrite (Hc c r) in E by done. exact E. }
  clear Hs. induction s as [|d s [IH1 IH2]]; [done|]. cbn. destruct (Z.eqb_spec d 0x3D) as [->|]; cbn.
  - split; [done|]. congruence.
  - split; [by f_equal|done].
Qed.

(** An option word names one of the parser's options; without abbreviations the
    word starts with the option's string. *)
Definition word_ok (e : str * word) : Prop :=
  match e.2 with
  | Flag (Some a) option_string _ =>
      a ∈ arguments p ∧ option_string ∈ option_strings a ∧ (allow_abbrev p = false → starts_with option_string e.1 = true)
  | _ => True
  end.

Lemma classify_ok s w : classify s = Some w → word_ok (s, w).
Proof.
  unfold classify. destruct s as [|c s']; [by intros [= <-]|]. set (s := c :: s').
  destruct (negb (c =? 0x2D)); [by intros [= <-]|].
  destruct (find_option s) as [a|] eqn:Hf.
  { intros [= <-]. apply find_option_inv in Hf as [? ?]. split_and!; [done|done|]. intros _.
    pose proof (starts_with_prefix s []) as Hs. by rewrite app_nil_r in Hs. }
  case_bool_decide; [by intros [= <-]|].
  assert (∀ w', w' ∈ candidates s → word_ok (s, w')) as Hall.
  { intros w' Hw. unfold candidates in Hw. destruct (with_equals s) as [we|] eqn:He.
    - apply list_elem_of_singleton in Hw as ->. unfold with_equals in He.
      destruct (split_equals s) as [[name value]|] eqn:Hs; [|done]. cbn in He.
      destruct (find_option name) as [a|] eqn:Ha; [|done]. injection He as <-.
      apply find_option_inv in Ha as [? ?]. split_and!; [done|done|]. intros _.
      cbn [fst]. rewrite (split_equals_inv _ _ _ Hs). apply starts_with_prefix.
    - apply elem_of_app in Hw as [Hw|Hw].
      + destruct (with_tail s) as [wt|] eqn:Ht; [|by apply not_elem_of_nil in Hw].
        apply list_elem_of_singleton in Hw as ->. unfold with_tail, s in Ht. destruct s' as [|d r]; [done|].
        destruct (d =? 0x2D); [done|]. destruct (find_option (take 2 (c :: d :: r))) as [a|] eqn:Ha; [|done].
        injection Ht as <-. apply find_option_inv in Ha as [? ?]. split_and!; [done|done|]. intros _.
        exact (starts_with_prefix [c; d] r).
      + unfold abbreviated in Hw. destruct (allow_abbrev p) eqn:Hab; [|by apply not_elem_of_nil in Hw].
        destruct (true && _); [|by apply not_elem_of_nil in Hw].
        destruct (match split_equals s with Some _ => _ | None => _ end) as [prefix explicit].
        apply list_elem_of_fmap in Hw as (o & -> & Ho). unfold word_ok. cbn [snd].
        destruct (find_option o) as [a|] eqn:Ha; [|done]. apply find_option_inv in Ha as [? ?].
        split_and!; [done|done|]. congruence. }
  destruct (candidates s) as [|w1 [|]]; [|intros [= <-]; apply Hall; constructor|done].
  intros [= <-]. destruct (_ || _); exact Logic.I.
Qed.

Lemma classify_all_ok argv ws : classify_all argv = Some ws → ws.*1 = argv ∧ Forall word_ok ws.
Proof.
  revert ws. induction argv as [|s argv IH]; intros ws; cbn [classify_all]; [by intros [= <-]|].
  case_bool_decide as Hs.
  - intros [= <-]. cbn. split.
    + f_equal. rewrite <- list_fmap_compose. apply list_fmap_id.
    + constructor; [done|]. apply Forall_fmap, Forall_forall. done.
  - intros (w & Hw & (ws' & Hws & [= <-])%bind_Some)%bind_Some. apply IH in Hws as [<- Hok].
    split; [done|]. constructor; [by apply classify_ok|done].
Qed.

Lemma no_conflict a st group other :
  conflicts a st = false → group ∈ exclusive p → name_of a ∈ group → other ∈ group → other ≠ name_of a → other ∉ seen st.
Proof.
  intros Hc Hg Ha Ho Hne Hin. enough (conflicts a st = true) by congruence.
  apply existsb_exists. exists group. split; [by apply list_elem_of_In|].
  apply andb_true_iff. split; [by apply bool_decide_eq_true|].
  apply existsb_exists. exists other. split; [by apply list_elem_of_In|].
  apply andb_true_iff. by split; apply bool_decide_eq_true.
Qed.

(** What holds of the state at the start and is kept by every option and by the
    subcommands holds at the end, and what every way to stop satisfies the whole
    satisfies. *)
Section Invariant.
Context (I : parsing → Prop) (Q : stop → Prop).

Definition keeps {A} (f : A → parsing) (r : result stop A) : Prop :=
  match r with Ok x => I (f x) | Err e => Q e end.

Lemma consume_keeps ws skip st :
  (∀ run ws st, command p = Some run → I st → keeps id (take_command run ws st)) → (∀ st, I st → I (add_extra st)) →
  (∀ s a option_string explicit next st, (s, Flag (Some a) option_string explicit) ∈ ws → I st →
     keeps fst (take_option a option_string explicit next st)) →
  I st → keeps id (consume skip ws st).
Proof.
  intros Hp He. revert skip st. induction ws as [|[s w] ws IH]; intros skip st Ho Hi; [done|]. cbn [consume].
  assert (∀ skip st, I st → keeps id (consume skip ws st)) as Hnext.
  { intros. apply IH; [|done]. intros. eapply Ho; [by constructor|done]. }
  destruct skip as [|skip]; [|by apply Hnext].
  destruct w as [| |[a|] name explicit].
  - destruct (command p) as [run|] eqn:Hrun; [by apply Hp|]. by apply Hnext, He.
  - destruct (command p) as [run|] eqn:Hrun; [|by apply Hnext, He]. destruct ws; [by apply He|by apply Hp].
  - pose proof (Ho s a name explicit (head ws) st (list_elem_of_here _ _) Hi) as Hk.
    destruct (take_option _ _ _ _ _) as [[st' n]|e]; cbn in Hk |- *; [by apply Hnext|done].
  - by apply Hnext, He.
Qed.

(** What an option with a value keeps *)
Lemma take_option_value a set option_string explicit next st :
  act a = Store set → Q (Exits 2) →
  (∀ v, match set v with
        | Ok f => conflicts a st = false → I (mkParsing (f (namespace st)) (name_of a :: seen st) (extras st))
        | Err e => refuses e = true
        end) →
  keeps fst (take_option a option_string explicit next st).
Proof.
  intros Ha Hq Hset.
  assert (∀ v, keeps id (take_value a set v st)) as Hv.
  { intros v. unfold take_value. specialize (Hset v). destruct (set v) as [f|e].
    - destruct (conflicts a st); [done|]. by apply Hset.
    - by rewrite Hset. }
  unfold take_option, takes_value. rewrite Ha.
  destruct explicit as [v|].
  - specialize (Hv v). by destruct (take_value a set v st).
  - destruct next as [[v [| |? ? ?]]|]; try done. specialize (Hv v). by destruct (take_value a set v st).
Qed.
End Invariant.

(** ** Words that are read as they are meant *)

(** An option with its value, in one word or in two *)
Definition option_words (joined : bool) (option_string value : str) : list str :=
  if joined then [option_string ++ 0x3D :: value] else [option_string; value].

(** A word that no parser takes for an option *)
Definition plain_value (v : str) : bool := match v with c :: _ => negb (c =? 0x2D) | [] => true end.

(** The form of an option's name, and that none of the parser's holds a [=] *)
Definition name_ok (o : str) : bool :=
  match o with c :: _ :: _ => c =? 0x2D | _ => false end && negb (bool_decide (o = lit "--")) && forallb (λ c, negb (c =? 0x3D)) o.

Definition names_ok : bool := forallb (λ a, forallb (forallb (λ c, negb (c =? 0x3D))) (option_strings a)) (arguments p).

Definition reads (argv : list str) (st : parsing) : result stop parsing :=
  match classify_all argv with Some ws => consume 0 ws st | None => usage_error end.

Lemma plain_value_classify v : plain_value v = true → classify v = Some Value ∧ v ≠ lit "--".
Proof.
  unfold classify, plain_value. destruct v as [|c v]; [done|]. intros Hc. rewrite Hc. split; [done|].
  intros [= -> _]. done.
Qed.

Lemma split_equals_app o v : forallb (λ c, negb (c =? 0x3D)) o = true → split_equals (o ++ 0x3D :: v) = Some (o, v).
Proof.
  intros Ho. unfold split_equals.
  assert (drop_while (λ c, negb (c =? 0x3D)) (o ++ 0x3D :: v) = 0x3D :: v ∧
          take_while (λ c, negb (c =? 0x3D)) (o ++ 0x3D :: v) = o) as [-> ->]; [|done].
  induction o as [|c o IH]; [done|]. cbn in Ho |- *. apply andb_true_iff in Ho as [Hc Ho]. rewrite Hc.
  destruct (IH Ho) as [-> ->]. done.
Qed.

Lemma no_option_with_equals o v : names_ok = true → find_option (o ++ 0x3D :: v) = None.
Proof.
  intros Hn. destruct (find_option _) as [a|] eqn:Hf; [|done]. apply find_option_inv in Hf as [Ha Hs].
  unfold names_ok in Hn. rewrite forallb_forall in Hn. specialize (Hn a (proj1 (list_elem_of_In _ _) Ha)).
  rewrite forallb_forall in Hn. specialize (Hn _ (proj1 (list_elem_of_In _ _) Hs)).
  rewrite forallb_app in Hn. apply andb_true_iff in Hn as [_ Hn]. done.
Qed.

Lemma name_classify o a : name_ok o = true → find_option o = Some a → classify o = Some (Flag (Some a) o None) ∧ o ≠ lit "--".
Proof.
  unfold name_ok, classify. intros Ho Hf. destruct o as [|c [|d o]]; [done|done|].
  apply andb_true_iff in Ho as [[Hc Hne]%andb_true_iff _]. rewrite Hc, Hf.
  apply negb_true_iff, bool_decide_eq_false in Hne. done.
Qed.

Lemma joined_classify o v a :
  names_ok = true → name_ok o = true → find_option o = Some a →
  classify (o ++ 0x3D :: v) = Some (Flag (Some a) o (Some v)) ∧ o ++ 0x3D :: v ≠ lit "--".
Proof.
  intros Hn Ho Hf. pose proof (no_option_with_equals o v Hn) as Hnone.
  unfold name_ok in Ho. apply andb_true_iff in Ho as [[Hc Hne]%andb_true_iff He].
  unfold classify, candidates, with_equals. rewrite (split_equals_app o v He). cbn [mbind option_bind]. rewrite Hf.
  rewrite Hnone. cbn [mbind option_bind].
  destruct o as [|c [|d o]]; [done|done|]. cbn [app] in *. rewrite Hc. cbn [negb].
  rewrite bool_decide_eq_false_2 by done. split; [done|]. intros [= -> -> E]. by destruct o.
Qed.

Lemma reads_option joined o v a set st st' argv :
  names_ok = true → name_ok o = true → find_option o = Some a → act a = Store set → joined || plain_value v = true →
  take_value a set v st = Ok st' → reads (option_words joined o v ++ argv) st = reads argv st'.
Proof.
  intros Hn Ho Hf Ha Hj Ht. unfold reads, option_words. destruct joined; cbn [app classify_all].
  - destruct (joined_classify o v a Hn Ho Hf) as [-> Hne]. rewrite bool_decide_eq_false_2 by done. cbn [mbind option_bind].
    destruct (classify_all argv); [|done]. cbn [mbind option_bind consume take_option]. unfold take_option, takes_value.
    rewrite Ha, Ht. done.
  - destruct (name_classify o a Ho Hf) as [-> Hne], (plain_value_classify v Hj) as [-> Hne'].
    rewrite !bool_decide_eq_false_2 by done. cbn [mbind option_bind].
    destruct (classify_all argv); [|done]. cbn [mbind option_bind consume head]. unfold take_option, takes_value.
    rewrite Ha, Ht. done.
Qed.

Lemma reads_flag o a f st argv :
  name_ok o = true → find_option o = Some a → act a = StoreTrue f → conflicts a st = false →
  reads (o :: argv) st = reads argv (mkParsing (f (namespace st)) (name_of a :: seen st) (extras st)).
Proof.
  intros Ho Hf Ha Hc. unfold reads. cbn [classify_all]. destruct (name_classify o a Ho Hf) as [-> Hne].
  rewrite bool_decide_eq_false_2 by done. cbn [mbind option_bind]. destruct (classify_all argv); [|done].
  cbn [mbind option_bind consume]. unfold take_option, takes_value, take_flag. by rewrite Ha, Hc.
Qed.

Lemma parse_known_args_reads argv n :
  parse_known_args argv n =
  (st ← reads argv (mkParsing n [] false);
   if forallb (λ group, existsb (λ name, bool_decide (name ∈ seen st)) group) (required p)
   then mret (namespace st, extras st) else usage_error).
Proof. unfold parse_known_args, reads. by destruct (classify_all argv). Qed.
End Parser.
Arguments action : clear implicits.
Arguments argument : clear implicits.
Arguments parser : clear implicits.
Arguments word : clear implicits.
Arguments parsing : clear implicits.
