(* ===== verification/Json.v ===== *)
(** * JSON values and their text

    What [json.dump] writes, with and without [indent=2], and what [json.load]
    reads: a value is parametrised by its floating-point numbers, so that the
    documents the program writes, which hold none, and the values it reads are
    the same type. *)
From stdpp Require Import base tactics numbers list strings.
From S2P Require Import Prelude PyData Struct Text StrOps Floats.

Inductive json_of (F : Type) : Type :=
| JNull
| JBool (b : bool)
| JInt (n : Z)
| JFloat (x : F)
| JString (s : str)
| JList (items : list (json_of F))
| JObject (members : list (str * json_of F)).
Arguments JNull {F}.
Arguments JBool {F} _.
Arguments JInt {F} _.
Arguments JFloat {F} _.
Arguments JString {F} _.
Arguments JList {F} _.
Arguments JObject {F} _.

(** Induction over the values inside lists and objects *)
Lemma json_nested_ind {F} (P : json_of F → Prop) :
  P JNull → (∀ b, P (JBool b)) → (∀ n, P (JInt n)) → (∀ x, P (JFloat x)) → (∀ s, P (JString s)) →
  (∀ items, Forall P items → P (JList items)) →
  (∀ members, Forall (λ e, P e.2) members → P (JObject members)) →
  ∀ v, P v.
Proof.
  intros Hn Hb Hi Hf Hs Hl Ho. fix IH 1. intros [|b|n|x|s|items|members];
    [apply Hn|apply Hb|apply Hi|apply Hf|apply Hs| |].
  - apply Hl. induction items; constructor; [apply IH|done].
  - apply Ho. induction members as [|[k v] members IHm]; constructor; [apply IH|done].
Qed.

(** How deep lists and objects are nested *)
Fixpoint nesting {F} (v : json_of F) : nat :=
  match v with
  | JList items => S (List.list_max (List.map nesting items))
  | JObject members => S (List.list_max (List.map (λ e, nesting e.2) members))
  | _ => 0
  end.

Lemma list_max_below l n : (List.list_max l <= n)%nat ↔ Forall (λ x, (x <= n)%nat) l.
Proof. apply List.list_max_le. Qed.

Lemma nesting_list {F} (items : list (json_of F)) n :
  Forall (λ v, (nesting v <= n)%nat) items → (nesting (JList items) <= S n)%nat.
Proof. intros Hi. cbn. apply le_n_S, list_max_below, List.Forall_map. exact Hi. Qed.

Lemma nesting_object {F} (members : list (str * json_of F)) n :
  Forall (λ e, (nesting e.2 <= n)%nat) members → (nesting (JObject members) <= S n)%nat.
Proof. intros Hi. cbn. apply le_n_S, list_max_below, List.Forall_map. exact Hi. Qed.

(** A document the program writes *)
Abbreviation json := (json_of Empty_set).

(** [None] is written as [null]. *)
Definition json_option {A} (f : A → json) (o : option A) : json := from_option f JNull o.

(** ** Text *)

Definition quote : Z := 0x22.
Definition backslash : Z := 0x5C.

Definition escape_u (c : Z) : str := lit "\u" ++ hex_fixed 4 c.

Definition escape_char (c : Z) : str :=
  if c =? quote then [backslash; quote]
  else if c =? backslash then [backslash; backslash]
  else if c =? 10 then lit "\n"
  else if c =? 13 then lit "\r"
  else if c =? 9 then lit "\t"
  else if c =? 12 then lit "\f"
  else if c =? 8 then lit "\b"
  else if (0x20 <=? c) && (c <=? 0x7E) then [c]
  else if c <? 0x10000 then escape_u c
  else escape_u (0xD800 + Z.shiftr (c - 0x10000) 10) ++ escape_u (0xDC00 + Z.land (c - 0x10000) 0x3FF).

Definition dump_string (s : str) : str := [quote] ++ (s ≫= escape_char) ++ [quote].

Section Dumps.
(** The encoder: the line break in front of what stands at a nesting level, and
    what separates two items apart from it *)
Context (break : nat → str) (comma : str).

Definition bracketed (level : nat) (parts : list str) : str :=
  match parts with
  | [] => []
  | _ => break (S level) ++ join (comma ++ break (S level)) parts ++ break level
  end.

Fixpoint dumps_with (level : nat) (v : json) : str :=
  match v with
  | JNull => lit "null"
  | JBool b => if b then lit "true" else lit "false"
  | JInt n => dec_string n
  | JFloat x => match x with end
  | JString s => dump_string s
  | JList items => lit "[" ++ bracketed level (List.map (dumps_with (S level)) items) ++ lit "]"
  | JObject members =>
      lit "{" ++ bracketed level
        (List.map (λ '(k, v), dump_string k ++ lit ": " ++ dumps_with (S level) v) members) ++ lit "}"
  end.
End Dumps.

(** [json.dump(value, file)] *)
Definition dumps : json → str := dumps_with (λ _, []) (lit ", ") 0.

(** [json.dump(value, file, indent=2)] *)
Definition newline (level : nat) : str := [10] ++ replicate (2 * level) 32.

Definition dumps_indented : json → str := dumps_with newline (lit ",") 0.

(** ** Values that were read *)

Abbreviation json_value := (json_of float).

(** Every document is a value. *)
Fixpoint value_of (v : json) : json_value :=
  match v with
  | JNull => JNull
  | JBool b => JBool b
  | JInt n => JInt n
  | JFloat x => match x with end
  | JString s => JString s
  | JList items => JList (List.map value_of items)
  | JObject members => JObject (List.map (λ '(k, v), (k, value_of v)) members)
  end.
