(* ===== verification/JsonParse.v ===== *)
(** * Reading JSON

    [json.load] of the standard library: its values, [JSONDecodeError], and the
    [RecursionError] of a text that nests arrays and objects deeper than the
    interpreter lets the scanner call itself. *)
From stdpp Require Import base tactics numbers list strings.
From S2P Require Import Prelude PyData Struct Text StrOps Floats Errors Json.

(** [json.JSONDecodeError], a [ValueError] *)
Definition json_error {A} : result exc A := Err (ValueError (lit "invalid JSON")).

Definition is_json_space (c : Z) : bool := (c =? 32) || (c =? 9) || (c =? 10) || (c =? 13).
Definition skip_space : str → str := drop_while is_json_space.

(** ** Strings *)

Definition hex_value (c : Z) : option Z :=
  if is_digit c then Some (c - 48)
  else if (97 <=? c) && (c <=? 102) then Some (c - 87)
  else if (65 <=? c) && (c <=? 70) then Some (c - 55)
  else None.

Definition hex4 (a b c d : Z) : option Z :=
  a ← hex_value a; b ← hex_value b; c ← hex_value c; d ← hex_value d;
  Some (((a * 16 + b) * 16 + c) * 16 + d).

(** The one-character escapes *)
Definition simple_escape (c : Z) : option Z :=
  if (c =? quote) || (c =? backslash) || (c =? 47) then Some c
  else if c =? 98 then Some 8
  else if c =? 102 then Some 12
  else if c =? 110 then Some 10
  else if c =? 114 then Some 13
  else if c =? 116 then Some 9
  else None.

Definition is_high (u : Z) : bool := (0xD800 <=? u) && (u <? 0xDC00).
Definition is_low (u : Z) : bool := (0xDC00 <=? u) && (u <? 0xE000).
Definition join_surrogates (high low : Z) : Z := 0x10000 + (high - 0xD800) * 1024 + (low - 0xDC00).

(** The second half of a surrogate pair: its value and what follows it; [None]
    when the text goes on otherwise *)
Definition low_escape (s : str) : option (option Z * str) :=
  match s with
  | x :: y :: a :: b :: c :: d :: s =>
      if (x =? backslash) && (y =? 117) then Some (hex4 a b c d, s) else None
  | _ => None
  end.

(** The characters of a string up to its closing quote, and the rest; [acc]
    holds the characters before, backwards. *)
Fixpoint scan_string (fuel : nat) (acc : str) (s : str) : result exc (str * str) :=
  match fuel with
  | O => Err OutOfFuel
  | S fuel =>
      match s with
      | [] => json_error
      | c :: s =>
          if c =? quote then mret (reverse acc, s)
          else if c =? backslash then
            match s with
            | [] => json_error
            | e :: s =>
                if e =? 117 then
                  match s with
                  | a :: b :: c :: d :: s =>
                      match hex4 a b c d with
                      | None => json_error
                      | Some u =>
                          match (if is_high u then low_escape s else None) with
                          | Some (None, _) => json_error
                          | Some (Some low, s') =>
                              if is_low low then scan_string fuel (join_surrogates u low :: acc) s'
                              else scan_string fuel (u :: acc) s
                          | None => scan_string fuel (u :: acc) s
                          end
                      end
                  | _ => json_error
                  end
                else match simple_escape e with
                     | Some r => scan_string fuel (r :: acc) s
                     | None => json_error
                     end
            end
          else if c <? 0x20 then json_error
          else scan_string fuel (c :: acc) s
      end
  end.

Definition parse_string (s : str) : result exc (str * str) := scan_string (S (length s)) [] s.

(** ** Numbers *)

(** The integer part: a zero, or digits without a leading zero *)
Definition scan_integer (s : str) : option (str * str) :=
  match s with
  | c :: s' =>
      if c =? 48 then Some ([c], s')
      else if is_digit c then Some (take_while is_digit s, drop_while is_digit s)
      else None
  | [] => None
  end.

(** [(\.[0-9]+)?]: the digits, if any, and the rest *)
Definition scan_fraction (s : str) : str * str :=
  match s with
  | c :: s' => if (c =? 46) && bool_decide (take_while is_digit s' ≠ [])
               then (take_while is_digit s', drop_while is_digit s') else ([], s)
  | [] => ([], s)
  end.

(** [([eE][-+]?[0-9]+)?]: the exponent, if any, and the rest *)
Definition scan_exponent (s : str) : option Z * str :=
  match s with
  | c :: s' =>
      if (c =? 101) || (c =? 69) then
        let '(negative, t) := match s' with
                              | d :: t => if d =? 45 then (true, t) else if d =? 43 then (false, t) else (false, s')
                              | [] => (false, s')
                              end in
        let ds := take_while is_digit t in
        if bool_decide (ds ≠ [])
        then (Some (if (negative : bool) then - digits_value_of ds else digits_value_of ds), drop_while is_digit t)
        else (None, s)
      else (None, s)
  | [] => (None, s)
  end.

Definition scan_unsigned (sign : Z) (s : str) : option (json_value * str) :=
  '(whole, s) ← scan_integer s;
  let '(fraction, s) := scan_fraction s in
  let '(exponent, s) := scan_exponent s in
  Some (match fraction, exponent with
        | [], None => JInt (sign * digits_value_of whole)
        | _, _ => JFloat (float_of_decimal (sign <? 0) (digits_value_of (whole ++ fraction))
                            (default 0 exponent - blen fraction))
        end, s).

Definition scan_number (s : str) : option (json_value * str) :=
  match s with
  | c :: s' => if c =? 45 then scan_unsigned (-1) s' else scan_unsigned 1 s
  | [] => None
  end.

(** ** Values *)

(** The constants, in the order they are tried *)
Definition constants : list (str * json_value) :=
  [(lit "null", JNull); (lit "true", JBool true); (lit "false", JBool false);
   (lit "NaN", JFloat NaN); (lit "Infinity", JFloat (Infinity false));
   (lit "-Infinity", JFloat (Infinity true))].

Definition scan_constant (s : str) : option (json_value * str) :=
  '(word, v) ← List.find (λ e, starts_with e.1 s) constants; Some (v, drop (length word) s).

Definition scan_atom (s : str) : result exc (json_value * str) :=
  match scan_constant s with
  | Some r => mret r
  | None => match scan_number s with Some r => mret r | None => json_error end
  end.

(** [depth] arrays and objects may be entered. *)
Fixpoint parse_value (fuel depth : nat) (s : str) : result exc (json_value * str) :=
  match fuel with
  | O => Err OutOfFuel
  | S fuel =>
      match s with
      | [] => json_error
      | c :: s' =>
          if c =? quote then '(text, s) ← parse_string s'; mret (JString text, s)
          else if c =? 0x5B then
            match depth with
            | O => Err RecursionError
            | S depth =>
                match skip_space s' with
                | d :: t => if d =? 0x5D then mret (JList [], t) else parse_items fuel depth [] (d :: t)
                | [] => json_error
                end
            end
          else if c =? 0x7B then
            match depth with
            | O => Err RecursionError
            | S depth =>
                match skip_space s' with
                | d :: t => if d =? 0x7D then mret (JObject [], t) else parse_members fuel depth [] (d :: t)
                | [] => json_error
                end
            end
          else scan_atom s
      end
  end
with parse_items (fuel depth : nat) (items : list json_value) (s : str) : result exc (json_value * str) :=
  match fuel with
  | O => Err OutOfFuel
  | S fuel =>
      '(v, s) ← parse_value fuel depth s;
      match skip_space s with
      | c :: s => if c =? 0x5D then mret (JList (items ++ [v]), s)
                  else if c =? 44 then parse_items fuel depth (items ++ [v]) (skip_space s)
                  else json_error
      | [] => json_error
      end
  end
with parse_members (fuel depth : nat) (members : list (str * json_value)) (s : str) : result exc (json_value * str) :=
  match fuel with
  | O => Err OutOfFuel
  | S fuel =>
      match s with
      | c :: s =>
          if c =? quote then
            '(key, s) ← parse_string s;
            match skip_space s with
            | c :: s =>
                if c =? 58 then
                  '(v, s) ← parse_value fuel depth (skip_space s);
                  match skip_space s with
                  | c :: s => if c =? 0x7D then mret (JObject (dict_of (members ++ [(key, v)])), s)
                              else if c =? 44 then parse_members fuel depth (members ++ [(key, v)]) (skip_space s)
                              else json_error
                  | [] => json_error
                  end
                else json_error
            | [] => json_error
            end
          else json_error
      | [] => json_error
      end
  end.

(** [json.loads(text)] *)
Definition json_loads `{Interpreter} (text : str) : result exc json_value :=
  if starts_with [0xFEFF] text then json_error
  else
    let s := skip_space text in
    '(v, s) ← parse_value (2 * S (length s)) json_depth s;
    match skip_space s with [] => mret v | _ => json_error end.

#[local] Existing Instance default_limits.

Example loads_example :
  json_loads (quoted " { ~a~ : [1, -2.50e+1, ~\u00e9\ud83d\ude00~, null] , ~b~ : {}, ~a~ : 7 } ")
  = Ok (JObject [(lit "a", JInt 7); (lit "b", JObject [])]).
Proof. vm_compute. reflexivity. Qed.
Example loads_list_example :
  json_loads (quoted "[-2.50e+1, ~\u00E9\ud83d\ude00~, 1e999, -0]")
  = Ok (JList [JFloat (Finite true 7036874417766400 (-48)); JString [0xE9; 0x1F600]; JFloat (Infinity false); JInt 0]).
Proof. vm_compute. reflexivity. Qed.
(** A text that nests too deep *)
Example loads_deep :
  json_loads (replicate 990 0x5B ++ replicate 990 0x5D) ≠ Err RecursionError ∧
  json_loads (replicate 991 0x5B) = Err RecursionError.
Proof. vm_compute. split; [discriminate|reflexivity]. Qed.
Example loads_errors :
  forallb (λ s, negb (is_ok (json_loads (quoted s)))) ["01"; "[1,]"; "{1:2}"; "~\x~"; "-"; "[1"; "nul"; ""; "1."]%string = true.
Proof. vm_compute. reflexivity. Qed.

(** ** Integers from JSON *)

(** [int(value)] of a JSON value: floats are cut off *)
Definition int_of_float (x : float) : result exc Z :=
  match x with
  | Finite negative m e => mret (signed negative (if 0 <=? e then m * 2 ^ e else m / 2 ^ (- e)))
  | Infinity _ => Err OverflowError
  | NaN => Err (ValueError (lit "cannot convert float NaN to integer"))
  end.

Definition int_of_json `{Unicode} (v : json_value) : result exc Z :=
  match v with
  | JInt n => mret n
  | JBool b => mret (Z.b2z b)
  | JFloat x => int_of_float x
  | JString s => or_value_error (int_of_str s)
  | JNull | JList _ | JObject _ => Err TypeError
  end.

Example int_of_float_examples : int_of_float (float_of_decimal true 25 (-1)) = Ok (-2) ∧ int_of_float (float_of_decimal false 1 3) = Ok 1000.
Proof. split; vm_compute; reflexivity. Qed.

(** ** The parser ends *)

(** A scanner's outcome: something was read, [JSONDecodeError], or
    [RecursionError] where the text is longer than what may be entered *)
Definition advances_within {A} (depth : nat) (s : str) (r : result exc (A * str)) : Prop :=
  match r with
  | Ok (_, rest) => (length rest < length s)%nat
  | Err e => is_ValueError e = true ∨ e = RecursionError ∧ (depth < length s)%nat
  end.

(** A scanner that enters nothing *)
Definition advances {A} (s : str) (r : result exc (A * str)) : Prop :=
  match r with Ok (_, rest) => (length rest < length s)%nat | Err e => is_ValueError e = true end.

Lemma advances_enters {A} depth s (r : result exc (A * str)) : advances s r → advances_within depth s r.
Proof. destruct r as [[a rest]|e]; cbn; auto. Qed.

Lemma within_mono {A} depth depth' s s' (r : result exc (A * str)) :
  (length s ≤ length s')%nat → (length s - depth ≤ length s' - depth')%nat →
  advances_within depth s r → advances_within depth' s' r.
Proof. destruct r as [[a rest]|e]; cbn; [lia|]. intros ?? [?|[-> ?]]; [by left|right]. split; [done|lia]. Qed.

Lemma within_bind {A B} depth s s' (r : result exc (A * str)) (f : A * str → result exc (B * str)) :
  advances_within depth s r → (length s ≤ length s')%nat →
  (∀ a rest, (length rest < length s)%nat → advances_within depth s' (f (a, rest))) →
  advances_within depth s' (r ≫= f).
Proof.
  destruct r as [[a rest]|e]; cbn; [intros Hr Hs Hf; by apply Hf|].
  intros [?|[-> ?]] ? _; [by left|right]. split; [done|lia].
Qed.

Lemma advances_mono {A} s s' (r : result exc (A * str)) :
  (length s ≤ length s')%nat → advances s r → advances s' r.
Proof. destruct r as [[a rest]|e]; cbn; [lia|done]. Qed.

Lemma length_drop_while P s : (length (drop_while P s) ≤ length s)%nat.
Proof. induction s as [|c s IH]; cbn; [done|]. destruct (P c); cbn; lia. Qed.

Lemma low_escape_length s v s' : low_escape s = Some (v, s') → (length s' < length s)%nat.
Proof.
  destruct s as [|x [|y [|a [|b [|c [|d s]]]]]]; try done. cbn [low_escape].
  destruct (_ && _); [|done]. intros [= _ <-]. cbn. lia.
Qed.

Lemma scan_string_advances fuel acc s : (length s < fuel)%nat → advances s (scan_string fuel acc s).
Proof.
  revert acc s. induction fuel as [|fuel IH]; intros acc s Hf; [lia|]. cbn [scan_string].
  destruct s as [|c s]; [done|]. cbn [length] in *.
  assert (∀ acc t, (length t ≤ length s)%nat → advances (c :: s) (scan_string fuel acc t)) as Hrec.
  { intros acc' t Ht. eapply advances_mono; [|apply IH; lia]. cbn. lia. }
  destruct (c =? quote); [cbn; lia|].
  destruct (c =? backslash); [|destruct (c <? 0x20); [done|by apply Hrec]].
  destruct s as [|e s]; [done|]. destruct (e =? 117).
  - destruct s as [|h1 [|h2 [|h3 [|h4 s]]]]; try done. destruct (hex4 h1 h2 h3 h4) as [u|]; [|done].
    destruct (is_high u).
    + destruct (low_escape s) as [[[low|] s']|] eqn:Hl; [|done|apply Hrec; cbn; lia].
      apply low_escape_length in Hl. destruct (is_low low); apply Hrec; cbn; lia.
    + apply Hrec. cbn. lia.
  - destruct (simple_escape e); [|done]. apply Hrec. cbn. lia.
Qed.

Lemma parse_string_advances s : advances s (parse_string s).
Proof. apply scan_string_advances. lia. Qed.

Lemma scan_integer_length s w r : scan_integer s = Some (w, r) → (length r < length s)%nat.
Proof.
  destruct s as [|c s]; [done|]. cbn [scan_integer]. destruct (c =? 48); [intros [= _ <-]; cbn; lia|].
  destruct (is_digit c) eqn:Hc; [|done]. intros [= _ <-]. cbn [drop_while]. rewrite Hc.
  pose proof (length_drop_while is_digit s). cbn. lia.
Qed.

Lemma scan_fraction_length s w r : scan_fraction s = (w, r) → (length r ≤ length s)%nat.
Proof.
  destruct s as [|c s]; cbn [scan_fraction]; [by intros [= _ <-]|].
  destruct (_ && _); intros [= _ <-]; [|done]. pose proof (length_drop_while is_digit s). cbn. lia.
Qed.

Lemma scan_exponent_length s w r : scan_exponent s = (w, r) → (length r ≤ length s)%nat.
Proof.
  destruct s as [|c s]; cbn [scan_exponent]; [by intros [= _ <-]|].
  destruct (_ || _); [|by intros [= _ <-]].
  assert (∃ n t, match s with
    | d :: t => if d =? 45 then (true, t) else if d =? 43 then (false, t) else (false, s)
    | [] => (false, s) end = (n, t) ∧ (length t ≤ length s)%nat) as (n & t & -> & Ht).
  { destruct s as [|d t]; [eauto|]. destruct (d =? 45), (d =? 43); eexists _, _; (split; [done|]); cbn; lia. }
  case_bool_decide; intros [= _ <-]; [|done]. pose proof (length_drop_while is_digit t). cbn. lia.
Qed.

Lemma scan_unsigned_length sign s v r : scan_unsigned sign s = Some (v, r) → (length r < length s)%nat.
Proof.
  unfold scan_unsigned. destruct (scan_integer s) as [[w s1]|] eqn:H1; [|done]. cbn [mbind option_bind].
  destruct (scan_fraction s1) as [f s2] eqn:H2, (scan_exponent s2) as [e s3] eqn:H3. intros [= _ <-].
  apply scan_integer_length in H1. apply scan_fraction_length in H2. apply scan_exponent_length in H3. lia.
Qed.

Lemma scan_constant_length s v r : scan_constant s = Some (v, r) → (length r < length s)%nat.
Proof.
  unfold scan_constant. destruct (List.find _ constants) as [[word v']|] eqn:Hf; [|done].
  intros [= _ <-]. apply find_some in Hf as [Hin Hs]. cbn [fst] in Hs.
  assert ((0 < length word)%nat) as Hw.
  { assert (Forall (λ e : str * json_value, (0 < length e.1)%nat) constants) as Hc by (repeat constructor; cbn; lia).
    rewrite List.Forall_forall in Hc. exact (Hc _ Hin). }
  destruct s as [|c s]; [by destruct word|]. rewrite length_drop. cbn in *. lia.
Qed.

Lemma scan_atom_advances s : advances s (scan_atom s).
Proof.
  unfold scan_atom. destruct (scan_constant s) as [[v r]|] eqn:Hc; [by apply scan_constant_length in Hc|].
  destruct (scan_number s) as [[v r]|] eqn:Hn; [|done]. unfold scan_number in Hn.
  destruct s as [|c s]; [done|]. destruct (c =? 45); apply scan_unsigned_length in Hn; cbn in *; lia.
Qed.

Lemma parse_advances fuel :
  (∀ depth s, (2 * length s < fuel)%nat → advances_within depth s (parse_value fuel depth s)) ∧
  (∀ depth items s, (S (2 * length s) < fuel)%nat → advances_within depth s (parse_items fuel depth items s)) ∧
  (∀ depth members s, (S (2 * length s) < fuel)%nat → advances_within depth s (parse_members fuel depth members s)).
Proof.
  induction fuel as [|fuel (IHv & IHi & IHm)]; [split_and!; intros; lia|]. split_and!.
  - intros depth s Hf. cbn [parse_value]. destruct s as [|c s]; [by left|]. cbn [length] in Hf.
    pose proof (length_drop_while is_json_space s) as Hsp. fold skip_space in Hsp.
    destruct (c =? quote).
    { eapply within_bind; [apply advances_enters, parse_string_advances|cbn; lia|]. intros a rest Hr. cbn. lia. }
    destruct (c =? 0x5B); [|destruct (c =? 0x7B); [|apply advances_enters, scan_atom_advances]];
      (destruct depth as [|depth]; [right; split; [done|cbn; lia]|]);
      (destruct (skip_space s) as [|d t]; [by left|]); cbn [length] in Hsp;
      (case_match; [cbn; lia|]).
    + eapply (within_mono depth _ (d :: t)); [..|apply IHi; cbn; lia]; cbn; lia.
    + eapply (within_mono depth _ (d :: t)); [..|apply IHm; cbn; lia]; cbn; lia.
  - intros depth items s Hf. cbn [parse_items]. eapply within_bind; [apply IHv; lia|done|].
    intros v rest Hr. pose proof (length_drop_while is_json_space rest) as Hsp. fold skip_space in Hsp.
    destruct (skip_space rest) as [|c t]; [by left|]. cbn [length] in Hsp. destruct (c =? 0x5D); [cbn; lia|].
    destruct (c =? 44); [|by left]. pose proof (length_drop_while is_json_space t) as Ht. fold skip_space in Ht.
    eapply within_mono; [..|apply IHi; lia]; lia.
  - intros depth members s Hf. cbn [parse_members]. destruct s as [|c s]; [by left|]. cbn [length] in Hf.
    destruct (c =? quote); [|by left]. eapply within_bind; [apply advances_enters, parse_string_advances|cbn; lia|].
    intros key rest Hr. pose proof (length_drop_while is_json_space rest) as Hsp. fold skip_space in Hsp.
    destruct (skip_space rest) as [|d t]; [by left|]. cbn [length] in Hsp. destruct (d =? 58); [|by left].
    pose proof (length_drop_while is_json_space t) as Ht. fold skip_space in Ht.
    eapply within_bind; [apply IHv; lia|cbn; lia|]. intros v rest' Hr'.
    pose proof (length_drop_while is_json_space rest') as Hsp'. fold skip_space in Hsp'.
    destruct (skip_space rest') as [|e t']; [by left|]. cbn [length] in Hsp'. destruct (e =? 0x7D); [cbn; lia|].
    destruct (e =? 44); [|by left]. pose proof (length_drop_while is_json_space t') as Ht'. fold skip_space in Ht'.
    eapply within_mono; [..|apply IHm; lia]; cbn; lia.
Qed.

(** Every text is a value or a [JSONDecodeError], unless it is so long that it may
    nest deeper than the interpreter lets it. *)
Lemma json_loads_raises `{Interpreter} text :
  raises (λ e, is_ValueError e = true ∨ e = RecursionError ∧ (json_depth < length text)%nat) (json_loads text).
Proof.
  unfold json_loads. destruct (starts_with _ _); [by intros e [= <-]; left|].
  pose proof (length_drop_while is_json_space text) as Hsp. fold skip_space in Hsp.
  apply raises_bind.
  - destruct (parse_advances (2 * S (length (skip_space text)))) as (Hp & _).
    specialize (Hp json_depth (skip_space text) ltac:(lia)). intros e He. rewrite He in Hp.
    destruct Hp as [?|[-> ?]]; [by left|right]. split; [done|lia].
  - intros [v rest] e. destruct (skip_space rest); [done|]. intros [= <-]. by left.
Qed.

Lemma int_of_json_raises `{Unicode} v :
  raises (λ e, is_ValueError e = true ∨ e = TypeError ∨ e = OverflowError) (int_of_json v).
Proof.
  destruct v as [|b|n|[m x|neg|]|s|l|ms]; cbn; intros e; try done; try (intros [= <-]; auto).
  destruct (int_of_str s); [done|]. intros [= <-]. auto.
Qed.
