(* ===== verification/JsonRoundTrip.v ===== *)
(** * Written JSON is read back

    [json_loads] inverts [dumps] and [dumps_indented]: the cache and the
    printed reports hold exactly the documents they were made from. *)
From stdpp Require Import base tactics numbers list strings.
From S2P Require Import Prelude PyData Struct Text StrOps Floats Errors Json JsonParse.

(** ** Documents that have a text of their own

    Texts without lone surrogates, and no key twice in an object. *)
Fixpoint doc_ok (v : json) : Prop :=
  match v with
  | JString s => str_scalar s
  | JList items => List.fold_right (λ v P, doc_ok v ∧ P) True items
  | JObject members =>
      NoDup members.*1 ∧ List.fold_right (λ e P, (str_scalar e.1 ∧ doc_ok e.2) ∧ P) True members
  | _ => True
  end.

(** ** Strings *)

Lemma hex_value_digit d : 0 <= d < 16 → hex_value (hex_digit d) = Some d.
Proof.
  intros Hd. unfold hex_value, hex_digit, is_digit. destruct (Z.ltb_spec d 10).
  - replace ((48 <=? 48 + d) && (48 + d <=? 57)) with true by lia. f_equal. lia.
  - replace ((48 <=? 87 + d) && (87 + d <=? 57)) with false by lia.
    replace ((97 <=? 87 + d) && (87 + d <=? 102)) with true by lia. f_equal. lia.
Qed.

Lemma hex4_fixed v :
  0 <= v < 0x10000 → ∃ a b c d, hex_fixed 4 v = [a; b; c; d] ∧ hex4 a b c d = Some v.
Proof.
  intros Hv. do 4 eexists. split; [reflexivity|]. unfold hex4.
  rewrite !hex_value_digit by (apply Z.mod_pos_bound; lia). cbn [mbind option_bind]. f_equal.
  change (16 ^ Z.of_nat 3) with 4096. change (16 ^ Z.of_nat 2) with 256.
  change (16 ^ Z.of_nat 1) with 16. change (16 ^ Z.of_nat 0) with 1. rewrite Z.div_1_r.
  pose proof (Z.div_mod v 16 ltac:(lia)). pose proof (Z.div_mod (v / 16) 16 ltac:(lia)).
  pose proof (Z.div_mod (v / 16 / 16) 16 ltac:(lia)).
  replace (v / 4096) with (v / 16 / 16 / 16) by (rewrite !Z.div_div by lia; done).
  replace (v / 256) with (v / 16 / 16) by (rewrite !Z.div_div by lia; done).
  rewrite (Z.mod_small (v / 16 / 16 / 16)); [lia|].
  split; [repeat apply Z.div_pos; lia|]. rewrite !Z.div_div by lia. apply Z.div_lt_upper_bound; lia.
Qed.

Lemma escape_u_cons v : 0 <= v < 0x10000 →
  ∃ a b c d, escape_u v = [backslash; 117; a; b; c; d] ∧ hex4 a b c d = Some v.
Proof.
  intros (a & b & c & d & E & H)%hex4_fixed. exists a, b, c, d. split; [|done].
  unfold escape_u. by rewrite E.
Qed.

(** The halves of a character outside the basic plane *)
Lemma surrogate_halves c :
  0x10000 <= c < 0x110000 →
  let high := 0xD800 + Z.shiftr (c - 0x10000) 10 in
  let low := 0xDC00 + Z.land (c - 0x10000) 0x3FF in
  is_high high = true ∧ is_low low = true ∧ join_surrogates high low = c.
Proof.
  intros Hc high low. subst high low. unfold is_high, is_low, join_surrogates.
  rewrite Z.shiftr_div_pow2 by lia. change 0x3FF with (Z.ones 10). rewrite Z.land_ones by lia.
  change (2 ^ 10) with 1024. pose proof (Z.div_mod (c - 0x10000) 1024 ltac:(lia)).
  pose proof (Z.mod_pos_bound (c - 0x10000) 1024 ltac:(lia)).
  assert (0 <= (c - 65536) / 1024 < 1024)
    by (split; [apply Z.div_pos; lia|apply Z.div_lt_upper_bound; lia]).
  split_and!; lia.
Qed.

Lemma scan_escape_u fuel acc v t :
  0 <= v < 0x10000 → is_high v = false →
  scan_string (S fuel) acc (escape_u v ++ t) = scan_string fuel (v :: acc) t.
Proof.
  intros (a & b & c & d & -> & H4)%escape_u_cons Hh. cbn [app scan_string].
  change (backslash =? quote) with false. change (backslash =? backslash) with true.
  change (117 =? 117) with true. cbv iota. by rewrite H4, Hh.
Qed.

Lemma scan_escape_pair fuel acc high low t :
  0 <= high < 0x10000 → 0 <= low < 0x10000 → is_high high = true → is_low low = true →
  scan_string (S fuel) acc (escape_u high ++ escape_u low ++ t)
  = scan_string fuel (join_surrogates high low :: acc) t.
Proof.
  intros (a & b & c & d & -> & H4)%escape_u_cons (a' & b' & c' & d' & -> & H4')%escape_u_cons Hh Hl.
  cbn [app scan_string].
  change (backslash =? quote) with false. change (backslash =? backslash) with true.
  change (117 =? 117) with true. cbv iota. rewrite H4, Hh. cbn [low_escape].
  change (backslash =? backslash) with true. change (117 =? 117) with true. cbn [andb].
  by rewrite H4', Hl.
Qed.

(** One character is one step of the scanner. *)
Lemma scan_char fuel acc c t :
  is_scalar c = true → scan_string (S fuel) acc (escape_char c ++ t) = scan_string fuel (c :: acc) t.
Proof.
  intros Hc%is_scalar_spec. unfold escape_char.
  destruct (Z.eqb_spec c quote) as [->|Hq]; [done|].
  destruct (Z.eqb_spec c backslash) as [->|Hb]; [done|].
  destruct (Z.eqb_spec c 10) as [->|]; [done|]. destruct (Z.eqb_spec c 13) as [->|]; [done|].
  destruct (Z.eqb_spec c 9) as [->|]; [done|]. destruct (Z.eqb_spec c 12) as [->|]; [done|].
  destruct (Z.eqb_spec c 8) as [->|]; [done|].
  destruct ((0x20 <=? c) && (c <=? 0x7E)) eqn:Hp.
  - cbn [app scan_string]. rewrite (proj2 (Z.eqb_neq _ _) Hq), (proj2 (Z.eqb_neq _ _) Hb).
    by rewrite (proj2 (Z.ltb_ge c 0x20)) by lia.
  - destruct (Z.ltb_spec c 0x10000); [apply scan_escape_u; [lia|unfold is_high; lia]|].
    destruct (surrogate_halves c ltac:(lia)) as (Hh & Hl & Hj). rewrite <- app_assoc.
    rewrite scan_escape_pair; [by rewrite Hj| | |done|done].
    + unfold is_high in Hh. lia.
    + unfold is_low in Hl. lia.
Qed.

Lemma scan_dumped fuel acc s rest :
  str_scalar s → (length s < fuel)%nat →
  scan_string fuel acc ((s ≫= escape_char) ++ quote :: rest) = Ok (reverse acc ++ s, rest).
Proof.
  intros Hs. revert fuel acc. induction Hs as [|c s Hc Hs IH]; intros [|fuel] acc Hf; cbn [length] in Hf; try lia.
  - cbn. by rewrite app_nil_r.
  - change ((c :: s) ≫= escape_char) with (escape_char c ++ (s ≫= escape_char)).
    rewrite <- app_assoc, scan_char, IH by (done || lia). by rewrite reverse_cons, <- app_assoc.
Qed.

Lemma escape_char_length c : (1 ≤ length (escape_char c))%nat.
Proof. unfold escape_char. repeat case_match; unfold escape_u, lit; cbn; lia. Qed.

Lemma escaped_length s : (length s ≤ length (s ≫= escape_char))%nat.
Proof.
  induction s as [|c s IH]; [done|]. cbn. rewrite length_app. pose proof (escape_char_length c).
  cbn in *. lia.
Qed.

Lemma parse_dump_string s rest :
  str_scalar s → parse_string ((s ≫= escape_char) ++ quote :: rest) = Ok (s, rest).
Proof.
  intros Hs. unfold parse_string. rewrite scan_dumped; [done|done|].
  rewrite length_app. pose proof (escaped_length s). lia.
Qed.

(** ** Numbers *)

(** Text after which a number does not go on *)
Definition stops (rest : str) : Prop :=
  match rest with
  | [] => True
  | c :: _ => is_digit c = false ∧ c ≠ 46 ∧ c ≠ 101 ∧ c ≠ 69
  end.

Lemma take_digits ds rest :
  Forall (λ c, is_digit c = true) ds → stops rest →
  take_while is_digit (ds ++ rest) = ds ∧ drop_while is_digit (ds ++ rest) = rest.
Proof.
  intros Hds Hr. induction Hds as [|c ds Hc Hds [IH1 IH2]].
  - destruct rest as [|c rest]; [done|]. destruct Hr as [Hr _]. cbn. by rewrite Hr.
  - cbn. rewrite Hc. cbn. by rewrite IH1, IH2.
Qed.

(** A positive number's first digit is no zero. *)
Lemma digits_head fuel v acc :
  0 < v < 10 ^ Z.of_nat fuel → ∃ c s, digits 10 fuel v acc = c :: s ∧ 49 <= c <= 57.
Proof.
  revert v acc. induction fuel as [|fuel IH]; intros v acc Hv; [cbn in Hv; lia|]. cbn [digits].
  pose proof (Z.div_mod v 10 ltac:(lia)) as Hdm. pose proof (Z.mod_pos_bound v 10 ltac:(lia)) as Hm.
  destruct (Z.eqb_spec (v / 10) 0) as [E|E].
  - eexists _, _. split; [done|]. unfold hex_digit. destruct (Z.ltb_spec (v mod 10) 10); lia.
  - apply IH. rewrite Nat2Z.inj_succ, Z.pow_succ_r in Hv by lia.
    split; [pose proof (Z.div_pos v 10 ltac:(lia) ltac:(lia)); lia|apply Z.div_lt_upper_bound; lia].
Qed.

Lemma format_nat_head v : 0 < v → ∃ c s, format_nat 10 v = c :: s ∧ 49 <= c <= 57.
Proof.
  intros Hv. unfold format_nat. apply digits_head. split; [done|].
  rewrite Nat2Z.inj_succ, Z2Nat.id by apply Z.log2_nonneg.
  apply (Z.lt_le_trans _ (2 ^ Z.succ (Z.log2 v))); [apply Z.log2_spec; lia|]. apply Z.pow_le_mono_l. lia.
Qed.

Lemma digits_value_eq ds :
  Forall (λ c, is_digit c = true) ds → digits_value_of ds = foldl (λ n c, n * 10 + digit_value c) 0 ds.
Proof.
  unfold digits_value_of. generalize 0. intros acc Hds. revert acc.
  induction Hds as [|c ds Hc Hds IH]; intros acc; [done|]. cbn [foldl]. rewrite <- IH. f_equal. f_equal.
  unfold is_digit, digit_value in *. destruct (Z.ltb_spec c 58); lia.
Qed.

Lemma scan_integer_format v rest :
  0 <= v → stops rest → scan_integer (format_nat 10 v ++ rest) = Some (format_nat 10 v, rest).
Proof.
  intros Hv Hr. destruct (decide (v = 0)) as [->|Hne]; [done|].
  destruct (format_nat_head v ltac:(lia)) as (c & s & E & Hc).
  destruct (format_nat_digits v Hv) as [Hd _]. destruct (take_digits _ _ Hd Hr) as [Ht Hdr].
  rewrite E in *. cbn [app scan_integer] in *. replace (c =? 48) with false by lia.
  replace (is_digit c) with true by (unfold is_digit; lia). by rewrite Ht, Hdr.
Qed.

Lemma scan_unsigned_format sign v rest :
  0 <= v → stops rest → scan_unsigned sign (format_nat 10 v ++ rest) = Some (JInt (sign * v), rest).
Proof.
  intros Hv Hr. unfold scan_unsigned. rewrite scan_integer_format by done. cbn [mbind option_bind].
  assert (scan_fraction rest = ([], rest)) as ->.
  { destruct rest as [|c rest]; [done|]. destruct Hr as (_ & Hr & _). cbn.
    by rewrite (proj2 (Z.eqb_neq _ _) Hr). }
  assert (scan_exponent rest = (None, rest)) as ->.
  { destruct rest as [|c rest]; [done|]. destruct Hr as (_ & _ & H1 & H2). cbn.
    by rewrite (proj2 (Z.eqb_neq _ _) H1), (proj2 (Z.eqb_neq _ _) H2). }
  destruct (format_nat_digits v Hv) as [Hd _].
  rewrite digits_value_eq by done. by rewrite format_nat_value by lia.
Qed.

Lemma constants_text :
  constants =
  [([110; 117; 108; 108], JNull); ([116; 114; 117; 101], JBool true); ([102; 97; 108; 115; 101], JBool false);
   ([78; 97; 78], JFloat NaN); ([73; 110; 102; 105; 110; 105; 116; 121], JFloat (Infinity false));
   ([45; 73; 110; 102; 105; 110; 105; 116; 121], JFloat (Infinity true))].
Proof. reflexivity. Qed.

(** No number begins like a constant. *)
Lemma scan_constant_number c s :
  is_digit c = true → scan_constant (c :: s) = None ∧ scan_constant (45 :: c :: s) = None.
Proof.
  unfold is_digit. intros Hc. unfold scan_constant. rewrite constants_text.
  cbn [List.find starts_with fst].
  split; repeat (match goal with |- context [?n =? c] => replace (n =? c) with false by lia end); done.
Qed.

Lemma scan_dec_string n rest : stops rest → scan_atom (dec_string n ++ rest) = Ok (JInt n, rest).
Proof.
  intros Hr. unfold scan_atom, dec_string. destruct (Z.ltb_spec n 0) as [Hn|Hn].
  - destruct (format_nat_digits (- n) ltac:(lia)) as [Hd Hne].
    pose proof (scan_unsigned_format (-1) (- n) rest ltac:(lia) Hr) as E.
    destruct (format_nat 10 (- n)) as [|c s]; [done|]. inversion Hd; subst.
    change ((lit "-" ++ c :: s) ++ rest) with (45 :: c :: (s ++ rest)).
    rewrite (proj2 (scan_constant_number c (s ++ rest) ltac:(done))). cbn [scan_number].
    change (45 =? 45) with true. cbv iota. change (c :: (s ++ rest)) with ((c :: s) ++ rest). rewrite E.
    unfold mret, result_ret. do 3 f_equal. lia.
  - destruct (format_nat_digits n Hn) as [Hd Hne].
    pose proof (scan_unsigned_format 1 n rest Hn Hr) as E.
    destruct (format_nat 10 n) as [|c s]; [done|]. inversion Hd; subst. cbn [app] in *.
    rewrite (proj1 (scan_constant_number c (s ++ rest) ltac:(done))). cbn [scan_number].
    replace (c =? 45) with false by (unfold is_digit in *; lia). rewrite E.
    unfold mret, result_ret. do 3 f_equal. lia.
Qed.

(** ** Values *)

Lemma skip_spaces ws s : Forall (λ c, is_json_space c = true) ws → skip_space (ws ++ s) = skip_space s.
Proof. induction 1 as [|c ws Hc Hws IH]; [done|]. unfold skip_space in *. cbn. by rewrite Hc. Qed.

Lemma skip_space_id c s : is_json_space c = false → skip_space (c :: s) = c :: s.
Proof. intros Hc. unfold skip_space. cbn. by rewrite Hc. Qed.

Lemma stops_space c s : is_json_space c = true → stops (c :: s).
Proof. unfold is_json_space, stops, is_digit. lia. Qed.

Lemma stops_spaces ws s : Forall (λ c, is_json_space c = true) ws → stops s → stops (ws ++ s).
Proof. intros [|c ws' Hc _] Hs; [done|]. by apply stops_space. Qed.

Section Documents.
(** Layouts: line breaks of white space, a comma perhaps followed by some *)
Context (break : nat → str) (ws : str).
Context (Hbreak : ∀ n, Forall (λ c, is_json_space c = true) (break n)).
Context (Hws : Forall (λ c, is_json_space c = true) ws).

Abbreviation text := (dumps_with break (44 :: ws)).

(** The text of a value begins with no white space and no closing bracket. *)
Lemma text_head level v :
  ∃ c t, text level v = c :: t ∧ is_json_space c = false ∧ c ≠ 0x5D ∧ c < 0x80.
Proof.
  destruct v as [|[]|n|[]|s|items|members]; cbn [dumps_with];
    try (eexists _, _; split; [reflexivity|]; split; [reflexivity|done]).
  unfold dec_string. destruct (Z.ltb_spec n 0) as [Hn|Hn].
  - eexists _, _. split; [reflexivity|]. split; [reflexivity|done].
  - destruct (format_nat_digits n Hn) as [Hd Hne]. destruct (format_nat 10 n) as [|c t]; [done|].
    inversion Hd; subst. exists c, t. unfold is_digit, is_json_space in *. split; [done|]. lia.
Qed.

Definition reads_back (depth : nat) (v : json) : Prop :=
  ∀ level rest fuel, stops rest → (2 * length (text level v ++ rest) < fuel)%nat →
  parse_value fuel depth (text level v ++ rest) = Ok (value_of v, rest).

Lemma skip_to_text level v rest : skip_space (text level v ++ rest) = text level v ++ rest.
Proof. destruct (text_head level v) as (c & t & -> & Hc & _). by apply skip_space_id. Qed.

Lemma join_next (sep p q : str) ps : join sep (p :: q :: ps) = p ++ sep ++ join sep (q :: ps).
Proof. done. Qed.

(** The texts of the items that are left begin where white space ends. *)
Lemma skip_to_items sep level v vs rest :
  skip_space (join sep (List.map (text level) (v :: vs)) ++ rest) = join sep (List.map (text level) (v :: vs)) ++ rest.
Proof.
  destruct vs as [|v' vs]; [apply skip_to_text|]. cbn [List.map].
  rewrite join_next, <- app_assoc. apply skip_to_text.
Qed.

Lemma items_read_back depth v vs level close acc rest fuel :
  Forall (reads_back depth) (v :: vs) → Forall (λ c, is_json_space c = true) close →
  let s := join (44 :: ws ++ break level) (List.map (text level) (v :: vs)) ++ close ++ 0x5D :: rest in
  (S (2 * length s) < fuel)%nat →
  parse_items fuel depth acc s = Ok (JList (acc ++ List.map value_of (v :: vs)), rest).
Proof.
  intros Hall Hclose. revert v acc fuel Hall. induction vs as [|v' vs IH]; intros v acc fuel Hall s Hf; subst s;
    inversion Hall as [|? ? Hv Hvs]; subst; destruct fuel as [|fuel]; try lia; cbn [parse_items].
  - cbn [List.map join] in *. rewrite Hv; [|by apply stops_spaces|lia]. cbn [mbind result_bind].
    rewrite skip_spaces, skip_space_id by done. done.
  - cbn [List.map] in Hf |- *. rewrite join_next in Hf |- *.
    change (text level v' :: List.map (text level) vs) with (List.map (text level) (v' :: vs)) in *.
    set (tail := join _ (List.map (text level) (v' :: vs))) in *.
    replace ((text level v ++ (44 :: ws ++ break level) ++ tail) ++ close ++ 0x5D :: rest)
      with (text level v ++ 44 :: (ws ++ break level ++ (tail ++ close ++ 0x5D :: rest))) in *
      by (cbn; rewrite <- !app_assoc; cbn; by rewrite <- !app_assoc).
    rewrite Hv; [|done|lia]. cbn [mbind result_bind].
    rewrite skip_space_id by done. change (44 =? 0x5D) with false. change (44 =? 44) with true. cbv iota.
    rewrite !skip_spaces by done. subst tail. rewrite skip_to_items.
    rewrite IH; [by rewrite <- app_assoc|done|].
    rewrite !length_app in Hf. cbn [length] in Hf. rewrite !length_app in Hf. cbn [length] in Hf.
    rewrite !length_app. cbn [length]. lia.
Qed.

Definition member_text (level : nat) (e : str * json) : str :=
  dump_string e.1 ++ lit ": " ++ text level e.2.

Definition member_value (e : str * json) : str * json_value := (e.1, value_of e.2).

Lemma member_text_app level e t :
  member_text level e ++ t = quote :: ((e.1 ≫= escape_char) ++ quote :: (58 :: 32 :: (text level e.2 ++ t))).
Proof.
  unfold member_text, dump_string. change (lit ": ") with [58; 32]. rewrite <- !app_assoc.
  by rewrite (app_assoc _ [_; _]).
Qed.

(** One member: its key, the colon, its value and the rest of the members *)
Lemma member_reads_back depth level e acc t fuel :
  str_scalar e.1 → reads_back depth e.2 → stops t → (S (2 * length (member_text level e ++ t)) < S fuel)%nat →
  parse_members (S fuel) depth acc (member_text level e ++ t) =
  match skip_space t with
  | c :: s => if c =? 0x7D then mret (JObject (dict_of (acc ++ [member_value e])), s)
              else if c =? 44 then parse_members fuel depth (acc ++ [member_value e]) (skip_space s)
              else json_error
  | [] => json_error
  end.
Proof.
  intros Hk Hv Ht Hf. rewrite member_text_app in Hf |- *. cbn [parse_members].
  change (quote =? quote) with true. cbv iota. rewrite parse_dump_string by done. cbn [mbind result_bind].
  rewrite (skip_space_id 58) by done. change (58 =? 58) with true. cbv iota.
  change (skip_space (32 :: ?s)) with (skip_space s). rewrite skip_to_text.
  rewrite Hv; [done|done|]. cbn [length] in Hf. rewrite length_app in Hf. cbn [length] in Hf. lia.
Qed.

Lemma skip_to_members sep level e es rest :
  skip_space (join sep (List.map (member_text level) (e :: es)) ++ rest)
  = join sep (List.map (member_text level) (e :: es)) ++ rest.
Proof.
  destruct es as [|e' es]; cbn [List.map]; [|rewrite join_next, <- app_assoc]; cbn [join];
    rewrite member_text_app; by apply skip_space_id.
Qed.

Lemma members_read_back depth e es level close acc rest fuel :
  Forall (λ e, str_scalar e.1 ∧ reads_back depth e.2) (e :: es) → Forall (λ c, is_json_space c = true) close →
  let s := join (44 :: ws ++ break level) (List.map (member_text level) (e :: es)) ++ close ++ 0x7D :: rest in
  (S (2 * length s) < fuel)%nat →
  parse_members fuel depth acc s = Ok (JObject (dict_of (acc ++ List.map member_value (e :: es))), rest).
Proof.
  intros Hall Hclose. revert e acc fuel Hall. induction es as [|e' es IH]; intros e acc fuel Hall s Hf; subst s;
    inversion Hall as [|? ? [Hk Hv] Hes]; subst; destruct fuel as [|fuel]; try lia.
  - cbn [List.map join] in *. rewrite member_reads_back; [|done|done|by apply stops_spaces|lia].
    by rewrite skip_spaces, skip_space_id by done.
  - cbn [List.map] in Hf |- *. rewrite join_next in Hf |- *.
    change (member_text level e' :: List.map (member_text level) es) with (List.map (member_text level) (e' :: es)) in *.
    set (tail := join _ (List.map (member_text level) (e' :: es))) in *.
    replace ((member_text level e ++ (44 :: ws ++ break level) ++ tail) ++ close ++ 0x7D :: rest)
      with (member_text level e ++ 44 :: (ws ++ break level ++ (tail ++ close ++ 0x7D :: rest))) in *
      by (cbn; rewrite <- !app_assoc; cbn; by rewrite <- !app_assoc).
    rewrite member_reads_back; [|done|done|done|lia].
    rewrite skip_space_id by done. change (44 =? 0x7D) with false. change (44 =? 44) with true. cbv iota.
    rewrite !skip_spaces by done. subst tail. rewrite skip_to_members.
    rewrite IH; [by rewrite <- app_assoc|done|].
    rewrite !length_app in Hf. cbn [length] in Hf. rewrite !length_app in Hf. cbn [length] in Hf.
    rewrite !length_app. cbn [length]. lia.
Qed.

(** What the parts begin with *)
Lemma items_head sep level v vs rest :
  ∃ c t, join sep (List.map (text level) (v :: vs)) ++ rest = c :: t ∧ c ≠ 0x5D.
Proof.
  destruct (text_head level v) as (c & t & E & _ & Hc & _).
  destruct vs as [|v' vs]; cbn [List.map]; [cbn [join]|rewrite join_next]; rewrite E; by eexists _, _.
Qed.

Lemma members_head sep level e es rest :
  ∃ t, join sep (List.map (member_text level) (e :: es)) ++ rest = quote :: t.
Proof.
  destruct es as [|e' es]; cbn [List.map]; [cbn [join]|rewrite join_next, <- app_assoc];
    rewrite member_text_app; by eexists.
Qed.

(** A number is read by [scan_atom]. *)
Lemma parse_number n level rest fuel depth :
  stops rest → parse_value (S fuel) depth (text level (JInt n) ++ rest) = Ok (JInt n, rest).
Proof.
  intros Hr. pose proof (scan_dec_string n rest Hr) as Ha. cbn [dumps_with].
  assert (∃ c t, dec_string n ++ rest = c :: t ∧ (is_digit c = true ∨ c = 45)) as (c & t & E & Hc).
  { unfold dec_string. destruct (Z.ltb_spec n 0) as [Hn|Hn]; [by eexists _, _; split; [reflexivity|right]|].
    destruct (format_nat_digits n Hn) as [Hd Hne]. destruct (format_nat 10 n) as [|c t]; [done|].
    inversion Hd; subst. exists c, (t ++ rest). auto. }
  rewrite E in *. cbn [parse_value]. unfold is_digit in Hc.
  replace (c =? quote) with false by (unfold quote; lia).
  replace (c =? 0x5B) with false by lia. replace (c =? 0x7B) with false by lia. exact Ha.
Qed.

(** An opening bracket, a layout of parts, and a closing one *)
Lemma bracketed_cons level p ps rest close :
  bracketed break (44 :: ws) level (p :: ps) ++ close :: rest
  = break (S level) ++ join (44 :: ws ++ break (S level)) (p :: ps) ++ break level ++ close :: rest.
Proof. unfold bracketed. by rewrite <- !app_assoc. Qed.

Lemma all_docs_ok (Q : json → Prop) n items :
  Forall (λ v, doc_ok v → (nesting v <= n)%nat → Q v) items →
  List.fold_right (λ v P, doc_ok v ∧ P) True items → (nesting (JList items) <= S n)%nat → Forall Q items.
Proof.
  intros Hi Hok Hn%le_S_n%list_max_below. apply List.Forall_map in Hn.
  induction Hi as [|v items Hv Hvs IH]; [constructor|]. destruct Hok. inversion Hn; subst. constructor; auto.
Qed.

Lemma all_members_ok (Q : json → Prop) n members :
  Forall (λ e : str * json, doc_ok e.2 → (nesting e.2 <= n)%nat → Q e.2) members →
  List.fold_right (λ e P, (str_scalar e.1 ∧ doc_ok e.2) ∧ P) True members →
  (nesting (JObject members) <= S n)%nat → Forall (λ e, str_scalar e.1 ∧ Q e.2) members.
Proof.
  intros Hi Hok Hn%le_S_n%list_max_below. apply List.Forall_map in Hn.
  induction Hi as [|v items Hv Hvs IH]; [constructor|]. destruct Hok as [[? ?] ?]. inversion Hn; subst.
  constructor; auto.
Qed.

Lemma member_texts level members :
  List.map (λ '(k, v), dump_string k ++ lit ": " ++ text level v) members = List.map (member_text level) members.
Proof. apply List.map_ext. by intros [k v]. Qed.

Lemma member_values members :
  List.map (λ '(k, v), (k, value_of v)) members = List.map member_value members.
Proof. apply List.map_ext. by intros [k v]. Qed.

Lemma documents_read_back : ∀ v depth, doc_ok v → (nesting v <= depth)%nat → reads_back depth v.
Proof.
  induction v as [|b|n|[]|s|items IH|members IH] using json_nested_ind; intros depth Hok Hdepth level rest fuel Hr Hf;
    (destruct fuel as [|fuel]; [lia|]).
  - done.
  - by destruct b.
  - apply parse_number; done.
  - cbn [dumps_with] in *. unfold dump_string in *. rewrite <- !app_assoc in *. cbn [app parse_value] in *.
    change (quote =? quote) with true. cbv iota. by rewrite parse_dump_string.
  - destruct depth as [|depth]; [cbn in Hdepth; lia|].
    assert (Forall (reads_back depth) items) as Hall.
    { apply (all_docs_ok _ depth); [|done|done]. eapply Forall_impl; [exact IH|]. intros v Hv ? ?. by apply Hv. }
    clear Hdepth. cbn [dumps_with value_of] in *.
    change (lit "[") with [0x5B] in *. change (lit "]") with [0x5D] in *. rewrite <- !app_assoc in *.
    cbn [app parse_value] in *.
    change (0x5B =? quote) with false. change (0x5B =? 0x5B) with true. cbv iota.
    destruct items as [|v vs]; [done|]. cbn [List.map] in *. rewrite bracketed_cons in *.
    change (text (S level) v :: List.map (text (S level)) vs) with (List.map (text (S level)) (v :: vs)) in *.
    rewrite skip_spaces, skip_to_items by done.
    destruct (items_head (44 :: ws ++ break (S level)) (S level) v vs (break level ++ 0x5D :: rest)) as (c & t & E & Hc).
    rewrite E, (proj2 (Z.eqb_neq _ _) Hc), <- E. cbn [length] in Hf. rewrite length_app in Hf.
    by rewrite items_read_back by (done || lia).
  - destruct depth as [|depth]; [cbn in Hdepth; lia|]. destruct Hok as [Hnd Hok].
    assert (Forall (λ e, str_scalar e.1 ∧ reads_back depth e.2) members) as Hall.
    { apply (all_members_ok _ depth); [|done|done]. eapply Forall_impl; [exact IH|]. intros v Hv ? ?. by apply Hv. }
    clear Hdepth. cbn [dumps_with value_of] in *.
    change (lit "{") with [0x7B] in *. change (lit "}") with [0x7D] in *. rewrite <- !app_assoc in *.
    cbn [app parse_value] in *.
    change (0x7B =? quote) with false. change (0x7B =? 0x5B) with false. change (0x7B =? 0x7B) with true. cbv iota.
    rewrite member_texts, member_values in *.
    destruct members as [|e es]; [done|]. cbn [List.map] in *. rewrite bracketed_cons in *.
    change (member_text (S level) e :: List.map (member_text (S level)) es) with (List.map (member_text (S level)) (e :: es)) in *.
    rewrite skip_spaces, skip_to_members by done.
    destruct (members_head (44 :: ws ++ break (S level)) (S level) e es (break level ++ 0x7D :: rest)) as (t & E).
    rewrite E. change (quote =? 0x7D) with false. cbv iota. rewrite <- E. cbn [length] in Hf. rewrite length_app in Hf.
    rewrite members_read_back by (done || lia). cbn [app]. rewrite dict_of_NoDup; [done|].
    clear -Hnd. revert Hnd. generalize (e :: es). intros l.
    replace (List.map member_value l).*1 with l.*1; [done|]. induction l; cbn; congruence.
Qed.
End Documents.

(** ** Documents are plain text

    ASCII without carriage returns: writing and reading them as UTF-8 text
    changes nothing. *)
Definition plain (s : str) : Prop := Forall (λ c, (0 <= c < 0x80) ∧ c ≠ 13) s.

Lemma plain_ascii s : plain s → ascii s.
Proof. intros Hs. eapply Forall_impl; [exact Hs|]. by intros c [? _]. Qed.

Lemma plain_app s t : plain s → plain t → plain (s ++ t).
Proof. intros. by apply Forall_app. Qed.

Lemma lit_plain (s : string) :
  forallb (λ a, (Ascii.N_of_ascii a <? 128) && negb (Ascii.N_of_ascii a =? 13))%N (String.list_ascii_of_string s) = true →
  plain (lit s).
Proof.
  unfold lit, plain. induction (String.list_ascii_of_string s) as [|a l IH]; cbn; [constructor|].
  intros [[Ha Hb]%andb_true_iff Hl]%andb_true_iff. apply N.ltb_lt in Ha. apply negb_true_iff, N.eqb_neq in Hb.
  constructor; [lia|by apply IH].
Qed.

#[local] Ltac plain_lit := apply lit_plain; reflexivity.

Lemma hex_fixed_plain n v : plain (hex_fixed n v).
Proof.
  induction n as [|n IH]; cbn [hex_fixed]; constructor; [|done].
  pose proof (Z.mod_pos_bound (v / 16 ^ Z.of_nat n) 16 ltac:(lia)). unfold hex_digit.
  destruct (Z.ltb_spec ((v / 16 ^ Z.of_nat n) mod 16) 10); lia.
Qed.

Lemma dec_string_plain n : plain (dec_string n).
Proof.
  assert (∀ w, 0 <= w → plain (format_nat 10 w)) as Hn.
  { intros w Hw. eapply Forall_impl; [apply (format_nat_digits w Hw)|]. intros c. cbn. unfold is_digit. lia. }
  unfold dec_string. destruct (Z.ltb_spec n 0); [|by apply Hn]. apply plain_app; [plain_lit|apply Hn; lia].
Qed.

Lemma escape_u_plain c : plain (escape_u c).
Proof. apply plain_app; [plain_lit|apply hex_fixed_plain]. Qed.

Lemma escape_char_plain c : plain (escape_char c).
Proof.
  unfold escape_char. repeat case_match; try plain_lit; try apply escape_u_plain.
  - repeat constructor; discriminate.
  - repeat constructor; discriminate.
  - constructor; [lia|constructor].
  - apply plain_app; apply escape_u_plain.
Qed.

Lemma dump_string_plain s : plain (dump_string s).
Proof.
  unfold dump_string. apply plain_app; [repeat constructor; discriminate|].
  apply plain_app; [|repeat constructor; discriminate].
  induction s as [|c s IH]; [constructor|]. apply plain_app; [apply escape_char_plain|done].
Qed.

Lemma join_plain sep parts : plain sep → Forall plain parts → plain (join sep parts).
Proof.
  intros Hsep. induction 1 as [|p parts Hp Hps IH]; [constructor|]. cbn [join].
  destruct parts; [done|]. by apply plain_app, plain_app.
Qed.

Lemma bracketed_plain break comma level parts :
  (∀ n, plain (break n)) → plain comma → Forall plain parts → plain (bracketed break comma level parts).
Proof.
  intros Hb Hc Hp. unfold bracketed. destruct parts; [constructor|].
  apply plain_app; [apply Hb|]. apply plain_app; [|apply Hb].
  apply join_plain; [|done]. by apply plain_app.
Qed.

Lemma dumps_with_plain break comma level v :
  (∀ n, plain (break n)) → plain comma → plain (dumps_with break comma level v).
Proof.
  intros Hb Hc. revert level.
  induction v as [|[]|n|[]|s|items IH|members IH] using json_nested_ind; intros level; cbn [dumps_with].
  1-3: plain_lit.
  - apply dec_string_plain.
  - apply dump_string_plain.
  - apply plain_app; [plain_lit|]. apply plain_app; [|plain_lit].
    apply bracketed_plain; [done|done|]. induction IH; cbn; constructor; auto.
  - apply plain_app; [plain_lit|]. apply plain_app; [|plain_lit].
    apply bracketed_plain; [done|done|].
    induction IH as [|[k v] members Hv IH IHm]; cbn [List.map]; constructor; [|done].
    apply plain_app; [apply dump_string_plain|]. apply plain_app; [plain_lit|apply Hv].
Qed.

Lemma dumps_plain v : plain (dumps v).
Proof. apply dumps_with_plain; [constructor|plain_lit]. Qed.

Lemma newlines_plain s : plain s → universal_newlines s = s.
Proof.
  induction 1 as [|c s [_ Hc] Hs IH]; [done|]. cbn [universal_newlines].
  by rewrite (proj2 (Z.eqb_neq _ _) Hc), IH.
Qed.

Lemma decode_strict_plain s : plain s → utf8_decode_strict (utf8_encode s) = Some s.
Proof.
  intros Hs%plain_ascii%ascii_scalar. unfold utf8_decode_strict. rewrite utf8_decode_encode by done.
  by rewrite bool_decide_true.
Qed.

(** ** The round trip *)

Section RoundTrip.
Context `{Interpreter}.

Lemma loads_text break ws v after :
  (∀ n, Forall (λ c, is_json_space c = true) (break n)) → Forall (λ c, is_json_space c = true) ws →
  Forall (λ c, is_json_space c = true) after → doc_ok v → (nesting v <= 16)%nat →
  json_loads (dumps_with break (44 :: ws) 0 v ++ after) = Ok (value_of v).
Proof.
  intros Hb Hws Ha Hok Hn. unfold json_loads.
  assert (nesting v <= json_depth)%nat as Hdepth by (pose proof json_depth_enough; lia).
  pose proof (documents_read_back break ws Hb Hws v json_depth Hok Hdepth 0%nat after) as Hv.
  pose proof (skip_to_text break ws 0%nat v after) as Hskip.
  destruct (starts_with [0xFEFF] _) eqn:Hbom.
  - exfalso. destruct (text_head break ws 0 v) as (c & t & E & _ & _ & Hc).
    rewrite E in Hbom. cbn [app starts_with] in Hbom. lia.
  - rewrite Hskip, Hv; [|by rewrite <- (app_nil_r after); apply stops_spaces|lia].
    cbn [mbind result_bind]. rewrite <- (app_nil_r after), skip_spaces by done. done.
Qed.

(** What [json.dump] writes, [json.load] reads. *)
Lemma loads_dumps v : doc_ok v → (nesting v <= 16)%nat → json_loads (dumps v) = Ok (value_of v).
Proof.
  intros Hok Hn. rewrite <- (app_nil_r (dumps v)). change (lit ", ") with (44 :: [32]) in *.
  apply (loads_text (λ _, []) [32]); [constructor|by repeat constructor|constructor|done|done].
Qed.

Lemma loads_dumps_indented v :
  doc_ok v → (nesting v <= 16)%nat → json_loads (dumps_indented v ++ [10]) = Ok (value_of v).
Proof.
  intros Hok Hn. apply (loads_text newline []); [|constructor|by repeat constructor|done|done].
  intros n. unfold newline. constructor; [done|]. apply Forall_replicate. done.
Qed.
End RoundTrip.

