(* ===== verification/Protocol.v ===== *)
(** * The session protocol between Collector and Agent

    [capture/collector/src/pydump/protocol.py]: frame kinds, the codecs of the
    frame payloads, bulk batches, and the framed socket. *)
From stdpp Require Import base tactics numbers list strings.
From Stdlib Require Import Strings.Byte.
From S2P Require Import Prelude PyData Struct Text Errors.

(** ** Constants *)

Definition MAGIC : bytes := [x50; x59; x44; x50].
Definition VERSION : Z := 2.
Definition NONCE_SIZE : nat := 16.
Definition MAX_PAYLOAD : Z := Z.shiftl 1 20.
Definition ADDRESS_SIZE : nat := 8.
Definition BULK_PAYLOAD_SIZE : Z := Z.shiftl 32 10.

Definition _HEADER : format := [Fs 4; FB; FB; FH; FI].
Definition _RECORD_HEADER : format := [FB; FI].
Definition _HELLO : format := [FB; FB; FB; FB; Fs 16].
Definition _OPTIONS : format := [Fi; FB].
Definition _OBJECT_BEGIN : format := [FQ; FQ; FI; FB; FH].

(** ** Frame kinds *)

Inductive FrameKind :=
| HELLO | HELLO_ACK | WELL_KNOWN | ROOT_BATCH | ROOTS_DONE | REQUEST_OBJECTS
| OBJECT_BEGIN | REFERENTS | SEQUENCE_CONTENT | DICT_CONTENT | ATTRIBUTES | PREVIEW
| OBJECT_END | BATCH_DONE | FINISH | COMPLETE | ERROR | WARNING | CANCEL | BULK_BATCH.

#[export] Instance FrameKind_eq_dec : EqDecision FrameKind.
Proof. solve_decision. Defined.

(** The member's integer value *)
Definition kind_value (k : FrameKind) : Z :=
  match k with
  | HELLO => 1 | HELLO_ACK => 2 | WELL_KNOWN => 3 | ROOT_BATCH => 4 | ROOTS_DONE => 5
  | REQUEST_OBJECTS => 6 | OBJECT_BEGIN => 7 | REFERENTS => 8 | SEQUENCE_CONTENT => 9
  | DICT_CONTENT => 10 | ATTRIBUTES => 11 | PREVIEW => 12 | OBJECT_END => 13
  | BATCH_DONE => 14 | FINISH => 15 | COMPLETE => 16 | ERROR => 17 | WARNING => 18
  | CANCEL => 19 | BULK_BATCH => 20
  end.

(** [FrameKind(raw)]; [None] is [ValueError] *)
Definition kind_of (raw : Z) : option FrameKind :=
  match raw with
  | 1 => Some HELLO | 2 => Some HELLO_ACK | 3 => Some WELL_KNOWN | 4 => Some ROOT_BATCH
  | 5 => Some ROOTS_DONE | 6 => Some REQUEST_OBJECTS | 7 => Some OBJECT_BEGIN
  | 8 => Some REFERENTS | 9 => Some SEQUENCE_CONTENT | 10 => Some DICT_CONTENT
  | 11 => Some ATTRIBUTES | 12 => Some PREVIEW | 13 => Some OBJECT_END
  | 14 => Some BATCH_DONE | 15 => Some FINISH | 16 => Some COMPLETE | 17 => Some ERROR
  | 18 => Some WARNING | 19 => Some CANCEL | 20 => Some BULK_BATCH
  | _ => None
  end.

(** [kind.name] *)
Definition kind_name (k : FrameKind) : str :=
  match k with
  | HELLO => lit "HELLO" | HELLO_ACK => lit "HELLO_ACK" | WELL_KNOWN => lit "WELL_KNOWN"
  | ROOT_BATCH => lit "ROOT_BATCH" | ROOTS_DONE => lit "ROOTS_DONE"
  | REQUEST_OBJECTS => lit "REQUEST_OBJECTS" | OBJECT_BEGIN => lit "OBJECT_BEGIN"
  | REFERENTS => lit "REFERENTS" | SEQUENCE_CONTENT => lit "SEQUENCE_CONTENT"
  | DICT_CONTENT => lit "DICT_CONTENT" | ATTRIBUTES => lit "ATTRIBUTES"
  | PREVIEW => lit "PREVIEW" | OBJECT_END => lit "OBJECT_END" | BATCH_DONE => lit "BATCH_DONE"
  | FINISH => lit "FINISH" | COMPLETE => lit "COMPLETE" | ERROR => lit "ERROR"
  | WARNING => lit "WARNING" | CANCEL => lit "CANCEL" | BULK_BATCH => lit "BULK_BATCH"
  end.

Definition _BULK_RECORD_KINDS : list FrameKind :=
  [ROOT_BATCH; OBJECT_BEGIN; REFERENTS; SEQUENCE_CONTENT; DICT_CONTENT; ATTRIBUTES;
   PREVIEW; OBJECT_END; WARNING].

(** ** Data *)

Record Frame := mkFrame { kind : FrameKind; payload : bytes }.

Record Hello := mkHello {
  python_major : Z;
  python_minor : Z;
  pointer_size : Z;
  little_endian : bool;
  nonce : bytes;
}.

Record ObjectBegin := mkObjectBegin {
  address : Z;
  type_address : Z;
  shallow_size : Z;
  content_kind : Z;
  type_name : str;
}.

Record SocketStats := mkSocketStats {
  sent_bytes : Z;
  received_bytes : Z;
  sent_frames : Z;
  received_frames : Z;
  received_records : Z;
}.

Definition new_stats : SocketStats := mkSocketStats 0 0 0 0 0.

(** ** Bulk batches *)

Definition encode_record (record : Frame) : result exc bytes :=
  if decide (kind record ∈ _BULK_RECORD_KINDS) then
    header ← or_struct_error
               (pack _RECORD_HEADER (kind_value (kind record), (blen (payload record), tt)));
    mret (header ++ payload record)
  else Err (ProtocolError (kind_name (kind record) ++ lit " is not a bulk record")).

Fixpoint encode_records (records : list Frame) : result exc bytes :=
  match records with
  | [] => mret []
  | record :: records =>
      wire ← encode_record record; rest ← encode_records records; mret (wire ++ rest)
  end.

Definition encode_bulk_batch (records : list Frame) : result exc bytes :=
  payload ← encode_records records;
  if MAX_PAYLOAD <? blen payload
  then Err (ProtocolError (lit "BULK_BATCH payload exceeds " ++ dec_string MAX_PAYLOAD ++ lit " bytes"))
  else mret payload.

(** One turn of the [while offset < len(payload)] loop; the new offset. *)
Definition decode_record (payload : bytes) (offset : nat) : result exc (Frame * nat) :=
  if (length payload - offset <? calcsize _RECORD_HEADER)%nat
  then Err (ProtocolError (lit "BULK_BATCH ends in a partial record header"))
  else
    '(raw_kind, (record_size, _)) ← or_struct_error (unpack_from _RECORD_HEADER payload offset);
    let offset := (offset + calcsize _RECORD_HEADER)%nat in
    if blen payload <? Z.of_nat offset + record_size
    then Err (ProtocolError (lit "BULK_BATCH ends in a partial record payload"))
    else match kind_of raw_kind with
         | None => Err (ProtocolError (lit "BULK_BATCH contains unknown record kind "
                                       ++ dec_string raw_kind))
         | Some kind =>
             if decide (kind ∈ _BULK_RECORD_KINDS) then
               let size := Z.to_nat record_size in
               mret (mkFrame kind (take size (drop offset payload)), (offset + size)%nat)
             else
               Err (ProtocolError (lit "BULK_BATCH contains invalid record " ++ kind_name kind))
         end.

Fixpoint decode_records (fuel : nat) (payload : bytes) (offset : nat) : result exc (list Frame) :=
  match fuel with
  | O => Err OutOfFuel
  | S fuel =>
      if (offset <? length payload)%nat then
        '(record, offset) ← decode_record payload offset;
        records ← decode_records fuel payload offset;
        mret (record :: records)
      else mret []
  end.

(** Every turn advances the offset, so one turn per byte is enough. *)
Definition decode_bulk_batch (payload : bytes) : result exc (list Frame) :=
  decode_records (S (length payload)) payload 0.

(** ** Payload codecs *)

Definition encode_hello (hello : Hello) : result exc bytes :=
  if (length (nonce hello) =? NONCE_SIZE)%nat then
    or_struct_error (pack _HELLO (python_major hello, (python_minor hello,
      (pointer_size hello, (Z.b2z (little_endian hello), (nonce hello, tt))))))
  else Err (ProtocolError (lit "session nonce must contain " ++ dec_string (Z.of_nat NONCE_SIZE)
                           ++ lit " bytes")).

Definition decode_hello (payload : bytes) : result exc Hello :=
  if (length payload =? calcsize _HELLO)%nat then
    '(major, (minor, (pointer_size, (little_endian, (nonce, _))))) ←
      or_struct_error (unpack _HELLO payload);
    if (little_endian =? 0) || (little_endian =? 1)
    then mret (mkHello major minor pointer_size (negb (little_endian =? 0)) nonce)
    else Err (ProtocolError (lit "HELLO has invalid byte order marker "
                             ++ dec_string little_endian))
  else Err (ProtocolError (lit "HELLO has invalid length " ++ dec_string (blen payload))).

Definition encode_options (str_repr_len : Z) (dump_attributes : bool) : result exc bytes :=
  or_struct_error (pack _OPTIONS (str_repr_len, (Z.b2z dump_attributes, tt))).

Definition decode_options (payload : bytes) : result exc (Z * bool) :=
  if (length payload =? calcsize _OPTIONS)%nat then
    '(str_repr_len, (dump_attributes, _)) ← or_struct_error (unpack _OPTIONS payload);
    if (dump_attributes =? 0) || (dump_attributes =? 1)
    then mret (str_repr_len, negb (dump_attributes =? 0))
    else Err (ProtocolError (lit "HELLO_ACK has invalid attribute marker"))
  else Err (ProtocolError (lit "HELLO_ACK has invalid length " ++ dec_string (blen payload))).

(** [struct.pack(f"!{n}Q", *addresses)] *)
Fixpoint encode_addresses (addresses : list Z) : result exc bytes :=
  match addresses with
  | [] => mret []
  | a :: addresses =>
      b ← or_struct_error (pack [FQ] (a, tt)); bs ← encode_addresses addresses; mret (b ++ bs)
  end.

(** [struct.unpack(f"!{count}Q", payload)] *)
Fixpoint unpack_addresses (count : nat) (payload : bytes) : list Z :=
  match count with
  | O => []
  | S count => be_decode (take ADDRESS_SIZE payload)
               :: unpack_addresses count (drop ADDRESS_SIZE payload)
  end.

Definition decode_addresses (payload : bytes) : result exc (list Z) :=
  if (length payload mod ADDRESS_SIZE =? 0)%nat
  then mret (unpack_addresses (length payload / ADDRESS_SIZE) payload)
  else Err (ProtocolError (lit "address batch has invalid length " ++ dec_string (blen payload))).

(** [zip(addresses[::2], addresses[1::2])] *)
Fixpoint pair_up (addresses : list Z) : list (Z * Z) :=
  match addresses with
  | k :: v :: rest => (k, v) :: pair_up rest
  | _ => []
  end.

Definition decode_dict_entries (payload : bytes) : result exc (list (Z * Z)) :=
  addresses ← decode_addresses payload;
  if (length addresses mod 2 =? 0)%nat then mret (pair_up addresses)
  else Err (ProtocolError (lit "dictionary batch has an odd address count")).

Definition decode_object_begin (payload : bytes) : result exc ObjectBegin :=
  if (length payload <? calcsize _OBJECT_BEGIN)%nat
  then Err (ProtocolError (lit "OBJECT_BEGIN has invalid length " ++ dec_string (blen payload)))
  else
    '(address, (type_address, (size, (content_kind, (name_size, _))))) ←
      or_struct_error (unpack_from _OBJECT_BEGIN payload 0);
    let type_name_bytes := drop (calcsize _OBJECT_BEGIN) payload in
    if blen type_name_bytes =? name_size
    then mret (mkObjectBegin address type_address size content_kind (utf8_decode type_name_bytes))
    else Err (ProtocolError (lit "OBJECT_BEGIN type name length does not match payload")).

Definition encode_object_begin (begin : ObjectBegin) : result exc bytes :=
  let name := utf8_encode (type_name begin) in
  let name := if 0xFFFF <? blen name then take (Z.to_nat 0xFFFF) name else name in
  header ← or_struct_error (pack _OBJECT_BEGIN
    (address begin, (type_address begin, (shallow_size begin, (content_kind begin,
      (blen name, tt))))));
  mret (header ++ name).

Definition decode_text (payload : bytes) : str := utf8_decode payload.

(** ** The framed socket *)

(** What one [recv] can report: some bytes (none of them: the peer closed),
    or an [OSError], the timeout among them. *)
Inductive sock_event := Delivered (chunk : bytes) | RecvFailed (reason : str).

(** A connected socket: what is on the way from the peer, and what has been sent.
    [sendall] raises once [send_budget] calls were made.  The peer answers what
    it is sent: the first of [peer] says what the bytes of the next [sendall]
    make it send, and a peer without answers left stays silent. *)
Record Sock := mkSock {
  inbox : list sock_event;
  outbox : bytes;
  send_budget : option nat;
  peer : list (bytes → list sock_event);
}.

(** The socket after [wire] was sent and answered *)
Definition exchanged (wire : bytes) (budget : option nat) (s : Sock) : Sock :=
  match peer s with
  | [] => mkSock (inbox s) (outbox s ++ wire) budget []
  | answer :: later => mkSock (inbox s ++ answer wire) (outbox s ++ wire) budget later
  end.

(** [sock.recv_into(view)] repeated by [_receive_exact] until [size] bytes are
    there: an event longer than the view leaves its rest for the next call. *)
Fixpoint recv_exact (size : nat) (events : list sock_event) : result exc bytes * list sock_event :=
  match size with
  | O => (Ok [], events)
  | S _ =>
    match events with
    | [] | Delivered [] :: _ =>
        (Err (ProtocolError (lit "agent disconnected with " ++ dec_string (Z.of_nat size)
                             ++ lit " bytes pending")), events)
    | RecvFailed reason :: events => (Err (OSError reason), events)
    | Delivered chunk :: events =>
        if (size <? length chunk)%nat
        then (Ok (take size chunk), Delivered (drop size chunk) :: events)
        else match recv_exact (size - length chunk) events with
             | (Ok rest, events) => (Ok (chunk ++ rest), events)
             | (Err e, events) => (Err e, events)
             end
    end
  end.

Record FramedSocket := mkFramedSocket {
  _socket : Sock;
  _pending : list Frame;
  stats : SocketStats;
}.

(** [FramedSocket(sock)] *)
Definition new_framed_socket (s : Sock) : FramedSocket := mkFramedSocket s [] new_stats.

Module FramedSocketOps.
Abbreviation IO := (M FramedSocket exc).

Definition set_socket (s : Sock) (c : FramedSocket) := mkFramedSocket s (_pending c) (stats c).
Definition set_pending (p : list Frame) (c : FramedSocket) := mkFramedSocket (_socket c) p (stats c).
Definition set_stats (f : SocketStats → SocketStats) (c : FramedSocket) :=
  mkFramedSocket (_socket c) (_pending c) (f (stats c)).

(** [self._socket.sendall(wire)] *)
Definition sendall (wire : bytes) : IO unit := λ c,
  let s := _socket c in
  match send_budget s with
  | Some O => (Err (OSError (lit "send failed")), c)
  | Some (S n) => (Ok tt, set_socket (exchanged wire (Some n) s) c)
  | None => (Ok tt, set_socket (exchanged wire None s) c)
  end.

Definition count_sent (n : Z) (st : SocketStats) : SocketStats :=
  mkSocketStats (sent_bytes st + n) (received_bytes st) (sent_frames st + 1)
                (received_frames st) (received_records st).
Definition count_received (n : Z) (st : SocketStats) : SocketStats :=
  mkSocketStats (sent_bytes st) (received_bytes st + n) (sent_frames st)
                (received_frames st + 1) (received_records st).
Definition count_records (n : Z) (st : SocketStats) : SocketStats :=
  mkSocketStats (sent_bytes st) (received_bytes st) (sent_frames st)
                (received_frames st) (received_records st + n).

Definition send (kind : FrameKind) (payload : bytes) : IO unit :=
  if MAX_PAYLOAD <? blen payload
  then raise (ProtocolError (kind_name kind ++ lit " payload exceeds "
                             ++ dec_string MAX_PAYLOAD ++ lit " bytes"))
  else
    header ← lift (or_struct_error
      (pack _HEADER (MAGIC, (VERSION, (kind_value kind, (0, (blen payload, tt)))))));
    let wire := header ++ payload in
    sendall wire;;
    modify (set_stats (count_sent (blen wire))).

Definition _receive_exact (size : nat) : IO bytes := λ c,
  let s := _socket c in
  match recv_exact size (inbox s) with
  | (r, events) => (r, set_socket (mkSock events (outbox s) (send_budget s) (peer s)) c)
  end.

Definition _receive_wire_frame : IO Frame :=
  header ← _receive_exact (calcsize _HEADER);
  '(magic, (version, (raw_kind, (flags, (payload_size, _))))) ←
    lift (or_struct_error (unpack _HEADER header));
  if negb (bool_decide (magic = MAGIC))
  then raise (ProtocolError (lit "invalid protocol magic " ++ repr_bytes magic))
  else if negb (version =? VERSION)
  then raise (ProtocolError (lit "unsupported protocol version " ++ dec_string version))
  else if negb (flags =? 0)
  then raise (ProtocolError (lit "unsupported frame flags " ++ dec_string flags))
  else if MAX_PAYLOAD <? payload_size
  then raise (ProtocolError (lit "frame payload " ++ dec_string payload_size ++ lit " exceeds "
                             ++ dec_string MAX_PAYLOAD ++ lit " bytes"))
  else match kind_of raw_kind with
       | None => raise (ProtocolError (lit "unknown frame kind " ++ dec_string raw_kind))
       | Some kind =>
           payload ← _receive_exact (Z.to_nat payload_size);
           modify (set_stats (count_received (Z.of_nat (calcsize _HEADER) + payload_size)));;
           mret (mkFrame kind payload)
       end.

Definition receive : IO Frame := λ c,
  match _pending c with
  | frame :: rest => (Ok frame, set_pending rest c)
  | [] =>
      (frame ← _receive_wire_frame;
       if decide (kind frame = BULK_BATCH) then
         records ← lift (decode_bulk_batch (payload frame));
         match records with
         | [] => raise (ProtocolError (lit "BULK_BATCH must contain at least one record"))
         | first :: rest =>
             modify (set_stats (count_records (blen records)));;
             modify (set_pending rest);;
             mret first
         end
       else mret frame) c
  end.
End FramedSocketOps.

(** ** Properties *)

Lemma kind_of_value k : kind_of (kind_value k) = Some k.
Proof. by destruct k. Qed.

Lemma kind_of_inv raw k : kind_of raw = Some k → kind_value k = raw.
Proof.
  unfold kind_of. intros H.
  repeat match type of H with
  | match ?x with _ => _ end = _ => destruct x; try discriminate H
  end; by injection H as <-.
Qed.

Lemma kind_value_range k : 0 <= kind_value k < 256.
Proof. destruct k; cbn; lia. Qed.

(** *** Bulk batches *)

Lemma mkFrame_eta f : mkFrame (kind f) (payload f) = f.
Proof. by destruct f. Qed.

Lemma encode_record_inv record wire :
  encode_record record = Ok wire →
  kind record ∈ _BULK_RECORD_KINDS ∧ blen (payload record) < 2 ^ 32 ∧
  ∃ header, pack _RECORD_HEADER (kind_value (kind record), (blen (payload record), tt)) = Some header
    ∧ length header = calcsize _RECORD_HEADER ∧ wire = header ++ payload record.
Proof.
  unfold encode_record. case_decide as Hk; [|done]. intros (h & Hh & Hw)%result_bind_inv.
  injection Hw as <-. apply or_struct_error_Ok in Hh. split; [done|].
  assert (0 <= blen (payload record) < 2 ^ 32) as Hl.
  { pose proof Hh as Hh'. cbn [_RECORD_HEADER pack pack1 fmt_vals] in Hh'.
    destruct (pack_uint 1 _) in Hh'; cbn in Hh'; [|done].
    destruct (pack_uint 4 _) as [b|] eqn:E in Hh'; cbn in Hh'; [|done].
    by apply pack_uint_inv in E as [? _]. }
  split; [lia|]. exists h. split; [done|]. split; [|done].
  destruct (unpack_pack _RECORD_HEADER (kind_value (kind record), (blen (payload record), tt)))
    as (h' & Hh' & Hlen & _).
  - cbn. pose proof (kind_value_range (kind record)). lia.
  - congruence.
Qed.

Lemma decode_encode_record record wire pre post :
  encode_record record = Ok wire →
  decode_record (pre ++ wire ++ post) (length pre) = Ok (record, length (pre ++ wire)).
Proof.
  intros (Hk & Hlt & header & Hp & Hl & ->)%encode_record_inv.
  unfold decode_record. rewrite <- app_assoc.
  pose proof (kind_value_range (kind record)) as Hkr.
  assert (fits _RECORD_HEADER (kind_value (kind record), (blen (payload record), tt))) as Hfit.
  { cbn. pose proof (blen_nonneg (payload record)). lia. }
  rewrite (unpack_from_app _ _ _ _ _ Hfit Hp).
  cbn [or_struct_error mbind result_bind]. rewrite !length_app, Hl.
  destruct (Nat.ltb_spec (length pre + (calcsize _RECORD_HEADER
    + (length (payload record) + length post)) - length pre) (calcsize _RECORD_HEADER)); [lia|].
  destruct (Z.ltb_spec (blen (pre ++ header ++ payload record ++ post))
    (Z.of_nat (length pre + calcsize _RECORD_HEADER) + blen (payload record))) as [Hbad|].
  { rewrite !blen_app in Hbad. unfold blen in Hbad. lia. }
  rewrite kind_of_value, decide_True by done.
  unfold mret, result_ret. do 2 f_equal.
  - rewrite app_assoc, <- Hl, <- length_app, drop_app_length.
    unfold blen. rewrite Nat2Z.id, take_app_length. apply mkFrame_eta.
  - unfold blen. rewrite Nat2Z.id. lia.
Qed.

Lemma decode_encode_records records wire fuel pre :
  encode_records records = Ok wire → (length wire < fuel)%nat →
  decode_records fuel (pre ++ wire) (length pre) = Ok records.
Proof.
  revert wire fuel pre. induction records as [|record records IH]; intros wire fuel pre; cbn [encode_records].
  - intros [= <-] Hf. destruct fuel as [|fuel]; [lia|]. cbn [decode_records].
    rewrite app_nil_r, Nat.ltb_irrefl. done.
  - intros (w & Hw & (rest & Hr & [= <-])%result_bind_inv)%result_bind_inv Hf.
    destruct fuel as [|fuel]; [lia|]. cbn [decode_records].
    pose proof (encode_record_inv _ _ Hw) as (_ & _ & h & _ & Hl & Ew).
    assert (0 < length w)%nat by (rewrite Ew, length_app, Hl; change (calcsize _RECORD_HEADER) with 5%nat; lia).
    rewrite length_app in Hf.
    destruct (Nat.ltb_spec (length pre) (length (pre ++ w ++ rest))) as [_|Hbad];
      [|rewrite !length_app in Hbad; lia].
    rewrite (decode_encode_record _ _ _ _ Hw). cbn [mbind result_bind].
    rewrite app_assoc, IH by (done || lia). done.
Qed.

Lemma decode_record_inv payload offset record offset' :
  decode_record payload offset = Ok (record, offset') →
  (offset < length payload)%nat →
  ∃ wire, encode_record record = Ok wire ∧ drop offset payload = wire ++ drop offset' payload
          ∧ (offset < offset' ≤ length payload)%nat.
Proof.
  unfold decode_record. intros H Hoff.
  destruct (Nat.ltb_spec (length payload - offset) (calcsize _RECORD_HEADER)) as [|Hh]; [done|].
  apply result_bind_inv in H as ((raw & size & []) & Hu & H).
  apply or_struct_error_Ok in Hu.
  pose proof (unpack_from_fits _RECORD_HEADER _ _ _ Hu) as (Hraw & Hsize & _). cbn in Hraw, Hsize.
  apply (pack_unpack_from _RECORD_HEADER) in Hu; [|no_bool_format].
  case_in H; [done|]. apply Z.ltb_ge in Heqb.
  destruct (kind_of raw) as [k|] eqn:Hk; [|done]. case_decide as Hbulk; [|done].
  injection H as <- <-.
  apply kind_of_inv in Hk as <-.
  change (calcsize _RECORD_HEADER) with 5%nat in *.
  set (body := take (Z.to_nat size) (drop (offset + 5) payload)).
  assert (blen body = size) as Hbody.
  { unfold blen, body. rewrite length_take, length_drop. unfold blen in Heqb. lia. }
  exists (take 5 (drop offset payload) ++ body).
  unfold blen in Heqb. split; [|split].
  - unfold encode_record. cbn [kind Protocol.payload]. rewrite decide_True by done.
    rewrite Hbody, Hu. done.
  - unfold body. rewrite <- !drop_drop, <- app_assoc, take_drop, take_drop. done.
  - lia.
Qed.

Lemma decode_records_inv fuel payload offset records :
  decode_records fuel payload offset = Ok records → (offset ≤ length payload)%nat →
  encode_records records = Ok (drop offset payload).
Proof.
  revert offset records. induction fuel as [|fuel IH]; intros offset records; cbn [decode_records]; [done|].
  destruct (Nat.ltb_spec offset (length payload)) as [Hlt|Hge].
  - intros ([record offset'] & Hr & (rest & Hrest & [= <-])%result_bind_inv)%result_bind_inv _.
    apply decode_record_inv in Hr as (wire & Hw & -> & ?); [|done].
    cbn [encode_records]. rewrite Hw. cbn [mbind result_bind]. by rewrite (IH _ _ Hrest) by lia.
  - intros [= <-] Hle. by rewrite drop_ge by lia.
Qed.

(** The decoder stops with a result or a [ProtocolError] on every payload. *)
Lemma decode_record_total payload offset :
  (∃ record offset', decode_record payload offset = Ok (record, offset')) ∨
  (∃ msg, decode_record payload offset = Err (ProtocolError msg)).
Proof.
  unfold decode_record.
  destruct (Nat.ltb_spec (length payload - offset) (calcsize _RECORD_HEADER)); [eauto|].
  destruct (decide (offset ≤ length payload)%nat) as [Hle|Hgt].
  2: { exfalso. change (calcsize _RECORD_HEADER) with 5%nat in *. lia. }
  destruct (unpack_from_is_Some _RECORD_HEADER payload offset) as [(raw & size & []) ->]; [lia|].
  cbn [or_struct_error mbind result_bind].
  destruct (_ <? _); [eauto|]. destruct (kind_of raw); [|eauto]. case_decide; eauto.
Qed.

Lemma decode_records_total fuel payload offset :
  (length payload < offset + fuel)%nat → (0 < fuel)%nat →
  (∃ records, decode_records fuel payload offset = Ok records) ∨
  (∃ msg, decode_records fuel payload offset = Err (ProtocolError msg)).
Proof.
  revert offset. induction fuel as [|fuel IH]; intros offset Hf Hpos; cbn [decode_records]; [lia|].
  destruct (Nat.ltb_spec offset (length payload)) as [Hlt|Hge]; [|eauto].
  destruct (decode_record_total payload offset) as [(r & o & Hr)|(msg & ->)]; [|eauto].
  rewrite Hr. cbn [mbind result_bind].
  apply decode_record_inv in Hr as (_ & _ & _ & ?); [|done].
  destruct (IH o) as [(rs & ->)|(msg & ->)]; [lia|lia|eauto|eauto].
Qed.

Lemma encode_bulk_inv records wire :
  encode_bulk_batch records = Ok wire →
  encode_records records = Ok wire ∧ blen wire ≤ MAX_PAYLOAD.
Proof.
  unfold encode_bulk_batch. intros (w & Hw & H)%result_bind_inv.
  destruct (Z.ltb_spec MAX_PAYLOAD (blen w)); [done|]. by apply Ok_inj in H as <-.
Qed.

Lemma encode_bulk_size records wire :
  encode_bulk_batch records = Ok wire → blen wire ≤ MAX_PAYLOAD.
Proof. by intros [_ ?]%encode_bulk_inv. Qed.

Lemma decode_encode_bulk records wire :
  encode_bulk_batch records = Ok wire → decode_bulk_batch wire = Ok records.
Proof.
  intros [H _]%encode_bulk_inv. by apply (decode_encode_records _ _ _ [] H); lia.
Qed.

(** *** Address batches *)

Definition is_u64 (a : Z) : Prop := 0 <= a < 2 ^ 64.

Lemma pack_u64 a : is_u64 a → pack [FQ] (a, tt) = Some (be_encode 8 a).
Proof.
  intros Ha. cbn [pack pack1]. destruct (pack_uint_Some 8 a Ha) as [-> _].
  reflexivity.
Qed.

Lemma pack_u64_inv a bs : pack [FQ] (a, tt) = Some bs → is_u64 a ∧ bs = be_encode 8 a.
Proof.
  cbn [pack pack1]. destruct (pack_uint 8 a) as [b|] eqn:H; [|done].
  apply pack_uint_inv in H as [? ->]. cbn [mbind option_bind]. intros [= <-].
  done.
Qed.

Lemma encode_addresses_cons a l bs :
  encode_addresses (a :: l) = Ok bs ↔
  is_u64 a ∧ ∃ rest, encode_addresses l = Ok rest ∧ bs = be_encode 8 a ++ rest.
Proof.
  cbn [encode_addresses]. split.
  - intros (b & Hb%or_struct_error_Ok%pack_u64_inv & (rest & Hr & [= <-])%result_bind_inv)%result_bind_inv.
    destruct Hb as [? ->]. eauto.
  - intros (Ha & rest & Hr & ->). rewrite (pack_u64 a Ha), Hr. done.
Qed.

Lemma encode_addresses_Ok l : Forall is_u64 l → ∃ bs, encode_addresses l = Ok bs.
Proof.
  induction 1 as [|a l Ha Hl [bs IH]]; [by exists []|].
  exists (be_encode 8 a ++ bs). apply encode_addresses_cons. eauto.
Qed.

Lemma encode_addresses_u64 l bs : encode_addresses l = Ok bs → Forall is_u64 l.
Proof.
  revert bs. induction l as [|a l IH]; intros bs; [constructor|].
  rewrite encode_addresses_cons. intros (Ha & rest & Hr & _). constructor; eauto.
Qed.

Lemma length_encode_addresses l bs :
  encode_addresses l = Ok bs → length bs = (ADDRESS_SIZE * length l)%nat.
Proof.
  revert bs. induction l as [|a l IH]; intros bs; [by intros [= <-]|].
  rewrite encode_addresses_cons. intros (_ & rest & Hr & ->).
  rewrite length_app, length_be_encode, (IH _ Hr). cbn [length]. unfold ADDRESS_SIZE. lia.
Qed.

Lemma unpack_encode_addresses l bs :
  encode_addresses l = Ok bs → unpack_addresses (length l) bs = l.
Proof.
  revert bs. induction l as [|a l IH]; intros bs; [done|].
  rewrite encode_addresses_cons. intros (Ha & rest & Hr & ->).
  cbn [length unpack_addresses]. unfold ADDRESS_SIZE.
  rewrite <- (length_be_encode 8 a) at 1 3. rewrite take_app_length, drop_app_length.
  rewrite (IH _ Hr), be_decode_encode. f_equal. by apply Z.mod_small.
Qed.

Lemma encode_unpack_addresses n bs :
  length bs = (ADDRESS_SIZE * n)%nat → encode_addresses (unpack_addresses n bs) = Ok bs.
Proof.
  revert bs. induction n as [|n IH]; intros bs Hl; unfold ADDRESS_SIZE in *.
  - destruct bs; [done | cbn in Hl; lia].
  - cbn [unpack_addresses]. apply encode_addresses_cons. unfold ADDRESS_SIZE.
    assert (length (take 8 bs) = 8%nat) as Ht by (rewrite length_take; lia).
    split.
    + pose proof (be_decode_range (take 8 bs)) as Hr. unfold blen in Hr. by rewrite Ht in Hr.
    + exists (drop 8 bs). rewrite IH by (rewrite length_drop; lia). split; [done|].
      rewrite <- Ht at 1. by rewrite be_encode_decode, take_drop.
Qed.

Lemma decode_addresses_spec payload l :
  decode_addresses payload = Ok l ↔ encode_addresses l = Ok payload.
Proof.
  unfold decode_addresses. split.
  - destruct (Nat.eqb_spec (length payload mod ADDRESS_SIZE) 0) as [Hm|]; [|done].
    intros <-%Ok_inj. apply encode_unpack_addresses.
    unfold ADDRESS_SIZE in *. pose proof (Nat.div_mod_eq (length payload) 8). lia.
  - intros He. pose proof (length_encode_addresses _ _ He) as Hl.
    rewrite Hl. unfold ADDRESS_SIZE. rewrite Nat.mul_comm, Nat.Div0.mod_mul, Nat.div_mul by lia.
    cbn [Nat.eqb]. by rewrite (unpack_encode_addresses _ _ He).
Qed.

Lemma decode_addresses_u64 payload l : decode_addresses payload = Ok l → Forall is_u64 l.
Proof. rewrite decode_addresses_spec. apply encode_addresses_u64. Qed.

Lemma pair_up_flatten l :
  (length l mod 2 = 0)%nat → (pair_up l ≫= λ '(k, v), [k; v]) = l.
Proof.
  assert (∀ n l, (length l ≤ n)%nat → (length l mod 2 = 0)%nat →
                 (pair_up l ≫= λ '(k, v), [k; v]) = l) as H; [|by apply (H (length l))].
  intros n. induction n as [|n IH]; intros l' Hn Hm; [destruct l'; [done | cbn [length] in Hn; lia]|].
  destruct l' as [|k [|v rest]]; [done|done|].
  cbn [pair_up mbind list_bind]. cbn [length] in Hn, Hm.
  change ((S (S (length rest)) mod 2)%nat) with ((2 + length rest) mod 2)%nat in Hm.
  cbn [app]. do 2 f_equal. apply IH; [lia|].
  pose proof (Nat.div_mod_eq (2 + length rest) 2).
  pose proof (Nat.div_mod_eq (length rest) 2).
  pose proof (Nat.mod_upper_bound (length rest) 2). lia.
Qed.

Lemma pair_up_of_flat l : pair_up (l ≫= λ '(k, v), [k; v]) = l.
Proof. induction l as [|[k v] l IH]; cbn; [done|]. by rewrite <- IH at 2. Qed.

Lemma length_flat_pairs (l : list (Z * Z)) :
  length (l ≫= λ '(k, v), [k; v]) = (2 * length l)%nat.
Proof. induction l as [|[k v] l IH]; cbn in *; lia. Qed.

(** *** Session payloads *)

Lemma b2z_nonzero b : negb (Z.b2z b =? 0) = b.
Proof. by destruct b. Qed.

Lemma b2z_bit b : (Z.b2z b =? 0) || (Z.b2z b =? 1) = true.
Proof. by destruct b. Qed.

Lemma bit_b2z z : (z =? 0) || (z =? 1) = true → Z.b2z (negb (z =? 0)) = z.
Proof. destruct (Z.eqb_spec z 0), (Z.eqb_spec z 1); cbn; intros; (done || lia). Qed.

Lemma hello_codec_spec payload h :
  decode_hello payload = Ok h ↔ encode_hello h = Ok payload.
Proof.
  unfold decode_hello, encode_hello. split.
  - destruct (Nat.eqb_spec (length payload) (calcsize _HELLO)) as [Hl|]; [|done].
    intros ((maj & min & ps & le & nc & []) & Hu%or_struct_error_Ok & H)%result_bind_inv.
    case_in H; [|done]. apply Ok_inj in H as <-. cbn [nonce python_major python_minor pointer_size little_endian].
    pose proof (unpack_fits _HELLO _ _ Hu) as (_ & _ & _ & _ & Hn & _). cbn in Hn.
    rewrite Hn. cbn [Nat.eqb NONCE_SIZE]. rewrite bit_b2z by done.
    apply or_struct_error_Ok. apply (pack_unpack _HELLO); [no_bool_format|done].
  - destruct (Nat.eqb_spec (length (nonce h)) NONCE_SIZE) as [Hn|]; [|done].
    intros Hp%or_struct_error_Ok.
    apply (pack_fits _HELLO) in Hp as Hf; [|by repeat split].
    destruct (unpack_pack _HELLO _ Hf) as (bs & Hp' & Hl & Hu).
    rewrite Hp in Hp'. injection Hp' as <-. rewrite Hl, Nat.eqb_refl, Hu.
    cbn [or_struct_error mbind result_bind]. rewrite b2z_bit, b2z_nonzero. by destruct h.
Qed.

Lemma options_codec_spec payload n b :
  decode_options payload = Ok (n, b) ↔ encode_options n b = Ok payload.
Proof.
  unfold decode_options, encode_options. split.
  - destruct (Nat.eqb_spec (length payload) (calcsize _OPTIONS)) as [Hl|]; [|done].
    intros ((m & da & []) & Hu%or_struct_error_Ok & H)%result_bind_inv.
    case_in H; [|done]. apply Ok_inj in H as [= <- <-]. rewrite bit_b2z by done.
    apply or_struct_error_Ok. apply (pack_unpack _OPTIONS); [no_bool_format|done].
  - intros Hp%or_struct_error_Ok.
    apply (pack_fits _OPTIONS) in Hp as Hf; [|by repeat split].
    destruct (unpack_pack _OPTIONS _ Hf) as (bs & Hp' & Hl & Hu).
    rewrite Hp in Hp'. injection Hp' as <-. rewrite Hl, Nat.eqb_refl, Hu.
    cbn [or_struct_error mbind result_bind]. by rewrite b2z_bit, b2z_nonzero.
Qed.

(** The name an [OBJECT_BEGIN] carries: cut to what a 16-bit length can say. *)
Definition wire_name (s : str) : bytes := take (Z.to_nat 0xFFFF) (utf8_encode s).

Lemma cut_to_u16 (bs : bytes) :
  (if 0xFFFF <? blen bs then take (Z.to_nat 0xFFFF) bs else bs) = take (Z.to_nat 0xFFFF) bs.
Proof.
  unfold blen. destruct (Z.ltb_spec 0xFFFF (Z.of_nat (length bs))); [done|].
  by rewrite take_ge by lia.
Qed.

Lemma object_begin_codec begin payload :
  encode_object_begin begin = Ok payload →
  decode_object_begin payload =
    Ok (mkObjectBegin (address begin) (type_address begin) (shallow_size begin)
          (content_kind begin) (utf8_decode (wire_name (type_name begin)))).
Proof.
  unfold encode_object_begin, decode_object_begin. rewrite cut_to_u16. fold (wire_name (type_name begin)).
  set (name := wire_name (type_name begin)).
  intros (h & Hp%or_struct_error_Ok & <-%Ok_inj)%result_bind_inv.
  apply (pack_fits _OBJECT_BEGIN) in Hp as Hf; [|by repeat split].
  destruct (unpack_pack _OBJECT_BEGIN _ Hf) as (bs & Hp' & Hl & _).
  rewrite Hp in Hp'. injection Hp' as <-.
  rewrite length_app, Hl. destruct (Nat.ltb_spec (calcsize _OBJECT_BEGIN + length name)
    (calcsize _OBJECT_BEGIN)); [lia|].
  pose proof (unpack_from_app _OBJECT_BEGIN _ h [] name Hf Hp) as Hu.
  cbn [app length] in Hu. rewrite Hu.
  cbn [or_struct_error mbind result_bind]. rewrite <- Hl, drop_app_length.
  by rewrite Z.eqb_refl.
Qed.

(** *** The framed socket *)

(** [stream events bs]: the events deliver exactly the bytes [bs], in whatever
    pieces, before the peer closes. *)
Inductive stream : list sock_event → bytes → Prop :=
| stream_nil : stream [] []
| stream_cons chunk events bs :
    chunk ≠ [] → stream events bs → stream (Delivered chunk :: events) (chunk ++ bs).

Lemma recv_exact_stream a events rest :
  stream events (a ++ rest) →
  ∃ events', recv_exact (length a) events = (Ok a, events') ∧ stream events' rest.
Proof.
  remember (a ++ rest) as bs eqn:E. intros Hs. revert a E.
  induction Hs as [|chunk events bs Hne Hs IH]; intros a E.
  - destruct a; [|done]. cbn in E. subst rest. exists []. split; [done|constructor].
  - destruct a as [|x a]; [cbn in E; subst rest; eexists; split; [done|by constructor]|].
    cbn [length recv_exact].
    destruct chunk as [|y chunk]; [done|].
    destruct (Nat.ltb_spec (S (length a)) (length (y :: chunk))) as [Hlt|Hge].
    + exists (Delivered (drop (S (length a)) (y :: chunk)) :: events).
      assert (take (S (length a)) (y :: chunk) = x :: a) as Ht.
      { change (S (length a)) with (length (x :: a)).
        rewrite <- (take_app_le (y :: chunk) bs), E by (cbn in *; lia). apply take_app_length. }
      rewrite Ht. split; [done|].
      assert (rest = drop (S (length a)) (y :: chunk) ++ bs) as ->.
      { rewrite <- (drop_app_le (y :: chunk) bs) by (cbn in *; lia). rewrite E.
        by rewrite (drop_app_length' (x :: a)). }
      constructor; [|done]. intros Hnil%(f_equal length). rewrite length_drop in Hnil. cbn in *. lia.
    + destruct (IH (drop (length (y :: chunk)) (x :: a))) as (events' & Hr & Hs').
      { rewrite <- drop_app_le by (cbn in *; lia). by rewrite <- E, drop_app_length. }
      rewrite length_drop in Hr.
      change (S (length a)) with (length (x :: a)). rewrite Hr. eexists. split; [|done].
      do 2 f_equal. rewrite <- (take_drop (length (y :: chunk)) (x :: a)) at 2. f_equal.
      rewrite <- (take_app_le (x :: a) rest) by (cbn in *; lia). by rewrite <- E, take_app_length.
Qed.

(** The bytes [send] puts on the wire for one frame *)
Definition header_fields (k : FrameKind) (p : bytes) : fmt_vals _HEADER :=
  (MAGIC, (VERSION, (kind_value k, (0, (blen p, tt))))).
Definition wire_frame (k : FrameKind) (p : bytes) : bytes :=
  default [] (pack _HEADER (header_fields k p)) ++ p.

Lemma header_fits k p : blen p ≤ MAX_PAYLOAD → fits _HEADER (header_fields k p).
Proof.
  intros Hp. pose proof (kind_value_range k). pose proof (blen_nonneg p).
  change MAX_PAYLOAD with 1048576 in Hp. cbn. unfold VERSION. lia.
Qed.

Lemma length_wire_frame k p :
  blen p ≤ MAX_PAYLOAD → length (wire_frame k p) = (calcsize _HEADER + length p)%nat.
Proof.
  intros Hp. unfold wire_frame.
  destruct (unpack_pack _HEADER _ (header_fits k p Hp)) as (h & -> & Hl & _).
  cbn [from_option id]. by rewrite length_app, Hl.
Qed.

(** What a channel delivers at the level of logical records: single frames
    one by one, the records of a bulk batch in order. *)
Inductive feeds : bytes → list Frame → Prop :=
| feeds_nil : feeds [] []
| feeds_single f bs fs :
    kind f ≠ BULK_BATCH → blen (payload f) ≤ MAX_PAYLOAD →
    feeds bs fs → feeds (wire_frame (kind f) (payload f) ++ bs) (f :: fs)
| feeds_bulk records p bs fs :
    records ≠ [] → encode_bulk_batch records = Ok p →
    feeds bs fs → feeds (wire_frame BULK_BATCH p ++ bs) (records ++ fs).

Lemma stream_app events bs events' bs' :
  stream events bs → stream events' bs' → stream (events ++ events') (bs ++ bs').
Proof. induction 1; intros Hs; cbn; [done|]. rewrite <- app_assoc. constructor; auto. Qed.

Lemma feeds_app bs fs bs' fs' : feeds bs fs → feeds bs' fs' → feeds (bs ++ bs') (fs ++ fs').
Proof.
  intros Hf Hf'. induction Hf as [|f bs fs Hk Hp Hf IH|records p bs fs Hne He Hf IH]; [done| |];
    rewrite <- app_assoc; [by apply feeds_single|]. rewrite <- app_assoc. by apply feeds_bulk.
Qed.

(** The events carry the logical frames, in whatever batches and chunks. *)
Definition delivers (events : list sock_event) (fs : list Frame) : Prop :=
  ∃ bs, stream events bs ∧ feeds bs fs.

(** The logical frames a framed socket will hand out, whatever the chunks. *)
Definition serves (c : FramedSocket) (fs : list Frame) : Prop :=
  ∃ bs gs, stream (inbox (_socket c)) bs ∧ feeds bs gs ∧ fs = _pending c ++ gs.

Section FramedSocketLemmas.
Import FramedSocketOps.

Lemma send_spec c k p :
  send_budget (_socket c) = None →
  (MAX_PAYLOAD < blen p ∧ ∃ msg, send k p c = (Err (ProtocolError msg), c)) ∨
  (blen p ≤ MAX_PAYLOAD ∧
   send k p c =
     (Ok tt, set_stats (count_sent (Z.of_nat (calcsize _HEADER) + blen p))
               (set_socket (exchanged (wire_frame k p) None (_socket c)) c))).
Proof.
  intros Hb. unfold send. destruct (Z.ltb_spec MAX_PAYLOAD (blen p)) as [|Hp]; [left; eauto|].
  right. split; [done|].
  destruct (unpack_pack _HEADER _ (header_fits k p Hp)) as (h & Hh & Hl & _).
  unfold wire_frame. rewrite Hh. unfold header_fields in Hh. cbn [from_option id].
  erewrite bind_ok; [|unfold lift; by rewrite Hh].
  erewrite bind_ok; [|unfold sendall; by rewrite Hb].
  unfold modify. rewrite blen_app.
  by replace (blen h) with (Z.of_nat (calcsize _HEADER)) by (unfold blen; by rewrite Hl).
Qed.

Lemma receive_exact_stream c a rest :
  stream (inbox (_socket c)) (a ++ rest) →
  ∃ events, stream events rest ∧
    _receive_exact (length a) c =
      (Ok a, set_socket (mkSock events (outbox (_socket c)) (send_budget (_socket c)) (peer (_socket c))) c).
Proof.
  intros (events & Hr & Hs)%recv_exact_stream. exists events. split; [done|].
  unfold _receive_exact. by rewrite Hr.
Qed.

Lemma receive_wire_frame_stream c k p rest :
  blen p ≤ MAX_PAYLOAD →
  stream (inbox (_socket c)) (wire_frame k p ++ rest) →
  ∃ events, stream events rest ∧
    _receive_wire_frame c =
      (Ok (mkFrame k p),
       set_stats (count_received (Z.of_nat (calcsize _HEADER) + blen p))
         (set_socket (mkSock events (outbox (_socket c)) (send_budget (_socket c)) (peer (_socket c))) c)).
Proof.
  intros Hp. unfold wire_frame.
  destruct (unpack_pack _HEADER _ (header_fits k p Hp)) as (h & -> & Hl & Hu).
  cbn [from_option id]. rewrite <- app_assoc.
  intros (ev1 & Hs1 & Hr1)%receive_exact_stream.
  unfold _receive_wire_frame. rewrite <- Hl, (bind_ok _ _ _ _ _ Hr1).
  erewrite bind_ok; [|unfold lift; by rewrite Hu].
  unfold header_fields. rewrite bool_decide_true, Z.eqb_refl by done. cbn [negb].
  rewrite (proj2 (Z.ltb_ge _ _) Hp), kind_of_value. cbn [Z.eqb negb].
  set (c1 := set_socket _ c).
  destruct (receive_exact_stream c1 p rest Hs1) as (ev2 & Hs2 & Hr2).
  exists ev2. split; [done|]. unfold blen. rewrite Nat2Z.id, (bind_ok _ _ _ _ _ Hr2). done.
Qed.

(** Chunking and batching are invisible: [receive] hands out the next logical
    frame, and the rest stays to come. *)
Lemma receive_serves c f fs :
  serves c (f :: fs) → ∃ c', receive c = (Ok f, c') ∧ serves c' fs
    ∧ outbox (_socket c') = outbox (_socket c) ∧ send_budget (_socket c') = send_budget (_socket c)
    ∧ peer (_socket c') = peer (_socket c).
Proof.
  intros (bs & gs & Hs & Hf & E). unfold receive.
  destruct (_pending c) as [|g pending] eqn:Hp.
  2:{ cbn in E. injection E as -> ->. eexists. split; [done|].
      split; [|done]. by exists bs, gs. }
  cbn [app] in E. subst gs. remember (f :: fs) as l eqn:El.
  destruct Hf as [|f' bs' fs' Hk Hlen Hf'|records p bs' fs' Hne Henc Hf']; [done| |].
  - injection El as -> ->. destruct (receive_wire_frame_stream c _ _ _ Hlen Hs) as (ev & Hs' & Hr).
    rewrite mkFrame_eta in Hr. rewrite (bind_ok _ _ _ _ _ Hr), decide_False by done.
    eexists. split; [done|]. split; [|done]. exists bs', fs. cbn. by rewrite Hp.
  - destruct records as [|g records]; [done|]. injection El as -> <-.
    pose proof (encode_bulk_size _ _ Henc) as Hlen.
    destruct (receive_wire_frame_stream c _ _ _ Hlen Hs) as (ev & Hs' & Hr).
    rewrite (bind_ok _ _ _ _ _ Hr), decide_True by done. cbn [payload].
    erewrite bind_ok; [|unfold lift; by rewrite (decode_encode_bulk _ _ Henc)].
    eexists. split; [done|]. split; [|done]. by exists bs', fs'.
Qed.

(** What is sent is added to the outbox, and the peer's answer to what is coming. *)
Lemma send_exchanges c k p answer later fs gs :
  serves c fs → send_budget (_socket c) = None → blen p ≤ MAX_PAYLOAD →
  peer (_socket c) = answer :: later → delivers (answer (wire_frame k p)) gs →
  ∃ c', send k p c = (Ok tt, c') ∧ serves c' (fs ++ gs) ∧
    outbox (_socket c') = outbox (_socket c) ++ wire_frame k p ∧
    send_budget (_socket c') = None ∧ peer (_socket c') = later.
Proof.
  intros (bs & hs & Hs & Hf & ->) Hb Hp Hpeer (bs' & Hs' & Hf').
  destruct (send_spec c k p Hb) as [[? _]|[_ ->]]; [lia|].
  eexists. split; [done|]. unfold serves, exchanged. rewrite Hpeer. cbn.
  split; [|done]. exists (bs ++ bs'), (hs ++ gs). rewrite app_assoc.
  split; [by apply stream_app|]. split; [by apply feeds_app|done].
Qed.
End FramedSocketLemmas.

(** *** Progress: what is left to read shrinks with every received frame *)

Definition inbox_size (events : list sock_event) : nat :=
  sum_list_with (λ e, match e with Delivered chunk => length chunk | RecvFailed _ => 0%nat end) events.
Definition records_size (records : list Frame) : nat :=
  sum_list_with (λ r, calcsize _RECORD_HEADER + length (payload r))%nat records.
Definition backlog (c : FramedSocket) : nat :=
  (inbox_size (inbox (_socket c)) + records_size (_pending c))%nat.

Lemma length_encode_records records wire :
  encode_records records = Ok wire → length wire = records_size records.
Proof.
  revert wire. induction records as [|r records IH]; intros wire; cbn [encode_records].
  - by intros <-%Ok_inj.
  - intros (w & Hw & (rest & Hr & <-%Ok_inj)%result_bind_inv)%result_bind_inv.
    apply encode_record_inv in Hw as (_ & _ & h & _ & Hl & ->).
    rewrite !length_app, Hl, (IH _ Hr). unfold records_size. cbn [sum_list_with]. lia.
Qed.

Lemma recv_exact_size size events a events' :
  recv_exact size events = (Ok a, events') →
  (inbox_size events = size + inbox_size events')%nat.
Proof.
  revert size a events'. induction events as [|[chunk|reason] events IH]; intros [|n] a events'; cbn [recv_exact].
  1-3: by intros [= _ <-].
  - destruct chunk as [|x chunk]; [done|].
    destruct (Nat.ltb_spec (S n) (length (x :: chunk))) as [Hlt|Hge].
    + intros [= _ <-]. unfold inbox_size. cbn [sum_list_with].
      rewrite length_drop. cbn [length] in *. lia.
    + destruct (recv_exact (S n - length (x :: chunk)) events) as [[r|e] ev] eqn:Hr; [|done].
      intros [= _ <-]. apply IH in Hr. unfold inbox_size in *.
      cbn [sum_list_with length] in *. lia.
  - by intros [= _ <-].
  - done.
Qed.

Lemma recv_exact_length size events a events' :
  recv_exact size events = (Ok a, events') → length a = size.
Proof.
  revert size a events'. induction events as [|[chunk|reason] events IH]; intros [|n] a events'; cbn [recv_exact].
  1-3: by intros [= <- _].
  - destruct chunk as [|x chunk]; [done|].
    destruct (Nat.ltb_spec (S n) (length (x :: chunk))) as [Hlt|Hge].
    + intros Ht. apply (f_equal fst), Ok_inj in Ht as <-. rewrite length_take.
      cbn [length] in *. lia.
    + destruct (recv_exact (S n - length (x :: chunk)) events) as [[r|e] ev] eqn:Hr; [|done].
      intros [= <- _]. apply IH in Hr. cbn [length] in *. rewrite length_app. cbn [length]. lia.
  - by intros [= <- _].
  - done.
Qed.

Definition transport_error (e : exc) : Prop :=
  ∃ msg, e = ProtocolError msg ∨ e = OSError msg.

Lemma recv_exact_error size events e events' :
  recv_exact size events = (Err e, events') → transport_error e.
Proof.
  revert size e events'. induction events as [|[chunk|reason] events IH]; intros [|n] e events'; cbn [recv_exact]; try done.
  - intros [= <- _]. eexists; eauto.
  - destruct chunk as [|x chunk]; [intros [= <- _]; eexists; eauto|].
    destruct (_ <? _)%nat; [done|].
    destruct (recv_exact _ events) as [[r|e'] ev] eqn:Hr; [done|].
    intros [= <- _]. by eapply IH.
  - intros [= <- _]. eexists; eauto.
Qed.

Section ReceiveProgress.
Import FramedSocketOps.

Lemma receive_exact_inv n c a c' :
  _receive_exact n c = (Ok a, c') →
  (inbox_size (inbox (_socket c)) = n + inbox_size (inbox (_socket c')))%nat
  ∧ _pending c' = _pending c.
Proof.
  unfold _receive_exact. destruct (recv_exact n _) as [r ev] eqn:Hr. intros [= -> <-].
  by apply recv_exact_size in Hr.
Qed.

Lemma receive_wire_frame_inv c f c' :
  _receive_wire_frame c = (Ok f, c') →
  (inbox_size (inbox (_socket c))
   = calcsize _HEADER + length (payload f) + inbox_size (inbox (_socket c')))%nat
  ∧ _pending c' = _pending c.
Proof.
  unfold _receive_wire_frame. intros (h & c1 & H1 & H)%bind_inv.
  apply bind_inv in H as ((magic & version & raw & flags & size & []) & c2 & Hu & H).
  apply lift_inv in Hu as [Hu ->]. apply or_struct_error_Ok in Hu.
  pose proof (unpack_fits _HEADER _ _ Hu) as (_ & _ & _ & _ & Hsize & _). cbn in Hsize.
  repeat (case_in H; [done|]). destruct (kind_of raw) as [k|]; [|done].
  apply bind_inv in H as (p & c3 & H3 & H).
  apply bind_inv in H as ([] & c4 & H4 & H). unfold modify in H4. injection H4 as <-.
  unfold mret, M_ret in H. injection H as <- <-.
  destruct (receive_exact_inv _ _ _ _ H1) as [E1 P1].
  destruct (receive_exact_inv _ _ _ _ H3) as [E3 P3].
  assert (length p = Z.to_nat size) as Hlen.
  { unfold _receive_exact in H3. destruct (recv_exact _ _) as [r ev] eqn:Hr.
    injection H3 as -> _. by apply recv_exact_length in Hr. }
  cbn [set_stats _socket _pending payload]. rewrite P3, P1, Hlen. split; [|done]. lia.
Qed.

(** Every received frame uses up some of the backlog. *)
Lemma receive_backlog c f c' : receive c = (Ok f, c') → (backlog c' < backlog c)%nat.
Proof.
  unfold receive, backlog. destruct (_pending c) as [|g pending] eqn:Hp.
  2:{ intros [= _ <-]. cbn [set_pending _socket _pending]. unfold records_size.
      cbn [sum_list_with calcsize _RECORD_HEADER fmt_size]. lia. }
  intros (frame & c1 & H1 & H)%bind_inv.
  apply receive_wire_frame_inv in H1 as [E1 P1]. rewrite E1.
  change (calcsize _HEADER) with 12%nat. case_decide.
  - apply bind_inv in H as (records & c2 & Hd & H). apply lift_inv in Hd as [Hd ->].
    apply decode_records_inv in Hd; [|lia]. apply length_encode_records in Hd.
    destruct records as [|first rest]; [done|].
    unfold modify, mbind, M_bind, mret, M_ret in H. injection H as _ <-.
    cbn [set_pending set_stats _socket _pending]. rewrite drop_0 in Hd.
    unfold records_size in *. cbn [sum_list_with] in Hd. lia.
  - unfold mret, M_ret in H. injection H as _ <-. rewrite P1, Hp. cbn. lia.
Qed.

(** Reading asks the peer for nothing. *)
Lemma receive_exact_peer n c r c' : _receive_exact n c = (r, c') → peer (_socket c') = peer (_socket c).
Proof. unfold _receive_exact. destruct (recv_exact n _). by intros [= _ <-]. Qed.

Lemma receive_peer c f c' : receive c = (Ok f, c') → peer (_socket c') = peer (_socket c).
Proof.
  unfold receive. destruct (_pending c) as [|g pending]; [|by intros [= _ <-]].
  intros (frame & c1 & H1 & H)%bind_inv. transitivity (peer (_socket c1)).
  - case_decide; [|by injection H as _ <-].
    apply bind_inv in H as (records & c2 & Hd & H). apply lift_inv in Hd as [_ ->].
    destruct records as [|first rest]; [done|].
    unfold modify, mbind, M_bind, mret, M_ret in H. by injection H as _ <-.
  - revert H1. unfold _receive_wire_frame. intros (h & c2 & H2%receive_exact_peer & H1)%bind_inv.
    rewrite <- H2. clear H2.
    apply bind_inv in H1 as ((magic & version & raw & flags & size & []) & c3 & Hu & H1).
    apply lift_inv in Hu as [_ ->]. repeat (case_in H1; [done|]). destruct (kind_of raw) as [k|]; [|done].
    apply bind_inv in H1 as (p & c3 & H3%receive_exact_peer & H1).
    rewrite <- H3. unfold modify, mbind, M_bind, mret, M_ret in H1. by injection H1 as _ <-.
Qed.

(** Whatever the peer sends, a failing receive raises [ProtocolError], or
    passes on the [OSError] of the socket. *)
Lemma receive_error c e c' : receive c = (Err e, c') → transport_error e.
Proof.
  assert (∀ n c e c', _receive_exact n c = (Err e, c') → transport_error e) as Hexact.
  { unfold _receive_exact. intros n c0 e0 c0'. destruct (recv_exact n _) as [r ev] eqn:Hr.
    intros [= -> _]. by eapply recv_exact_error. }
  assert (∀ msg, transport_error (ProtocolError msg)) as Hproto by (eexists; eauto).
  assert (∀ c e c', _receive_wire_frame c = (Err e, c') → transport_error e) as Hwire.
  { unfold _receive_wire_frame. intros c0 e0 c0' [H|(h & c1 & H1 & H)]%bind_err_inv; [eauto|].
    assert (length h = calcsize _HEADER) as Hl.
    { revert H1. unfold _receive_exact. destruct (recv_exact _ _) as [r ev] eqn:Hr.
      intros [= -> _]. by apply recv_exact_length in Hr. }
    unfold unpack in H. rewrite decide_True in H by done. cbn [or_struct_error] in H.
    destruct (unpack_fields _HEADER h) as (magic & version & raw & flags & size & []).
    unfold lift in H at 1. unfold mbind at 1, M_bind at 1 in H.
    repeat (case_in H; [injection H as <- _; by apply Hproto|]).
    destruct (kind_of raw) as [k|]; [|injection H as <- _; by apply Hproto].
    apply bind_err_inv in H as [H|(p & c3 & _ & H)]; [eauto|done]. }
  unfold receive. destruct (_pending c) as [|g pending]; [|done].
  intros [H|(frame & c1 & _ & H)]%bind_err_inv; [eauto|].
  case_decide; [|done].
  destruct (decode_records_total (S (length (payload frame))) (payload frame) 0)
    as [(rs & Hd)|(msg & Hd)]; [lia|lia| |].
  - unfold decode_bulk_batch in H. rewrite Hd in H. destruct rs; [|done].
    injection H as <- _. apply Hproto.
  - unfold decode_bulk_batch in H. rewrite Hd in H. injection H as <- _. apply Hproto.
Qed.
End ReceiveProgress.

(** ** Theorems *)

(** The bulk decoder accepts exactly the encodings of record lists, and returns
    the records in order. *)
Lemma bulk_batch_inverse payload records :
  blen payload ≤ MAX_PAYLOAD →
  decode_bulk_batch payload = Ok records ↔ encode_bulk_batch records = Ok payload.
Proof.
  intros Hp. split; [|apply decode_encode_bulk].
  intros H. apply decode_records_inv in H; [|lia]. rewrite drop_0 in H.
  unfold encode_bulk_batch. rewrite H. cbn [mbind result_bind].
  destruct (Z.ltb_spec MAX_PAYLOAD (blen payload)); [lia|done].
Qed.

Example bulk_batch_example :
  encode_bulk_batch [mkFrame REFERENTS [x61; x62]; mkFrame OBJECT_END []]
  = Ok [x08; x00; x00; x00; x02; x61; x62; x0d; x00; x00; x00; x00].
Proof. vm_compute. reflexivity. Qed.

(** The bulk decoder is total: it stops on every payload, with records
    that are all of a bulk kind or with a [ProtocolError]. *)
Lemma decode_bulk_batch_total payload :
  (∃ records, decode_bulk_batch payload = Ok records
              ∧ Forall (λ r, kind r ∈ _BULK_RECORD_KINDS) records) ∨
  (∃ msg, decode_bulk_batch payload = Err (ProtocolError msg)).
Proof.
  destruct (decode_records_total (S (length payload)) payload 0) as [(rs & H)|?]; [lia|lia| |by right].
  left. exists rs. split; [done|]. apply decode_records_inv in H; [|lia]. revert H.
  generalize (drop 0 payload). induction rs as [|r rs IH]; intros w; [constructor|].
  intros (w1 & Hw1 & (w2 & Hw2 & _)%result_bind_inv)%result_bind_inv.
  constructor; [by apply encode_record_inv in Hw1 as [? _] | by eapply IH].
Qed.

(** The handshake payloads: [decode_hello] and [decode_options] accept
    exactly what the encoders produce and give back the encoded values. *)
Lemma handshake_codecs payload :
  (∀ hello, decode_hello payload = Ok hello ↔ encode_hello hello = Ok payload) ∧
  (∀ n attributes,
     decode_options payload = Ok (n, attributes) ↔ encode_options n attributes = Ok payload).
Proof. split; intros; [apply hello_codec_spec | apply options_codec_spec]. Qed.

(** Address batches: decoding accepts exactly the encodings of lists of
    64-bit addresses and inverts them; the encoder accepts exactly such lists;
    a dictionary batch decodes to the pairs whose flattening was encoded. *)
Lemma address_codecs payload :
  (∀ l, decode_addresses payload = Ok l ↔ encode_addresses l = Ok payload) ∧
  (∀ l, Forall is_u64 l ↔ ∃ bs, encode_addresses l = Ok bs) ∧
  (∀ entries, decode_dict_entries payload = Ok entries ↔
     encode_addresses (entries ≫= λ '(k, v), [k; v]) = Ok payload).
Proof.
  split; [|split].
  - intros l. apply decode_addresses_spec.
  - intros l. split; [apply encode_addresses_Ok|]. intros [bs H]. by eapply encode_addresses_u64.
  - intros entries. unfold decode_dict_entries. split.
    + intros (l & Hl%decode_addresses_spec & H)%result_bind_inv.
      destruct (Nat.eqb_spec (length l mod 2) 0); [|done]. apply Ok_inj in H as <-.
      by rewrite pair_up_flatten.
    + intros H. rewrite (proj2 (decode_addresses_spec _ _) H). cbn [mbind result_bind].
      rewrite length_flat_pairs, Nat.mul_comm, Nat.Div0.mod_mul. cbn [Nat.eqb].
      by rewrite pair_up_of_flat.
Qed.

(** An [OBJECT_BEGIN] whose type name has no surrogates and at most 65535
    UTF-8 bytes decodes to the facts it was encoded from. *)
Lemma object_begin_roundtrip begin payload :
  str_scalar (type_name begin) → blen (utf8_encode (type_name begin)) ≤ 0xFFFF →
  encode_object_begin begin = Ok payload → decode_object_begin payload = Ok begin.
Proof.
  intros Hs Hl He. rewrite (object_begin_codec _ _ He). unfold wire_name.
  rewrite take_ge by (unfold blen in Hl; lia). rewrite utf8_decode_encode by done.
  by destruct begin.
Qed.

(** C39: the payloads. Within the frame limit, bulk batches decode exactly when
    they were encoded, to the encoded records in order. So do [HELLO], [HELLO_ACK] and
    address batches to the encoded values; the encoder of addresses takes exactly
    the 64-bit ones, and a dictionary batch decodes to the pairs whose
    flattening was encoded; an [OBJECT_BEGIN] gives back its facts when its type
    name has no surrogates and at most 65535 UTF-8 bytes. *)
Theorem payload_codecs payload :
  (blen payload ≤ MAX_PAYLOAD →
   ∀ records, decode_bulk_batch payload = Ok records ↔ encode_bulk_batch records = Ok payload) ∧
  (∀ hello, decode_hello payload = Ok hello ↔ encode_hello hello = Ok payload) ∧
  (∀ n attributes,
     decode_options payload = Ok (n, attributes) ↔ encode_options n attributes = Ok payload) ∧
  (∀ l, decode_addresses payload = Ok l ↔ encode_addresses l = Ok payload) ∧
  (∀ l, Forall is_u64 l ↔ ∃ bs, encode_addresses l = Ok bs) ∧
  (∀ entries, decode_dict_entries payload = Ok entries ↔
     encode_addresses (entries ≫= λ '(k, v), [k; v]) = Ok payload) ∧
  (∀ begin, str_scalar (type_name begin) → blen (utf8_encode (type_name begin)) ≤ 0xFFFF →
     encode_object_begin begin = Ok payload → decode_object_begin payload = Ok begin).
Proof.
  destruct (handshake_codecs payload) as [? ?]. destruct (address_codecs payload) as (? & ? & ?).
  split_and!; try done; [intros; by apply bulk_batch_inverse|]. intros begin. apply object_begin_roundtrip.
Qed.

Example object_begin_example :
  let begin := mkObjectBegin 0x2000 0x1000 48 2 (lit "list") in
  match encode_object_begin begin with
  | Ok p => length p = 27%nat ∧ decode_object_begin p = Ok begin
  | Err _ => False
  end.
Proof. vm_compute. by split. Qed.

(** C10: the framed socket refines its logical specification: however the peer
    groups records into bulk batches and however the stream is cut into
    chunks, successive calls of [receive] hand out exactly the logical frames,
    in order. *)
Theorem receive_refines_logical_stream c fs :
  serves c fs →
  ∃ c', repeat_m (length fs) FramedSocketOps.receive c = (Ok fs, c') ∧ serves c' [].
Proof.
  revert c. induction fs as [|f fs IH]; intros c Hs; [by exists c|].
  destruct (receive_serves c f fs Hs) as (c1 & Hr & Hs1 & _).
  destruct (IH c1 Hs1) as (c2 & Hrs & Hs2). exists c2. split; [|done].
  cbn [length repeat_m]. rewrite (bind_ok _ _ _ _ _ Hr), (bind_ok _ _ _ _ _ Hrs). done.
Qed.

Lemma receive_refines_logical_stream_witness :
  let records := [mkFrame REFERENTS [x61]; mkFrame OBJECT_END []] in
  let batch := match encode_bulk_batch records with Ok p => p | Err _ => [] end in
  let wire := wire_frame BULK_BATCH batch ++ wire_frame BATCH_DONE [] in
  let c := new_framed_socket (mkSock [Delivered (take 5 wire); Delivered (drop 5 wire)] [] None []) in
  ∃ c', repeat_m 3 FramedSocketOps.receive c = (Ok (records ++ [mkFrame BATCH_DONE []]), c')
        ∧ serves c' [].
Proof.
  intros records batch wire c.
  apply (receive_refines_logical_stream c (records ++ [mkFrame BATCH_DONE []])).
  exists wire, (records ++ [mkFrame BATCH_DONE []]). split; [|split; [|reflexivity]].
  - assert (stream (inbox (_socket c)) (take 5 wire ++ drop 5 wire ++ [])) as H.
    { repeat constructor; vm_compute; discriminate. }
    rewrite app_nil_r, take_drop in H. exact H.
  - apply (feeds_bulk records batch); [discriminate | vm_compute; reflexivity |].
    rewrite <- (app_nil_r (wire_frame BATCH_DONE [])).
    apply (feeds_single (mkFrame BATCH_DONE [])); [discriminate | vm_compute; discriminate | constructor].
Defined.

(** C40: reading always makes progress and fails cleanly: a received frame uses
    up part of the finite backlog, so a loop over [receive] ends, and a failing
    [receive] raises [ProtocolError] or passes on the socket's [OSError]. *)
Theorem receive_progress_or_transport_error c r c' :
  FramedSocketOps.receive c = (r, c') →
  match r with
  | Ok _ => (backlog c' < backlog c)%nat
  | Err e => transport_error e
  end.
Proof.
  destruct r; intros H; [by eapply receive_backlog | by eapply receive_error].
Qed.

Lemma receive_progress_or_transport_error_witness :
  let c := new_framed_socket (mkSock [Delivered (wire_frame COMPLETE [])] [] None []) in
  let '(r, c') := FramedSocketOps.receive c in
  match r with Ok _ => (backlog c' < backlog c)%nat | Err e => transport_error e end.
Proof.
  intros c. destruct (FramedSocketOps.receive c) as [r c'] eqn:E.
  apply (receive_progress_or_transport_error c r c' E).
Defined.
