(* ===== verification/CaptureModel.v ===== *)
(** * Data model of the capture side

    [capture/collector/src/pydump/model.py]. *)
From stdpp Require Import base tactics numbers list gmap strings.
From S2P Require Import Prelude PyData Text.

Inductive ContentKind := NONE | DICT | LIST | SET | TUPLE.

#[export] Instance ContentKind_eq_dec : EqDecision ContentKind.
Proof. solve_decision. Defined.

Definition content_kind_value (k : ContentKind) : Z :=
  match k with NONE => 0 | DICT => 1 | LIST => 2 | SET => 3 | TUPLE => 4 end.

(** [ContentKind(raw)]; [None] is [ValueError] *)
Definition content_kind_of (raw : Z) : option ContentKind :=
  match raw with
  | 0 => Some NONE | 1 => Some DICT | 2 => Some LIST | 3 => Some SET | 4 => Some TUPLE
  | _ => None
  end.

Record HeapAttribute := mkHeapAttribute { attr_name : str; attr_address : Z }.

Record HeapObject := mkHeapObject {
  address : Z;
  type_address : Z;
  type_name : str;
  shallow_size : Z;
  content_kind : ContentKind;
  sequence_content : list Z;
  dict_content : list (Z * Z);
  referents : gset Z;
  attributes : list HeapAttribute;
  str_repr : str;
}.

(** [HeapObject(address=..., ..., content_kind=...)]: the fields with defaults
    start empty. *)
Definition new_object (address type_address : Z) (type_name : str) (shallow_size : Z)
  (content_kind : ContentKind) : HeapObject :=
  mkHeapObject address type_address type_name shallow_size content_kind [] [] ∅ [] [].

Record ThreadFrame := mkThreadFrame {
  filename : str;
  lineno : Z;
  function : str;
  locals : list (str * Z);
}.

Record HeapThread := mkHeapThread {
  thread_name : str;
  is_alive : bool;
  is_daemon : bool;
  frames : list ThreadFrame;
}.

Lemma content_kind_of_value k : content_kind_of (content_kind_value k) = Some k.
Proof. by destruct k. Qed.
