(* ===== verification/HeapWriter.v ===== *)
(** * The PyHeap v1 writer

    [capture/collector/src/pydump/heap_writer.py]: the streaming writer with
    its back-filled object count, and the check of the delivered artifact. *)
From stdpp Require Import base tactics numbers list gmap strings.
From Stdlib Require Import Strings.Byte.
From S2P Require Import Prelude PyData Struct Text Errors CaptureModel.

Definition MAGIC : Z := 123000321.
Definition FORMAT_VERSION : Z := 1.
Definition FLAG_WITH_STR_REPR : Z := 1.
Definition MAX_STRING_SIZE : Z := 0xFFFF.
Definition MAX_UINT32 : Z := 0xFFFFFFFF.

Definition WELL_KNOWN_TYPE_NAMES : list str :=
  [lit "list"; lit "tuple"; lit "dict"; lit "set"; lit "str"; lit "bytes"; lit "bytearray";
   lit "int"; lit "bool"; lit "float"; lit "object"; lit "type"; lit "NoneType"].

Definition _BOOL : format := [Fbool].
Definition _SIGNED_SHORT : format := [Fh].
Definition _UNSIGNED_INT : format := [FI].
Definition _UNSIGNED_LONG : format := [FQ].

(** ** The file being written *)

(** A binary file: contents, position, how large it may grow before the disk
    is full, and whether [fsync] succeeds. *)
Record File := mkFile {
  f_data : bytes;
  f_pos : nat;
  f_quota : option nat;
  f_syncs : bool;
}.

Definition new_file (quota : option nat) (syncs : bool) : File := mkFile [] 0 quota syncs.

(** Writing at a position overwrites what is there and extends the file. *)
Definition overwrite (data : bytes) (pos : nat) (bs : bytes) : bytes :=
  take pos data ++ replicate (pos - length data) x00 ++ bs ++ drop (pos + length bs) data.

Definition f_write (bs : bytes) (f : File) : result exc File :=
  let data := overwrite (f_data f) (f_pos f) bs in
  if match f_quota f with Some q => (length data <=? q)%nat | None => true end
  then Ok (mkFile data (f_pos f + length bs) (f_quota f) (f_syncs f))
  else Err (OSError (lit "No space left on device")).

Definition f_seek (pos : nat) (f : File) : File := mkFile (f_data f) pos (f_quota f) (f_syncs f).

(** ** The writer *)

Record HeapWriter := mkHeapWriter {
  _file : File;
  _with_str_repr : bool;
  _sync : bool;
  _object_count_offset : option nat;
  _object_count : Z;
}.

Definition new_writer (file : File) (with_str_repr sync : bool) : HeapWriter :=
  mkHeapWriter file with_str_repr sync None 0.

Definition _encode_string (value : str) : bytes := utf8_encode value.
Definition _dict_content (obj : HeapObject) : list (Z * Z) := dict_content obj.
Definition _sequence_content (obj : HeapObject) : list Z := sequence_content obj.

Module HeapWriterOps.
Abbreviation W := (M HeapWriter exc).

Definition set_file (f : File) (w : HeapWriter) : HeapWriter :=
  mkHeapWriter f (_with_str_repr w) (_sync w) (_object_count_offset w) (_object_count w).
Definition set_count_offset (o : option nat) (w : HeapWriter) : HeapWriter :=
  mkHeapWriter (_file w) (_with_str_repr w) (_sync w) o (_object_count w).
Definition set_count (n : Z) (w : HeapWriter) : HeapWriter :=
  mkHeapWriter (_file w) (_with_str_repr w) (_sync w) (_object_count_offset w) n.

(** [self._file.write(bs)] *)
Definition write (bs : bytes) : W unit := λ w,
  match f_write bs (_file w) with
  | Ok f => (Ok tt, set_file f w)
  | Err e => (Err e, w)
  end.
(** [self._file.tell()] and [self._file.seek(pos)] *)
Definition tell : W nat := λ w, (Ok (f_pos (_file w)), w).
Definition seek (pos : nat) : W unit := modify (λ w, set_file (f_seek pos (_file w)) w).
(** [os.fsync(self._file.fileno())] *)
Definition fsync : W unit := λ w,
  (if f_syncs (_file w) then Ok tt else Err (OSError (lit "fsync failed")), w).

Definition _write_u32 (value : Z) : W unit :=
  if negb ((0 <=? value) && (value <=? MAX_UINT32))
  then raise (PydumpError (lit "value " ++ dec_string value
                           ++ lit " does not fit in a v1 unsigned int"))
  else b ← lift (or_struct_error (pack _UNSIGNED_INT (value, tt))); write b.

Definition _write_u64 (value : Z) : W unit :=
  b ← lift (or_struct_error (pack _UNSIGNED_LONG (value, tt))); write b.

Definition write_bool (value : bool) : W unit :=
  b ← lift (or_struct_error (pack _BOOL (value, tt))); write b.

Definition _write_short_string (value : str) : W unit :=
  let encoded := _encode_string value in
  let encoded := if 0x7FFF <? blen encoded then take (Z.to_nat 0x7FFF) encoded else encoded in
  b ← lift (or_struct_error (pack _SIGNED_SHORT (blen encoded, tt)));
  write b;;
  write encoded.

Definition _write_long_string (value : str) : W unit :=
  let encoded := _encode_string value in
  let encoded := if MAX_STRING_SIZE <? blen encoded
                 then take (Z.to_nat MAX_STRING_SIZE) encoded else encoded in
  b ← lift (or_struct_error (pack [FH] (blen encoded, tt)));
  write b;;
  write encoded.

(** [created_at or datetime.now().astimezone().isoformat()] *)
Definition created (created_at : option str) (now : str) : str :=
  match created_at with Some ((_ :: _) as s) => s | _ => now end.

Definition write_header (now : str) (well_known_types : dict str Z) (created_at : option str) : W unit :=
  let missing := filter (λ name, name ∉ dict_keys well_known_types) WELL_KNOWN_TYPE_NAMES in
  match missing with
  | _ :: _ => raise (PydumpError (lit "agent omitted well-known types: "
                                  ++ join (lit ", ") (py_sort str_leb missing)))
  | [] =>
      _write_u64 MAGIC;;
      _write_u32 FORMAT_VERSION;;
      _write_long_string (created created_at now);;
      w ← get;
      _write_u64 (if _with_str_repr w then FLAG_WITH_STR_REPR else 0);;
      _write_u32 (blen WELL_KNOWN_TYPE_NAMES);;
      for_each WELL_KNOWN_TYPE_NAMES (λ name,
        _write_long_string name;;
        address ← lift (or_key_error (dict_get well_known_types name));
        _write_u64 address)
  end.

Definition write_frame (frame : ThreadFrame) : W unit :=
  _write_long_string (filename frame);;
  _write_u32 (lineno frame);;
  _write_long_string (function frame);;
  _write_u32 (blen (locals frame));;
  for_each (locals frame) (λ '(name, address), _write_long_string name;; _write_u64 address).

Definition write_thread (thread : HeapThread) : W unit :=
  _write_long_string (thread_name thread);;
  write_bool (is_alive thread);;
  write_bool (is_daemon thread);;
  _write_u32 (blen (frames thread));;
  for_each (frames thread) write_frame.

Definition write_threads (threads : list HeapThread) : W unit :=
  _write_u32 (blen threads);; for_each threads write_thread.

Definition begin_objects : W unit :=
  _write_u32 0;;
  _write_u32 0;;
  offset ← tell;
  modify (set_count_offset (Some offset));;
  _write_u32 0.

(** The content of a container and the addresses it accounts for *)
Definition write_content (obj : HeapObject) : W (gset Z) :=
  match content_kind obj with
  | DICT =>
      let entries := _dict_content obj in
      _write_u32 (blen entries);;
      for_each entries (λ '(key, value), _write_u64 key;; _write_u64 value);;
      mret (list_to_set (entries.*1 ++ entries.*2))
  | LIST | SET | TUPLE =>
      let content := _sequence_content obj in
      _write_u32 (blen content);;
      for_each content _write_u64;;
      mret (list_to_set content)
  | NONE => mret ∅
  end.

(** [sorted(addresses)] of a set: whatever order it is iterated in. *)
Definition sorted_addresses (s : gset Z) : list Z := py_sort Z.leb (elements s).

Definition is_container (well_known_types : dict str Z) (type_address : Z) : result exc bool :=
  d ← or_key_error (dict_get well_known_types (lit "dict"));
  l ← or_key_error (dict_get well_known_types (lit "list"));
  s ← or_key_error (dict_get well_known_types (lit "set"));
  t ← or_key_error (dict_get well_known_types (lit "tuple"));
  mret (bool_decide (type_address ∈ [d; l; s; t])).

Definition write_object (obj : HeapObject) (well_known_types : dict str Z) : W unit :=
  w ← get;
  match _object_count_offset w with
  | None => raise (PydumpError (lit "object section was not started"))
  | Some _ =>
      _write_u64 (address obj);;
      _write_u64 (type_address obj);;
      _write_u32 (Z.min (Z.max (shallow_size obj) 0) MAX_UINT32);;
      container_addresses ← write_content obj;
      let remaining_referents := referents obj ∖ container_addresses in
      _write_u32 (Z.of_nat (size remaining_referents));;
      for_each (sorted_addresses remaining_referents) _write_u64;;
      _write_u32 (blen (attributes obj));;
      for_each (attributes obj) (λ attribute,
        _write_short_string (attr_name attribute);; _write_u64 (attr_address attribute));;
      container ← lift (is_container well_known_types (type_address obj));
      (if _with_str_repr w && negb container then _write_long_string (str_repr obj) else mret tt);;
      modify (λ w, set_count (_object_count w + 1) w)
  end.

(** Tuples [(address, name)] compare by address first. *)
Definition type_entry_leb : Z * str → Z * str → bool := lex_Z fst (λ x y, str_leb x.2 y.2).

Definition finish (types : dict Z str) : W unit :=
  w ← get;
  match _object_count_offset w with
  | None => raise (PydumpError (lit "object section was not started"))
  | Some offset =>
      end_offset ← tell;
      seek offset;;
      _write_u32 (_object_count w);;
      seek end_offset;;
      _write_u32 (blen types);;
      for_each (py_sort type_entry_leb types) (λ '(address, name),
        _write_u64 address;; _write_long_string name);;
      _write_u64 MAGIC;;
      (if _sync w then fsync else mret tt)
  end.
End HeapWriterOps.

(** [validate_artifact(path)], given the contents of the file *)
Definition validate_artifact (path : str) (contents : bytes) : result exc unit :=
  if blen contents <? Z.of_nat (calcsize _UNSIGNED_LONG * 2)
  then Err (PydumpError (lit "artifact " ++ path ++ lit " is too short"))
  else
    '(start, _) ← or_struct_error (unpack _UNSIGNED_LONG (take (calcsize _UNSIGNED_LONG) contents));
    '(end_, _) ← or_struct_error
      (unpack _UNSIGNED_LONG (drop (length contents - calcsize _UNSIGNED_LONG) contents));
    if negb (start =? MAGIC) || negb (end_ =? MAGIC)
    then Err (PydumpError (lit "artifact " ++ path ++ lit " has an invalid magic value"))
    else mret tt.
