(* ===== verification/Golden.v ===== *)
(** * The contract's fixture heap

    The heap [contracts/testdata/generate.py] records, used as the concrete
    input of the witnesses. *)
From stdpp Require Import base tactics numbers list gmap strings.
From S2P Require Import Prelude PyData Struct Text CaptureModel HeapWriter.

Definition golden_created : str := lit "2026-08-13T12:00:00+00:00".

(** [{name: 0x1000 + index ...}] *)
Definition golden_known : dict str Z :=
  imap (λ index name, (name, 0x1000 + Z.of_nat index)) WELL_KNOWN_TYPE_NAMES.

Definition known (name : string) : Z := default 0 (dict_get golden_known (lit name)).

Definition golden_threads : list HeapThread :=
  [mkHeapThread (lit "MainThread") true false
     [mkThreadFrame (lit "/app/main.py") 42 (lit "run") [(lit "payload", 0x2000)]]].

(** [_object] of generate.py *)
Definition _object (address type_address size : Z) (representation : string) (referents : gset Z)
  : HeapObject :=
  mkHeapObject address type_address (lit "object") size NONE [] [] referents [] (lit representation).

Definition golden_objects : list HeapObject :=
  [mkHeapObject 0x2000 (known "list") (lit "list") 64 LIST [0x3000; 0x4000] []
     {[0x3000; 0x4000]} [] [];
   _object 0x3000 (known "object") 16 "<object at 0x3000>" ∅;
   _object 0x4000 (known "object") 32 "<object at 0x4000>" {[0x3000]};
   _object 0x5000 (known "object") 8 "<object at 0x5000>" {[0x3000]};
   mkHeapObject 0x6000 (known "set") (lit "set") 48 SET [0x4000; 0x3000] []
     {[0x3000; 0x4000]} [] [];
   mkHeapObject 0x7000 (known "tuple") (lit "tuple") 40 TUPLE [0x3000] [] {[0x3000]} [] [];
   mkHeapObject 0x8000 (known "dict") (lit "dict") 80 DICT [] [(0x3000, 0x4000)]
     {[0x3000; 0x4000]} [] []].

Definition golden_types : dict Z str :=
  [(known "dict", lit "dict"); (known "list", lit "list"); (known "set", lit "set");
   (known "tuple", lit "tuple"); (known "object", lit "object")].

(** [contracts/testdata/heap-v1.pyheap], in hexadecimal *)
Definition hex_digit (c : Z) : Z := if c <=? 57 then c - 48 else c - 87.
Fixpoint hex_bytes (digits : list Z) : bytes :=
  match digits with
  | h :: l :: digits => byte_of (hex_digit h * 16 + hex_digit l) :: hex_bytes digits
  | _ => []
  end.

Definition golden_artifact : bytes := hex_bytes (lit (
   "000000000754d601000000010019323032362d30382d31335431323a30303a30302b30303a303000" ++
   "000000000000010000000d00046c697374000000000000100000057475706c650000000000001001" ++
   "00046469637400000000000010020003736574000000000000100300037374720000000000001004" ++
   "000562797465730000000000001005000962797465617272617900000000000010060003696e7400" ++
   "000000000010070004626f6f6c00000000000010080005666c6f6174000000000000100900066f62" ++
   "6a656374000000000000100a000474797065000000000000100b00084e6f6e655479706500000000" ++
   "0000100c00000001000a4d61696e546872656164010000000001000c2f6170702f6d61696e2e7079" ++
   "0000002a000372756e0000000100077061796c6f6164000000000000200000000000000000000000" ++
   "00070000000000002000000000000000100000000040000000020000000000003000000000000000" ++
   "400000000000000000000000000000003000000000000000100a0000001000000000000000000012" ++
   "3c6f626a656374206174203078333030303e0000000000004000000000000000100a000000200000" ++
   "000100000000000030000000000000123c6f626a656374206174203078343030303e000000000000" ++
   "5000000000000000100a000000080000000100000000000030000000000000123c6f626a65637420" ++
   "6174203078353030303e000000000000600000000000000010030000003000000002000000000000" ++
   "40000000000000003000000000000000000000000000000070000000000000001001000000280000" ++
   "00010000000000003000000000000000000000000000000080000000000000001002000000500000" ++
   "00010000000000003000000000000000400000000000000000000000000500000000000010000004" ++
   "6c697374000000000000100100057475706c65000000000000100200046469637400000000000010" ++
   "030003736574000000000000100a00066f626a656374000000000754d601")).
