(* ===== verification/Collector.v ===== *)
(** * The Collector: graph traversal and artifact delivery

    [capture/collector/src/pydump/collector.py].  One session owns a framed
    socket and a heap writer; [_capture] talks to the Agent, walks the object
    graph and streams it to the writer; [capture] delivers the file under its
    final name or leaves nothing behind. *)
From stdpp Require Import base tactics numbers list gmap strings.
From S2P Require Import Prelude PyData Struct Text StrOps Floats Paths Errors Protocol CaptureModel HeapWriter.

(** ** State *)

(** The counters of [CaptureStats]; its durations are the [Readings] below. *)
Record CaptureStats := mkCaptureStats {
  object_count : Z;
  referent_count : Z;
  pending_peak : Z;
  scheduled_peak : Z;
  wire_sent_bytes : Z;
  wire_received_bytes : Z;
  wire_sent_frames : Z;
  wire_received_frames : Z;
  bulk_records : Z;
  artifact_bytes : Z;
}.

Definition new_capture_stats : CaptureStats := mkCaptureStats 0 0 0 0 0 0 0 0 0 0.

(** The readings of the clock, in nanoseconds, in a session that completes: in
    [capture], after HELLO, before the roots, before the objects, before FINISH,
    after COMPLETE, at the end of [_capture] and in the [finally] block *)
Record Readings := mkReadings {
  r_started : Z;
  r_hello_received : Z;
  r_roots_started : Z;
  r_objects_started : Z;
  r_finish_started : Z;
  r_agent_completed : Z;
  r_finalized : Z;
  r_ended : Z;
}.

(** The durations of [CaptureStats] *)
Definition total_seconds (r : Readings) : float := seconds_between (r_started r) (r_ended r).
Definition hello_wait_seconds (r : Readings) : float := seconds_between (r_started r) (r_hello_received r).
Definition setup_seconds (r : Readings) : float := seconds_between (r_hello_received r) (r_roots_started r).
Definition roots_seconds (r : Readings) : float := seconds_between (r_roots_started r) (r_objects_started r).
Definition objects_seconds (r : Readings) : float := seconds_between (r_objects_started r) (r_finish_started r).
Definition finish_handshake_seconds (r : Readings) : float := seconds_between (r_finish_started r) (r_agent_completed r).
Definition target_pause_seconds (r : Readings) : float := seconds_between (r_hello_received r) (r_agent_completed r).
Definition artifact_finalize_seconds (r : Readings) : float := seconds_between (r_agent_completed r) (r_finalized r).

(** [_max_rss_bytes]: the kernel's [ru_maxrss], which only macOS counts in bytes *)
Definition _max_rss_bytes (platform : str) (ru_maxrss : Z) : Z :=
  if bool_decide (platform = lit "darwin") then ru_maxrss else ru_maxrss * 1024.

(** The constructor's arguments; [progress] says whether a callback was given. *)
Record Collector := mkCollector {
  _nonce : bytes;
  _str_repr_len : Z;
  _dump_attributes : bool;
  _batch_size : Z;
  _progress : bool;
}.

Definition new_collector (nonce : bytes) (str_repr_len : Z) (dump_attributes : bool) (batch_size : Z)
  (progress : bool) : result exc Collector :=
  if (length nonce =? NONCE_SIZE)%nat
  then Ok (mkCollector nonce str_repr_len dump_attributes batch_size progress)
  else Err (ValueError (lit "nonce must contain " ++ dec_string (Z.of_nat NONCE_SIZE) ++ lit " bytes")).

(** What [_capture] works on: the channel, the writer, the counters, what went
    to standard error and to the progress callback. *)
Record Session := mkSession {
  channel : FramedSocket;
  writer : HeapWriter;
  cstats : CaptureStats;
  warnings : list str;
  progress_calls : list (Z * Z);
}.

(** The local variables of the traversal *)
Record Traversal := mkTraversal { scheduled : gset Z; pending : list Z }.

(** The local variables of the object loop *)
Record Progress := mkProgress { walk : Traversal; types : dict Z str; completed : Z }.

Module CollectorOps.
Abbreviation C := (M Session exc).

Definition set_channel (c : FramedSocket) (s : Session) : Session :=
  mkSession c (writer s) (cstats s) (warnings s) (progress_calls s).
Definition set_writer (w : HeapWriter) (s : Session) : Session :=
  mkSession (channel s) w (cstats s) (warnings s) (progress_calls s).
Definition set_cstats (f : CaptureStats → CaptureStats) (s : Session) : Session :=
  mkSession (channel s) (writer s) (f (cstats s)) (warnings s) (progress_calls s).
Definition add_warning (line : str) (s : Session) : Session :=
  mkSession (channel s) (writer s) (cstats s) (warnings s ++ [line]) (progress_calls s).
Definition add_progress (completed left : Z) (s : Session) : Session :=
  mkSession (channel s) (writer s) (cstats s) (warnings s) (progress_calls s ++ [(completed, left)]).

(** A call on the channel, and one on the writer *)
Definition on_channel {A} (m : M FramedSocket exc A) : C A := λ s,
  let '(r, c) := m (channel s) in (r, set_channel c s).
Definition on_writer {A} (m : M HeapWriter exc A) : C A := λ s,
  let '(r, w) := m (writer s) in (r, set_writer w s).

Definition receive : C Frame := on_channel FramedSocketOps.receive.
Definition send (kind : FrameKind) (payload : bytes) : C unit :=
  on_channel (FramedSocketOps.send kind payload).

Definition _expect (expected : FrameKind) : C Frame :=
  frame ← receive;
  if decide (kind frame = ERROR)
  then raise (PydumpError (lit "agent failed: " ++ decode_text (payload frame)))
  else if decide (kind frame = expected) then mret frame
  else raise (ProtocolError (lit "expected " ++ kind_name expected ++ lit ", received "
                             ++ kind_name (kind frame))).

Definition _raise_unexpected {A} (frame : Frame) (stage : str) : C A :=
  if decide (kind frame = ERROR)
  then raise (PydumpError (lit "agent failed during " ++ stage ++ lit ": " ++ decode_text (payload frame)))
  else raise (ProtocolError (lit "received unexpected " ++ kind_name (kind frame)
                             ++ lit " during " ++ stage)).

(** *** One object *)

Definition add_referents (l : list Z) (obj : HeapObject) : HeapObject :=
  mkHeapObject (address obj) (type_address obj) (type_name obj) (shallow_size obj) (content_kind obj)
    (sequence_content obj) (dict_content obj) (referents obj ∪ list_to_set l) (attributes obj) (str_repr obj).
Definition extend_sequence (l : list Z) (obj : HeapObject) : HeapObject :=
  mkHeapObject (address obj) (type_address obj) (type_name obj) (shallow_size obj) (content_kind obj)
    (sequence_content obj ++ l) (dict_content obj) (referents obj) (attributes obj) (str_repr obj).
Definition extend_dict (l : list (Z * Z)) (obj : HeapObject) : HeapObject :=
  mkHeapObject (address obj) (type_address obj) (type_name obj) (shallow_size obj) (content_kind obj)
    (sequence_content obj) (dict_content obj ++ l) (referents obj) (attributes obj) (str_repr obj).
Definition set_str_repr (s : str) (obj : HeapObject) : HeapObject :=
  mkHeapObject (address obj) (type_address obj) (type_name obj) (shallow_size obj) (content_kind obj)
    (sequence_content obj) (dict_content obj) (referents obj) (attributes obj) s.

Definition hex0x (a : Z) : str := lit "0x" ++ hex_string a.

(** [f"<{obj.type_name} at 0x{obj.address:x}>"[:self._str_repr_len]] in place of
    an empty preview *)
Definition default_repr (str_repr_len : Z) (obj : HeapObject) : HeapObject :=
  if (0 <=? str_repr_len) && bool_decide (str_repr obj = [])
  then set_str_repr (py_prefix str_repr_len
         (lit "<" ++ type_name obj ++ lit " at " ++ hex0x (address obj) ++ lit ">")) obj
  else obj.

(** The loop over the frames of an object *)
Fixpoint receive_parts (fuel : nat) (str_repr_len expected_address : Z) (obj : HeapObject)
  : C HeapObject :=
  match fuel with
  | O => raise OutOfFuel
  | S fuel =>
      frame ← receive;
      match kind frame with
      | REFERENTS =>
          l ← lift (decode_addresses (payload frame));
          receive_parts fuel str_repr_len expected_address (add_referents l obj)
      | SEQUENCE_CONTENT =>
          l ← lift (decode_addresses (payload frame));
          receive_parts fuel str_repr_len expected_address (extend_sequence l obj)
      | DICT_CONTENT =>
          l ← lift (decode_dict_entries (payload frame));
          receive_parts fuel str_repr_len expected_address (extend_dict l obj)
      | PREVIEW =>
          receive_parts fuel str_repr_len expected_address (set_str_repr (decode_text (payload frame)) obj)
      | WARNING =>
          modify (add_warning (lit "pydump agent warning: " ++ decode_text (payload frame)));;
          receive_parts fuel str_repr_len expected_address obj
      | OBJECT_END => mret (default_repr str_repr_len obj)
      | _ => _raise_unexpected frame (lit "object " ++ hex0x expected_address)
      end
  end.

(** Every frame uses up some of the channel's backlog. *)
Definition backlog_fuel (s : Session) : nat := S (backlog (channel s)).

Definition _receive_object (str_repr_len expected_address : Z) : C HeapObject :=
  frame ← _expect OBJECT_BEGIN;
  begin ← lift (decode_object_begin (payload frame));
  if negb (Protocol.address begin =? expected_address)
  then raise (ProtocolError (lit "agent returned object " ++ hex0x (Protocol.address begin)
                             ++ lit ", expected " ++ hex0x expected_address))
  else match content_kind_of (Protocol.content_kind begin) with
       | None => raise (ProtocolError (lit "object " ++ hex0x (Protocol.address begin)
                          ++ lit " has unknown content kind " ++ dec_string (Protocol.content_kind begin)))
       | Some kind =>
           s ← get;
           receive_parts (backlog_fuel s) str_repr_len expected_address
             (new_object (Protocol.address begin) (Protocol.type_address begin)
                (Protocol.type_name begin) (Protocol.shallow_size begin) kind)
       end.

(** *** Scheduling *)

Definition schedule_one (t : Traversal) (address : Z) : Traversal :=
  if negb (address =? 0) && bool_decide (address ∉ scheduled t)
  then mkTraversal (scheduled t ∪ {[address]}) (pending t ++ [address])
  else t.

Definition note_peaks (t : Traversal) (st : CaptureStats) : CaptureStats :=
  mkCaptureStats (object_count st) (referent_count st)
    (Z.max (pending_peak st) (blen (pending t)))
    (Z.max (scheduled_peak st) (Z.of_nat (size (scheduled t))))
    (wire_sent_bytes st) (wire_received_bytes st) (wire_sent_frames st) (wire_received_frames st)
    (bulk_records st) (artifact_bytes st).

Definition schedule (addresses : list Z) (t : Traversal) : C Traversal :=
  let t := foldl schedule_one t addresses in
  modify (set_cstats (note_peaks t));;
  mret t.

(** The loop over the root batches *)
Fixpoint enumerate_roots (fuel : nat) (t : Traversal) : C Traversal :=
  match fuel with
  | O => raise OutOfFuel
  | S fuel =>
      frame ← receive;
      match kind frame with
      | ROOT_BATCH =>
          l ← lift (decode_addresses (payload frame));
          t ← schedule l t;
          enumerate_roots fuel t
      | ROOTS_DONE => mret t
      | _ => _raise_unexpected frame (lit "root enumeration")
      end
  end.

(** *** The object loop *)

(** [[pending.pop() for _ in range(min(self._batch_size, len(pending)))]] *)
Definition pop_batch (batch_size : Z) (t : Traversal) : list Z * Traversal :=
  let n := Z.to_nat (Z.min batch_size (blen (pending t))) in
  (take n (reverse (pending t)),
   mkTraversal (scheduled t) (take (length (pending t) - n) (pending t))).

Definition count_object (completed referents : Z) (st : CaptureStats) : CaptureStats :=
  mkCaptureStats completed (referent_count st + referents) (pending_peak st) (scheduled_peak st)
    (wire_sent_bytes st) (wire_received_bytes st) (wire_sent_frames st) (wire_received_frames st)
    (bulk_records st) (artifact_bytes st).

Section ObjectLoop.
Context `{SetOrder} (self : Collector) (well_known_types : dict str Z).

Definition schedule_object (obj : HeapObject) (t : Traversal) : C Traversal :=
  t ← schedule (set_iter (referents obj)) t;
  t ← (match content_kind obj with
       | DICT =>
           (fix go (entries : list (Z * Z)) (t : Traversal) : C Traversal :=
              match entries with
              | [] => mret t
              | (key, value) :: entries => t ← schedule [key; value] t; go entries t
              end) (dict_content obj) t
       | _ => schedule (sequence_content obj) t
       end);
  t ← schedule (attr_address <$> attributes obj) t;
  schedule [type_address obj] t.

Definition capture_object (expected_address : Z) (p : Progress) : C Progress :=
  obj ← _receive_object (_str_repr_len self) expected_address;
  on_writer (HeapWriterOps.write_object obj well_known_types);;
  let types := dict_set (types p) (type_address obj) (type_name obj) in
  t ← schedule_object obj (walk p);
  let completed := completed p + 1 in
  modify (set_cstats (count_object completed (Z.of_nat (size (referents obj)))));;
  mret (mkProgress t types completed).

Fixpoint capture_batch (batch : list Z) (p : Progress) : C Progress :=
  match batch with
  | [] => mret p
  | expected_address :: batch => p ← capture_object expected_address p; capture_batch batch p
  end.

Definition request_batch (p : Progress) : C Progress :=
  let '(batch, t) := pop_batch (_batch_size self) (walk p) in
  wire ← lift (encode_addresses batch);
  send REQUEST_OBJECTS wire;;
  p ← capture_batch batch (mkProgress t (types p) (completed p));
  _expect BATCH_DONE;;
  (if _progress self then modify (add_progress (completed p) (blen (pending (walk p)))) else mret tt);;
  mret p.

(** At most [fuel] rounds of [while pending]; [next] is what follows them. *)
Fixpoint request_batches (fuel : nat) (next : Progress → C Progress) (p : Progress) : C Progress :=
  match pending (walk p) with
  | [] => mret p
  | _ =>
      match fuel with
      | O => next p
      | S fuel => p ← request_batch p; request_batches fuel next p
      end
  end.

(** [while pending]: every round asks the Agent and reads at least one frame, so
    there are at most as many as the Agent has answers left, and then as there
    are frames in what it has sent. *)
Definition capture_objects (p : Progress) : C Progress :=
  s ← get;
  request_batches (length (peer (_socket (channel s))))
    (λ p, s ← get; request_batches (backlog_fuel s) (λ _, raise OutOfFuel) p) p.
End ObjectLoop.

(** *** The session *)

Definition check_hello (self : Collector) (hello : Hello) : result exc unit :=
  if negb (bool_decide (nonce hello = _nonce self))
  then Err (ProtocolError (lit "agent returned a different session nonce"))
  else if negb (python_major hello =? 3) || (python_minor hello <? 10)
  then Err (ProtocolError (lit "native agent reported unsupported CPython "
                           ++ dec_string (python_major hello) ++ lit "." ++ dec_string (python_minor hello)))
  else if negb (pointer_size hello =? 8)
  then Err (ProtocolError (lit "unsupported target pointer size " ++ dec_string (pointer_size hello)))
  else if negb (little_endian hello)
  then Err (ProtocolError (lit "big-endian targets are not supported"))
  else Ok tt.

Section Capture.
Context `{SetOrder} (self : Collector) (now : str).

(** The handshake, up to the addresses of the well-known types *)
Definition handshake : C (list Z) :=
  frame ← _expect HELLO;
  hello ← lift (decode_hello (payload frame));
  lift (check_hello self hello);;
  options ← lift (encode_options (_str_repr_len self) (_dump_attributes self));
  send HELLO_ACK options;;
  frame ← _expect WELL_KNOWN;
  addresses ← lift (decode_addresses (payload frame));
  if negb (length addresses =? length WELL_KNOWN_TYPE_NAMES)%nat
  then raise (ProtocolError (lit "agent returned " ++ dec_string (blen addresses)
                ++ lit " well-known types, expected "
                ++ dec_string (blen WELL_KNOWN_TYPE_NAMES)))
  else mret addresses.

Definition _capture : C Z :=
  well_known_addresses ← handshake;
  let well_known_types := dict_of (zip WELL_KNOWN_TYPE_NAMES well_known_addresses) in
  on_writer (HeapWriterOps.write_header now well_known_types None);;
  on_writer (HeapWriterOps.write_threads []);;
  on_writer HeapWriterOps.begin_objects;;
  s ← get;
  t ← enumerate_roots (backlog_fuel s) (mkTraversal ∅ []);
  t ← schedule well_known_addresses t;
  p ← capture_objects self well_known_types
        (mkProgress t (dict_of (zip well_known_addresses WELL_KNOWN_TYPE_NAMES)) 0);
  send FINISH [];;
  _expect COMPLETE;;
  on_writer (HeapWriterOps.finish (types p));;
  mret (completed p).
End Capture.
End CollectorOps.

(** ** Delivery *)

(** How the disk behaves: how much a fresh file holds, whether it syncs, the errors
    of [open], [os.replace] and [unlink], and the directories there are *)
Record Disk := mkDisk {
  quota : option nat;
  syncs : bool;
  open_error : option str;
  replace_error : option str;
  unlink_error : option str;
  folders : gset Path;
}.

(** A disk without limits and errors *)
Definition working (folders : gset Path) : Disk := mkDisk None true None None None folders.

(** [path.exists()] *)
Definition path_taken (disk : Disk) (files : Files) (path : Path) : bool :=
  bool_decide (is_Some (files !! path)) || bool_decide (path ∈ folders disk).

(** [Path(f"{requested}.{index}")] *)
Definition candidate (requested : Path) (index : Z) : Path :=
  let '(directory, name) := requested in
  (directory, match directory, name with [], [] => lit "." | _, _ => name end ++ lit "." ++ dec_string index).

(** [available_output_path(requested)]: one more candidate than there are files
    and directories is enough. *)
Fixpoint first_free (fuel : nat) (taken : Path → bool) (requested : Path) (index : Z) : result exc Path :=
  match fuel with
  | O => Err OutOfFuel
  | S fuel =>
      if taken (candidate requested index) then first_free fuel taken requested (index + 1)
      else Ok (candidate requested index)
  end.

Definition available_output_path (disk : Disk) (files : Files) (requested : Path) : result exc Path :=
  if path_taken disk files requested
  then first_free (S (size files + size (folders disk))) (path_taken disk files) requested 0
  else Ok requested.

(** The Collector's world: the file system, the channel, the counters and logs *)
Record World := mkWorld {
  files : Files;
  w_channel : FramedSocket;
  w_stats : CaptureStats;
  w_warnings : list str;
  w_progress : list (Z * Z);
}.

Definition set_files (fs : Files) (w : World) : World :=
  mkWorld fs (w_channel w) (w_stats w) (w_warnings w) (w_progress w).

Definition set_artifact_bytes (n : Z) (st : CaptureStats) : CaptureStats :=
  mkCaptureStats (object_count st) (referent_count st) (pending_peak st) (scheduled_peak st)
    (wire_sent_bytes st) (wire_received_bytes st) (wire_sent_frames st) (wire_received_frames st)
    (bulk_records st) n.

(** The [finally] block copies the channel's totals. *)
Definition copy_wire_stats (c : FramedSocket) (st : CaptureStats) : CaptureStats :=
  mkCaptureStats (object_count st) (referent_count st) (pending_peak st) (scheduled_peak st)
    (sent_bytes (stats c)) (received_bytes (stats c)) (sent_frames (stats c)) (received_frames (stats c))
    (received_records (stats c)) (artifact_bytes st).

(** [f".{final_path.name}.{self._nonce.hex()}.partial"] *)
Definition temporary_path (self : Collector) (final_path : Path) : Path :=
  (final_path.1, lit "." ++ final_path.2 ++ lit "." ++ bytes_hex (_nonce self) ++ lit ".partial").

Section Delivery.
Context `{SetOrder} (self : Collector) (now : str).

Context (disk : Disk).

Abbreviation I := (M World exc).

(** [with temporary.open("xb") as file: count = self._capture(...)]: the file
    keeps what was written, also when an exception ends the block. *)
Definition write_temporary (temporary : Path) : I Z := λ w,
  match path_taken disk (files w) temporary, open_error disk with
  | true, _ => (Err FileExistsError, w)
  | false, Some reason => (Err (OSError reason), w)
  | false, None =>
      let s := mkSession (w_channel w)
                 (new_writer (new_file (quota disk) (syncs disk)) (0 <=? _str_repr_len self) true)
                 (w_stats w) (w_warnings w) (w_progress w) in
      let '(r, s) := CollectorOps._capture self now s in
      (r, mkWorld (<[temporary := f_data (_file (writer s))]> (files w)) (channel s) (cstats s)
            (warnings s) (progress_calls s))
  end.

(** [os.replace(temporary, final_path)] *)
Definition replace_file (temporary final_path : Path) : I unit := λ w,
  match files w !! temporary, replace_error disk with
  | None, _ => (Err (OSError (lit "No such file or directory")), w)
  | Some _, Some reason => (Err (OSError reason), w)
  | Some contents, None => (Ok tt, set_files (<[final_path := contents]> (delete temporary (files w))) w)
  end.

(** [path.unlink(missing_ok=True)] *)
Definition unlink (path : Path) : I unit :=
  match unlink_error disk, bool_decide (path ∈ folders disk) with
  | Some reason, _ => raise (OSError reason)
  | None, true => raise (OSError (lit "Is a directory"))
  | None, false => modify (λ w, set_files (delete path (files w)) w)
  end.

Definition deliver (temporary final_path : Path) : I Z :=
  count ← write_temporary temporary;
  w ← get;
  lift (validate_artifact (path_str temporary) (default [] (files w !! temporary)));;
  replace_file temporary final_path;;
  w ← get;
  modify (λ w', mkWorld (files w') (w_channel w')
    (set_artifact_bytes (blen (default [] (files w !! final_path))) (w_stats w'))
    (w_warnings w') (w_progress w'));;
  mret count.

Definition capture (output : Path) : I (Path * Z) :=
  w ← get;
  final_path ← lift (available_output_path disk (files w) output);
  let temporary := temporary_path self final_path in
  modify (λ w, mkWorld (files w) (w_channel w) new_capture_stats (w_warnings w) (w_progress w));;
  count ← finally
    (on_error (deliver temporary final_path) (unlink temporary))
    (modify (λ w, mkWorld (files w) (w_channel w) (copy_wire_stats (w_channel w) (w_stats w))
                    (w_warnings w) (w_progress w)));
  mret (final_path, count).
End Delivery.
