(* ===== verification/Artifact.v ===== *)
(** * The PyHeap v1 layout, and the writer's refinement of it

    The artifact as a function of the facts it records (contracts/heap-v1.md):
    a pure specification without file positions or back-filling.  The
    streaming writer of HeapWriter.v produces exactly these bytes. *)
From stdpp Require Import base tactics numbers list gmap strings.
From Stdlib Require Import Strings.Byte.
From S2P Require Import Prelude PyData Struct Text Errors CaptureModel HeapWriter Golden.

(** ** The layout *)

Definition enc_u32 (v : Z) : bytes := be_encode 4 v.
Definition enc_u64 (v : Z) : bytes := be_encode 8 v.
Definition enc_bool (b : bool) : bytes := [if b then x01 else x00].

(** A text of at most [limit] bytes, behind its 16-bit length *)
Definition stored_text (limit : Z) (s : str) : bytes := take (Z.to_nat limit) (utf8_encode s).
Definition enc_text (limit : Z) (s : str) : bytes :=
  be_encode 2 (blen (stored_text limit s)) ++ stored_text limit s.
Definition enc_long (s : str) : bytes := enc_text MAX_STRING_SIZE s.
Definition enc_short (s : str) : bytes := enc_text 0x7FFF s.

(** A counted sequence *)
Definition enc_seq {A} (enc : A → bytes) (l : list A) : bytes := enc_u32 (blen l) ++ (l ≫= enc).

Definition enc_named (entry : str * Z) : bytes := enc_long entry.1 ++ enc_u64 entry.2.
Definition enc_type_entry (entry : Z * str) : bytes := enc_u64 entry.1 ++ enc_long entry.2.
Definition enc_pair (entry : Z * Z) : bytes := enc_u64 entry.1 ++ enc_u64 entry.2.
Definition enc_attribute (a : HeapAttribute) : bytes := enc_short (attr_name a) ++ enc_u64 (attr_address a).

Definition enc_frame (frame : ThreadFrame) : bytes :=
  enc_long (filename frame) ++ enc_u32 (lineno frame) ++ enc_long (function frame)
  ++ enc_seq enc_named (locals frame).

Definition enc_thread (thread : HeapThread) : bytes :=
  enc_long (thread_name thread) ++ enc_bool (is_alive thread) ++ enc_bool (is_daemon thread)
  ++ enc_seq enc_frame (frames thread).

(** The address a well-known type has; only used where it is defined. *)
Definition known_address (known : dict str Z) (name : str) : Z := default 0 (dict_get known name).
Definition known_entries (known : dict str Z) : list (str * Z) :=
  (λ name, (name, known_address known name)) <$> WELL_KNOWN_TYPE_NAMES.

Definition enc_header (created : str) (with_str_repr : bool) (known : dict str Z) : bytes :=
  enc_u64 MAGIC ++ enc_u32 FORMAT_VERSION ++ enc_long created
  ++ enc_u64 (if with_str_repr then FLAG_WITH_STR_REPR else 0)
  ++ enc_seq enc_named (known_entries known).

Definition content_addresses (obj : HeapObject) : gset Z :=
  match content_kind obj with
  | DICT => list_to_set ((dict_content obj).*1 ++ (dict_content obj).*2)
  | NONE => ∅
  | _ => list_to_set (sequence_content obj)
  end.

Definition enc_content (obj : HeapObject) : bytes :=
  match content_kind obj with
  | DICT => enc_seq enc_pair (dict_content obj)
  | NONE => []
  | _ => enc_seq enc_u64 (sequence_content obj)
  end.

Definition stored_size (obj : HeapObject) : Z := Z.min (Z.max (shallow_size obj) 0) MAX_UINT32.

Definition container_types (known : dict str Z) : list Z :=
  [known_address known (lit "dict"); known_address known (lit "list");
   known_address known (lit "set"); known_address known (lit "tuple")].

Definition enc_object (with_str_repr : bool) (known : dict str Z) (obj : HeapObject) : bytes :=
  enc_u64 (address obj) ++ enc_u64 (type_address obj) ++ enc_u32 (stored_size obj)
  ++ enc_content obj
  ++ enc_seq enc_u64 (HeapWriterOps.sorted_addresses (referents obj ∖ content_addresses obj))
  ++ enc_seq enc_attribute (attributes obj)
  ++ (if with_str_repr && negb (bool_decide (type_address obj ∈ container_types known))
      then enc_long (str_repr obj) else []).

Definition enc_types (types : dict Z str) : bytes :=
  enc_seq enc_type_entry (py_sort HeapWriterOps.type_entry_leb types).

(** The two empty compression tables *)
Definition enc_tables : bytes := enc_u32 0 ++ enc_u32 0.

Definition artifact_bytes (created : str) (with_str_repr : bool) (known : dict str Z)
  (threads : list HeapThread) (objects : list HeapObject) (types : dict Z str) : bytes :=
  enc_header created with_str_repr known ++ enc_seq enc_thread threads ++ enc_tables
  ++ enc_seq (enc_object with_str_repr known) objects ++ enc_types types ++ enc_u64 MAGIC.

#[global] Arguments enc_u32 : simpl never.
#[global] Arguments enc_u64 : simpl never.
#[global] Arguments enc_text : simpl never.
#[global] Arguments enc_long : simpl never.
#[global] Arguments enc_short : simpl never.
#[global] Arguments enc_seq : simpl never.
#[global] Arguments enc_object : simpl never.
#[global] Arguments enc_header : simpl never.
#[global] Arguments enc_types : simpl never.
#[global] Arguments enc_tables : simpl never.

(** ** Facts the format can hold *)

Definition u32 (v : Z) : Prop := 0 <= v < 2 ^ 32.
Definition u64 (v : Z) : Prop := 0 <= v < 2 ^ 64.

Definition frame_ok (f : ThreadFrame) : Prop :=
  u32 (lineno f) ∧ u32 (blen (locals f)) ∧ Forall (λ e, u64 e.2) (locals f).
Definition thread_ok (t : HeapThread) : Prop :=
  u32 (blen (frames t)) ∧ Forall frame_ok (frames t).
Definition known_ok (known : dict str Z) : Prop :=
  Forall (λ name, ∃ a, dict_get known name = Some a ∧ u64 a) WELL_KNOWN_TYPE_NAMES.
(** The content that is stored, by the object's kind *)
Definition content_ok (obj : HeapObject) : Prop :=
  match content_kind obj with
  | NONE => True
  | DICT => u32 (blen (dict_content obj)) ∧ Forall (λ e, u64 e.1 ∧ u64 e.2) (dict_content obj)
  | _ => u32 (blen (sequence_content obj)) ∧ Forall u64 (sequence_content obj)
  end.
(** The referents the content does not account for *)
Definition remaining_referents (obj : HeapObject) : gset Z := referents obj ∖ content_addresses obj.

Record object_ok (obj : HeapObject) : Prop := {
  oo_address : u64 (address obj);
  oo_type : u64 (type_address obj);
  oo_content : content_ok obj;
  oo_count : u32 (Z.of_nat (size (remaining_referents obj)));
  oo_referents : set_Forall u64 (remaining_referents obj);
  oo_attribute_count : u32 (blen (attributes obj));
  oo_attributes : Forall (λ a, u64 (attr_address a)) (attributes obj);
}.
Definition types_ok (types : dict Z str) : Prop :=
  u32 (blen types) ∧ Forall (λ e, u64 e.1) types.

(** A recorded heap within the limits of the format's fields *)
Record within_limits (known : dict str Z) (threads : list HeapThread) (objects : list HeapObject)
  (types : dict Z str) : Prop := {
  wl_known : known_ok known;
  wl_thread_count : u32 (blen threads);
  wl_threads : Forall thread_ok threads;
  wl_object_count : u32 (blen objects);
  wl_objects : Forall object_ok objects;
  wl_types : types_ok types;
}.

(** ** The writer appends *)

Definition extend_file (bs : bytes) (f : File) : File :=
  mkFile (f_data f ++ bs) (f_pos f + length bs) (f_quota f) (f_syncs f).

Section Appends.
Import HeapWriterOps.
Context (wsr : bool).

(** Ready to append: positioned at the end of a file with room to grow. *)
Definition appendable (w : HeapWriter) : Prop :=
  f_pos (_file w) = length (f_data (_file w)) ∧ f_quota (_file w) = None
  ∧ _with_str_repr w = wsr.

Definition extend (bs : bytes) (w : HeapWriter) : HeapWriter := set_file (extend_file bs (_file w)) w.

(** [m] appends exactly [bs] and returns [a]. *)
Definition appends {A} (m : W A) (bs : bytes) (a : A) : Prop :=
  ∀ w, appendable w → m w = (Ok a, extend bs w).

Lemma extend_appendable bs w : appendable w → appendable (extend bs w).
Proof. intros (Hp & Hq & Hw). unfold appendable. cbn. rewrite length_app, Hp. auto. Qed.

Lemma extend_nil w : extend [] w = w.
Proof.
  destruct w as [[data pos quota syncs] w s o n]. unfold extend, set_file, extend_file. cbn.
  by rewrite app_nil_r, Nat.add_0_r.
Qed.

Lemma extend_app bs1 bs2 w : extend bs2 (extend bs1 w) = extend (bs1 ++ bs2) w.
Proof.
  unfold extend, set_file, extend_file. cbn. by rewrite <- app_assoc, length_app, Nat.add_assoc.
Qed.

Lemma overwrite_end data bs : overwrite data (length data) bs = data ++ bs.
Proof.
  unfold overwrite. rewrite Nat.sub_diag, take_ge, drop_ge by lia. cbn. by rewrite app_nil_r.
Qed.

Lemma appends_write bs : appends (write bs) bs tt.
Proof.
  intros w (Hp & Hq & _). unfold write, f_write, extend, extend_file.
  by rewrite Hq, Hp, overwrite_end.
Qed.

Lemma appends_ret {A} (a : A) : appends (mret a) [] a.
Proof. intros w _. by rewrite extend_nil. Qed.

Lemma appends_lift {A} (r : result exc A) a : r = Ok a → appends (lift r) [] a.
Proof. intros -> w _. by rewrite extend_nil. Qed.

Lemma appends_bind {A B} (m : W A) (f : A → W B) bs1 bs2 a b :
  appends m bs1 a → appends (f a) bs2 b → appends (m ≫= f) (bs1 ++ bs2) b.
Proof.
  intros Hm Hf w Hw. rewrite (bind_ok _ _ _ _ _ (Hm w Hw)).
  rewrite (Hf _ (extend_appendable _ _ Hw)), extend_app. done.
Qed.

Lemma run_append {A B} (m : W A) (f : A → W B) bs a w :
  appends m bs a → appendable w → (m ≫= f) w = f a (extend bs w).
Proof. intros Hm Hw. by apply bind_ok, Hm. Qed.

(** The sequencing rule, with the bytes as they are stated. *)
Lemma appends_seq {A B} (m : W A) (f : A → W B) bs1 bs2 bs a b :
  appends m bs1 a → appends (f a) bs2 b → bs = bs1 ++ bs2 → appends (m ≫= f) bs b.
Proof. intros ?? ->. by eapply appends_bind. Qed.

(** A pure step in front *)
Lemma appends_pure {A B} (m : W A) (f : A → W B) bs a b :
  appends m [] a → appends (f a) bs b → appends (m ≫= f) bs b.
Proof. intros. by eapply appends_seq. Qed.

Lemma appends_get {A} (f : HeapWriter → W A) bs a :
  (∀ w, _with_str_repr w = wsr → appends (f w) bs a) → appends (get ≫= f) bs a.
Proof. intros H w Hw. apply H; [|done]. apply Hw. Qed.

Lemma appends_for_each {A} (xs : list A) (body : A → W unit) (enc : A → bytes) :
  (∀ x, x ∈ xs → appends (body x) (enc x) tt) → appends (for_each xs body) (xs ≫= enc) tt.
Proof.
  induction xs as [|x xs IH]; intros H; cbn [for_each mbind list_bind]; [apply appends_ret|].
  eapply appends_bind; [apply H; by left|]. apply IH. intros; apply H. by right.
Qed.

Lemma appends_u32 v : u32 v → appends (_write_u32 v) (enc_u32 v) tt.
Proof.
  intros Hv. unfold _write_u32, u32, MAX_UINT32 in *.
  destruct (Z.leb_spec 0 v), (Z.leb_spec v 0xFFFFFFFF); cbn [andb negb]; try lia.
  eapply appends_pure; [apply appends_lift|apply appends_write].
  cbn [_UNSIGNED_INT pack pack1]. destruct (pack_uint_Some 4 v Hv) as [-> _]. done.
Qed.

Lemma appends_u64 v : u64 v → appends (_write_u64 v) (enc_u64 v) tt.
Proof.
  intros Hv. unfold _write_u64. eapply appends_pure; [apply appends_lift|apply appends_write].
  cbn [_UNSIGNED_LONG pack pack1]. destruct (pack_uint_Some 8 v Hv) as [-> _]. done.
Qed.

Lemma appends_bool b : appends (write_bool b) (enc_bool b) tt.
Proof. eapply appends_pure; [by apply appends_lift|apply appends_write]. Qed.

Lemma stored_text_cut limit s :
  (if limit <? blen (_encode_string s) then take (Z.to_nat limit) (_encode_string s)
   else _encode_string s) = stored_text limit s.
Proof.
  unfold stored_text, _encode_string. destruct (Z.ltb_spec limit (blen (utf8_encode s))); [done|].
  rewrite take_ge; [done|]. unfold blen in *. lia.
Qed.

Lemma stored_text_length limit s : 0 <= limit → 0 <= blen (stored_text limit s) <= limit.
Proof. intros. unfold stored_text, blen. rewrite length_take. lia. Qed.

Lemma appends_long s : appends (_write_long_string s) (enc_long s) tt.
Proof.
  unfold _write_long_string, enc_long, enc_text. cbv zeta.
  rewrite stored_text_cut. set (e := stored_text _ s).
  assert (0 <= blen e <= 0xFFFF) as He by (by apply stored_text_length).
  eapply appends_pure; [apply appends_lift|eapply appends_bind; apply appends_write].
  cbn [pack pack1]. destruct (pack_uint_Some 2 (blen e)) as [-> _]; [cbn; lia|]. done.
Qed.

Lemma appends_short s : appends (_write_short_string s) (enc_short s) tt.
Proof.
  unfold _write_short_string, enc_short, enc_text. cbv zeta.
  rewrite stored_text_cut. set (e := stored_text _ s).
  assert (0 <= blen e <= 0x7FFF) as He by (by apply stored_text_length).
  eapply appends_pure; [apply appends_lift|eapply appends_bind; apply appends_write].
  cbn [_SIGNED_SHORT pack pack1].
  destruct (pack_sint_Some 2 (blen e) (2 ^ 15)) as [-> _]; [done|lia|]. done.
Qed.

Lemma appends_counted {A} (l : list A) (body : A → W unit) (enc : A → bytes) :
  u32 (blen l) → (∀ x, x ∈ l → appends (body x) (enc x) tt) →
  appends (_write_u32 (blen l);; for_each l body) (enc_seq enc l) tt.
Proof.
  intros Hl H. eapply appends_bind; [by apply appends_u32|]. by apply appends_for_each.
Qed.
End Appends.

(** Closes a primitive write; [appends_step] splits the next statement off a
    sequence. *)
Ltac appends_prim :=
  lazymatch goal with
  | |- appends _ (HeapWriterOps._write_u32 _) _ _ => apply appends_u32
  | |- appends _ (HeapWriterOps._write_u64 _) _ _ => apply appends_u64
  | |- appends _ (HeapWriterOps._write_long_string _) _ _ => apply appends_long
  | |- appends _ (HeapWriterOps._write_short_string _) _ _ => apply appends_short
  | |- appends _ (HeapWriterOps.write_bool _) _ _ => apply appends_bool
  | |- appends _ (HeapWriterOps.write _) _ _ => apply appends_write
  | |- appends _ (mret _) _ _ => apply appends_ret
  end.
Ltac appends_step :=
  eapply appends_seq; [appends_prim; assumption || idtac | | reflexivity].

Section WriterAppends.
Import HeapWriterOps.
Context (wsr : bool).

Lemma u64_magic : u64 MAGIC.
Proof. unfold u64, MAGIC. lia. Qed.

Lemma appends_frame f : frame_ok f → appends wsr (write_frame f) (enc_frame f) tt.
Proof.
  intros (Hl & Hn & Hf). unfold write_frame, enc_frame.
  do 3 appends_step. apply appends_counted; [done|].
  intros [name a] Hin. rewrite Forall_forall in Hf. apply (Hf _) in Hin.
  appends_step. by appends_prim.
Qed.

Lemma appends_thread t : thread_ok t → appends wsr (write_thread t) (enc_thread t) tt.
Proof.
  intros (Hn & Hf). unfold write_thread, enc_thread.
  do 3 appends_step. apply appends_counted; [done|].
  intros f Hin. apply appends_frame. by eapply Forall_forall.
Qed.

Lemma appends_threads ts :
  u32 (blen ts) → Forall thread_ok ts → appends wsr (write_threads ts) (enc_seq enc_thread ts) tt.
Proof.
  intros Hn Ht. apply appends_counted; [done|].
  intros t Hin. apply appends_thread. by eapply Forall_forall.
Qed.

Lemma known_ok_missing known :
  known_ok known → filter (λ name, name ∉ dict_keys known) WELL_KNOWN_TYPE_NAMES = [].
Proof.
  intros Hk. apply filter_none. eapply Forall_impl; [exact Hk|].
  intros name (a & Ha & _) Hno%dict_get_None. congruence.
Qed.

Lemma appends_known known names :
  Forall (λ name, ∃ a, dict_get known name = Some a ∧ u64 a) names →
  appends wsr (for_each names (λ name,
             _write_long_string name;;
             address ← lift (or_key_error (dict_get known name));
             _write_u64 address))
          (((λ name, (name, known_address known name)) <$> names) ≫= enc_named) tt.
Proof.
  intros Hk. rewrite bind_fmap. apply appends_for_each. intros name Hin.
  eapply Forall_forall in Hk as (a & Ha & Hu); [|exact Hin].
  unfold compose, enc_named, known_address. cbn [fst snd]. rewrite Ha.
  appends_step. eapply appends_pure; [by apply appends_lift|]. by appends_prim.
Qed.

Lemma appends_header now known created_at :
  known_ok known →
  appends wsr (write_header now known created_at) (enc_header (created created_at now) wsr known) tt.
Proof.
  intros Hk. unfold write_header. rewrite known_ok_missing by done.
  unfold enc_header. pose proof u64_magic.
  assert (u32 FORMAT_VERSION) by (unfold u32, FORMAT_VERSION; lia).
  do 3 appends_step. apply appends_get. intros w ->.
  assert (u64 (if wsr then FLAG_WITH_STR_REPR else 0))
    by (unfold u64, FLAG_WITH_STR_REPR; destruct wsr; lia).
  appends_step. unfold enc_seq.
  eapply appends_bind; [apply appends_u32; vm_compute; split; [discriminate|done]|].
  by apply appends_known.
Qed.

Lemma appends_content obj :
  content_ok obj → appends wsr (write_content obj) (enc_content obj) (content_addresses obj).
Proof.
  intros Hok.
  assert (∀ l, u32 (blen l) → Forall u64 l → ∀ a : gset Z,
    appends wsr (_write_u32 (blen l);; for_each l _write_u64;; mret a) (enc_seq enc_u64 l) a) as Hseq.
  { intros l Hl Hf a. unfold enc_seq.
    eapply appends_bind; [by apply appends_u32|].
    eapply appends_seq; [|apply appends_ret|by rewrite app_nil_r].
    apply appends_for_each. intros x Hx. apply appends_u64. by eapply Forall_forall. }
  unfold content_ok in Hok.
  unfold write_content, enc_content, content_addresses, _dict_content, _sequence_content.
  destruct (content_kind obj); [apply appends_ret| |destruct Hok as [? ?]; by apply Hseq..].
  destruct Hok as [Hdl Hd].
  unfold enc_seq. eapply appends_bind; [by apply appends_u32|].
  eapply appends_seq; [|apply appends_ret|by rewrite app_nil_r].
  apply appends_for_each. intros [k v] Hin.
  eapply Forall_forall in Hd as [? ?]; [|exact Hin].
  appends_step. by appends_prim.
Qed.

Lemma known_ok_get known name :
  known_ok known → name ∈ WELL_KNOWN_TYPE_NAMES →
  dict_get known name = Some (known_address known name) ∧ u64 (known_address known name).
Proof.
  intros Hk Hin. eapply Forall_forall in Hk as (a & Ha & Hu); [|exact Hin].
  unfold known_address. by rewrite Ha.
Qed.

Lemma is_container_ok known t :
  known_ok known → is_container known t = Ok (bool_decide (t ∈ container_types known)).
Proof.
  intros Hk. unfold is_container.
  assert (∀ name, name ∈ [lit "dict"; lit "list"; lit "set"; lit "tuple"] →
            or_key_error (dict_get known name) = Ok (known_address known name)) as Hget.
  { intros name Hin. apply or_key_error_Ok, known_ok_get; [done|].
    assert (Forall (λ n, n ∈ WELL_KNOWN_TYPE_NAMES)
              [lit "dict"; lit "list"; lit "set"; lit "tuple"]) as Hall
      by (apply (bool_decide_unpack _); vm_compute; exact I).
    by eapply Forall_forall in Hall. }
  rewrite !Hget by set_solver. done.
Qed.

Lemma elem_of_sorted_addresses s x : x ∈ sorted_addresses s ↔ x ∈ s.
Proof. unfold sorted_addresses. rewrite py_sort_perm. apply elem_of_elements. Qed.

Lemma length_sorted_addresses s : length (sorted_addresses s) = size s.
Proof. unfold sorted_addresses. by rewrite py_sort_perm. Qed.

Lemma appends_attribute atts :
  Forall (λ a, u64 (attr_address a)) atts →
  ∀ a, a ∈ atts →
    appends wsr (_write_short_string (attr_name a);; _write_u64 (attr_address a)) (enc_attribute a) tt.
Proof.
  intros Hat x Hx. eapply Forall_forall in Hat; [|exact Hx].
  appends_step. by appends_prim.
Qed.

(** The part of [write_object] between its guard and its counter *)
Lemma write_object_extend obj known w o :
  known_ok known → object_ok obj → appendable wsr w → _object_count_offset w = Some o →
  write_object obj known w =
    (Ok tt, set_count (_object_count w + 1) (extend (enc_object wsr known obj) w)).
Proof.
  intros Hk Hobj Hw Ho. unfold write_object.
  rewrite (bind_ok _ _ _ _ _ (eq_refl : get w = (Ok w, w))), Ho.
  destruct Hw as (Hpos & Hq & Hwsr). rewrite Hwsr.
  assert (appendable wsr w) as Hw by done.
  destruct Hobj as [Ha Ht Hc Hrem Hr Han Hat].
  assert (u32 (stored_size obj)) by (unfold u32, stored_size, MAX_UINT32; lia).
  unfold enc_object.
  rewrite (run_append wsr _ _ _ _ _ (appends_u64 wsr _ Ha)) by done.
  rewrite (run_append wsr _ _ _ _ _ (appends_u64 wsr _ Ht)) by auto using extend_appendable.
  fold (stored_size obj).
  rewrite (run_append wsr _ _ _ _ _ (appends_u32 wsr (stored_size obj) ltac:(done)))
    by auto using extend_appendable.
  rewrite (run_append wsr _ _ _ _ _ (appends_content obj Hc)) by auto using extend_appendable.
  fold (remaining_referents obj). set (remaining := remaining_referents obj) in *.
  rewrite (run_append wsr _ _ _ _ _ (appends_u32 wsr _ Hrem)) by auto 10 using extend_appendable.
  rewrite (run_append wsr _ _ _ _ _ (appends_for_each wsr (sorted_addresses remaining) _ enc_u64
    ltac:(intros x Hx%elem_of_sorted_addresses; by apply appends_u64, Hr)))
    by auto 10 using extend_appendable.
  rewrite (run_append wsr _ _ _ _ _ (appends_u32 wsr _ Han)) by auto 10 using extend_appendable.
  rewrite (run_append wsr _ _ _ _ _ (appends_for_each wsr (attributes obj) _ enc_attribute
    (appends_attribute _ Hat))) by auto 10 using extend_appendable.
  rewrite (run_append wsr _ _ _ _ _ (appends_lift wsr _ _ (is_container_ok known (type_address obj) Hk)))
    by auto 10 using extend_appendable.
  set (text := if _ && _ then enc_long (str_repr obj) else []).
  assert (appends wsr (if wsr && negb (bool_decide (type_address obj ∈ container_types known))
                       then _write_long_string (str_repr obj) else mret tt) text tt) as Htext.
  { unfold text. destruct (_ && _); appends_prim. }
  rewrite (run_append wsr _ _ _ _ _ Htext) by auto 10 using extend_appendable.
  rewrite !extend_app. unfold modify, enc_seq, blen.
  rewrite length_sorted_addresses, <- !app_assoc. done.
Qed.
End WriterAppends.

(** ** The whole capture as one sequence of writer calls *)

Definition write_heap (now : str) (known : dict str Z) (created_at : option str)
  (threads : list HeapThread) (objects : list HeapObject) (types : dict Z str) :
  M HeapWriter exc unit :=
  HeapWriterOps.write_header now known created_at;;
  HeapWriterOps.write_threads threads;;
  HeapWriterOps.begin_objects;;
  for_each objects (λ obj, HeapWriterOps.write_object obj known);;
  HeapWriterOps.finish types.

Section WriteHeap.
Import HeapWriterOps.
Context (wsr : bool).

Lemma begin_objects_extend w :
  appendable wsr w →
  begin_objects w =
    (Ok tt, extend (enc_tables ++ enc_u32 0)
              (set_count_offset (Some (length (f_data (_file w) ++ enc_tables))) w)).
Proof.
  intros Hw. assert (u32 0) as H0 by done. unfold begin_objects.
  rewrite (run_append wsr _ _ _ _ _ (appends_u32 wsr 0 H0)) by done.
  rewrite (run_append wsr _ _ _ _ _ (appends_u32 wsr 0 H0)) by auto using extend_appendable.
  rewrite extend_app. fold enc_tables.
  set (w1 := extend enc_tables w).
  rewrite (bind_ok _ _ _ _ _ (eq_refl : tell w1 = (Ok (f_pos (_file w1)), w1))).
  erewrite bind_ok; [|reflexivity].
  rewrite (appends_u32 wsr 0 H0).
  - unfold w1, extend, extend_file, set_count_offset, set_file. cbn.
    destruct Hw as (Hp & _). rewrite Hp, <- app_assoc, !length_app. do 3 f_equal. lia.
  - destruct (extend_appendable wsr enc_tables w Hw) as (H1 & H2 & H3). done.
Qed.

Lemma write_objects_extend known objects w o :
  known_ok known → Forall object_ok objects →
  appendable wsr w → _object_count_offset w = Some o →
  for_each objects (λ obj, write_object obj known) w =
    (Ok tt, set_count (_object_count w + blen objects)
              (extend (objects ≫= enc_object wsr known) w)).
Proof.
  intros Hk Hobjs. revert w. induction Hobjs as [|obj objects Hobj Hobjs IH]; intros w Hw Ho.
  - cbn [for_each mbind list_bind]. rewrite extend_nil, blen_nil, Z.add_0_r. by destruct w.
  - cbn [for_each]. rewrite (bind_ok _ _ _ _ _ (write_object_extend wsr _ _ _ _ Hk Hobj Hw Ho)).
    rewrite IH; [|by destruct (extend_appendable wsr (enc_object wsr known obj) w Hw) as (?&?&?)
                 |done].
    change ((obj :: objects) ≫= enc_object wsr known)
      with (enc_object wsr known obj ++ (objects ≫= enc_object wsr known)).
    rewrite blen_cons. unfold set_count, extend, set_file, extend_file. cbn.
    rewrite <- app_assoc, length_app. by rewrite Nat.add_assoc, Z.add_assoc.
Qed.

Lemma overwrite_middle pre old new post :
  length old = length new →
  overwrite (pre ++ old ++ post) (length pre) new = pre ++ new ++ post.
Proof.
  intros Hl. unfold overwrite. rewrite take_app_length.
  replace (length pre - length (pre ++ old ++ post))%nat with 0%nat by (rewrite !length_app; lia).
  cbn [replicate app]. do 2 f_equal. rewrite <- Hl.
  rewrite app_assoc, <- length_app. apply drop_app_length.
Qed.

Lemma appends_type_entries types :
  Forall (λ e, u64 e.1) types →
  appends wsr (for_each (py_sort type_entry_leb types) (λ '(address, name),
             _write_u64 address;; _write_long_string name))
          (py_sort type_entry_leb types ≫= enc_type_entry) tt.
Proof.
  intros Ht. apply appends_for_each. intros [a name] Hin. rewrite py_sort_perm in Hin.
  eapply Forall_forall in Ht; [|exact Hin]. appends_step. by appends_prim.
Qed.

Lemma write_u32_at v w :
  f_quota (_file w) = None → u32 v →
  _write_u32 v w =
    (Ok tt, set_file (mkFile (overwrite (f_data (_file w)) (f_pos (_file w)) (enc_u32 v))
                        (f_pos (_file w) + 4) None (f_syncs (_file w))) w).
Proof.
  intros Hq Hv. unfold _write_u32, u32, MAX_UINT32 in *.
  destruct (Z.leb_spec 0 v), (Z.leb_spec v 0xFFFFFFFF); cbn [andb negb]; try lia.
  erewrite bind_ok; [|unfold lift; cbn [_UNSIGNED_INT pack pack1];
                      by rewrite (proj1 (pack_uint_Some 4 v Hv))].
  unfold write, f_write. by rewrite Hq.
Qed.

(** [finish] replaces the count placeholder and completes the file. *)
Lemma finish_file types w pre objs :
  types_ok types → u32 (_object_count w) → appendable wsr w →
  f_data (_file w) = pre ++ enc_u32 0 ++ objs →
  _object_count_offset w = Some (length pre) →
  (_sync w = true → f_syncs (_file w) = true) →
  ∃ w', finish types w = (Ok tt, w') ∧
    f_data (_file w') = pre ++ enc_u32 (_object_count w) ++ objs ++ enc_types types ++ enc_u64 MAGIC.
Proof.
  intros [Hn Ht] Hc (Hp & Hq & Hwsr) Hd Ho Hsync. unfold finish.
  rewrite (bind_ok _ _ _ _ _ (eq_refl : get w = (Ok w, w))), Ho.
  rewrite (bind_ok _ _ _ _ _ (eq_refl : tell w = (Ok (f_pos (_file w)), w))).
  erewrite bind_ok; [|reflexivity].
  erewrite bind_ok; [|by apply write_u32_at].
  erewrite bind_ok; [|reflexivity].
  cbn [set_file f_seek _file f_data f_pos f_quota f_syncs].
  rewrite Hd, overwrite_middle by done.
  set (w1 := set_file _ _).
  assert (appendable wsr w1) as Hw1.
  { split; [|done]. cbn. rewrite Hp, Hd, !length_app. done. }
  assert (_sync w = true → f_syncs (_file w1) = true) as Hs1 by done.
  assert (f_data (_file w1) = pre ++ enc_u32 (_object_count w) ++ objs) as Hd1 by done.
  generalize dependent w1. intros w1 Hw1 Hs1 Hd1.
  rewrite (run_append wsr _ _ _ _ _ (appends_u32 wsr _ Hn)) by done.
  rewrite (run_append wsr _ _ _ _ _ (appends_type_entries types Ht)) by auto using extend_appendable.
  rewrite (run_append wsr _ _ _ _ _ (appends_u64 wsr _ u64_magic)) by auto using extend_appendable.
  rewrite !extend_app.
  eexists. split.
  - destruct (_sync w); [|reflexivity]. unfold fsync. cbn. by rewrite Hs1.
  - cbn. rewrite Hd1. unfold enc_types, enc_seq, blen. rewrite length_py_sort.
    by rewrite <- !app_assoc.
Qed.
End WriteHeap.

(** What [write_heap] leaves in the file *)
Lemma write_heap_file now known created_at threads objects types wsr sync :
  within_limits known threads objects types →
  ∃ w, write_heap now known created_at threads objects types
         (new_writer (new_file None true) wsr sync) = (Ok tt, w) ∧
    f_data (_file w) =
      artifact_bytes (HeapWriterOps.created created_at now) wsr known threads objects types.
Proof.
  intros [Hk Hnt Ht Hno Ho Hty]. unfold write_heap.
  set (w0 := new_writer _ _ _).
  assert (appendable wsr w0) as H0 by done.
  rewrite (run_append wsr _ _ _ _ _ (appends_header wsr now known created_at Hk)) by done.
  rewrite (run_append wsr _ _ _ _ _ (appends_threads wsr threads Hnt Ht)) by auto using extend_appendable.
  rewrite extend_app. set (head := _ ++ _). set (w1 := extend head w0).
  assert (appendable wsr w1) as H1 by (by apply extend_appendable).
  rewrite (bind_ok _ _ _ _ _ (begin_objects_extend wsr w1 H1)).
  set (w2 := extend _ _).
  assert (appendable wsr w2) as H2 by (apply extend_appendable; exact H1).
  rewrite (bind_ok _ _ _ _ _ (write_objects_extend wsr known objects w2 _ Hk Ho H2 eq_refl)).
  set (w3 := HeapWriterOps.set_count _ _).
  destruct (finish_file wsr types w3 (head ++ enc_tables) (objects ≫= enc_object wsr known))
    as (w & Hf & Hd).
  - done.
  - done.
  - destruct (extend_appendable wsr (objects ≫= enc_object wsr known) w2 H2) as (?&?&?). done.
  - cbn. by rewrite <- !app_assoc.
  - cbn. done.
  - done.
  - exists w. split; [exact Hf|]. rewrite Hd. unfold artifact_bytes, enc_seq, head.
    rewrite <- !app_assoc. done.
Qed.

(** *** Validation *)

Lemma magic_bytes_unpack : unpack _UNSIGNED_LONG (enc_u64 MAGIC) = Some (MAGIC, tt).
Proof. vm_compute. reflexivity. Qed.

Lemma validate_framed path body :
  validate_artifact path (enc_u64 MAGIC ++ body ++ enc_u64 MAGIC) = Ok tt.
Proof.
  unfold validate_artifact. change (calcsize _UNSIGNED_LONG) with 8%nat.
  assert (length (enc_u64 MAGIC) = 8%nat) as Hl by done.
  unfold blen. rewrite !length_app, Hl.
  destruct (Z.ltb_spec (Z.of_nat (8 + (length body + 8))) (Z.of_nat (8 * 2))); [lia|].
  rewrite <- Hl at 1. rewrite take_app_length, magic_bytes_unpack. cbn [or_struct_error mbind result_bind].
  rewrite (app_assoc _ body).
  replace (8 + (length body + 8) - 8)%nat with (length (enc_u64 MAGIC ++ body)) by (rewrite length_app, Hl; lia).
  by rewrite drop_app_length, magic_bytes_unpack.
Qed.

Lemma validate_artifact_bytes path created wsr known threads objects types :
  validate_artifact path (artifact_bytes created wsr known threads objects types) = Ok tt.
Proof.
  unfold artifact_bytes, enc_header. rewrite <- !app_assoc.
  set (a := enc_u32 _). set (b := enc_long _). set (c := enc_u64 (if wsr then FLAG_WITH_STR_REPR else 0)).
  set (d := enc_seq enc_named _). set (e := enc_seq enc_thread _). set (f := enc_seq (enc_object _ _) _).
  pose proof (validate_framed path (a ++ b ++ c ++ d ++ e ++ enc_tables ++ f ++ enc_types types)) as H.
  rewrite <- !app_assoc in H. exact H.
Qed.

(** ** The fixture heap *)

#[export] Instance u32_dec v : Decision (u32 v).
Proof. unfold u32. apply _. Defined.
#[export] Instance u64_dec v : Decision (u64 v).
Proof. unfold u64. apply _. Defined.
#[export] Instance frame_ok_dec f : Decision (frame_ok f).
Proof. unfold frame_ok. apply _. Defined.
#[export] Instance thread_ok_dec t : Decision (thread_ok t).
Proof. unfold thread_ok. apply _. Defined.
#[export] Instance object_ok_dec obj : Decision (object_ok obj).
Proof.
  assert (Decision (u64 (address obj) ∧ u64 (type_address obj) ∧ content_ok obj
    ∧ u32 (Z.of_nat (size (remaining_referents obj))) ∧ set_Forall u64 (remaining_referents obj)
    ∧ u32 (blen (attributes obj)) ∧ Forall (λ a, u64 (attr_address a)) (attributes obj))) as [H|H].
  { unfold content_ok. destruct (content_kind obj); apply _. }
  - left. by destruct H as (?&?&?&?&?&?&?).
  - right. intros [???????]. apply H. split_and!; done.
Defined.
#[export] Instance types_ok_dec types : Decision (types_ok types).
Proof. unfold types_ok. apply _. Defined.
#[export] Instance known_address_dec (known : dict str Z) name :
  Decision (∃ a, dict_get known name = Some a ∧ u64 a).
Proof.
  destruct (dict_get known name) as [a|] eqn:E; [|right; intros (a & ? & _); discriminate].
  destruct (decide (u64 a)) as [H|H]; [left; eauto | right].
  intros (a' & Ha & Hu). injection Ha as <-. exact (H Hu).
Defined.
#[export] Instance known_ok_dec (known : dict str Z) : Decision (known_ok known).
Proof. unfold known_ok. apply _. Defined.

Lemma golden_within_limits : within_limits golden_known golden_threads golden_objects golden_types.
Proof. constructor; apply (bool_decide_unpack _); vm_compute; exact I. Qed.

(** C7: the streaming writer refines the layout: writing a heap within the
    format's limits to an unbounded disk succeeds, the file then holds exactly
    the specified artifact with the object count back-filled, and that artifact
    passes the Collector's validation. *)
Theorem writer_refines_layout path now known created_at threads objects types wsr sync :
  within_limits known threads objects types →
  ∃ w, write_heap now known created_at threads objects types
         (new_writer (new_file None true) wsr sync) = (Ok tt, w) ∧
    f_data (_file w) =
      artifact_bytes (HeapWriterOps.created created_at now) wsr known threads objects types ∧
    validate_artifact path (f_data (_file w)) = Ok tt.
Proof.
  intros Hwl. destruct (write_heap_file now known created_at threads objects types wsr sync Hwl)
    as (w & Hw & Hd).
  exists w. split; [done|]. split; [done|]. rewrite Hd. apply validate_artifact_bytes.
Qed.

(** The model writes the very bytes of the repository's fixture. *)
Lemma writer_refines_layout_witness :
  ∃ w, write_heap [] golden_known (Some golden_created) golden_threads golden_objects golden_types
         (new_writer (new_file None true) true true) = (Ok tt, w) ∧ f_data (_file w) = golden_artifact.
Proof.
  destruct (writer_refines_layout [] [] golden_known (Some golden_created) golden_threads golden_objects
              golden_types true true golden_within_limits) as (w & Hw & Hd & _).
  exists w. split; [exact Hw|]. rewrite Hd. vm_compute. reflexivity.
Defined.
