(* ===== verification/Capture.v ===== *)
(** * A capture session records a closed set of objects

    Whatever the Agent sends, a session that completes has written each
    requested object once, has followed every address those objects mention,
    and has produced an artifact of the specified layout; and every session
    comes to an end. *)
From stdpp Require Import base tactics numbers list gmap sets fin_sets.
From S2P Require Import Prelude PyData Struct Text Errors Protocol CaptureModel HeapWriter Artifact Collector.
Import CollectorOps.

(** ** Scheduling *)

(** [t'] is [t] with new addresses appended, so that all of [addresses] but the
    null address are scheduled. *)
Definition extends (t t' : Traversal) (addresses : list Z) : Prop :=
  ∃ new, pending t' = pending t ++ new ∧ NoDup new ∧
    scheduled t' = scheduled t ∪ list_to_set new ∧
    (∀ x, x ∈ new → x ∉ scheduled t ∧ x ≠ 0 ∧ x ∈ addresses) ∧
    (∀ x, x ∈ addresses → x ≠ 0 → x ∈ scheduled t').

Lemma extends_refl t : extends t t [].
Proof.
  exists []. rewrite app_nil_r. split_and!; [done|constructor|set_solver|set_solver|set_solver].
Qed.

Lemma extends_trans t1 t2 t3 l1 l2 :
  extends t1 t2 l1 → extends t2 t3 l2 → extends t1 t3 (l1 ++ l2).
Proof.
  intros (n1 & Hp1 & Hnd1 & Hs1 & Hn1 & Ha1) (n2 & Hp2 & Hnd2 & Hs2 & Hn2 & Ha2).
  exists (n1 ++ n2). split_and!.
  - by rewrite Hp2, Hp1, app_assoc.
  - apply NoDup_app. split; [done|]. split; [|done]. intros x Hx Hx2.
    destruct (Hn2 x Hx2) as [Hno _]. apply Hno. rewrite Hs1. set_solver.
  - rewrite Hs2, Hs1, list_to_set_app_L. set_solver.
  - intros x [Hx|Hx]%elem_of_app.
    + destruct (Hn1 x Hx) as (? & ? & ?). set_solver.
    + destruct (Hn2 x Hx) as (Hno & ? & ?). rewrite Hs1 in Hno. set_solver.
  - intros x [Hx|Hx]%elem_of_app Hx0; [|by apply Ha2]. rewrite Hs2. specialize (Ha1 x Hx Hx0). set_solver.
Qed.

Lemma schedule_one_extends t a : extends t (schedule_one t a) [a].
Proof.
  unfold schedule_one. destruct (Z.eqb_spec a 0) as [->|Ha]; cbn [negb andb].
  - exists []. rewrite app_nil_r. split_and!; [done|constructor|set_solver|set_solver|].
    by intros x ->%list_elem_of_singleton.
  - case_bool_decide as Hin.
    + exists [a]. cbn [pending scheduled]. split_and!; [done|apply NoDup_singleton| | |].
      * cbn. set_solver.
      * intros x ->%list_elem_of_singleton. split_and!; [done|done|by left].
      * intros x ->%list_elem_of_singleton _. set_solver.
    + exists []. rewrite app_nil_r. split_and!; [done|constructor|set_solver|set_solver|].
      by intros x ->%list_elem_of_singleton _.
Qed.

Lemma schedule_fold_extends l t : extends t (foldl schedule_one t l) l.
Proof.
  revert t. induction l as [|a l IH]; intros t; cbn [foldl]; [apply extends_refl|].
  apply (extends_trans _ (schedule_one t a) _ [a]); [apply schedule_one_extends|apply IH].
Qed.

(** ** What a step leaves alone *)

Definition keeps {A} (m : C A) : Prop :=
  ∀ s r s', m s = (r, s') → writer s' = writer s.

Lemma keeps_ret {A} (a : A) : keeps (mret a).
Proof. by intros s r s' [= _ <-]. Qed.
Lemma keeps_raise {A} e : keeps (raise e : C A).
Proof. by intros s r s' [= _ <-]. Qed.
Lemma keeps_lift {A} (r : result exc A) : keeps (lift r).
Proof. by intros s r' s' [= _ <-]. Qed.
Lemma keeps_get : keeps get.
Proof. by intros s r s' [= _ <-]. Qed.
Lemma keeps_modify f : (∀ s, writer (f s) = writer s) → keeps (modify f).
Proof. intros Hf s r s' [= _ <-]. apply Hf. Qed.
Lemma keeps_bind {A B} (m : C A) (f : A → C B) : keeps m → (∀ a, keeps (f a)) → keeps (m ≫= f).
Proof.
  intros Hm Hf s r s'. unfold mbind, M_bind. destruct (m s) as [[a|e] s1] eqn:E.
  - intros H. rewrite (Hf a _ _ _ H). by eapply Hm.
  - intros [= _ <-]. by eapply Hm.
Qed.
Lemma keeps_channel {A} (m : M FramedSocket exc A) : keeps (on_channel m).
Proof. intros s r s'. unfold on_channel. destruct (m (channel s)). by intros [= _ <-]. Qed.

(** A step that only talks on the channel *)
Ltac keeps_step :=
  lazymatch goal with
  | |- keeps (mret _) => apply keeps_ret
  | |- keeps (raise _) => apply keeps_raise
  | |- keeps (lift _) => apply keeps_lift
  | |- keeps get => apply keeps_get
  | |- keeps (modify _) => apply keeps_modify; reflexivity
  | |- keeps (on_channel _) => apply keeps_channel
  | |- keeps (_ ≫= _) => apply keeps_bind; [|intros ?]
  | |- keeps (if ?b then _ else _) => destruct b
  | |- keeps (match ?x with _ => _ end) => destruct x
  end.
Ltac keeps_solve := repeat (keeps_step || (progress cbv beta zeta)); try done.

Lemma keeps_receive : keeps receive.
Proof. apply keeps_channel. Qed.
Lemma keeps_send k p : keeps (send k p).
Proof. apply keeps_channel. Qed.
Lemma keeps_expect k : keeps (_expect k).
Proof. unfold _expect, receive. keeps_solve. Qed.
Lemma keeps_unexpected {A} f stage : keeps (_raise_unexpected f stage : C A).
Proof. unfold _raise_unexpected. keeps_solve. Qed.

Lemma keeps_parts fuel n a obj : keeps (receive_parts fuel n a obj).
Proof.
  revert obj. induction fuel as [|fuel IH]; intros obj; cbn [receive_parts]; [apply keeps_raise|].
  unfold receive. keeps_step; [keeps_step|]. destruct (kind a0); keeps_solve; auto using @keeps_unexpected.
Qed.

Lemma keeps_object n a : keeps (_receive_object n a).
Proof.
  unfold _receive_object. keeps_step; [apply keeps_expect|]. keeps_solve. apply keeps_parts.
Qed.

Lemma keeps_schedule l t : keeps (schedule l t).
Proof. unfold schedule. keeps_solve. Qed.

Lemma keeps_roots fuel t : keeps (enumerate_roots fuel t).
Proof.
  revert t. induction fuel as [|fuel IH]; intros t; cbn [enumerate_roots]; [apply keeps_raise|].
  unfold receive. keeps_step; [keeps_step|].
  destruct (kind a); keeps_solve; auto using @keeps_unexpected, keeps_schedule.
Qed.

Lemma keeps_handshake self : keeps (handshake self).
Proof. unfold handshake, send. keeps_solve; apply keeps_expect. Qed.

(** ** What the wire can describe *)

(** Facts about an object that came over the wire *)
Record wire_ok (obj : HeapObject) : Prop := {
  wo_address : u64 (address obj);
  wo_type : u64 (type_address obj);
  wo_sequence : Forall u64 (sequence_content obj);
  wo_dict : Forall (λ e, u64 e.1 ∧ u64 e.2) (dict_content obj);
  wo_referents : set_Forall u64 (referents obj);
  wo_attributes : attributes obj = [];
}.

Lemma pair_up_u64 l : Forall is_u64 l → Forall (λ e, u64 e.1 ∧ u64 e.2) (pair_up l).
Proof.
  assert (∀ n l, (length l <= n)%nat → Forall is_u64 l → Forall (λ e, u64 e.1 ∧ u64 e.2) (pair_up l)) as Hall.
  { induction n as [|n IH]; intros [|x [|y l0]] Hn Hl; try constructor; cbn in Hn; try lia.
    - inversion Hl as [|? ? Hx Hl']; subst. inversion Hl' as [|? ? Hy Hl'']; subst. by split.
    - apply IH; [lia|]. inversion Hl as [|? ? _ Hl']; subst. by inversion Hl'. }
  by eapply Hall.
Qed.

Lemma decode_dict_u64 p l : decode_dict_entries p = Ok l → Forall (λ e, u64 e.1 ∧ u64 e.2) l.
Proof.
  unfold decode_dict_entries. intros (a & Ha & H)%result_bind_inv.
  case_in H; [|done]. apply Ok_inj in H as <-. apply pair_up_u64. by eapply decode_addresses_u64.
Qed.

Lemma decode_object_begin_u64 p b :
  decode_object_begin p = Ok b → u64 (Protocol.address b) ∧ u64 (Protocol.type_address b).
Proof.
  unfold decode_object_begin. intros H. case_in H; [done|].
  apply result_bind_inv in H as ((a & t & sz & ck & n & []) & Hu & H).
  apply or_struct_error_Ok in Hu. pose proof (unpack_from_fits _OBJECT_BEGIN _ _ _ Hu) as (Ha & Ht & _).
  cbv zeta in H. case_in H; [|done]. apply Ok_inj in H as <-. done.
Qed.

Lemma wire_ok_new b k :
  u64 (Protocol.address b) → u64 (Protocol.type_address b) →
  wire_ok (new_object (Protocol.address b) (Protocol.type_address b) (Protocol.type_name b)
             (Protocol.shallow_size b) k).
Proof. intros Ha Ht. constructor; cbn; done || constructor. Qed.

Lemma default_repr_same n obj :
  wire_ok obj → wire_ok (default_repr n obj) ∧ address (default_repr n obj) = address obj.
Proof.
  intros Hw. unfold default_repr. destruct (_ && _); [|done].
  destruct Hw. split; [by constructor|done].
Qed.

Lemma receive_parts_inv fuel n expected obj s obj' s' :
  receive_parts fuel n expected obj s = (Ok obj', s') → wire_ok obj →
  wire_ok obj' ∧ address obj' = address obj.
Proof.
  revert obj s. induction fuel as [|fuel IH]; intros obj s; cbn [receive_parts]; [done|].
  intros (frame & s1 & _ & H)%bind_inv Hw.
  destruct (kind frame) eqn:Hk;
    try (unfold _raise_unexpected in H; case_in H; discriminate H).
  - (* REFERENTS *)
    apply bind_inv in H as (l & s2 & Hl & H). apply lift_inv in Hl as [Hl ->].
    apply IH in H; [done|]. apply decode_addresses_u64 in Hl. destruct Hw. constructor; try done.
    cbn. intros x [Hx|Hx%elem_of_list_to_set]%elem_of_union; [auto|].
    by eapply Forall_forall in Hl.
  - (* SEQUENCE_CONTENT *)
    apply bind_inv in H as (l & s2 & Hl & H). apply lift_inv in Hl as [Hl ->].
    apply IH in H; [done|]. apply decode_addresses_u64 in Hl. destruct Hw. constructor; try done.
    cbn. by apply Forall_app.
  - (* DICT_CONTENT *)
    apply bind_inv in H as (l & s2 & Hl & H). apply lift_inv in Hl as [Hl ->].
    apply IH in H; [done|]. apply decode_dict_u64 in Hl. destruct Hw. constructor; try done.
    cbn. by apply Forall_app.
  - (* PREVIEW *)
    apply IH in H; [done|]. destruct Hw. by constructor.
  - (* OBJECT_END *)
    unfold mret, M_ret in H. injection H as <- _. by apply default_repr_same.
  - (* WARNING *)
    apply bind_inv in H as ([] & s2 & _ & H). by apply IH in H.
Qed.

Lemma receive_object_inv n expected s obj s' :
  _receive_object n expected s = (Ok obj, s') → wire_ok obj ∧ address obj = expected.
Proof.
  unfold _receive_object. intros (frame & s1 & _ & H)%bind_inv.
  apply bind_inv in H as (begin & s2 & Hb & H). apply lift_inv in Hb as [Hb ->].
  destruct (decode_object_begin_u64 _ _ Hb) as [Ha Ht].
  case_in H; [done|]. destruct (content_kind_of _) as [k|]; [|done].
  apply bind_inv in H as (s3 & s4 & _ & H).
  apply receive_parts_inv in H as [Hw He]; [|by apply wire_ok_new].
  split; [done|]. rewrite He. cbn. apply Z.eqb_eq. by apply negb_false_iff.
Qed.

(** ** A successful write was within the limits *)

Lemma write_u32_ok v w w' : HeapWriterOps._write_u32 v w = (Ok tt, w') → u32 v.
Proof.
  unfold HeapWriterOps._write_u32, u32, MAX_UINT32. intros H. case_in H; [done|].
  apply negb_false_iff, andb_true_iff in Heqb as [?%Z.leb_le ?%Z.leb_le]. lia.
Qed.

Lemma write_content_ok obj w a w' :
  HeapWriterOps.write_content obj w = (Ok a, w') → wire_ok obj →
  content_ok obj ∧ a = content_addresses obj.
Proof.
  unfold HeapWriterOps.write_content, content_ok, content_addresses. intros H [].
  destruct (content_kind obj);
    try (apply bind_inv in H as ([] & w1 & Hn & H); apply write_u32_ok in Hn;
         apply bind_inv in H as ([] & w2 & _ & H)); injection H as <- _; done.
Qed.

Lemma write_object_ok obj known w w' :
  HeapWriterOps.write_object obj known w = (Ok tt, w') → wire_ok obj → object_ok obj.
Proof.
  unfold HeapWriterOps.write_object. intros (w0 & w1 & _ & H)%bind_inv Hw.
  destruct (_object_count_offset w0); [|done].
  apply bind_inv in H as ([] & w2 & _ & H). apply bind_inv in H as ([] & w3 & _ & H).
  apply bind_inv in H as ([] & w4 & _ & H). apply bind_inv in H as (c & w5 & Hc & H).
  apply write_content_ok in Hc as [Hc ->]; [|done]. cbv zeta in H.
  apply bind_inv in H as ([] & w6 & Hn & H). apply write_u32_ok in Hn.
  destruct Hw as [Ha Ht _ _ Hr Hat]. constructor; try done.
  - intros x Hx. apply Hr. unfold remaining_referents in Hx. set_solver.
  - by rewrite Hat.
  - rewrite Hat. constructor.
Qed.

(** ** The object loop *)

(** The addresses the session follows from an object *)
Definition mentions (obj : HeapObject) : gset Z :=
  referents obj
  ∪ match content_kind obj with
    | DICT => list_to_set ((dict_content obj).*1 ++ (dict_content obj).*2)
    | _ => list_to_set (sequence_content obj)
    end
  ∪ list_to_set (attr_address <$> attributes obj) ∪ {[type_address obj]}.

(** Steps that touch counters only *)
Definition quiet_step (s s' : Session) : Prop := channel s' = channel s ∧ writer s' = writer s.

Lemma schedule_run l t s :
  ∃ t' s', schedule l t s = (Ok t', s') ∧ extends t t' l ∧ quiet_step s s'.
Proof. eexists _, _. split; [reflexivity|]. split; [apply schedule_fold_extends|done]. Qed.

Lemma quiet_trans s1 s2 s3 : quiet_step s1 s2 → quiet_step s2 s3 → quiet_step s1 s3.
Proof. intros [??] [??]. split; congruence. Qed.

Lemma schedule_entries_run entries t s :
  ∃ t' s' l,
    (fix go (entries : list (Z * Z)) (t : Traversal) : C Traversal :=
       match entries with
       | [] => mret t
       | (key, value) :: entries => t ← schedule [key; value] t; go entries t
       end) entries t s = (Ok t', s') ∧ extends t t' l ∧ quiet_step s s' ∧
    ∀ x, x ∈ l ↔ x ∈ entries.*1 ++ entries.*2.
Proof.
  revert t s. induction entries as [|[k v] entries IH]; intros t s.
  { exists t, s, []. split; [done|]. split; [apply extends_refl|]. split; [done|]. set_solver. }
  destruct (schedule_run [k; v] t s) as (t1 & s1 & H1 & He1 & Hq1).
  destruct (IH t1 s1) as (t2 & s2 & l & H2 & He2 & Hq2 & Hl).
  exists t2, s2, ([k; v] ++ l). split; [by rewrite (bind_ok _ _ _ _ _ H1)|].
  split; [by eapply extends_trans|]. split; [by eapply quiet_trans|].
  intros x. specialize (Hl x). cbn. set_solver.
Qed.

Section Objects.
Context `{SetOrder}.

Lemma schedule_object_run obj t s :
  ∃ t' s' l, schedule_object obj t s = (Ok t', s') ∧ extends t t' l ∧ quiet_step s s' ∧
    ∀ x, x ∈ l ↔ x ∈ mentions obj.
Proof.
  unfold schedule_object.
  destruct (schedule_run (set_iter (referents obj)) t s) as (t1 & s1 & H1 & He1 & Hq1).
  rewrite (bind_ok _ _ _ _ _ H1).
  assert (∃ t2 s2 l2,
    (match content_kind obj with
     | DICT => (fix go (entries : list (Z * Z)) (t : Traversal) : C Traversal :=
                  match entries with
                  | [] => mret t
                  | (key, value) :: entries => t ← schedule [key; value] t; go entries t
                  end) (dict_content obj) t1
     | _ => schedule (sequence_content obj) t1
     end) s1 = (Ok t2, s2) ∧ extends t1 t2 l2 ∧ quiet_step s1 s2 ∧
    ∀ x, x ∈ l2 ↔ x ∈ (match content_kind obj with
                       | DICT => list_to_set ((dict_content obj).*1 ++ (dict_content obj).*2)
                       | _ => list_to_set (sequence_content obj)
                       end : gset Z)) as (t2 & s2 & l2 & H2 & He2 & Hq2 & Hl2).
  { destruct (content_kind obj);
      try (destruct (schedule_run (sequence_content obj) t1 s1) as (t2 & s2 & ? & ? & ?);
           exists t2, s2, (sequence_content obj); split_and!; try done;
           intros x; by rewrite elem_of_list_to_set).
    destruct (schedule_entries_run (dict_content obj) t1 s1) as (t2 & s2 & l & ? & ? & ? & Hl).
    exists t2, s2, l. split_and!; try done. intros x. by rewrite elem_of_list_to_set. }
  rewrite (bind_ok _ _ _ _ _ H2).
  destruct (schedule_run (attr_address <$> attributes obj) t2 s2) as (t3 & s3 & H3 & He3 & Hq3).
  rewrite (bind_ok _ _ _ _ _ H3).
  destruct (schedule_run [type_address obj] t3 s3) as (t4 & s4 & H4 & He4 & Hq4).
  eexists t4, s4, _. split; [exact H4|].
  split; [eapply extends_trans; [exact He1|]; eapply extends_trans; [exact He2|];
          eapply extends_trans; [exact He3|exact He4]|].
  split; [repeat (eapply quiet_trans; [eassumption|]); done|].
  intros x. unfold mentions. rewrite !elem_of_app, elem_of_set_iter, Hl2, !elem_of_union,
    elem_of_list_to_set, elem_of_singleton, list_elem_of_singleton. tauto.
Qed.

Context (wsr : bool) (known : dict str Z) (head : bytes) (known_fine : known_ok known).

(** After [objs] were written, with [rest] of the current batch to come *)
Record recorded (objs : list HeapObject) (rest : list Z) (p : Progress) (s : Session) : Prop := {
  re_writer : appendable wsr (writer s);
  re_offset : _object_count_offset (writer s) = Some (length head);
  re_count : _object_count (writer s) = blen objs;
  re_data : f_data (_file (writer s)) = head ++ enc_u32 0 ++ (objs ≫= enc_object wsr known);
  re_syncs : f_syncs (_file (writer s)) = true;
  re_objects : Forall object_ok objs;
  re_nodup : NoDup ((address <$> objs) ++ rest ++ pending (walk p));
  re_scheduled : ∀ x, x ∈ scheduled (walk p) ↔ x ∈ (address <$> objs) ++ rest ++ pending (walk p);
  re_nonzero : 0 ∉ scheduled (walk p);
  re_closed : ∀ obj x, obj ∈ objs → x ∈ mentions obj → x ≠ 0 → x ∈ scheduled (walk p);
  re_types : dict_wf (types p) ∧ Forall (λ e, u64 e.1) (types p);
  re_named : ∀ obj, obj ∈ objs → type_address obj ∈ dict_keys (types p);
  re_completed : completed p = blen objs;
}.

Lemma dict_set_u64 {V} (d : dict Z V) k v :
  u64 k → Forall (λ e, u64 e.1) d → Forall (λ e, u64 e.1) (dict_set d k v).
Proof.
  intros Hk Hd. apply Forall_forall. intros e He.
  assert (e.1 ∈ (dict_set d k v).*1) as Hin by (by apply list_elem_of_fmap_2).
  apply dict_set_keys in Hin as [->|Hin]; [done|].
  apply list_elem_of_fmap in Hin as (e' & -> & He'). by eapply Forall_forall in Hd.
Qed.

Lemma capture_object_recorded self objs a rest p s p' s' :
  recorded objs (a :: rest) p s → capture_object self known a p s = (Ok p', s') →
  ∃ obj, recorded (objs ++ [obj]) rest p' s' ∧ scheduled (walk p) ⊆ scheduled (walk p').
Proof.
  intros Hre. unfold capture_object. intros (obj & s1 & Hobj & Hrun)%bind_inv.
  pose proof (receive_object_inv _ _ _ _ _ Hobj) as [Hwire Haddr].
  pose proof (keeps_object _ _ _ _ _ Hobj) as Hw1.
  apply bind_inv in Hrun as ([] & s2 & Hwrite & Hrun). unfold on_writer in Hwrite.
  destruct (HeapWriterOps.write_object obj known (writer s1)) as [r w] eqn:Hwo. injection Hwrite as -> <-.
  pose proof (write_object_ok _ _ _ _ Hwo Hwire) as Hok. destruct Hre. rewrite Hw1 in Hwo.
  rewrite (write_object_extend wsr obj known _ _ known_fine Hok re_writer0 re_offset0) in Hwo.
  injection Hwo as <-.
  destruct (schedule_object_run obj (walk p) (set_writer (HeapWriterOps.set_count
    (_object_count (writer s) + 1) (extend (enc_object wsr known obj) (writer s))) s1))
    as (t & s3 & l & Hsched & (new & Hpend & Hnd & Hs & Hnew & Hall) & [_ Hw3] & Hl).
  rewrite (bind_ok _ _ _ _ _ Hsched) in Hrun. cbv zeta in Hrun.
  apply bind_inv in Hrun as ([] & s4 & Hmod & Hret). injection Hmod as <-. injection Hret as <- <-.
  exists obj. cbn [walk types completed]. split; [|rewrite Hs; set_solver].
  assert (∀ x, x ∈ new → x ∉ (address <$> objs) ++ (a :: rest) ++ pending (walk p)) as Hfresh.
  { intros x Hx. rewrite <- re_scheduled0. by apply Hnew. }
  constructor; cbn [walk types completed set_cstats writer]; rewrite ?Hw3.
  - by destruct (extend_appendable wsr (enc_object wsr known obj) _ re_writer0) as (?&?&?).
  - done.
  - cbn. by rewrite re_count0, blen_app.
  - cbn. rewrite re_data0, bind_app. cbn. by rewrite app_nil_r, <- !app_assoc.
  - done.
  - by apply Forall_app_2; [|apply Forall_singleton].
  - rewrite Hpend, fmap_app. cbn. rewrite Haddr.
    assert ((address <$> objs) ++ (a :: rest) ++ pending (walk p)
            = ((address <$> objs) ++ [a]) ++ rest ++ pending (walk p)) as E by (by rewrite <- app_assoc).
    rewrite E in re_nodup0, Hfresh. rewrite !app_assoc in *. apply NoDup_app.
    split; [done|]. split; [|done]. intros x Hx Hx2. by apply (Hfresh x).
  - intros x. rewrite Hs, Hpend, elem_of_union, elem_of_list_to_set, re_scheduled0, fmap_app. cbn.
    rewrite Haddr, !elem_of_app, !elem_of_cons, !elem_of_app. set_solver.
  - rewrite Hs, elem_of_union, elem_of_list_to_set. intros [?|Hx]; [done|]. by apply Hnew in Hx as (_ & ? & _).
  - intros o x [Ho| ->%list_elem_of_singleton]%elem_of_app Hx Hx0.
    + rewrite Hs. apply elem_of_union. left. by eapply re_closed0.
    + apply Hall; [by apply Hl|done].
  - destruct re_types0. split; [by apply dict_set_wf|]. apply dict_set_u64; [by apply wo_type|done].
  - intros o [Ho| ->%list_elem_of_singleton]%elem_of_app; unfold dict_keys; apply dict_set_keys.
    + right. by apply re_named0.
    + by left.
  - rewrite re_completed0, blen_app. done.
Qed.

(** Steps on the channel keep the record. *)
Lemma recorded_keeps objs rest p s s' :
  recorded objs rest p s → writer s' = writer s → recorded objs rest p s'.
Proof. intros [] Hw. constructor; rewrite ?Hw; done. Qed.

Lemma capture_batch_recorded self objs batch p s p' s' :
  recorded objs batch p s → capture_batch self known batch p s = (Ok p', s') →
  ∃ objs', recorded (objs ++ objs') [] p' s' ∧ scheduled (walk p) ⊆ scheduled (walk p').
Proof.
  revert objs p s. induction batch as [|a batch IH]; intros objs p s Hre; cbn [capture_batch].
  - intros Hrun. injection Hrun as <- <-. exists []. by rewrite app_nil_r.
  - intros (p1 & s1 & H1 & Hrun)%bind_inv.
    destruct (capture_object_recorded _ _ _ _ _ _ _ _ Hre H1) as (obj & Hre1 & Hs1).
    destruct (IH _ _ _ Hre1 Hrun) as (objs' & Hre2 & Hs2).
    exists (obj :: objs'). rewrite (app_assoc _ [obj] objs'). split; [done|set_solver].
Qed.

Lemma pop_batch_perm n t :
  let '(batch, t') := pop_batch n t in
  scheduled t' = scheduled t ∧ batch ++ pending t' ≡ₚ pending t.
Proof.
  unfold pop_batch. set (k := Z.to_nat _). cbn. split; [done|].
  rewrite take_reverse, reverse_Permutation, Permutation_app_comm. by rewrite take_drop.
Qed.

Lemma request_batch_recorded self objs p s p' s' :
  recorded objs [] p s → request_batch self known p s = (Ok p', s') →
  ∃ objs', recorded (objs ++ objs') [] p' s' ∧ scheduled (walk p) ⊆ scheduled (walk p').
Proof.
  intros Hre. unfold request_batch. pose proof (pop_batch_perm (_batch_size self) (walk p)) as Hpop.
  destruct (pop_batch (_batch_size self) (walk p)) as [batch t]. destruct Hpop as [Hst Hperm].
  intros (wire & s1 & Hl & Hrun)%bind_inv. apply lift_inv in Hl as [_ ->].
  apply bind_inv in Hrun as ([] & s2 & Hsend & Hrun).
  pose proof (keeps_send _ _ _ _ _ Hsend) as Hw2.
  apply bind_inv in Hrun as (p3 & s3 & Hb & Hrun).
  assert (recorded objs batch (mkProgress t (types p) (completed p)) s2) as Hre2.
  { apply (recorded_keeps _ _ _ s); [|done]. destruct Hre.
    assert ((address <$> objs) ++ batch ++ pending t ≡ₚ (address <$> objs) ++ [] ++ pending (walk p))
      as Hp by (cbn; by rewrite Hperm).
    constructor; cbn [walk types completed]; rewrite ?Hst; try done.
    - by rewrite Hp.
    - intros x. by rewrite Hp. }
  destruct (capture_batch_recorded _ _ _ _ _ _ _ Hre2 Hb) as (objs' & Hre3 & Hs3).
  cbn [walk] in Hs3. rewrite Hst in Hs3.
  apply bind_inv in Hrun as (frame & s4 & Hex & Hrun). pose proof (keeps_expect _ _ _ _ Hex) as Hw4.
  apply bind_inv in Hrun as ([] & s5 & Hprog & Hret). injection Hret as <- <-.
  exists objs'. split; [|done]. apply (recorded_keeps _ _ _ s3); [done|].
  rewrite <- Hw4. destruct (_progress self); by injection Hprog as <-.
Qed.

(** The objects recorded from [p] on, until nothing is pending *)
Definition walk_recorded (objs : list HeapObject) (p p' : Progress) (s' : Session) : Prop :=
  ∃ objs', recorded (objs ++ objs') [] p' s' ∧ pending (walk p') = [] ∧
           scheduled (walk p) ⊆ scheduled (walk p').

Lemma request_batches_recorded self next fuel objs p s p' s' :
  (∀ objs p s, recorded objs [] p s → next p s = (Ok p', s') → walk_recorded objs p p' s') →
  recorded objs [] p s → request_batches self known fuel next p s = (Ok p', s') →
  walk_recorded objs p p' s'.
Proof.
  intros Hnext. unfold walk_recorded in *.
  revert objs p s. induction fuel as [|fuel IH]; intros objs p s Hre; cbn [request_batches];
    destruct (pending (walk p)) as [|x l] eqn:Hp;
    try (intros Hrun; injection Hrun as <- <-; exists []; by rewrite app_nil_r).
  { by apply Hnext. }
  intros (p1 & s1 & H1 & Hrun)%bind_inv.
  destruct (request_batch_recorded _ _ _ _ _ _ Hre H1) as (objs1 & Hre1 & Hs1).
  destruct (IH _ _ _ Hre1 Hrun) as (objs2 & Hre2 & Hp2 & Hs2).
  exists (objs1 ++ objs2). rewrite app_assoc. split; [done|]. split; [done|set_solver].
Qed.

Lemma capture_objects_recorded self objs p s p' s' :
  recorded objs [] p s → capture_objects self known p s = (Ok p', s') → walk_recorded objs p p' s'.
Proof.
  intros Hre Hrun. unfold capture_objects in Hrun. erewrite bind_ok in Hrun by reflexivity.
  revert Hre Hrun. apply request_batches_recorded. intros objs1 p1 s1 Hre1 Hrun1.
  erewrite bind_ok in Hrun1 by reflexivity. revert Hre1 Hrun1. by apply request_batches_recorded.
Qed.
End Objects.

(** ** The whole session *)

(** Everything a session recorded *)
Record complete (known : dict str Z) (objs : list HeapObject) (types : dict Z str) : Prop := {
  cp_limits : within_limits known [] objs types;
  cp_once : NoDup (address <$> objs);
  cp_closed : ∀ obj x, obj ∈ objs → x ∈ mentions obj → x ≠ 0 → x ∈ address <$> objs;
  cp_types : NoDup types.*1;
  cp_named : Forall (λ obj, type_address obj ∈ types.*1) objs;
}.

Lemma handshake_inv self s addresses s' :
  handshake self s = (Ok addresses, s') →
  Forall is_u64 addresses ∧ length addresses = length WELL_KNOWN_TYPE_NAMES ∧ writer s' = writer s.
Proof.
  intros Hrun. pose proof (keeps_handshake _ _ _ _ Hrun) as Hw. revert Hrun. unfold handshake.
  intros (f & s1 & _ & Hrun)%bind_inv.
  apply bind_inv in Hrun as (hello & s2 & _ & Hrun). apply bind_inv in Hrun as ([] & s3 & _ & Hrun).
  apply bind_inv in Hrun as (o & s4 & _ & Hrun). apply bind_inv in Hrun as ([] & s5 & _ & Hrun).
  apply bind_inv in Hrun as (f2 & s6 & _ & Hrun). apply bind_inv in Hrun as (l & s7 & Hl & Hrun).
  apply lift_inv in Hl as [Hl ->]. case_in Hrun; [done|]. injection Hrun as <- _.
  split; [by eapply decode_addresses_u64|]. split; [|done].
  apply negb_false_iff, Nat.eqb_eq in Heqb. done.
Qed.

Lemma enumerate_roots_inv fuel t s t' s' :
  enumerate_roots fuel t s = (Ok t', s') → ∃ l, extends t t' l.
Proof.
  revert t s. induction fuel as [|fuel IH]; intros t s; cbn [enumerate_roots]; [done|].
  intros (frame & s1 & _ & Hrun)%bind_inv.
  destruct (kind frame); try (unfold _raise_unexpected in Hrun; case_in Hrun; discriminate Hrun).
  - apply bind_inv in Hrun as (l & s2 & Hl & Hrun). apply lift_inv in Hl as [_ ->].
    apply bind_inv in Hrun as (t1 & s3 & Hs & Hrun). injection Hs as <- <-.
    destruct (IH _ _ Hrun) as [l' He]. exists (l ++ l').
    eapply extends_trans; [apply schedule_fold_extends|exact He].
  - injection Hrun as <- _. exists []. apply extends_refl.
Qed.

(** The well-known types under the addresses the Agent gave *)
Definition known_of (addresses : list Z) : dict str Z := dict_of (zip WELL_KNOWN_TYPE_NAMES addresses).

Lemma known_of_ok addresses :
  Forall is_u64 addresses → length addresses = length WELL_KNOWN_TYPE_NAMES → known_ok (known_of addresses).
Proof.
  intros Hu Hl. apply Forall_forall. intros name Hin.
  assert (dict_wf (known_of addresses)) as Hwf by apply dict_of_wf.
  assert (name ∈ (known_of addresses).*1) as Hk.
  { apply dict_of_keys. by rewrite fst_zip by lia. }
  apply dict_get_is_Some in Hk as [a Ha]. exists a. split; [done|].
  assert (Forall (λ e, u64 e.2) (known_of addresses)) as Hall.
  { assert (∀ ps, Forall (λ e : str * Z, u64 e.2) ps → Forall (λ e, u64 e.2) (dict_of ps)) as Hd.
    { intros ps. induction ps as [|[k v] ps IH] using rev_ind; [done|].
      intros [Hps Hkv]%Forall_app. rewrite dict_of_snoc. inversion Hkv as [|? ? Hv _]; subst.
      apply IH in Hps. revert Hps. generalize (dict_of ps) as d. induction d as [|[k' v'] d IHd]; cbn.
      - intros _. by constructor.
      - intros [H1 H2]%Forall_cons. case_decide; constructor; auto. }
    apply Hd. apply Forall_forall. intros [n v] Hin2%elem_of_zip_r. by eapply Forall_forall in Hu. }
  apply dict_get_elem in Ha. exact (proj1 (Forall_forall _ _) Hall _ Ha).
Qed.

Lemma finish_limits types w w' :
  HeapWriterOps.finish types w = (Ok tt, w') → u32 (_object_count w) ∧ u32 (blen types).
Proof.
  unfold HeapWriterOps.finish. intros (w0 & w1 & Hg & Hrun)%bind_inv. injection Hg as <- <-.
  destruct (_object_count_offset w); [|done].
  apply bind_inv in Hrun as (e & w2 & _ & Hrun). apply bind_inv in Hrun as ([] & w3 & _ & Hrun).
  apply bind_inv in Hrun as ([] & w4 & Hc & Hrun). apply bind_inv in Hrun as ([] & w5 & _ & Hrun).
  apply bind_inv in Hrun as ([] & w6 & Ht & Hrun).
  split; by eapply write_u32_ok.
Qed.

Section Session.
Context `{SetOrder} (self : Collector) (now : str) (wsr sync : bool).

Definition head_of (addresses : list Z) : bytes :=
  enc_header now wsr (known_of addresses) ++ enc_seq enc_thread [] ++ enc_tables.

Lemma on_writer_run {A} (m : M HeapWriter exc A) s r w :
  m (writer s) = (r, w) → on_writer m s = (r, set_writer w s).
Proof. intros Hm. unfold on_writer. by rewrite Hm. Qed.

(** The writer just before the first object *)
Definition started (addresses : list Z) (w : HeapWriter) : Prop :=
  appendable wsr w ∧ _object_count_offset w = Some (length (head_of addresses)) ∧
  _object_count w = 0 ∧ f_data (_file w) = head_of addresses ++ enc_u32 0 ∧
  f_syncs (_file w) = true.

Lemma start_artifact addresses s :
  writer s = new_writer (new_file None true) wsr sync → known_ok (known_of addresses) →
  ∃ w, (on_writer (HeapWriterOps.write_header now (known_of addresses) None);;
        on_writer (HeapWriterOps.write_threads []);;
        on_writer HeapWriterOps.begin_objects) s = (Ok tt, set_writer w s) ∧ started addresses w.
Proof.
  intros Hw Hk. set (w0 := new_writer (new_file None true) wsr sync) in Hw.
  assert (appendable wsr w0) as H0 by done.
  pose proof (appends_header wsr now (known_of addresses) None Hk w0 H0) as Hh.
  rewrite <- Hw in Hh at 1. rewrite (bind_ok _ _ _ _ _ (on_writer_run _ _ _ _ Hh)).
  set (w1 := extend _ w0) in *. assert (appendable wsr w1) as H1 by (by apply extend_appendable).
  pose proof (appends_threads wsr [] ltac:(done) (Forall_nil_2 _) w1 H1) as Ht.
  rewrite (bind_ok _ _ _ _ _ (on_writer_run _ (set_writer w1 s) _ _ Ht)).
  set (w2 := extend _ w1) in *. assert (appendable wsr w2) as H2 by (by apply extend_appendable).
  pose proof (begin_objects_extend wsr w2 H2) as Hb.
  rewrite (on_writer_run _ (set_writer w2 (set_writer w1 s)) _ _ Hb).
  eexists. split; [done|].
  assert (f_data (_file w2) ++ enc_tables = head_of addresses) as E.
  { unfold head_of. cbn. by rewrite <- !app_assoc. }
  split_and!.
  - rewrite E. by destruct (extend_appendable wsr (enc_tables ++ enc_u32 0) w2 H2) as (?&?&?).
  - cbn. cbn in E. by rewrite E.
  - done.
  - change (f_data (_file w2) ++ enc_tables ++ enc_u32 0 = head_of addresses ++ enc_u32 0).
    by rewrite <- E, app_assoc.
  - done.
Qed.

Lemma started_recorded addresses t s l tys :
  started addresses (writer s) → extends (mkTraversal ∅ []) t l →
  dict_wf tys → Forall (λ e, u64 e.1) tys →
  recorded wsr (known_of addresses) (head_of addresses) [] [] (mkProgress t tys 0) s.
Proof.
  intros (Ha & Ho & Hc & Hd & Hs) (new & Hp & Hnd & Hsch & Hnew & _) Hwf Hu.
  cbn in Hp, Hsch. constructor; cbn [walk types completed]; try done.
  - by rewrite Hp.
  - intros x. rewrite Hp, Hsch. cbn. set_solver.
  - rewrite Hsch. intros Hin. assert (0 ∈ new) as H0 by set_solver. by destruct (Hnew 0 H0) as (_ & ? & _).
  - intros ? ? Hin. by apply elem_of_nil in Hin.
  - intros ? Hin. by apply elem_of_nil in Hin.
Qed.

Lemma capture_run_complete s n s' :
  writer s = new_writer (new_file None true) wsr sync →
  _capture self now s = (Ok n, s') →
  ∃ addresses objs types,
    complete (known_of addresses) objs types ∧ n = blen objs ∧
    f_data (_file (writer s')) = Artifact.artifact_bytes now wsr (known_of addresses) [] objs types ∧
    length addresses = length WELL_KNOWN_TYPE_NAMES ∧
    ∀ a, a ∈ addresses → a ≠ 0 → a ∈ address <$> objs.
Proof.
  intros Hw. unfold _capture. intros (addresses & s1 & Hhs & Hrun)%bind_inv.
  destruct (handshake_inv _ _ _ _ Hhs) as (Hu & Hlen & Hw1).
  pose proof (known_of_ok _ Hu Hlen) as Hk. cbv zeta in Hrun. fold (known_of addresses) in Hrun.
  destruct (start_artifact addresses s1) as (w & Hstart & Hst); [congruence|done|].
  apply bind_inv in Hrun as ([] & s2 & H2 & Hrun). apply bind_inv in Hrun as ([] & s3 & H3 & Hrun).
  apply bind_inv in Hrun as ([] & s4 & H4 & Hrun).
  assert (s4 = set_writer w s1) as ->.
  { rewrite (bind_ok _ _ _ _ _ H2), (bind_ok _ _ _ _ _ H3), H4 in Hstart. by injection Hstart. }
  apply bind_inv in Hrun as (s5 & s5' & Hg & Hrun). injection Hg as <- <-.
  apply bind_inv in Hrun as (t & s6 & Hroots & Hrun).
  pose proof (keeps_roots _ _ _ _ _ Hroots) as Hw6. cbn in Hw6.
  destruct (enumerate_roots_inv _ _ _ _ _ Hroots) as [roots Hext].
  destruct (schedule_run addresses t s6) as (t1 & s7 & Hsch & Hext1 & [_ Hw7]).
  rewrite (bind_ok _ _ _ _ _ Hsch) in Hrun.
  set (types0 := dict_of (zip addresses WELL_KNOWN_TYPE_NAMES)) in Hrun.
  assert (recorded wsr (known_of addresses) (head_of addresses) [] [] (mkProgress t1 types0 0) s7) as Hre.
  { eapply (started_recorded addresses t1 s7); [by rewrite Hw7, Hw6|by eapply extends_trans|apply dict_of_wf|].
    apply Forall_forall. intros [a v] Hin.
    assert (a ∈ types0.*1) as Hk1 by (by apply (list_elem_of_fmap_2 fst _ (a, v))).
    apply (proj1 (dict_of_keys _ _)) in Hk1. apply list_elem_of_fmap in Hk1 as ([a' v'] & -> & Hz).
    apply elem_of_zip_l in Hz. by eapply Forall_forall in Hu. }
  apply bind_inv in Hrun as (p & s9 & Hobjs & Hrun).
  destruct (capture_objects_recorded _ _ _ Hk _ _ _ _ _ _ Hre Hobjs) as (objs & Hre' & Hpend & Hsub).
  apply bind_inv in Hrun as ([] & s10 & Hsend & Hrun). pose proof (keeps_send _ _ _ _ _ Hsend) as Hw10.
  apply bind_inv in Hrun as (f & s11 & Hex & Hrun). pose proof (keeps_expect _ _ _ _ Hex) as Hw11.
  apply bind_inv in Hrun as ([] & s12 & Hfin & Hret). injection Hret as <- <-.
  unfold on_writer in Hfin. destruct (HeapWriterOps.finish (types p) (writer s11)) as [r wf] eqn:Hf.
  injection Hfin as -> <-. rewrite Hw11, Hw10 in Hf.
  destruct (finish_limits _ _ _ Hf) as [Hcnt Htn]. cbn [app] in Hre'. destruct Hre'.
  destruct re_types0 as [Htwf Htu]. cbn [walk] in Hsub. rewrite Hpend in re_scheduled0, re_nodup0.
  rewrite !app_nil_r in re_nodup0. setoid_rewrite app_nil_r in re_scheduled0.
  exists addresses, objs, (types p).
  destruct (finish_file wsr (types p) (writer s9) (head_of addresses) (objs ≫= enc_object wsr (known_of addresses)))
    as (wf' & Hf' & Hdata); try done.
  rewrite Hf in Hf'. injection Hf' as <-.
  split_and!.
  - constructor; try done.
    + constructor; try done. by rewrite re_count0 in Hcnt.
    + intros obj x Hobj Hx Hx0. apply re_scheduled0. by eapply re_closed0.
    + apply Forall_forall. intros obj Hobj. by apply re_named0.
  - done.
  - cbn [set_writer writer]. rewrite Hdata, re_count0. unfold Artifact.artifact_bytes, head_of, enc_seq.
    by rewrite <- !app_assoc.
  - done.
  - intros a Ha Ha0. apply re_scheduled0, Hsub. destruct Hext1 as (_ & _ & _ & _ & _ & Hall). by apply Hall.
Qed.
End Session.
