(* ===== verification/CaptureEnds.v ===== *)
(** * Every capture session ends

    No loop of the session is cut off by its fuel, whatever the Agent answers:
    each round of every loop reads a frame, a frame uses up part of the
    channel's backlog, and only a sent message, which uses up an answer the Agent
    has left, adds to it. *)
From stdpp Require Import base tactics numbers list gmap sets fin_sets.
From S2P Require Import Prelude PyData Struct Text Errors Protocol CaptureModel HeapWriter Collector.
Import CollectorOps.

(** ** The writer has no fuel *)

Definition fueled_not {S A} (m : M S exc A) : Prop := ∀ s s', m s ≠ (Err OutOfFuel, s').

Lemma fn_ret {S A} (a : A) : fueled_not (mret a : M S exc A).
Proof. by intros s s' [=]. Qed.
Lemma fn_raise {S A} e : e ≠ OutOfFuel → fueled_not (raise e : M S exc A).
Proof. intros He s s' [= -> _]. done. Qed.
Lemma fn_lift {S A} (r : result exc A) : r ≠ Err OutOfFuel → fueled_not (lift r : M S exc A).
Proof. intros He s s' [= -> _]. done. Qed.
Lemma fn_modify {S} (f : S → S) : fueled_not (modify f : M S exc unit).
Proof. by intros s s' [=]. Qed.
Lemma fn_get {S} : fueled_not (get : M S exc S).
Proof. by intros s s' [=]. Qed.
Lemma fn_bind {S A B} (m : M S exc A) (f : A → M S exc B) :
  fueled_not m → (∀ a, fueled_not (f a)) → fueled_not (m ≫= f).
Proof.
  intros Hm Hf s s' [H|(a & s1 & _ & H)]%bind_err_inv; [by eapply Hm|by eapply Hf].
Qed.
Lemma fn_for_each {S A} (xs : list A) (body : A → M S exc unit) :
  (∀ x, fueled_not (body x)) → fueled_not (for_each xs body).
Proof.
  intros Hb. induction xs as [|x xs IH]; cbn [for_each]; [apply fn_ret|]. by apply fn_bind.
Qed.

Lemma struct_no_fuel {A} (o : option A) : or_struct_error o ≠ Err OutOfFuel.
Proof. by destruct o. Qed.
Lemma key_no_fuel {A} (o : option A) : or_key_error o ≠ Err OutOfFuel.
Proof. by destruct o. Qed.

Create HintDb fuel.
#[export] Hint Resolve fn_ret fn_modify fn_get struct_no_fuel key_no_fuel : fuel.

Ltac fn_step :=
  lazymatch goal with
  | |- fueled_not (mret _) => apply fn_ret
  | |- fueled_not (raise _) => apply fn_raise; discriminate
  | |- fueled_not (lift (or_struct_error _)) => apply fn_lift, struct_no_fuel
  | |- fueled_not (lift (or_key_error _)) => apply fn_lift, key_no_fuel
  | |- fueled_not (modify _) => apply fn_modify
  | |- fueled_not get => apply fn_get
  | |- fueled_not (for_each _ _) => apply fn_for_each; intros ?
  | |- fueled_not (_ ≫= _) => apply fn_bind; [|intros ?]
  | |- fueled_not (if ?b then _ else _) => destruct b
  | |- fueled_not (match ?x with _ => _ end) => destruct x
  end.
Ltac fn_solve := repeat (fn_step || (progress cbv beta zeta)).

Section Writer.
Import HeapWriterOps.

Lemma fn_write bs : fueled_not (write bs).
Proof.
  intros w w'. unfold write, f_write.
  destruct (f_quota _) as [q|]; [destruct (_ <=? _)%nat|]; by intros [=].
Qed.
Lemma fn_u32 v : fueled_not (_write_u32 v).
Proof. unfold _write_u32. fn_solve. apply fn_write. Qed.
Lemma fn_u64 v : fueled_not (_write_u64 v).
Proof. unfold _write_u64. fn_solve. apply fn_write. Qed.
Lemma fn_long s : fueled_not (_write_long_string s).
Proof. unfold _write_long_string. cbv zeta. fn_step; [fn_step|]. fn_step; [|intros; apply fn_write]. apply fn_write. Qed.
Lemma fn_short s : fueled_not (_write_short_string s).
Proof. unfold _write_short_string. cbv zeta. fn_step; [fn_step|]. fn_step; [|intros; apply fn_write]. apply fn_write. Qed.
Lemma fn_bool b : fueled_not (write_bool b).
Proof. unfold write_bool. fn_solve. apply fn_write. Qed.

Ltac fn_prim :=
  lazymatch goal with
  | |- fueled_not (_write_u32 _) => apply fn_u32
  | |- fueled_not (_write_u64 _) => apply fn_u64
  | |- fueled_not (_write_long_string _) => apply fn_long
  | |- fueled_not (_write_short_string _) => apply fn_short
  | |- fueled_not (write_bool _) => apply fn_bool
  | |- fueled_not (for_each _ _write_u64) => apply fn_for_each, fn_u64
  | |- fueled_not (seek _) => apply fn_modify
  | |- fueled_not tell => by intros w w' [=]
  | _ => fn_step
  end.
Ltac fnw_solve := repeat (fn_prim || (progress cbv beta zeta)).

Lemma fn_header now known created_at : fueled_not (write_header now known created_at).
Proof.
  unfold write_header. cbv zeta. generalize WELL_KNOWN_TYPE_NAMES at 1 as l. intros l.
  destruct (filter _ l); fnw_solve.
Qed.
Lemma fn_frame f : fueled_not (write_frame f).
Proof. unfold write_frame. fnw_solve. Qed.
Lemma fn_thread t : fueled_not (write_thread t).
Proof. unfold write_thread. fnw_solve. apply fn_frame. Qed.
Lemma fn_threads ts : fueled_not (write_threads ts).
Proof. unfold write_threads. fnw_solve. apply fn_thread. Qed.
Lemma fn_begin : fueled_not begin_objects.
Proof. unfold begin_objects. fnw_solve. Qed.
Lemma fn_content obj : fueled_not (write_content obj).
Proof. unfold write_content. fnw_solve. Qed.
Lemma is_container_fuel known t : is_container known t ≠ Err OutOfFuel.
Proof.
  unfold is_container, or_key_error, mbind, result_bind, mret, result_ret.
  intros E. repeat (case_match; simplify_eq).
Qed.
Lemma fn_object obj known : fueled_not (write_object obj known).
Proof.
  unfold write_object. fn_prim; [fn_prim|]. destruct (_object_count_offset a); [|fn_prim].
  do 3 (fn_prim; [fn_prim|]). fn_prim; [apply fn_content|].
  fnw_solve. apply fn_lift, is_container_fuel.
Qed.
Lemma fn_finish types : fueled_not (finish types).
Proof.
  unfold finish. fnw_solve. intros w w'. unfold fsync. destruct (f_syncs _); by intros [=].
Qed.
End Writer.

(** ** The session *)

(** What a session has left: the answers of the Agent, and what is to be read *)
Definition unasked (s : Session) : nat := length (peer (_socket (channel s))).
Definition unread (s : Session) : nat := backlog (channel s).

(** No more is left, the answers first; less is left *)
Definition no_more (s' s : Session) : Prop :=
  (unasked s' < unasked s)%nat ∨ unasked s' = unasked s ∧ (unread s' <= unread s)%nat.
Definition less (s' s : Session) : Prop :=
  (unasked s' < unasked s)%nat ∨ unasked s' = unasked s ∧ (unread s' < unread s)%nat.
(** No answer was asked for, and no more is to be read *)
Definition calm (s' s : Session) : Prop := unasked s' = unasked s ∧ (unread s' <= unread s)%nat.

(** Success leads to a state in the relation; a failure is not a lack of fuel. *)
Definition leads (R : Session → Session → Prop) {A} (m : C A) : Prop := ∀ s r s', m s = (r, s') →
  match r with
  | Ok _ => R s' s
  | Err e => e ≠ OutOfFuel
  end.
Abbreviation ends := (leads no_more).
Abbreviation ends_less := (leads less).
Abbreviation reads := (leads calm).

Ltac left_lia := unfold no_more, less, calm in *; cbv beta in *; lia.

Lemma leads_weaken (R R' : Session → Session → Prop) {A} (m : C A) :
  (∀ s' s, R s' s → R' s' s) → leads R m → leads R' m.
Proof. intros HR Hm s r s' H. specialize (Hm _ _ _ H). destruct r; auto. Qed.

Lemma leads_bind (R1 R2 R : Session → Session → Prop) {A B} (m : C A) (f : A → C B) :
  (∀ s s1 s2, R1 s1 s → R2 s2 s1 → R s2 s) → leads R1 m → (∀ a, leads R2 (f a)) → leads R (m ≫= f).
Proof.
  intros HR Hm Hf s r s'. unfold mbind, M_bind. destruct (m s) as [[a|e] s1] eqn:E.
  - intros H. specialize (Hf a _ _ _ H). specialize (Hm _ _ _ E). cbn in Hm. destruct r; eauto.
  - intros [= <- <-]. by specialize (Hm _ _ _ E).
Qed.

Lemma reads_ends {A} (m : C A) : reads m → ends m.
Proof. apply leads_weaken. intros s' s H. left_lia. Qed.
Lemma less_ends {A} (m : C A) : ends_less m → ends m.
Proof. apply leads_weaken. intros s' s H. left_lia. Qed.

Lemma ends_bind {A B} (m : C A) (f : A → C B) : ends m → (∀ a, ends (f a)) → ends (m ≫= f).
Proof. apply leads_bind. intros s s1 s2 H1 H2. left_lia. Qed.
Lemma session_reads_bind {A B} (m : C A) (f : A → C B) : reads m → (∀ a, reads (f a)) → reads (m ≫= f).
Proof. apply leads_bind. intros s s1 s2 H1 H2. left_lia. Qed.
Lemma less_then {A B} (m : C A) (f : A → C B) : ends_less m → (∀ a, ends (f a)) → ends_less (m ≫= f).
Proof. apply leads_bind. intros s s1 s2 H1 H2. left_lia. Qed.
Lemma less_after {A B} (m : C A) (f : A → C B) : ends m → (∀ a, ends_less (f a)) → ends_less (m ≫= f).
Proof. apply leads_bind. intros s s1 s2 H1 H2. left_lia. Qed.

Lemma reads_same {A} (m : C A) :
  (∀ s r s', m s = (r, s') → channel s' = channel s ∧ r ≠ Err OutOfFuel) → reads m.
Proof.
  intros Hm s r s' H. destruct (Hm _ _ _ H) as [Hc Hr]. unfold calm, unasked, unread.
  rewrite Hc. destruct r; [lia|congruence].
Qed.
Lemma session_reads_ret {A} (a : A) : reads (mret a).
Proof. apply reads_same. by intros s r s' [= <- <-]. Qed.
Lemma reads_raise {A} e : e ≠ OutOfFuel → reads (raise e : C A).
Proof. intros He. apply reads_same. intros s r s' [= <- <-]. split; [done|congruence]. Qed.
Lemma session_reads_lift {A} (r : result exc A) : r ≠ Err OutOfFuel → reads (lift r).
Proof. intros He. apply reads_same. by intros s r' s' [= <- <-]. Qed.
Lemma reads_get : reads get.
Proof. apply reads_same. by intros s r s' [= <- <-]. Qed.
Lemma reads_modify f : (∀ s, channel (f s) = channel s) → reads (modify f).
Proof. intros Hf. apply reads_same. by intros s r s' [= <- <-]. Qed.
Lemma reads_writer {A} (m : M HeapWriter exc A) : fueled_not m → reads (on_writer m).
Proof.
  intros Hm. apply reads_same. intros s r s'. unfold on_writer.
  destruct (m (writer s)) as [r' w] eqn:E. intros [= -> <-]. split; [done|]. intros ->. by eapply Hm.
Qed.

(** A received frame is progress. *)
Definition reads_less {A} (m : C A) : Prop :=
  leads (λ s' s, unasked s' = unasked s ∧ (unread s' < unread s)%nat) m.

Lemma receive_reads : reads_less receive.
Proof.
  intros s r s'. unfold receive, on_channel.
  destruct (FramedSocketOps.receive (channel s)) as [r' c] eqn:E. intros [= -> <-]. destruct r as [f|e].
  - pose proof (receive_backlog _ _ _ E). pose proof (receive_peer _ _ _ E) as Hp.
    unfold unasked, unread. cbn. by rewrite Hp.
  - apply receive_error in E as [msg [-> | ->]]; done.
Qed.

Lemma reads_receive : reads receive.
Proof. eapply leads_weaken, receive_reads. intros s' s H. left_lia. Qed.

Lemma ends_send k p : ends (send k p).
Proof.
  intros s r s'. unfold send, on_channel.
  destruct (FramedSocketOps.send k p (channel s)) as [r' c] eqn:E. intros [= -> <-].
  revert E. unfold FramedSocketOps.send, raise. destruct (_ <? _); [by intros [= <- <-]|].
  unfold mbind, M_bind, lift. destruct (or_struct_error _) as [h|e] eqn:Hs.
  - assert (∀ wire n, no_more (set_channel (FramedSocketOps.set_socket
      (exchanged wire n (_socket (channel s))) (channel s)) s) s) as Hx.
    { intros wire n. unfold no_more, unasked, unread, exchanged. cbn.
      destruct (peer (_socket (channel s))); [right|left; cbn; lia]. by split. }
    unfold FramedSocketOps.sendall. destruct (send_budget _) as [[|n]|]; intros [= <- <-]; [done|apply Hx..].
  - intros [= <- <-] ->. by eapply struct_no_fuel.
Qed.

(** A sent message uses up an answer. *)
Lemma send_asks k p s s' :
  send k p s = (Ok tt, s') → unasked s' = (unasked s - 1)%nat.
Proof.
  unfold send, on_channel. destruct (FramedSocketOps.send k p (channel s)) as [r' c] eqn:E. intros [= -> <-].
  revert E. unfold FramedSocketOps.send, raise. destruct (_ <? _); [done|].
  unfold mbind, M_bind, lift. destruct (or_struct_error _) as [h|e]; [|done].
  assert (∀ wire n, length (peer (exchanged wire n (_socket (channel s))))
    = (length (peer (_socket (channel s))) - 1)%nat) as Hx.
  { intros wire n. unfold exchanged. destruct (peer (_socket (channel s))); cbn; lia. }
  unfold FramedSocketOps.sendall. destruct (send_budget _) as [[|n]|]; intros [= <-]; apply Hx.
Qed.

Lemma decode_addresses_fuel p : decode_addresses p ≠ Err OutOfFuel.
Proof. unfold decode_addresses. by destruct (_ =? _)%nat. Qed.
Lemma decode_dict_fuel p : decode_dict_entries p ≠ Err OutOfFuel.
Proof.
  unfold decode_dict_entries. destruct (decode_addresses p) as [l|e] eqn:E; cbn.
  - by destruct (_ =? _)%nat.
  - intros [= ->]. by eapply decode_addresses_fuel.
Qed.
Lemma decode_begin_fuel p : decode_object_begin p ≠ Err OutOfFuel.
Proof.
  unfold decode_object_begin. destruct (_ <? _)%nat; [done|].
  destruct (unpack_from _ _ _) as [(? & ? & ? & ? & ? & [])|]; cbn; [|done]. by destruct (_ =? _).
Qed.
Lemma encode_addresses_fuel l : encode_addresses l ≠ Err OutOfFuel.
Proof.
  induction l as [|a l IH]; cbn [encode_addresses]; [done|].
  destruct (or_struct_error _) as [h|e] eqn:E; cbn [mbind result_bind].
  - destruct (encode_addresses l); cbn; [done|congruence].
  - intros [= ->]. by eapply struct_no_fuel.
Qed.
Lemma check_hello_fuel self hello : check_hello self hello ≠ Err OutOfFuel.
Proof.
  unfold check_hello. destruct (negb _); [done|]. destruct (negb _ || _); [done|].
  destruct (negb _); [done|]. by destruct (negb _).
Qed.
Lemma decode_hello_fuel p : decode_hello p ≠ Err OutOfFuel.
Proof.
  unfold decode_hello. destruct (_ =? _)%nat; [|done].
  destruct (unpack _ _) as [(? & ? & ? & ? & ? & [])|]; cbn [or_struct_error mbind result_bind]; [|done].
  by destruct (_ || _).
Qed.

#[export] Hint Resolve reads_get reads_receive ends_send decode_addresses_fuel decode_dict_fuel
  decode_begin_fuel encode_addresses_fuel check_hello_fuel decode_hello_fuel : fuel.

Ltac reads_step :=
  lazymatch goal with
  | |- reads (mret _) => apply session_reads_ret
  | |- reads (raise _) => apply reads_raise; discriminate
  | |- reads (lift _) => apply session_reads_lift
  | |- reads (modify _) => apply reads_modify; reflexivity
  | |- reads (_ ≫= _) => apply session_reads_bind; [|intros ?]
  | |- reads (if ?b then _ else _) => destruct b
  | |- reads (match ?x with _ => _ end) => destruct x
  end.
Ltac reads_solve := repeat (reads_step || (progress cbv beta zeta)); auto with fuel.

Lemma reads_expect k : reads (_expect k).
Proof. unfold _expect. reads_solve. Qed.
Lemma reads_unexpected {A} f stage : reads (_raise_unexpected f stage : C A).
Proof. unfold _raise_unexpected. reads_solve. Qed.
#[export] Hint Resolve reads_expect reads_unexpected : fuel.

Ltac ends_step :=
  lazymatch goal with
  | |- ends (send _ _) => apply ends_send
  | |- ends (_ ≫= _) => apply ends_bind; [|intros ?]
  | |- ends (if ?b then _ else _) => destruct b
  | |- ends (match ?x with _ => _ end) => destruct x
  | |- ends _ => apply reads_ends; solve [reads_solve]
  end.
Ltac ends_solve := repeat (ends_step || (progress cbv beta zeta)); auto with fuel.

Lemma expect_less k : ends_less (_expect k).
Proof.
  unfold _expect. apply less_then.
  - eapply leads_weaken, receive_reads. intros s' s H. left_lia.
  - intros f. ends_solve.
Qed.

(** A loop that starts each round with a frame: enough fuel for the backlog is
    enough. *)
Definition reads_within (n : nat) {A} (m : C A) : Prop := ∀ s r s',
  (unread s < n)%nat → m s = (r, s') →
  match r with
  | Ok _ => calm s' s
  | Err e => e ≠ OutOfFuel
  end.

Lemma within_reads n {A} (m : C A) : reads m → reads_within n m.
Proof. intros Hm s r s' _. apply Hm. Qed.

Lemma session_within_bind n {A B} (m : C A) (f : A → C B) :
  reads m → (∀ a, reads_within n (f a)) → reads_within n (m ≫= f).
Proof.
  intros Hm Hf s r s' Hn. unfold mbind, M_bind. destruct (m s) as [[a|e] s1] eqn:E.
  - intros H. specialize (Hm _ _ _ E). cbn in Hm. specialize (Hf a s1 r s' ltac:(left_lia) H).
    destruct r; [left_lia|done].
  - intros [= <- <-]. by specialize (Hm _ _ _ E).
Qed.

Lemma within_receive n {A} (f : Frame → C A) :
  (∀ frame, reads_within n (f frame)) → reads_within (S n) (receive ≫= f).
Proof.
  intros Hf s r s' Hn. unfold mbind, M_bind. destruct (receive s) as [[a|e] s1] eqn:E.
  - intros H. pose proof (receive_reads _ _ _ E) as Hlt. cbn in Hlt.
    specialize (Hf a s1 r s' ltac:(lia) H). destruct r; [left_lia|done].
  - intros [= <- <-]. by specialize (reads_receive _ _ _ E).
Qed.

Lemma within_fuel {A} (loop : nat → C A) :
  (∀ n, reads_within n (loop n)) → reads (s ← get; loop (backlog_fuel s)).
Proof.
  intros Hl s r s'. erewrite bind_ok by reflexivity. intros H.
  apply (Hl (backlog_fuel s) s r s'); [unfold backlog_fuel, unread; lia|done].
Qed.

Lemma parts_end n len a obj : reads_within n (receive_parts n len a obj).
Proof.
  revert obj. induction n as [|n IH]; intros obj; [intros s r s' Hn; lia|]. cbn [receive_parts].
  apply within_receive. intros frame.
  destruct (kind frame); try (apply within_reads; solve [reads_solve]);
    try (apply session_within_bind; [reads_solve|intros ?]); apply IH.
Qed.

Lemma object_reads len a : reads (_receive_object len a).
Proof.
  unfold _receive_object. reads_step; [apply reads_expect|].
  reads_step; [reads_step; apply decode_begin_fuel|]. reads_step; [reads_step|].
  destruct (content_kind_of _) as [k|]; [|reads_step].
  apply (within_fuel (λ n, receive_parts n len a (new_object _ _ _ _ k))). intros n. apply parts_end.
Qed.

Lemma schedule_reads l t : reads (schedule l t).
Proof. unfold schedule. reads_solve. Qed.
#[export] Hint Resolve object_reads schedule_reads : fuel.

Lemma roots_end n t : reads_within n (enumerate_roots n t).
Proof.
  revert t. induction n as [|n IH]; intros t; [intros s r s' Hn; lia|]. cbn [enumerate_roots].
  apply within_receive. intros frame.
  destruct (kind frame); try (apply within_reads; solve [reads_solve]).
  apply session_within_bind; [reads_solve|intros l]. apply session_within_bind; [reads_solve|intros t']. apply IH.
Qed.

Section Loops.
Context `{SetOrder} (self : Collector) (known : dict str Z).

Lemma capture_object_reads a p : reads (capture_object self known a p).
Proof.
  unfold capture_object. reads_step; [auto with fuel|].
  reads_step; [apply reads_writer, fn_object|]. cbv zeta.
  reads_step; [|reads_solve]. unfold schedule_object. reads_step; [auto with fuel|].
  reads_step; [|reads_solve].
  destruct (content_kind _); try apply schedule_reads.
  generalize (dict_content a0) as entries. intros entries. revert a2.
  induction entries as [|[k v] entries IH]; intros t; [apply session_reads_ret|].
  apply session_reads_bind; [apply schedule_reads|intros t']. apply IH.
Qed.

Lemma capture_batch_reads batch p : reads (capture_batch self known batch p).
Proof.
  revert p. induction batch as [|a batch IH]; intros p; cbn [capture_batch]; [apply session_reads_ret|].
  apply session_reads_bind; [apply capture_object_reads|apply IH].
Qed.

(** A batch ends with a frame from the Agent. *)
Lemma request_batch_ends p : ends_less (request_batch self known p).
Proof.
  unfold request_batch. destruct (pop_batch _ _) as [batch t].
  apply less_after; [ends_solve|intros wire]. apply less_after; [ends_solve|intros _].
  apply less_after; [apply reads_ends, capture_batch_reads|intros p']. apply less_then; [apply expect_less|].
  intros _. ends_solve.
Qed.

(** Without answers left every round reads from what is there. *)
Lemma request_batches_silent n p s r s' :
  unasked s = 0%nat → (unread s < n)%nat →
  request_batches self known n (λ _, raise OutOfFuel) p s = (r, s') →
  match r with Ok _ => no_more s' s | Err e => e ≠ OutOfFuel end.
Proof.
  revert p s. induction n as [|n IH]; intros p s Ha Hn; [lia|]. cbn [request_batches].
  destruct (pending (walk p)) as [|x l]; [intros [= <- <-]; left_lia|].
  unfold mbind, M_bind. destruct (request_batch self known p s) as [[p1|e] s1] eqn:E.
  - intros Hrun. pose proof (request_batch_ends _ _ _ _ E) as Hlt. cbn in Hlt.
    specialize (IH p1 s1 ltac:(left_lia) ltac:(left_lia) Hrun). destruct r; [left_lia|done].
  - intros [= <- <-]. exact (request_batch_ends _ _ _ _ E).
Qed.

(** A round uses up an answer as long as there is one. *)
Lemma request_batch_asks p s p' s' :
  request_batch self known p s = (Ok p', s') → unasked s ≠ 0%nat → (unasked s' < unasked s)%nat.
Proof.
  unfold request_batch. destruct (pop_batch _ _) as [batch t]. intros (wire & s1 & Hl & Hrun)%bind_inv Ha.
  apply lift_inv in Hl as [_ ->]. apply bind_inv in Hrun as ([] & s2 & Hsend & Hrun).
  apply send_asks in Hsend.
  apply bind_inv in Hrun as (p3 & s3 & Hb & Hrun). pose proof (capture_batch_reads _ _ _ _ _ Hb) as Hb'.
  apply bind_inv in Hrun as (frame & s4 & Hex & Hrun). pose proof (reads_expect _ _ _ _ Hex) as Hex'.
  assert (calm s' s4) as Hlast.
  { apply bind_inv in Hrun as ([] & s5 & Hp & Hret). injection Hret as <- <-.
    destruct (_progress self); injection Hp as <-; unfold calm, unasked, unread; cbn; lia. }
  cbn in Hb', Hex'. left_lia.
Qed.

Lemma request_batches_asks n next p s r s' :
  (∀ p s r s', unasked s = 0%nat → next p s = (r, s') →
     match r with Ok _ => no_more s' s | Err e => e ≠ OutOfFuel end) →
  (unasked s <= n)%nat → request_batches self known n next p s = (r, s') →
  match r with Ok _ => no_more s' s | Err e => e ≠ OutOfFuel end.
Proof.
  intros Hnext. revert p s. induction n as [|n IH]; intros p s Ha; cbn [request_batches];
    (destruct (pending (walk p)) as [|x l]; [intros [= <- <-]; left_lia|]).
  { apply Hnext. lia. }
  unfold mbind, M_bind. destruct (request_batch self known p s) as [[p1|e] s1] eqn:E.
  - intros Hrun. pose proof (request_batch_ends _ _ _ _ E) as Hlt. cbn in Hlt.
    pose proof (request_batch_asks _ _ _ _ E) as Hask.
    specialize (IH p1 s1 ltac:(left_lia) Hrun). destruct r; [left_lia|done].
  - intros [= <- <-]. exact (request_batch_ends _ _ _ _ E).
Qed.

Lemma capture_objects_end p : ends (capture_objects self known p).
Proof.
  intros s r s'. unfold capture_objects. erewrite bind_ok by reflexivity.
  apply request_batches_asks; [|unfold unasked; lia]. intros p1 s1 r1 s1' Ha.
  erewrite bind_ok by reflexivity. apply request_batches_silent; [done|unfold backlog_fuel, unread; lia].
Qed.
End Loops.

Lemma handshake_ends self : ends (handshake self).
Proof.
  unfold handshake. repeat (ends_step || (progress cbv beta zeta)); apply reads_ends; reads_solve.
  unfold encode_options. apply struct_no_fuel.
Qed.

Lemma within_fuel_bind {A B} (loop : nat → C A) (k : A → C B) :
  (∀ n, reads_within n (loop n)) → (∀ a, ends (k a)) →
  ends (s ← get; a ← loop (backlog_fuel s); k a).
Proof.
  intros Hl Hk s r s' Hrun.
  apply (ends_bind (s ← get; loop (backlog_fuel s)) k (reads_ends _ (within_fuel loop Hl)) Hk s r s').
  rewrite <- Hrun. apply bind_assoc.
Qed.

(** No session is cut off by the model's fuel. *)
Lemma capture_ends `{SetOrder} self now : ends (_capture self now).
Proof.
  unfold _capture. apply ends_bind; [apply handshake_ends|intros addresses]. cbv zeta.
  apply ends_bind; [apply reads_ends, reads_writer, fn_header|intros _].
  apply ends_bind; [apply reads_ends, reads_writer, fn_threads|intros _].
  apply ends_bind; [apply reads_ends, reads_writer, fn_begin|intros _].
  apply (within_fuel_bind (λ n, enumerate_roots n (mkTraversal ∅ []))); [intros n; apply roots_end|].
  intros t. apply ends_bind; [apply reads_ends, schedule_reads|intros t'].
  apply ends_bind; [apply capture_objects_end|]. intros p.
  apply ends_bind; [apply ends_send|intros _]. apply ends_bind; [apply reads_ends, reads_expect|intros _].
  apply ends_bind; [apply reads_ends, reads_writer, fn_finish|intros _]. apply reads_ends, session_reads_ret.
Qed.
