(* ===== verification/Conforming.v ===== *)
(** * A session with a conforming Agent completes

    An Agent that answers what it is sent as the protocol asks, over a finite
    heap, is served to the end: the session asks for each of the objects reachable
    from the roots and the well-known types once and writes exactly those, however
    the frames are batched and the stream is cut. *)
From stdpp Require Import base tactics numbers list gmap sets fin_sets.
From S2P Require Import Prelude PyData Struct Text Errors Protocol CaptureModel HeapWriter Artifact Collector Capture.
Import CollectorOps.

(** ** What an Agent sends *)

(** The frames that turn a started object into the described one *)
Inductive described (str_repr_len : Z) : HeapObject → list Frame → HeapObject → Prop :=
| described_end obj f :
    kind f = OBJECT_END → described str_repr_len obj [f] (default_repr str_repr_len obj)
| described_referents obj f l fs obj' :
    kind f = REFERENTS → decode_addresses (payload f) = Ok l →
    described str_repr_len (add_referents l obj) fs obj' → described str_repr_len obj (f :: fs) obj'
| described_sequence obj f l fs obj' :
    kind f = SEQUENCE_CONTENT → decode_addresses (payload f) = Ok l →
    described str_repr_len (extend_sequence l obj) fs obj' → described str_repr_len obj (f :: fs) obj'
| described_dict obj f l fs obj' :
    kind f = DICT_CONTENT → decode_dict_entries (payload f) = Ok l →
    described str_repr_len (extend_dict l obj) fs obj' → described str_repr_len obj (f :: fs) obj'
| described_preview obj f fs obj' :
    kind f = PREVIEW →
    described str_repr_len (set_str_repr (decode_text (payload f)) obj) fs obj' →
    described str_repr_len obj (f :: fs) obj'
| described_warning obj f fs obj' :
    kind f = WARNING → described str_repr_len obj fs obj' → described str_repr_len obj (f :: fs) obj'.

(** The frames for a requested address *)
Definition object_frames (str_repr_len a : Z) (frames : list Frame) (obj : HeapObject) : Prop :=
  ∃ f b k parts, frames = f :: parts ∧ kind f = OBJECT_BEGIN ∧
    decode_object_begin (payload f) = Ok b ∧ Protocol.address b = a ∧
    content_kind_of (Protocol.content_kind b) = Some k ∧
    described str_repr_len
      (new_object (Protocol.address b) (Protocol.type_address b) (Protocol.type_name b)
         (Protocol.shallow_size b) k) parts obj.

(** ** What an Agent answers *)

(** An Agent: what it opens the session with, what it has to say of the
    well-known types and the roots, how it describes an object, and how it closes
    a batch and the session *)
Record Agent := mkAgent {
  greeting : Frame;
  welcome : list Frame;
  describe : Z → list Frame;
  batch_done : Frame;
  farewell : Frame;
}.

(** Its answer to a message: the roots once the options are known, the objects
    whose addresses a request holds, and the end when the Collector is done *)
Definition reply (A : Agent) (m : Frame) : list Frame :=
  match kind m with
  | HELLO_ACK => welcome A
  | REQUEST_OBJECTS =>
      match decode_addresses (payload m) with
      | Ok requested => (requested ≫= describe A) ++ [batch_done A]
      | Err _ => []
      end
  | FINISH => [farewell A]
  | _ => []
  end.

(** Frames on the wire *)
Definition wire_of (fs : list Frame) : bytes := fs ≫= λ f, wire_frame (kind f) (payload f).

(** The peer reads a message and sends the Agent's answer to it. *)
Definition answers_as (A : Agent) (answer : bytes → list sock_event) : Prop :=
  ∀ m, blen (payload m) ≤ MAX_PAYLOAD → delivers (answer (wire_frame (kind m) (payload m))) (reply A m).

(** The Agent at the other end of a working channel: its greeting is on the way,
    and it is there for [n] messages at least. *)
Record connected (A : Agent) (n : nat) (c : FramedSocket) : Prop := {
  cn_greeting : serves c [greeting A];
  cn_sends : send_budget (_socket c) = None;
  cn_answers : Forall (answers_as A) (peer (_socket c));
  cn_stays : (n <= length (peer (_socket c)))%nat;
}.

(** The messages of a session: the options, a request for each batch of
    addresses, and the end *)
Definition request_message (batch : list Z) : Frame := mkFrame REQUEST_OBJECTS (batch ≫= be_encode 8).
Definition session_messages (options : bytes) (batches : list (list Z)) : list Frame :=
  mkFrame HELLO_ACK options :: (request_message <$> batches) ++ [mkFrame FINISH []].

Lemma encoded_addresses l bs : encode_addresses l = Ok bs → bs = l ≫= be_encode 8.
Proof.
  revert bs. induction l as [|a l IH]; intros bs; [by intros [= <-]|].
  intros (_ & rest & Hr & ->)%encode_addresses_cons. by rewrite (IH _ Hr).
Qed.

(** ** Runs against a served channel *)

Section Served.
Context (A : Agent).

(** The session is about to be served [fs], its writer is [w], it has sent [out],
    and the Agent stays for [n] messages more. *)
Record served (s : Session) (fs : list Frame) (w : HeapWriter) (out : bytes) (n : nat) : Prop := {
  sv_serves : serves (channel s) fs;
  sv_sends : send_budget (_socket (channel s)) = None;
  sv_writer : writer s = w;
  sv_sent : outbox (_socket (channel s)) = out;
  sv_answers : Forall (answers_as A) (peer (_socket (channel s)));
  sv_stays : (n <= length (peer (_socket (channel s))))%nat;
}.

Lemma serves_backlog c fs : serves c fs → (length fs <= backlog c)%nat.
Proof.
  revert c. induction fs as [|f fs IH]; intros c Hs; [cbn; lia|].
  destruct (receive_serves c f fs Hs) as (c' & Hr & Hs' & _).
  apply receive_backlog in Hr. apply IH in Hs'. cbn. lia.
Qed.

Lemma served_fuel s fs w out n : served s fs w out n → (length fs < backlog_fuel s)%nat.
Proof. intros [Hs%serves_backlog _ _ _ _ _]. unfold backlog_fuel. lia. Qed.

(** A step that leaves the channel alone *)
Lemma served_same s s' fs w w' out n :
  served s fs w out n → channel s' = channel s → writer s' = w' → served s' fs w' out n.
Proof. intros [? ? ? ? ? ?] Hc Hw. constructor; by rewrite ?Hc. Qed.

Lemma receive_served s f fs w out n :
  served s (f :: fs) w out n → ∃ s', receive s = (Ok f, s') ∧ served s' fs w out n.
Proof.
  intros [Hs Hb Hw Ho Ha Hn]. destruct (receive_serves _ _ _ Hs) as (c' & Hr & Hs' & Ho' & Hb' & Hp').
  exists (set_channel c' s). unfold receive, on_channel. rewrite Hr. split; [done|].
  constructor; cbn; by rewrite ?Ho', ?Hb', ?Hp'.
Qed.

Lemma expect_served k s f fs w out n :
  served s (f :: fs) w out n → kind f = k → k ≠ ERROR → ∃ s', _expect k s = (Ok f, s') ∧ served s' fs w out n.
Proof.
  intros Hs Hk He. destruct (receive_served _ _ _ _ _ _ Hs) as (s' & Hr & Hs').
  exists s'. split; [|done]. unfold _expect. rewrite (bind_ok _ _ _ _ _ Hr).
  rewrite decide_False by congruence. by rewrite decide_True.
Qed.

Lemma send_served k p s fs w out n :
  served s fs w out (S n) → blen p ≤ MAX_PAYLOAD →
  ∃ s', send k p s = (Ok tt, s') ∧ served s' (fs ++ reply A (mkFrame k p)) w (out ++ wire_frame k p) n.
Proof.
  intros [Hs Hb Hw Ho Ha Hn] Hp. destruct (peer (_socket (channel s))) as [|answer later] eqn:Hpeer; [cbn in Hn; lia|].
  apply Forall_cons in Ha as [Hans Ha]. specialize (Hans (mkFrame k p) Hp).
  destruct (send_exchanges _ k p answer later fs _ Hs Hb Hp Hpeer Hans) as (c' & Hsend & Hs' & Ho' & Hb' & Hp').
  exists (set_channel c' s). unfold send, on_channel. rewrite Hsend. split; [done|].
  constructor; cbn; rewrite ?Hp', ?Ho', ?Ho; try done. cbn in Hn. lia.
Qed.

Lemma parts_served len a fuel obj fs obj' s rest w out n :
  described len obj fs obj' → (length fs <= fuel)%nat → served s (fs ++ rest) w out n →
  ∃ s', receive_parts fuel len a obj s = (Ok obj', s') ∧ served s' rest w out n.
Proof.
  intros Hd. revert fuel s. induction Hd as
    [obj f Hk|obj f l fs obj' Hk Hl Hd IH|obj f l fs obj' Hk Hl Hd IH|obj f l fs obj' Hk Hl Hd IH
    |obj f fs obj' Hk Hd IH|obj f fs obj' Hk Hd IH];
    intros fuel s Hf Hs; (destruct fuel as [|fuel]; [cbn in Hf; lia|]); cbn [receive_parts];
    destruct (receive_served s f _ w _ _ Hs) as (s1 & Hr & Hs1); rewrite (bind_ok _ _ _ _ _ Hr), Hk.
  1: { by exists s1. }
  1-3: rewrite Hl; erewrite bind_ok by reflexivity; apply IH; [cbn in Hf; lia|done].
  1: { apply IH; [cbn in Hf; lia|done]. }
  erewrite bind_ok by reflexivity. apply IH; [cbn in Hf; lia|].
  eapply served_same; [exact Hs1|done|]. by destruct Hs1.
Qed.

Lemma object_served len a frames obj s rest w out n :
  object_frames len a frames obj → served s (frames ++ rest) w out n →
  ∃ s', _receive_object len a s = (Ok obj, s') ∧ served s' rest w out n.
Proof.
  intros (f & b & k & parts & -> & Hk & Hb & Ha & Hck & Hd) Hs. unfold _receive_object.
  destruct (expect_served OBJECT_BEGIN s f (parts ++ rest) w out n) as (s1 & He & Hs1); [done..|].
  rewrite (bind_ok _ _ _ _ _ He), Hb. erewrite bind_ok by reflexivity.
  rewrite Ha, Z.eqb_refl. cbn [negb]. rewrite Hck. erewrite bind_ok by reflexivity.
  rewrite Ha in Hd. apply (parts_served len a _ _ parts _ _ rest w out n Hd); [|done].
  apply served_fuel in Hs1. rewrite length_app in Hs1. lia.
Qed.
End Served.

(** ** The walk as a function *)

Section Walk.
Context `{SetOrder}.

(** The addresses of an object in the order the session schedules them *)
Definition mention_list (obj : HeapObject) : list Z :=
  set_iter (referents obj)
  ++ match content_kind obj with
     | DICT => dict_content obj ≫= λ e, [e.1; e.2]
     | _ => sequence_content obj
     end
  ++ (attr_address <$> attributes obj) ++ [type_address obj].

Lemma elem_of_mention_list obj x : x ∈ mention_list obj ↔ x ∈ mentions obj.
Proof.
  unfold mention_list, mentions.
  rewrite !elem_of_app, elem_of_set_iter, !elem_of_union, elem_of_list_to_set, elem_of_singleton,
    list_elem_of_singleton.
  assert (x ∈ (match content_kind obj with
               | DICT => dict_content obj ≫= λ e, [e.1; e.2] | _ => sequence_content obj end) ↔
          x ∈ (match content_kind obj with
               | DICT => list_to_set ((dict_content obj).*1 ++ (dict_content obj).*2)
               | _ => list_to_set (sequence_content obj) end : gset Z)) as ->; [|tauto].
  destruct (content_kind obj); rewrite elem_of_list_to_set; try done.
  generalize (dict_content obj) as l. induction l as [|[k v] l IH]; [done|].
  change (((k, v) :: l) ≫= λ e, [e.1; e.2]) with (k :: v :: (l ≫= λ e, [e.1; e.2])). set_solver.
Qed.

Lemma schedule_entries_exact entries t s :
  ∃ s', (fix go (entries : list (Z * Z)) (t : Traversal) : C Traversal :=
           match entries with
           | [] => mret t
           | (key, value) :: entries => t ← schedule [key; value] t; go entries t
           end) entries t s
        = (Ok (foldl schedule_one t (entries ≫= λ e, [e.1; e.2])), s') ∧ quiet_step s s'.
Proof.
  revert t s. induction entries as [|[k v] entries IH]; intros t s; [by exists s|].
  erewrite bind_ok by reflexivity.
  destruct (IH (foldl schedule_one t [k; v]) (set_cstats (note_peaks (foldl schedule_one t [k; v])) s))
    as (s' & Hrun & Hq).
  exists s'. split; [exact Hrun|]. destruct Hq. by split.
Qed.

Lemma schedule_object_exact obj t s :
  ∃ s', schedule_object obj t s = (Ok (foldl schedule_one t (mention_list obj)), s') ∧ quiet_step s s'.
Proof.
  unfold schedule_object, mention_list. rewrite !foldl_app.
  erewrite bind_ok by reflexivity. set (t1 := foldl schedule_one t _). set (s1 := set_cstats _ s).
  set (content := match content_kind obj with DICT => dict_content obj ≫= _ | _ => _ end).
  assert (∃ s2,
    (match content_kind obj with
     | DICT => (fix go (entries : list (Z * Z)) (t : Traversal) : C Traversal :=
                  match entries with
                  | [] => mret t
                  | (key, value) :: entries => t ← schedule [key; value] t; go entries t
                  end) (dict_content obj) t1
     | _ => schedule (sequence_content obj) t1
     end) s1 = (Ok (foldl schedule_one t1 content), s2) ∧ quiet_step s1 s2) as (s2 & H2 & Hq2).
  { unfold content. destruct (content_kind obj); try (by eexists).
    apply schedule_entries_exact. }
  rewrite (bind_ok _ _ _ _ _ H2). erewrite bind_ok by reflexivity.
  eexists. split; [reflexivity|]. destruct Hq2. by split.
Qed.

(** The loop's variables after an object *)
Definition absorb (p : Progress) (obj : HeapObject) : Progress :=
  mkProgress (foldl schedule_one (walk p) (mention_list obj))
    (dict_set (types p) (type_address obj) (type_name obj)) (completed p + 1).

(** The target: the object at an address; and the Agent that describes it *)
Context (target : Z → HeapObject) (A : Agent).
Context (self : Collector) (known : dict str Z) (wsr : bool) (known_fine : known_ok known).

Definition answers (a : Z) : Prop :=
  object_frames (_str_repr_len self) a (describe A a) (target a) ∧ object_ok (target a).

(** A writer in its object section, and it after more objects *)
Definition writing (w : HeapWriter) : Prop := appendable wsr w ∧ is_Some (_object_count_offset w).
Definition wrote (objs : list HeapObject) (w : HeapWriter) : HeapWriter :=
  HeapWriterOps.set_count (_object_count w + blen objs) (extend (objs ≫= enc_object wsr known) w).

Lemma writing_wrote objs w : writing w → writing (wrote objs w).
Proof.
  intros [Ha Ho]. split; [|done].
  by destruct (extend_appendable wsr (objs ≫= enc_object wsr known) w Ha) as (?&?&?).
Qed.

Lemma wrote_nil w : wrote [] w = w.
Proof.
  unfold wrote. change (blen (@nil HeapObject)) with 0.
  change ((@nil HeapObject) ≫= enc_object wsr known) with (@nil Byte.byte).
  rewrite extend_nil, Z.add_0_r. by destruct w.
Qed.

Lemma wrote_app objs1 objs2 w : wrote objs2 (wrote objs1 w) = wrote (objs1 ++ objs2) w.
Proof.
  unfold wrote, extend, HeapWriterOps.set_count, HeapWriterOps.set_file, extend_file. cbn.
  by rewrite blen_app, bind_app, <- app_assoc, length_app, Nat.add_assoc, Z.add_assoc.
Qed.

Lemma capture_object_served a p s rest w out n :
  answers a → writing w → served A s (describe A a ++ rest) w out n →
  ∃ s', capture_object self known a p s = (Ok (absorb p (target a)), s') ∧
        served A s' rest (wrote [target a] w) out n.
Proof.
  intros [Hf Hok] [Ha [o Ho]] Hs. unfold capture_object.
  destruct (object_served _ _ _ _ _ _ _ _ _ _ Hf Hs) as (s1 & Hr & Hs1).
  rewrite (bind_ok _ _ _ _ _ Hr). pose proof (sv_writer _ _ _ _ _ _ Hs1) as Hw1.
  pose proof (write_object_extend wsr (target a) known w o known_fine Hok Ha Ho) as Hwr.
  assert (on_writer (HeapWriterOps.write_object (target a) known) s1
          = (Ok tt, set_writer (wrote [target a] w) s1)) as Hw.
  { apply on_writer_run. rewrite Hw1, Hwr. do 2 f_equal. unfold wrote. cbn. by rewrite app_nil_r. }
  rewrite (bind_ok _ _ _ _ _ Hw). cbv zeta.
  destruct (schedule_object_exact (target a) (walk p) (set_writer (wrote [target a] w) s1))
    as (s2 & Hsch & [Hc2 Hw2]).
  rewrite (bind_ok _ _ _ _ _ Hsch). erewrite bind_ok by reflexivity.
  eexists. split; [reflexivity|]. by eapply served_same.
Qed.

Lemma capture_batch_served batch p s rest w out n :
  (∀ a, a ∈ batch → answers a) → writing w → served A s ((batch ≫= describe A) ++ rest) w out n →
  ∃ s', capture_batch self known batch p s = (Ok (foldl absorb p (target <$> batch)), s') ∧
        served A s' rest (wrote (target <$> batch) w) out n.
Proof.
  revert p s w. induction batch as [|a batch IH]; intros p s w Hans Hw Hs; cbn [capture_batch].
  - exists s. split; [done|]. by rewrite wrote_nil.
  - change ((a :: batch) ≫= describe A) with (describe A a ++ (batch ≫= describe A)) in Hs.
    rewrite <- app_assoc in Hs.
    destruct (capture_object_served a p s ((batch ≫= describe A) ++ rest) w out n) as (s1 & H1 & Hs1); [apply Hans; by left|done|done|].
    rewrite (bind_ok _ _ _ _ _ H1).
    destruct (IH (absorb p (target a)) s1 (wrote [target a] w)) as (s2 & H2 & Hs2);
      [intros; apply Hans; by right|by apply writing_wrote|done|].
    exists s2. split; [done|]. by rewrite wrote_app in Hs2.
Qed.

(** The objects are walked in these batches. *)
Inductive walk_in : Progress → list (list Z) → Progress → Prop :=
| walk_done p : pending (walk p) = [] → walk_in p [] p
| walk_batch p batch t batches p' :
    pending (walk p) ≠ [] → pop_batch (_batch_size self) (walk p) = (batch, t) →
    walk_in (foldl absorb (mkProgress t (types p) (completed p)) (target <$> batch)) batches p' →
    walk_in p (batch :: batches) p'.

(** The batches requested, until nothing is pending *)
Fixpoint walk_batches (fuel : nat) (p : Progress) : list (list Z) :=
  match fuel with
  | O => []
  | S fuel =>
      match pending (walk p) with
      | [] => []
      | _ =>
          let '(batch, t) := pop_batch (_batch_size self) (walk p) in
          batch :: walk_batches fuel (foldl absorb (mkProgress t (types p) (completed p)) (target <$> batch))
      end
  end.

Context (done_kind : kind (batch_done A) = BATCH_DONE).
Context (batch_small : _batch_size self * 8 <= MAX_PAYLOAD).

Lemma encode_addresses_Ok_length l :
  Forall is_u64 l → ∃ bs, encode_addresses l = Ok bs ∧ blen bs = 8 * blen l.
Proof.
  intros Hl. destruct (encode_addresses_Ok l Hl) as [bs Hbs]. exists bs. split; [done|].
  pose proof (length_encode_addresses l bs Hbs) as Hlen. unfold blen. rewrite Hlen.
  unfold ADDRESS_SIZE. lia.
Qed.

Lemma length_batch t : blen (pop_batch (_batch_size self) t).1 <= Z.max 0 (_batch_size self).
Proof. unfold pop_batch, blen. cbn [fst]. rewrite length_take, length_reverse. lia. Qed.

(** Reached from the roots through what the objects mention *)
Inductive reach (roots : list Z) : Z → Prop :=
| reach_root x : x ∈ roots → x ≠ 0 → reach roots x
| reach_step a x : reach roots a → x ∈ mentions (target a) → x ≠ 0 → reach roots x.

Section Reach.
Context (roots : list Z).
Context (conforms : ∀ a, reach roots a → is_u64 a ∧ answers a).

(** [finished] were walked, [rest] of the batch is to come. *)
Record walked (finished rest : list Z) (p : Progress) : Prop := {
  wk_nodup : NoDup (finished ++ rest ++ pending (walk p));
  wk_scheduled : ∀ x, x ∈ scheduled (walk p) ↔ x ∈ finished ++ rest ++ pending (walk p);
  wk_reach : ∀ x, x ∈ scheduled (walk p) → reach roots x;
  wk_roots : ∀ x, x ∈ roots → x ≠ 0 → x ∈ scheduled (walk p);
  wk_closed : ∀ a x, a ∈ finished → x ∈ mentions (target a) → x ≠ 0 → x ∈ scheduled (walk p);
}.

Lemma walked_absorb finished a rest p :
  walked finished (a :: rest) p → walked (finished ++ [a]) rest (absorb p (target a)).
Proof.
  intros [Hnd Hsch Hre Hro Hcl].
  destruct (schedule_fold_extends (mention_list (target a)) (walk p)) as (new & Hp & Hndn & Hs & Hnew & Hall).
  assert (reach roots a) as Ha by (apply Hre, Hsch; set_solver).
  assert (∀ x, x ∈ new → x ∉ finished ++ (a :: rest) ++ pending (walk p)) as Hfresh.
  { intros x Hx. rewrite <- Hsch. by apply Hnew. }
  constructor; cbn [absorb walk].
  - rewrite Hp. assert (finished ++ (a :: rest) ++ pending (walk p)
                        = (finished ++ [a]) ++ rest ++ pending (walk p)) as E by (by rewrite <- app_assoc).
    rewrite E in Hnd, Hfresh. rewrite !app_assoc in *. apply NoDup_app.
    split; [done|]. split; [|done]. intros x Hx Hx2. by apply (Hfresh x).
  - intros x. rewrite Hs, Hp, elem_of_union, elem_of_list_to_set, Hsch. set_solver.
  - intros x. rewrite Hs, elem_of_union, elem_of_list_to_set. intros [Hx|Hx]; [by apply Hre|].
    destruct (Hnew x Hx) as (_ & Hx0 & Hin). apply (reach_step roots a); [done| |done].
    by apply elem_of_mention_list.
  - intros x Hx Hx0. rewrite Hs. apply elem_of_union. left. by apply Hro.
  - intros b x [Hb| ->%list_elem_of_singleton]%elem_of_app Hx Hx0.
    + rewrite Hs. apply elem_of_union. left. by eapply Hcl.
    + apply Hall; [by apply elem_of_mention_list|done].
Qed.

Lemma walked_batch finished batch p :
  walked finished batch p → walked (finished ++ batch) [] (foldl absorb p (target <$> batch)).
Proof.
  revert finished p. induction batch as [|a batch IH]; intros finished p Hw; cbn.
  - by rewrite app_nil_r.
  - rewrite (app_assoc _ [a] batch). apply IH. by apply walked_absorb.
Qed.

Lemma walked_pop finished p batch t :
  walked finished [] p → pop_batch (_batch_size self) (walk p) = (batch, t) →
  walked finished batch (mkProgress t (types p) (completed p)).
Proof.
  intros [Hnd Hsch Hre Hro Hcl] E. pose proof (pop_batch_perm (_batch_size self) (walk p)) as Hpop.
  rewrite E in Hpop. destruct Hpop as [Hst Hperm].
  assert (finished ++ batch ++ pending t ≡ₚ finished ++ [] ++ pending (walk p)) as Hp
    by (cbn; by rewrite Hperm).
  constructor; cbn [walk]; rewrite ?Hst; try done.
  - by rewrite Hp.
  - intros x. by rewrite Hp.
Qed.

(** A round asks for the addresses of the batch and takes in the answer. *)
Lemma request_batch_served p batch t s w out n :
  pop_batch (_batch_size self) (walk p) = (batch, t) → (∀ a, a ∈ batch → is_u64 a ∧ answers a) →
  writing w → served A s [] w out (S n) →
  ∃ s', request_batch self known p s
        = (Ok (foldl absorb (mkProgress t (types p) (completed p)) (target <$> batch)), s') ∧
    served A s' [] (wrote (target <$> batch) w) (out ++ wire_of [request_message batch]) n.
Proof.
  intros Hpop Hans Hw Hs. unfold request_batch. pose proof (length_batch (walk p)) as Hlb.
  rewrite Hpop in Hlb |- *. cbn in Hlb.
  destruct (encode_addresses_Ok_length batch) as (wire & Henc & Hwire).
  { apply Forall_forall. intros a Ha. by apply Hans. }
  rewrite Henc. erewrite bind_ok by reflexivity.
  destruct (send_served A REQUEST_OBJECTS wire s [] w out n Hs) as (s1 & Hsend & Hs1).
  { rewrite Hwire. assert (0 <= MAX_PAYLOAD) by done. lia. }
  rewrite (bind_ok _ _ _ _ _ Hsend). cbn [app] in Hs1. unfold reply in Hs1. cbn [kind payload] in Hs1.
  rewrite (proj2 (decode_addresses_spec _ _) Henc) in Hs1.
  destruct (capture_batch_served batch (mkProgress t (types p) (completed p)) s1 _ w _ n
              (λ a Ha, proj2 (Hans a Ha)) Hw Hs1) as (s2 & Hb & Hs2).
  rewrite (bind_ok _ _ _ _ _ Hb).
  destruct (expect_served A BATCH_DONE s2 (batch_done A) [] _ _ n Hs2 done_kind) as (s3 & He & Hs3); [done|].
  rewrite (bind_ok _ _ _ _ _ He).
  assert (wire_of [request_message batch] = wire_frame REQUEST_OBJECTS wire) as ->.
  { unfold wire_of, request_message. cbn [mbind list_bind kind payload].
    rewrite <- (encoded_addresses _ _ Henc). apply app_nil_r. }
  destruct (_progress self); erewrite bind_ok by reflexivity; eexists; (split; [reflexivity|]); [|done].
  eapply served_same; [exact Hs3|done|]. by destruct Hs3.
Qed.

Lemma walk_served p batches p' next finished fuel s w out n :
  walk_in p batches p' → walked finished [] p →
  writing w → served A s [] w out (length batches + n) → (length batches <= fuel)%nat →
  ∃ s', request_batches self known fuel next p s = (Ok p', s') ∧
    served A s' [] (wrote (target <$> concat batches) w) (out ++ wire_of (request_message <$> batches)) n.
Proof.
  intros Hwalk. revert finished fuel s w out. induction Hwalk as [p Hp|p batch t batches p' Hp Hpop Hwalk IH];
    intros finished fuel s w out Hwk Hw Hs Hn.
  { exists s. split; [destruct fuel; cbn [request_batches]; by rewrite Hp|].
    cbn [concat fmap list_fmap]. rewrite wrote_nil. unfold wire_of. cbn. by rewrite app_nil_r. }
  destruct fuel as [|fuel]; [cbn in Hn; lia|].
  pose proof (walked_pop _ _ _ _ Hwk Hpop) as Hwk1.
  assert (∀ a, a ∈ batch → is_u64 a ∧ answers a) as Hans.
  { intros a Ha. apply conforms, (wk_reach _ _ _ Hwk1), (wk_scheduled _ _ _ Hwk1). set_solver. }
  cbn [request_batches]. destruct (pending (walk p)) as [|z zs]; [done|]. clear Hp.
  destruct (request_batch_served p batch t s w out (length batches + n) Hpop Hans Hw Hs) as (s1 & Hreq & Hs1).
  rewrite (bind_ok _ _ _ _ _ Hreq).
  destruct (IH (finished ++ batch) fuel s1 _ _ (walked_batch _ _ _ Hwk1) (writing_wrote _ _ Hw) Hs1)
    as (s2 & Hrun & Hs2); [cbn in Hn; lia|].
  exists s2. split; [done|]. rewrite wrote_app, <- app_assoc in Hs2.
  cbn [concat]. rewrite fmap_app, fmap_cons.
  change (wire_of (request_message batch :: (request_message <$> batches)))
    with (wire_frame REQUEST_OBJECTS (batch ≫= be_encode 8) ++ wire_of (request_message <$> batches)).
  unfold wire_of at 1 in Hs2. cbn [mbind list_bind kind payload request_message] in Hs2.
  by rewrite app_nil_r in Hs2.
Qed.

(** The type table after more objects *)
Definition note_type (types : dict Z str) (obj : HeapObject) : dict Z str :=
  dict_set types (type_address obj) (type_name obj).

Lemma absorb_types p objs :
  types (foldl absorb p objs) = foldl note_type (types p) objs ∧
  completed (foldl absorb p objs) = completed p + blen objs.
Proof.
  revert p. induction objs as [|obj objs IH]; intros p; cbn [foldl].
  - split; [done|]. change (blen (@nil HeapObject)) with 0. lia.
  - destruct (IH (absorb p obj)) as [-> ->]. split; [done|]. rewrite blen_cons. cbn. lia.
Qed.

Context (U : gset Z) (finite : ∀ a, reach roots a → a ∈ U) (batch_some : 0 < _batch_size self).

Lemma walked_length finished rest p :
  walked finished rest p → (length finished + length rest + length (pending (walk p)) <= size U)%nat.
Proof.
  intros [Hnd Hsch Hre _ _]. rewrite <- Nat.add_assoc, <- !length_app.
  rewrite <- (size_list_to_set (C:=gset Z) _ Hnd). apply subseteq_size.
  intros x Hx%elem_of_list_to_set. by apply finite, Hre, Hsch.
Qed.

(** The walk ends, within as many batches as there are addresses left: it visits
    each reachable address once. *)
Lemma walk_exists fuel finished p :
  walked finished [] p → (size U - length finished <= fuel)%nat →
  let batches := walk_batches fuel p in
  let addrs := concat batches in
  ∃ p', walk_in p batches p' ∧
    Forall (λ batch, 0 < blen batch <= _batch_size self) batches ∧
    walked (finished ++ addrs) [] p' ∧ pending (walk p') = [] ∧
    types p' = foldl note_type (types p) (target <$> addrs) ∧
    completed p' = completed p + blen addrs.
Proof.
  revert finished p. induction fuel as [|fuel IH]; intros finished p Hwk Hfuel;
    pose proof (walked_length _ _ _ Hwk) as Hlen; cbn [length] in Hlen; cbv zeta; cbn [walk_batches].
  1: assert (pending (walk p) = []) as Hp by (apply length_zero_iff_nil; lia).
  2: destruct (decide (pending (walk p) = [])) as [Hp|Hp]; [rewrite Hp|].
  1, 2: exists p; cbn; rewrite app_nil_r; split; [by constructor|]; split_and!; [done..|];
    change (blen (@nil Z)) with 0; lia.
  destruct (pop_batch (_batch_size self) (walk p)) as [batch t] eqn:Hpop.
  pose proof (walked_batch _ _ _ (walked_pop _ _ _ _ Hwk Hpop)) as Hwk1.
  assert (0 < length batch)%nat as Hne.
  { unfold pop_batch in Hpop. injection Hpop as <- _. rewrite length_take, length_reverse.
    assert (0 < length (pending (walk p)))%nat by (destruct (pending (walk p)); [done|cbn; lia]).
    unfold blen. lia. }
  destruct (pending (walk p)) as [|z zs] eqn:Hz; [done|]. rewrite <- Hz in *.
  set (p1 := foldl absorb _ _) in *.
  destruct (IH (finished ++ batch) p1 Hwk1) as (p' & Hwalk & Hbs & Hwk2 & Hp' & Htys & Hcomp);
    [rewrite length_app; lia|].
  set (batches := walk_batches fuel p1) in *.
  exists p'. cbn [concat]. rewrite fmap_app.
  split; [by econstructor|]. split.
  { constructor; [|done]. pose proof (length_batch (walk p)) as Hlb.
    rewrite Hpop in Hlb. cbn in Hlb. unfold blen in *. lia. }
  split; [by rewrite app_assoc|]. split; [done|].
  destruct (absorb_types (mkProgress t (types p) (completed p)) (target <$> batch)) as [Ht Hc].
  fold p1 in Ht, Hc. cbn [types completed] in Ht, Hc.
  split; [by rewrite foldl_app, <- Ht|]. rewrite Hcomp, Hc, blen_app. unfold blen. rewrite length_fmap. lia.
Qed.
End Reach.
End Walk.

(** ** The whole session *)

(** A greeting that the Collector accepts *)
Definition greets (self : Collector) (f : Frame) : Prop :=
  ∃ h, kind f = HELLO ∧ decode_hello (payload f) = Ok h ∧ check_hello self h = Ok tt.

(** The answer to the options: the well-known types, and the roots in batches *)
Definition welcomes (addresses : list Z) (root_lists : list (list Z)) (fs : list Frame) : Prop :=
  ∃ fw froots fd, fs = fw :: froots ++ [fd] ∧
    kind fw = WELL_KNOWN ∧ decode_addresses (payload fw) = Ok addresses ∧
    Forall2 (λ f l, kind f = ROOT_BATCH ∧ decode_addresses (payload f) = Ok l) froots root_lists ∧
    kind fd = ROOTS_DONE.

Lemma roots_served A fuel t froots root_lists fd s rest w out n :
  Forall2 (λ f l, kind f = ROOT_BATCH ∧ decode_addresses (payload f) = Ok l) froots root_lists →
  kind fd = ROOTS_DONE → (length froots < fuel)%nat → served A s (froots ++ fd :: rest) w out n →
  ∃ s', enumerate_roots fuel t s = (Ok (foldl schedule_one t (concat root_lists)), s') ∧
    served A s' rest w out n.
Proof.
  intros Hf Hfd. revert fuel t s. induction Hf as [|f l froots root_lists [Hk Hl] Hf IH];
    intros fuel t s Hfuel Hs; (destruct fuel as [|fuel]; [lia|]); cbn [enumerate_roots].
  - destruct (receive_served A s fd rest w out n Hs) as (s1 & Hr & Hs1).
    rewrite (bind_ok _ _ _ _ _ Hr), Hfd. by exists s1.
  - destruct (receive_served A s f _ w out n Hs) as (s1 & Hr & Hs1).
    rewrite (bind_ok _ _ _ _ _ Hr), Hk, Hl. erewrite bind_ok by reflexivity. erewrite bind_ok by reflexivity.
    cbn [concat]. rewrite foldl_app. apply IH; [cbn in Hfuel; lia|].
    eapply served_same; [exact Hs1|done|]. by destruct Hs1.
Qed.

Lemma encode_options_decode self options :
  encode_options (_str_repr_len self) (_dump_attributes self) = Ok options →
  decode_options options = Ok (_str_repr_len self, _dump_attributes self) ∧ blen options ≤ MAX_PAYLOAD.
Proof.
  intros Ho%options_codec_spec. split; [done|]. unfold decode_options in Ho.
  destruct (Nat.eqb_spec (length options) (calcsize _OPTIONS)) as [E|]; [|done].
  unfold blen. rewrite E. done.
Qed.

Lemma handshake_served self A addresses root_lists options s w out n :
  greets self (greeting A) → welcomes addresses root_lists (welcome A) →
  length addresses = length WELL_KNOWN_TYPE_NAMES →
  encode_options (_str_repr_len self) (_dump_attributes self) = Ok options →
  served A s [greeting A] w out (S n) →
  ∃ s' froots fd, handshake self s = (Ok addresses, s') ∧
    Forall2 (λ f l, kind f = ROOT_BATCH ∧ decode_addresses (payload f) = Ok l) froots root_lists ∧
    kind fd = ROOTS_DONE ∧
    served A s' (froots ++ [fd]) w (out ++ wire_frame HELLO_ACK options) n.
Proof.
  intros (h & Hk & Hd & Hc) (fw & froots & fd & Hwelcome & Hkw & Hdw & Hroots & Hkd) Hl Ho Hs. unfold handshake.
  destruct (expect_served A HELLO s (greeting A) [] w out (S n) Hs Hk) as (s1 & H1 & Hs1); [done|].
  rewrite (bind_ok _ _ _ _ _ H1), Hd. erewrite bind_ok by reflexivity.
  rewrite Hc. erewrite bind_ok by reflexivity. rewrite Ho. erewrite bind_ok by reflexivity.
  destruct (encode_options_decode _ _ Ho) as [_ Hlen].
  destruct (send_served A HELLO_ACK options s1 [] w out n Hs1 Hlen) as (s2 & H2 & Hs2).
  rewrite (bind_ok _ _ _ _ _ H2). cbn [app] in Hs2. unfold reply in Hs2. cbn [kind] in Hs2. rewrite Hwelcome in Hs2.
  destruct (expect_served A WELL_KNOWN s2 fw _ w _ n Hs2 Hkw) as (s3 & H3 & Hs3); [done|].
  rewrite (bind_ok _ _ _ _ _ H3), Hdw. erewrite bind_ok by reflexivity.
  rewrite Hl, Nat.eqb_refl. by exists s3, froots, fd.
Qed.

(** The type table a session writes *)
Definition session_types (addresses : list Z) (objs : list HeapObject) : dict Z str :=
  foldl note_type (dict_of (zip addresses WELL_KNOWN_TYPE_NAMES)) objs.

Lemma session_types_wf addresses objs : dict_wf (session_types addresses objs).
Proof.
  unfold session_types. induction objs as [|obj objs IH] using rev_ind; [apply dict_of_wf|].
  rewrite foldl_app. by apply dict_set_wf.
Qed.

Lemma session_types_keys addresses objs a :
  a ∈ (session_types addresses objs).*1 → a ∈ addresses ∨ ∃ obj, obj ∈ objs ∧ a = type_address obj.
Proof.
  unfold session_types. induction objs as [|obj objs IH] using rev_ind.
  - intros Ha%(proj1 (dict_of_keys _ _)). left.
    apply list_elem_of_fmap in Ha as ([a' v] & -> & Hz). by apply elem_of_zip_l in Hz.
  - rewrite foldl_app. intros [->|Ha]%dict_set_keys.
    + right. exists obj. split; [apply elem_of_app; right; by left|done].
    + destruct (IH Ha) as [|(o & Ho & ->)]; [by left|right]. exists o. split; [set_solver|done].
Qed.

Section Conforming.
Context `{SetOrder} (self : Collector) (now : str) (wsr sync : bool).
Context (target : Z → HeapObject) (A : Agent).
Context (addresses : list Z) (root_lists : list (list Z)) (U : gset Z).

(** The roots of the walk: the Agent's and the well-known types *)
Definition session_roots : list Z := concat root_lists ++ addresses.
Abbreviation reachable := (reach target session_roots).

(** The Agent follows the protocol, the target's heap is finite, and the
    Collector's options and batches fit their messages. *)
Record conforming : Prop := {
  cf_greeting : greets self (greeting A);
  cf_welcome : welcomes addresses root_lists (welcome A);
  cf_addresses : Forall is_u64 addresses;
  cf_count : length addresses = length WELL_KNOWN_TYPE_NAMES;
  cf_answers : ∀ a, reachable a → is_u64 a ∧ answers target A self a;
  cf_done : kind (batch_done A) = BATCH_DONE;
  cf_farewell : kind (farewell A) = COMPLETE;
  cf_finite : ∀ a, reachable a → a ∈ U;
  cf_small : Z.of_nat (size U) + 1 < 2 ^ 32;
  cf_batch : 0 < _batch_size self ∧ _batch_size self * 8 <= MAX_PAYLOAD;
  cf_options : ∃ options, encode_options (_str_repr_len self) (_dump_attributes self) = Ok options;
}.

Lemma conforming_types addrs :
  conforming → (∀ a, a ∈ addrs → reachable a) → types_ok (session_types addresses (target <$> addrs)).
Proof.
  intros Hc Haddrs.
  assert (∀ a, a ∈ (session_types addresses (target <$> addrs)).*1 → u64 a ∧ (a ∈ U ∨ a = 0)) as Hkeys.
  { intros a [Ha|(obj & Hobj & ->)]%session_types_keys.
    - split; [exact (proj1 (Forall_forall _ _) (cf_addresses Hc) a Ha)|].
      destruct (decide (a = 0)) as [|Ha0]; [by right|left]. apply (cf_finite Hc), reach_root; [|done].
      unfold session_roots. set_solver.
    - apply list_elem_of_fmap in Hobj as (b & -> & Hb). specialize (Haddrs b Hb).
      destruct (cf_answers Hc b Haddrs) as [_ [_ Hok]]. split; [apply (oo_type _ Hok)|].
      destruct (decide (type_address (target b) = 0)) as [|Hb0]; [by right|left].
      apply (cf_finite Hc). apply (reach_step target session_roots b); [done| |done].
      unfold mentions. set_solver. }
  split.
  - assert (length (session_types addresses (target <$> addrs)) <= size U + 1)%nat as Hlen.
    { rewrite <- (length_fmap fst).
      rewrite <- (size_list_to_set (C:=gset Z) _ (session_types_wf addresses (target <$> addrs))).
      etransitivity; [apply (subseteq_size _ (U ∪ {[0]}))|].
      - intros a Ha%elem_of_list_to_set. destruct (Hkeys a Ha) as [_ [?| ->]]; set_solver.
      - rewrite size_union_alt.
        assert (size (({[0%Z]} : gset Z) ∖ U) <= size ({[0%Z]} : gset Z))%nat as H1 by (apply subseteq_size; set_solver).
        rewrite size_singleton in H1. lia. }
    pose proof (cf_small Hc). unfold u32, blen. lia.
  - apply Forall_forall. intros e He. apply Hkeys. by apply list_elem_of_fmap_2.
Qed.

Lemma start_walked :
  walked target session_roots [] []
    (mkProgress (foldl schedule_one (mkTraversal ∅ []) session_roots)
       (dict_of (zip addresses WELL_KNOWN_TYPE_NAMES)) 0).
Proof.
  destruct (schedule_fold_extends session_roots (mkTraversal ∅ [])) as (new & Hp & Hnd & Hs & Hnew & Hall).
  cbn in Hp, Hs. constructor; cbn [walk].
  - by rewrite Hp.
  - intros x. rewrite Hp, Hs. cbn. set_solver.
  - intros x. rewrite Hs. intros Hx. assert (x ∈ new) as Hx' by set_solver.
    destruct (Hnew x Hx') as (_ & Hx0 & Hin). by apply reach_root.
  - done.
  - intros a x Ha. by apply elem_of_nil in Ha.
Qed.

(** Every root is visited, and so everything reachable. *)
Lemma walked_all addrs p :
  walked target session_roots addrs [] p → pending (walk p) = [] →
  NoDup addrs ∧ ∀ x, x ∈ addrs ↔ reachable x.
Proof.
  intros [Hnd Hsch Hre Hroots Hcl] Hp. rewrite Hp, !app_nil_r in Hnd.
  assert (∀ x, x ∈ scheduled (walk p) ↔ x ∈ addrs) as Hsch'.
  { intros x. rewrite Hsch, Hp. set_solver. }
  split; [done|]. intros x. rewrite <- Hsch'. split; [apply Hre|].
  induction 1 as [x Hx Hx0|a x _ IH Hx Hx0]; [by apply Hroots|].
  apply (Hcl a); [by apply Hsch'|done|done].
Qed.

(** The batches of the session: as many as there may be addresses are enough. *)
Definition session_start : Progress :=
  mkProgress (foldl schedule_one (mkTraversal ∅ []) session_roots)
    (dict_of (zip addresses WELL_KNOWN_TYPE_NAMES)) 0.

Definition session_batches : list (list Z) := walk_batches target self (size U) session_start.

(** The session a conforming Agent is asked for: the batches it is asked for,
    the messages it gets, and what is recorded *)
Lemma conforming_session :
  conforming →
  let batches := session_batches in
  let addrs := concat batches in
    Forall (λ batch, 0 < blen batch <= _batch_size self) batches ∧
    NoDup addrs ∧ (∀ x, x ∈ addrs ↔ reachable x) ∧
    ∃ options, decode_options options = Ok (_str_repr_len self, _dump_attributes self) ∧
    ∀ s, connected A (length (session_messages options batches)) (channel s) →
      writer s = new_writer (new_file None true) wsr sync →
      ∃ s', _capture self now s = (Ok (blen addrs), s') ∧
        outbox (_socket (channel s')) = outbox (_socket (channel s)) ++ wire_of (session_messages options batches) ∧
        f_data (_file (writer s')) =
          Artifact.artifact_bytes now wsr (known_of addresses) [] (target <$> addrs)
            (session_types addresses (target <$> addrs)).
Proof.
  intros Hc.
  pose proof (known_of_ok addresses (cf_addresses Hc) (cf_count Hc)) as Hk.
  set (p0 := session_start) in *.
  destruct (cf_batch Hc) as [Hb0 Hb].
  destruct (walk_exists target A self (known_of addresses) Hk (cf_done Hc) Hb session_roots
              (cf_answers Hc) U (cf_finite Hc) Hb0 (size U) [] p0 start_walked ltac:(lia))
    as (p' & Hwalk & Hbs & Hwk & Hpend & Htys & Hcomp).
  change (walk_batches target self (size U) p0) with session_batches in *. set (batches := session_batches) in *.
  set (addrs := concat batches) in *.
  cbn [app] in Hwk.
  destruct (walked_all addrs p' Hwk Hpend) as [Hnd Hall].
  cbv zeta. fold addrs. split; [done|]. split; [done|]. split; [done|].
  destruct (cf_options Hc) as [options Hopt]. exists options.
  split; [by apply encode_options_decode|]. intros s [Hserves Hbudget Hans Hstays] Hw.
  assert (served A s [greeting A] (writer s) (outbox (_socket (channel s))) (S (length batches + 1))) as Hs.
  { constructor; try done. unfold session_messages in Hstays. cbn in Hstays.
    rewrite length_app, length_fmap in Hstays. exact Hstays. }
  set (out := outbox (_socket (channel s))) in *. unfold _capture.
  destruct (handshake_served self A addresses root_lists options s (writer s) out _ (cf_greeting Hc) (cf_welcome Hc)
              (cf_count Hc) Hopt Hs) as (s1 & froots & fd & H1 & Hroots & Hkd & Hs1).
  rewrite (bind_ok _ _ _ _ _ H1). cbv zeta. fold (known_of addresses).
  destruct (start_artifact now wsr sync addresses s1) as (w & Hstart & Hst); [|done|].
  { rewrite <- Hw. by destruct Hs1. }
  rewrite bind_prefix3, (bind_ok _ _ _ _ _ Hstart). erewrite bind_ok by reflexivity.
  apply (served_same _ _ (set_writer w s1) _ _ w) in Hs1; [|done..].
  pose proof (served_fuel _ _ _ _ _ _ Hs1) as Hfuel. rewrite length_app in Hfuel.
  destruct (roots_served A (backlog_fuel (set_writer w s1)) (mkTraversal ∅ []) froots root_lists fd _ [] _ _ _
              Hroots Hkd ltac:(lia) Hs1) as (s3 & H3 & Hs3).
  rewrite (bind_ok _ _ _ _ _ H3). unfold schedule. rewrite <- foldl_app. fold session_roots.
  rewrite bind_assoc. erewrite bind_ok by reflexivity. erewrite bind_ok by reflexivity. fold p0.
  set (s4 := set_cstats _ s3).
  apply (served_same _ _ s4 _ _ w) in Hs3; [|done|by destruct Hs3].
  destruct Hst as (Happ & Hoff & Hcount & Hdata & Hsync).
  assert (writing wsr w) as Hwr by (split; [done|by rewrite Hoff]).
  unfold capture_objects. rewrite bind_assoc. erewrite bind_ok by reflexivity.
  pose proof (sv_stays _ _ _ _ _ _ Hs3) as Hleft.
  destruct (walk_served target A self (known_of addresses) wsr Hk (cf_done Hc) Hb session_roots
              (cf_answers Hc) p0 batches p'
              (λ p, s ← get; request_batches self (known_of addresses) (backlog_fuel s) (λ _, raise OutOfFuel) p)
              [] (length (peer (_socket (channel s4)))) s4 w _ 1%nat Hwalk start_walked Hwr Hs3 ltac:(lia))
    as (s5 & H5 & Hs5).
  rewrite (bind_ok _ _ _ _ _ H5).
  destruct (send_served A FINISH [] s5 _ _ _ _ Hs5 ltac:(done)) as (s6 & H6 & Hs6).
  rewrite (bind_ok _ _ _ _ _ H6). cbn [app] in Hs6. unfold reply in Hs6. cbn [kind] in Hs6.
  destruct (expect_served A COMPLETE s6 (farewell A) [] _ _ _ Hs6 (cf_farewell Hc) ltac:(done)) as (s7 & H7 & Hs7).
  destruct Hs7 as [_ _ Hw7 Hout _ _].
  rewrite (bind_ok _ _ _ _ _ H7).
  set (objs := target <$> addrs) in *. set (w8 := wrote (known_of addresses) wsr objs w) in *.
  assert (blen objs = blen addrs) as Hlen by (unfold blen, objs; by rewrite length_fmap).
  assert (types p' = session_types addresses objs) as Htypes by (by rewrite Htys).
  pose proof (conforming_types addrs Hc (λ a Ha, proj1 (Hall a) Ha)) as Htok. fold objs in Htok.
  assert (blen addrs < 2 ^ 32) as Hsmall.
  { pose proof (walked_length target session_roots U (cf_finite Hc) addrs [] p' Hwk).
    pose proof (cf_small Hc). unfold blen. lia. }
  destruct (finish_file wsr (types p') w8 (head_of now wsr addresses)
              (objs ≫= enc_object wsr (known_of addresses))) as (wf & Hf & Hdf).
  - by rewrite Htypes.
  - unfold w8, wrote, HeapWriterOps.set_count. cbn. rewrite Hcount. unfold u32. unfold blen in *. lia.
  - by apply writing_wrote.
  - unfold w8, wrote. cbn. by rewrite Hdata, <- app_assoc.
  - done.
  - done.
  - assert (on_writer (HeapWriterOps.finish (types p')) s7 = (Ok tt, set_writer wf s7)) as H8.
    { apply on_writer_run. by rewrite Hw7. }
    rewrite (bind_ok _ _ _ _ _ H8). eexists. split; [|split].
    + unfold mret, M_ret. do 2 f_equal. rewrite Hcomp. cbn. lia.
    + cbn [set_writer channel]. rewrite Hout, <- !app_assoc. f_equal. unfold session_messages, wire_of.
      cbn [mbind list_bind kind payload]. rewrite bind_app. f_equal.
    + cbn [set_writer writer]. rewrite Hdf, Htypes. unfold w8, wrote. cbn [HeapWriterOps.set_count _object_count].
      change (_object_count (extend (objs ≫= enc_object wsr (known_of addresses)) w)) with (_object_count w).
      rewrite Hcount. unfold Artifact.artifact_bytes, head_of, enc_seq. rewrite <- !app_assoc. done.
Qed.
End Conforming.
