(* ===== verification/SmallTarget.v ===== *)
(** * A small target

    A heap of fourteen objects and an Agent that reads the Collector's messages
    and answers them from it: the input of the witnesses about whole sessions. *)
From stdpp Require Import base tactics numbers list gmap sets fin_sets strings.
From Stdlib Require Import Strings.Byte.
From S2P Require Import Prelude PyData Struct Text Paths Errors Protocol CaptureModel HeapWriter Golden Artifact.
From S2P Require Import Collector Capture Conforming.
Import CollectorOps.

Module Example.
#[local] Existing Instance elements_order.

Definition collector_with (batch_size : Z) : Collector := mkCollector (replicate NONCE_SIZE x07) 64 true batch_size true.
Definition collector : Collector := collector_with 5.
Definition now : str := lit "2026-08-13T12:00:00+00:00".

(** The types of the fixture and a list that contains itself and one of them *)
Definition addresses : list Z := golden_known.*2.
Definition reachable : list Z := 0x2000 :: addresses.

Definition target (a : Z) : HeapObject :=
  default_repr 64
    (if a =? 0x2000
     then add_referents [0x1000; 0x2000] (extend_sequence [0x2000; 0x1000]
            (new_object a (known "list") (lit "list") 72 LIST))
     else new_object a (known "type") (lit "type") 400 NONE).

Definition payload_of (r : result exc bytes) : bytes := match r with Ok p => p | Err _ => [] end.

Definition begin_frame (obj : HeapObject) : Frame :=
  mkFrame OBJECT_BEGIN (payload_of (encode_object_begin
    (mkObjectBegin (address obj) (type_address obj) (shallow_size obj)
       (content_kind_value (content_kind obj)) (type_name obj)))).

Definition frames_of (a : Z) : list Frame :=
  begin_frame (target a) ::
  (if a =? 0x2000
   then [mkFrame SEQUENCE_CONTENT (payload_of (encode_addresses [0x2000; 0x1000]));
         mkFrame REFERENTS (payload_of (encode_addresses [0x1000; 0x2000]))]
   else []) ++ [mkFrame OBJECT_END []].

Definition hello : Hello := mkHello 3 12 8 true (replicate NONCE_SIZE x07).
Definition agent : Agent :=
  mkAgent (mkFrame HELLO (payload_of (encode_hello hello)))
    [mkFrame WELL_KNOWN (payload_of (encode_addresses addresses));
     mkFrame ROOT_BATCH (payload_of (encode_addresses [0x2000; 0]));
     mkFrame ROOTS_DONE []]
    frames_of (mkFrame BATCH_DONE []) (mkFrame COMPLETE []).

Lemma mentions_default_repr n obj : mentions (default_repr n obj) = mentions obj.
Proof. unfold default_repr. by destruct (_ && _). Qed.

Lemma target_mentions a x : x ∈ mentions (target a) → x ∈ reachable.
Proof.
  assert (known "type" ∈ reachable ∧ known "list" ∈ reachable ∧ 0x1000 ∈ reachable ∧ 0x2000 ∈ reachable)
    as (Ht & Hl & H1 & H2) by (repeat split; apply (bool_decide_unpack _); vm_compute; exact I).
  unfold target. rewrite mentions_default_repr. destruct (a =? 0x2000); unfold mentions; cbn; set_solver.
Qed.

Lemma reach_reachable x : reach target (session_roots addresses [[0x2000; 0]]) x → x ∈ reachable.
Proof.
  induction 1 as [x Hx Hx0|a x _ _ Hx _].
  - unfold session_roots in Hx. apply elem_of_app in Hx as [Hx|Hx]; [|by right].
    cbn in Hx. apply elem_of_cons in Hx as [->|Hx]; [by left|].
    by apply list_elem_of_singleton in Hx.
  - by eapply target_mentions.
Qed.

Lemma object_ok_default n obj : object_ok obj → object_ok (default_repr n obj).
Proof. intros Ho. unfold default_repr. destruct (_ && _); [|done]. by destruct Ho. Qed.

Lemma target_ok a : u64 a → object_ok (target a).
Proof.
  intros Ha. apply object_ok_default. destruct (Z.eqb_spec a 0x2000) as [->|].
  - constructor; try (apply (bool_decide_unpack _); vm_compute; exact I).
  - constructor; try done; try (apply (bool_decide_unpack _); vm_compute; exact I).
Qed.

Lemma begin_decodes a :
  a ∈ reachable →
  decode_object_begin (payload (begin_frame (target a)))
  = Ok (mkObjectBegin a (type_address (target a)) (shallow_size (target a))
          (content_kind_value (content_kind (target a))) (type_name (target a))).
Proof.
  assert (List.map (λ a, decode_object_begin (payload (begin_frame (target a)))) reachable
          = List.map (λ a, Ok (mkObjectBegin a (type_address (target a)) (shallow_size (target a))
              (content_kind_value (content_kind (target a))) (type_name (target a)))) reachable) as Hall
    by (vm_compute; reflexivity).
  intros Ha%list_elem_of_In. exact (proj1 List.map_ext_in_iff Hall a Ha).
Qed.

(** The object before its preview is filled in *)
Definition raw (a : Z) : HeapObject :=
  new_object a (type_address (target a)) (type_name (target a)) (shallow_size (target a)) (content_kind (target a)).

Lemma default_repr_fields n obj :
  content_kind (default_repr n obj) = content_kind obj ∧ type_address (default_repr n obj) = type_address obj ∧
  type_name (default_repr n obj) = type_name obj ∧ shallow_size (default_repr n obj) = shallow_size obj.
Proof. unfold default_repr. by destruct (_ && _). Qed.

Lemma target_described a :
  ∃ parts, frames_of a = begin_frame (target a) :: parts ∧ described 64 (raw a) parts (target a).
Proof.
  eexists. split; [reflexivity|]. unfold raw, target.
  destruct (a =? 0x2000) eqn:E.
  - apply Z.eqb_eq in E as ->.
    repeat match goal with |- context [default_repr 64 ?o] =>
      pose proof (default_repr_fields 64 o) as (-> & -> & -> & ->) end.
    eapply described_sequence; [reflexivity|vm_compute; reflexivity|].
    eapply described_referents; [reflexivity|vm_compute; reflexivity|]. by apply described_end.
  - pose proof (default_repr_fields 64 (new_object a (known "type") (lit "type") 400 NONE)) as (-> & -> & -> & ->).
    by apply described_end.
Qed.

Lemma target_frames a : a ∈ reachable → object_frames 64 a (frames_of a) (target a).
Proof.
  intros Ha. destruct (target_described a) as (parts & -> & Hd).
  eexists _, _, (content_kind (target a)), parts. split; [reflexivity|]. split; [reflexivity|].
  split; [by apply begin_decodes|]. split; [reflexivity|]. split; [apply content_kind_of_value|]. exact Hd.
Qed.

Lemma greets_with batch_size : greets (collector_with batch_size) (greeting agent).
Proof. exists hello. repeat split; vm_compute; reflexivity. Qed.

Lemma welcomes_all : welcomes addresses [[0x2000; 0]] (welcome agent).
Proof.
  eexists _, [_], _. split; [reflexivity|]. repeat split; try (vm_compute; reflexivity).
  constructor; [|constructor]. split; [reflexivity|vm_compute; reflexivity].
Qed.

Lemma conforming_with batch_size :
  0 < batch_size → batch_size * 8 <= MAX_PAYLOAD →
  conforming (collector_with batch_size) target agent addresses [[0x2000; 0]] (list_to_set reachable).
Proof.
  intros Hb1 Hb2.
  assert (Forall is_u64 reachable) as Hu by (apply (bool_decide_unpack _); vm_compute; exact I).
  constructor.
  - apply greets_with.
  - apply welcomes_all.
  - by inversion Hu.
  - reflexivity.
  - intros a Ha%reach_reachable. assert (is_u64 a) by exact (proj1 (Forall_forall _ _) Hu a Ha).
    split; [done|]. split; [by apply target_frames|by apply target_ok].
  - reflexivity.
  - reflexivity.
  - intros a Ha%reach_reachable. by apply elem_of_list_to_set.
  - vm_compute. reflexivity.
  - by split.
  - eexists. vm_compute. reflexivity.
Qed.

Lemma example_conforming : conforming collector target agent addresses [[0x2000; 0]] (list_to_set reachable).
Proof. by apply conforming_with. Qed.

(** The batches of a session *)
Definition example_batches (batch_size : Z) : list (list Z) :=
  session_batches (collector_with batch_size) target addresses [[0x2000; 0]] (list_to_set reachable).

Lemma batches_of_five :
  example_batches 5 = [[0x100c; 0x100b; 0x100a; 0x1009; 0x1008]; [0x1007; 0x1006; 0x1005; 0x1004; 0x1003];
                       [0x1002; 0x1001; 0x1000; 0x2000]].
Proof. vm_compute. reflexivity. Qed.

(** ** The Agent at work *)

Definition single_frame (f : Frame) : bool :=
  negb (bool_decide (kind f = BULK_BATCH)) && (blen (payload f) <=? MAX_PAYLOAD).

Lemma wire_feeds fs : forallb single_frame fs = true → feeds (wire_of fs) fs.
Proof.
  induction fs as [|f fs IH]; cbn [forallb]; intros Hf; [constructor|].
  apply andb_true_iff in Hf as [[Hk Hp]%andb_true_iff Hf].
  apply (feeds_single f (wire_of fs)); [|by apply Z.leb_le|by apply IH].
  by apply negb_true_iff, bool_decide_eq_false in Hk.
Qed.

(** A stream cut in two *)
Definition pieces (n : nat) (bs : bytes) : list sock_event :=
  Delivered <$> filter (λ chunk, chunk ≠ []) [take n bs; drop n bs].

Lemma pieces_stream n bs : stream (pieces n bs) bs.
Proof.
  assert (∀ chunks, stream (Delivered <$> filter (λ chunk : bytes, chunk ≠ []) chunks) (concat chunks)) as H.
  { induction chunks as [|chunk chunks IH]; [constructor|]. rewrite filter_cons.
    case_decide as Hc; cbn; [by constructor|]. by destruct chunk. }
  pose proof (H [take n bs; drop n bs]) as Hs. cbn [concat] in Hs. by rewrite app_nil_r, take_drop in Hs.
Qed.

Lemma pieces_deliver n fs : forallb single_frame fs = true → delivers (pieces n (wire_of fs)) fs.
Proof. intros Hf. exists (wire_of fs). split; [apply pieces_stream|by apply wire_feeds]. Qed.

(** The Agent reads a message and sends its answer, the first bytes ahead of the rest. *)
Definition hears (wire : bytes) : list Frame :=
  match FramedSocketOps._receive_wire_frame (new_framed_socket (mkSock [Delivered wire] [] None [])) with
  | (Ok m, _) => reply agent m
  | (Err _, _) => []
  end.
Definition answer (wire : bytes) : list sock_event := pieces 100 (wire_of (hears wire)).

Lemma begin_small obj : blen (payload (begin_frame obj)) ≤ MAX_PAYLOAD.
Proof.
  unfold begin_frame, payload_of. cbn [payload].
  destruct (encode_object_begin _) as [p|err] eqn:E; [|done].
  revert E. unfold encode_object_begin. rewrite cut_to_u16.
  intros (h & Hp%or_struct_error_Ok & <-%Ok_inj)%result_bind_inv.
  apply (pack_fits _OBJECT_BEGIN) in Hp as Hf; [|by repeat split].
  destruct (unpack_pack _OBJECT_BEGIN _ Hf) as (bs & Hp' & Hl & _).
  rewrite Hp in Hp'. injection Hp' as <-. unfold blen. rewrite length_app, Hl, length_take.
  change (calcsize _OBJECT_BEGIN) with 23%nat. change MAX_PAYLOAD with 1048576. lia.
Qed.

Lemma describes_singly a : forallb single_frame (frames_of a) = true.
Proof.
  unfold frames_of. cbn [app forallb]. apply andb_true_iff. split.
  - unfold single_frame. apply andb_true_iff. split; [done|]. apply Z.leb_le, begin_small.
  - destruct (a =? 0x2000); vm_compute; reflexivity.
Qed.

Lemma replies_singly m : forallb single_frame (reply agent m) = true.
Proof.
  assert (forallb single_frame (welcome agent) = true) as Hwelcome by (vm_compute; reflexivity).
  assert (∀ l, forallb single_frame ((l ≫= describe agent) ++ [batch_done agent]) = true) as Hbatch.
  { intros l. rewrite forallb_app. apply andb_true_iff. split; [|vm_compute; reflexivity].
    induction l as [|a l IH]; [reflexivity|]. cbn [mbind list_bind]. rewrite forallb_app. apply andb_true_iff.
    split; [apply describes_singly|exact IH]. }
  assert (forallb single_frame [farewell agent] = true) as Hfarewell by (vm_compute; reflexivity).
  unfold reply. destruct (decode_addresses (payload m)) as [l|x]; [specialize (Hbatch l)|clear Hbatch];
    destruct (kind m); first [assumption|exact (@eq_refl bool true)].
Qed.

Lemma answer_replies : answers_as agent answer.
Proof.
  intros m Hm. unfold answer. assert (hears (wire_frame (kind m) (payload m)) = reply agent m) as ->.
  { unfold hears. set (c := new_framed_socket _).
    assert (stream (inbox (_socket c)) (wire_frame (kind m) (payload m) ++ [])) as Hs.
    { constructor; [|constructor]. intros E%(f_equal length). rewrite length_wire_frame in E by done.
      cbn in E. lia. }
    destruct (receive_wire_frame_stream c _ _ _ Hm Hs) as (events & _ & ->). by destruct m. }
  apply pieces_deliver, replies_singly.
Qed.

(** The Collector's end: the greeting is on the way, the Agent stays for [n] messages. *)
Definition channel_for (n : nat) : FramedSocket :=
  new_framed_socket (mkSock (pieces 5 (wire_of [greeting agent])) [] None (replicate n answer)).

Lemma channel_connected n : connected agent n (channel_for n).
Proof.
  constructor.
  - exists (wire_of [greeting agent]), [greeting agent]. split; [apply pieces_stream|].
    split; [|done]. apply wire_feeds. vm_compute. reflexivity.
  - done.
  - apply Forall_replicate, answer_replies.
  - cbn. by rewrite length_replicate.
Qed.

Definition output : Path := (lit "/tmp", lit "heap.pyheap").
Definition world : World := mkWorld {[output := []]} (channel_for 5) new_capture_stats [] [].
End Example.
