(* ===== verification/HeapModel.v ===== *)
(** * The analyzer's object model

    [analyzer/python/src/pydump_analyzer/model.py]. *)
From stdpp Require Import base tactics numbers list gmap strings.
From S2P Require Import Prelude PyData Struct Text Errors.

(** [ObjectContent]: what the artifact stores inside an exact container *)
Inductive ObjectContent :=
| ContentDict (items : dict Z Z)
| ContentList (items : list Z)
| ContentSet (items : gset Z)
| ContentTuple (items : list Z)
| ContentNone.

Record HeapFlags := mkHeapFlags { with_str_repr : bool }.

Record HeapHeader := mkHeapHeader {
  version : Z;
  created_at : str;
  flags : HeapFlags;
  well_known_types : dict str Z;
}.

Record HeapThreadFrame := mkHeapThreadFrame {
  file_name : str;
  line_number : Z;
  function_name : str;
  locals : dict str Z;
}.

Record HeapThread := mkHeapThread {
  name : str;
  is_alive : bool;
  is_daemon : bool;
  stack_trace : list HeapThreadFrame;
}.

(** The [locals] property of a thread: the addresses its frames refer to *)
Definition thread_locals (t : HeapThread) : gset Z :=
  foldl (λ result frame, result ∪ list_to_set (dict_values (locals frame))) ∅ (stack_trace t).

Record HeapObject := mkHeapObject {
  address : Z;
  type_address : Z;
  size : Z;
  referents : gset Z;
  content : ObjectContent;
  string_representation_offset : option nat;
}.

Record Heap := mkHeap {
  header : HeapHeader;
  threads : list HeapThread;
  objects : dict Z HeapObject;
  types : dict Z str;
  _source : option bytes;
}.

(** [heap.close()] *)
Definition close (h : Heap) : Heap := mkHeap (header h) (threads h) (objects h) (types h) None.

(** ** String representations *)

(** The addresses of the four exact container types *)
Definition container_type_addresses (known : dict str Z) : result exc (list Z) :=
  d ← or_key_error (dict_get known (lit "dict"));
  l ← or_key_error (dict_get known (lit "list"));
  s ← or_key_error (dict_get known (lit "set"));
  t ← or_key_error (dict_get known (lit "tuple"));
  mret [d; l; s; t].

Definition _read_string_representation (h : Heap) (obj : HeapObject) : result exc str :=
  match _source h, string_representation_offset obj with
  | Some source, Some offset =>
      '(length, _) ← or_struct_error (unpack_from [FH] source offset);
      let start := (offset + 2)%nat in
      mret (utf8_decode (take (Z.to_nat length) (drop start source)))
  | _, _ => mret []
  end.

Definition _container_brackets (h : Heap) (type_address : Z) : result exc (str * str) :=
  let known := well_known_types (header h) in
  l ← or_key_error (dict_get known (lit "list"));
  if type_address =? l then mret (lit "[", lit "]")
  else
    t ← or_key_error (dict_get known (lit "tuple"));
    if type_address =? t then mret (lit "(", lit ")")
    else mret (lit "{", lit "}").

(** [f(x) for x in xs], stopping at the first exception *)
Fixpoint map_result {A B} (f : A → result exc B) (xs : list A) : result exc (list B) :=
  match xs with
  | [] => mret []
  | x :: xs => y ← f x; ys ← map_result f xs; mret (y :: ys)
  end.

(** [depth] calls may be nested in each other: the recursion takes two frames for
    each container, the method's and that of its generator expression. *)
Fixpoint _string_representation (depth : nat) (h : Heap) (address : Z) (seen : gset Z)
  : result exc str :=
  match depth with
  | O => Err RecursionError
  | S depth =>
      match dict_get (objects h) address with
      | None => mret (lit "(unknown)")
      | Some obj =>
          containers ← container_type_addresses (well_known_types (header h));
          if bool_decide (type_address obj ∉ containers)
          then _read_string_representation h obj
          else
            '(open_, close_) ← _container_brackets h (type_address obj);
            if bool_decide (address ∈ seen) then mret (open_ ++ lit "..." ++ close_)
            else
              let nested_seen := seen ∪ {[address]} in
              let nested := λ item, _string_representation depth h item nested_seen in
              inner ←
                match content obj with
                | ContentDict items =>
                    parts ← map_result (λ '(key, value),
                      k ← nested key; v ← nested value; mret (k ++ lit ": " ++ v)) items;
                    mret (join (lit ", ") parts)
                | ContentSet items =>
                    parts ← map_result nested (py_sort Z.leb (elements items));
                    mret (join (lit ", ") parts)
                | ContentList items | ContentTuple items =>
                    parts ← map_result nested items;
                    mret (join (lit ", ") parts)
                | ContentNone => mret []
                end;
              mret (open_ ++ inner ++ close_)
      end
  end.

Definition string_representation `{Interpreter} (h : Heap) (obj : HeapObject) : result exc (option str) :=
  if with_str_repr (flags (header h))
  then s ← _string_representation rendering_depth h (address obj) ∅; mret (Some s)
  else mret None.

(** ** Properties *)

Lemma map_result_total {A B} (f : A → result exc B) (P : exc → Prop) xs :
  (∀ x e, x ∈ xs → f x = Err e → P e) → ∀ e, map_result f xs = Err e → P e.
Proof.
  induction xs as [|x xs IH]; intros Hf e; cbn [map_result]; [done|].
  destruct (f x) as [y|e'] eqn:Hx; cbn [mbind result_bind].
  - destruct (map_result f xs) as [ys|e'']; cbn [mbind result_bind]; [done|].
    intros [= ->]. apply (IH (λ x e Hin, Hf x e (list_elem_of_further _ _ _ Hin))). done.
  - intros [= ->]. by apply (Hf x); [left|].
Qed.

(** ** Nesting *)

(** What a container's representation shows *)
Definition content_items (c : ObjectContent) : list Z :=
  match c with
  | ContentDict items => items ≫= λ e, [e.1; e.2]
  | ContentList items | ContentTuple items => items
  | ContentSet items => elements items
  | ContentNone => []
  end.

(** An object of one of the four container types *)
Definition is_container (h : Heap) (obj : HeapObject) : Prop :=
  ∃ containers, container_type_addresses (well_known_types (header h)) = Ok containers ∧
    type_address obj ∈ containers.

(** Below an address there are [n] containers inside each other, all of them
    different and none of them [seen], and something in the innermost. *)
Inductive nests (h : Heap) : gset Z → Z → nat → Prop :=
| nests_O seen a : nests h seen a 0
| nests_S seen a obj x n :
    dict_get (objects h) a = Some obj → is_container h obj → a ∉ seen → x ∈ content_items (content obj) →
    nests h (seen ∪ {[a]}) x n → nests h seen a (S n).

(** Nesting stops at an address already seen: it is no deeper than there are
    objects. *)
Lemma nests_bound h seen a n :
  nests h seen a n → (n <= base.size ((list_to_set (objects h).*1 : gset Z) ∖ seen))%nat.
Proof.
  induction 1 as [|seen a obj x n Hobj _ Hseen _ _ IH]; [lia|].
  enough ((list_to_set (objects h).*1 : gset Z) ∖ (seen ∪ {[a]})
          ⊂ (list_to_set (objects h).*1 : gset Z) ∖ seen) as Hsub%subset_size by lia.
  assert (a ∈ (list_to_set (objects h).*1 : gset Z)).
  { apply elem_of_list_to_set, dict_get_is_Some. eauto. }
  split; [set_solver|]. intros Hbad. specialize (Hbad a). set_solver.
Qed.

Lemma nests_objects h a n : nests h ∅ a n → (n <= length (objects h))%nat.
Proof.
  intros Hn%nests_bound. rewrite difference_empty_L in Hn. etransitivity; [exact Hn|].
  etransitivity; [apply (list_to_set_size_le (objects h).*1)|]. by rewrite length_fmap.
Qed.
