(* ===== verification/HeapReader.v ===== *)
(** * The PyHeap v1 reader

    [analyzer/python/src/pydump_analyzer/reader.py]: [HeapReader] over a bytes
    source with a moving offset, and [load_heap]. *)
From stdpp Require Import base tactics numbers list gmap strings.
From S2P Require Import Prelude PyData Struct Text Errors HeapModel.
From S2P Require Golden.

Definition MAGIC : Z := 123000321.
Definition FORMAT_VERSION : Z := 1.
Definition FLAG_WITH_STR_REPR : Z := 1.

Definition _BOOL : format := [Fbool].
Definition _SIGNED_SHORT : format := [Fh].
Definition _UNSIGNED_SHORT : format := [FH].
Definition _UNSIGNED_INT : format := [FI].
Definition _UNSIGNED_LONG : format := [FQ].

(** The [HeapReader] instance: its source is fixed, its offset moves. *)
Record HeapReader := mkHeapReader { source : bytes; _offset : nat }.

Module HeapReaderOps.
Abbreviation R := (M HeapReader exc).

Definition set_offset (n : nat) (r : HeapReader) : HeapReader := mkHeapReader (source r) n.

Definition truncated (offset : nat) : exc :=
  HeapFormatError (lit "truncated PyHeap data at offset " ++ dec_string (Z.of_nat offset)).

(** [self._unpack(value_struct)] for a one-value format *)
Definition _unpack (f : fmt) : R (fmt_val f) := λ r,
  match unpack_from [f] (source r) (_offset r) with
  | Some (v, _) => (Ok v, set_offset (_offset r + fmt_size f) r)
  | None => (Err (truncated (_offset r)), r)
  end.

Definition _take (length : nat) : R bytes := λ r,
  let end_ := (_offset r + length)%nat in
  if (List.length (source r) <? end_)%nat then (Err (truncated (_offset r)), r)
  else (Ok (take length (drop (_offset r) (source r))), set_offset end_ r).

Definition _read_bool : R bool := _unpack Fbool.
Definition _read_i16 : R Z := _unpack Fh.
Definition _read_u16 : R Z := _unpack FH.
Definition _read_u32 : R Z := _unpack FI.
Definition _read_u64 : R Z := _unpack FQ.

Definition _read_string (length : Z) : R str :=
  bs ← _take (Z.to_nat length); mret (utf8_decode bs).
Definition _read_long_string : R str := length ← _read_u16; _read_string length.
Definition _skip_long_string : R unit := length ← _read_u16; _ ← _take (Z.to_nat length); mret tt.

(** [[item() for _ in range(self._read_u32())]] *)
Definition counted {A} (item : R A) : R (list A) :=
  n ← _read_u32; repeat_m (Z.to_nat n) item.

Definition pair_of {A B} (a : R A) (b : R B) : R (A * B) := x ← a; y ← b; mret (x, y).

Definition _read_address_string_map : R (dict Z str) :=
  entries ← counted (pair_of _read_u64 _read_long_string); mret (dict_of entries).
Definition _read_string_address_map : R (dict str Z) :=
  entries ← counted (pair_of _read_long_string _read_u64); mret (dict_of entries).
Definition _read_string_list : R (list str) := counted _read_long_string.
Definition _read_address_set : R (gset Z) :=
  addresses ← counted _read_u64; mret (list_to_set addresses).

(** A negative length is an index into the frequent attribute names. *)
Definition _read_attribute_name (frequent_attributes : list str) : R str :=
  length_or_index ← _read_i16;
  if 0 <=? length_or_index then _read_string length_or_index
  else
    let index := - (length_or_index + 1) in
    match frequent_attributes !! Z.to_nat index with
    | Some name => mret name
    | None => raise (HeapFormatError (lit "invalid frequent attribute index: " ++ dec_string index))
    end.

Definition read_attribute (frequent_attributes : list str) : R unit :=
  _read_attribute_name frequent_attributes;; _read_u64;; mret tt.

Definition _read_common_types (frequent_attributes : list str) : R (gset Z) :=
  addresses ← counted (
    address ← _read_u64;
    counted (read_attribute frequent_attributes);;
    mret address);
  mret (list_to_set addresses).

Definition read_frame : R HeapThreadFrame :=
  file_name ← _read_long_string;
  line_number ← _read_u32;
  function_name ← _read_long_string;
  local_variables ← _read_string_address_map;
  mret (mkHeapThreadFrame file_name line_number function_name local_variables).

Definition read_thread : R HeapThread :=
  name ← _read_long_string;
  is_alive ← _read_bool;
  is_daemon ← _read_bool;
  frames ← counted read_frame;
  mret (mkHeapThread name is_alive is_daemon frames).

Definition _read_threads : R (list HeapThread) := counted read_thread.

Definition _read_content (type_address : Z) (known : dict str Z) : R (ObjectContent * gset Z) :=
  dict_type ← lift (or_key_error (dict_get known (lit "dict")));
  if type_address =? dict_type then
    items ← counted (pair_of _read_u64 _read_u64);
    mret (ContentDict (dict_of items), list_to_set (items.*1 ++ items.*2))
  else
    list_type ← lift (or_key_error (dict_get known (lit "list")));
    tuple_type ← lift (or_key_error (dict_get known (lit "tuple")));
    set_type ← lift (or_key_error (dict_get known (lit "set")));
    if bool_decide (type_address ∈ [list_type; tuple_type; set_type]) then
      values ← counted _read_u64;
      let referents := list_to_set values in
      if type_address =? tuple_type then mret (ContentTuple values, referents)
      else if type_address =? set_type then mret (ContentSet (list_to_set values), referents)
      else mret (ContentList values, referents)
    else mret (ContentNone, ∅).

Definition read_object (header : HeapHeader) (frequent_attributes : list str)
  (common_types : gset Z) (container_types : list Z) : R HeapObject :=
  address ← _read_u64;
  type_address ← _read_u64;
  size ← _read_u32;
  '(content, content_referents) ← _read_content type_address (well_known_types header);
  referents ← _read_address_set;
  (if bool_decide (type_address ∉ common_types)
   then counted (read_attribute frequent_attributes);; mret tt
   else mret tt);;
  string_offset ←
    (if with_str_repr (flags header) && negb (bool_decide (type_address ∈ container_types)) then
       r ← get; _skip_long_string;; mret (Some (_offset r))
     else mret None);
  mret (mkHeapObject address type_address size (referents ∪ content_referents) content string_offset).

Fixpoint read_objects (n : nat) (header : HeapHeader) (frequent_attributes : list str)
  (common_types : gset Z) (container_types : list Z) (result : dict Z HeapObject)
  : R (dict Z HeapObject) :=
  match n with
  | O => mret result
  | S n =>
      obj ← read_object header frequent_attributes common_types container_types;
      match dict_get result (address obj) with
      | Some _ => raise (HeapFormatError (lit "duplicate object address 0x"
                                          ++ hex_string (address obj)))
      | None => read_objects n header frequent_attributes common_types container_types
                  (dict_set result (address obj) obj)
      end
  end.

Definition _read_objects (header : HeapHeader) (frequent_attributes : list str)
  (common_types : gset Z) : R (dict Z HeapObject) :=
  container_types ← lift (container_type_addresses (well_known_types header));
  n ← _read_u32;
  read_objects (Z.to_nat n) header frequent_attributes common_types container_types [].

(** [read] up to and including the footer *)
Definition read_contents : R (HeapHeader * list HeapThread * dict Z HeapObject * dict Z str) :=
  magic ← _read_u64;
  if negb (magic =? MAGIC) then raise (HeapFormatError (lit "invalid PyHeap magic value")) else
  version ← _read_u32;
  if negb (version =? FORMAT_VERSION)
  then raise (HeapFormatError (lit "unsupported PyHeap format version: " ++ dec_string version)) else
  created_at ← _read_long_string;
  raw_flags ← _read_u64;
  let flags := mkHeapFlags (negb (Z.land raw_flags FLAG_WITH_STR_REPR =? 0)) in
  well_known_types ← _read_string_address_map;
  let header := mkHeapHeader version created_at flags well_known_types in
  threads ← _read_threads;
  frequent_attributes ← _read_string_list;
  common_types ← _read_common_types frequent_attributes;
  objects ← _read_objects header frequent_attributes common_types;
  types ← _read_address_string_map;
  for_each (dict_values objects) (λ obj,
    if decide (type_address obj ∈ dict_keys types) then mret tt
    else raise (HeapFormatError (lit "PyHeap type table is missing address 0x"
                  ++ hex_string (type_address obj) ++ lit " for object 0x"
                  ++ hex_string (address obj))));;
  footer ← _read_u64;
  if negb (footer =? MAGIC) then raise (HeapFormatError (lit "invalid PyHeap footer magic value")) else
  mret (header, threads, objects, types).

Definition read : R Heap :=
  '(header, threads, objects, types) ← read_contents;
  r ← get;
  if negb (_offset r =? length (source r))%nat
  then raise (HeapFormatError (lit "unexpected data after PyHeap footer")) else
  mret (mkHeap header threads objects types (Some (source r))).
End HeapReaderOps.

(** [HeapReader(source).read()] *)
Definition read_heap (source : bytes) : result exc Heap :=
  (HeapReaderOps.read (mkHeapReader source 0)).1.

(** [load_heap(path)], given the file's contents: an empty file cannot be
    mapped. *)
Definition load_heap (contents : bytes) : result exc Heap :=
  match contents with
  | [] => Err (ValueError (lit "cannot mmap an empty file"))
  | _ => read_heap contents
  end.

(** ** Reading back a known encoding *)

Section Reads.
Import HeapReaderOps.

(** [reads_at p bs f]: wherever [bs] stands, [p] consumes exactly [bs] and
    returns [f] of the offset where it began. *)
Definition reads_at {A} (p : R A) (bs : bytes) (f : nat → A) : Prop :=
  ∀ pre post, p (mkHeapReader (pre ++ bs ++ post) (length pre)) =
                (Ok (f (length pre)), mkHeapReader (pre ++ bs ++ post) (length (pre ++ bs))).
Definition reads {A} (p : R A) (bs : bytes) (v : A) : Prop := reads_at p bs (λ _, v).

Lemma reads_ret {A} (v : A) : reads (mret v) [] v.
Proof. intros pre post. by rewrite app_nil_r. Qed.

Lemma reads_lift {A} (r : result exc A) v : r = Ok v → reads (lift r) [] v.
Proof. intros -> pre post. by rewrite app_nil_r. Qed.

Lemma reads_at_bind {A B} (p : R A) (q : A → R B) bs1 bs2 bs (f : nat → A) (g : nat → B) :
  reads_at p bs1 f →
  (∀ n, ∃ h, reads_at (q (f n)) bs2 h ∧ h (n + length bs1)%nat = g n) →
  bs = bs1 ++ bs2 → reads_at (p ≫= q) bs g.
Proof.
  intros Hp Hq -> pre post. rewrite <- app_assoc. rewrite (bind_ok _ _ _ _ _ (Hp pre (bs2 ++ post))).
  destruct (Hq (length pre)) as (h & Hh & Hg).
  pose proof (Hh (pre ++ bs1) post) as E. rewrite <- !app_assoc in E.
  rewrite E, length_app, Hg, app_assoc. done.
Qed.

Lemma reads_bind {A B} (p : R A) (q : A → R B) bs1 bs2 bs v w :
  reads p bs1 v → reads (q v) bs2 w → bs = bs1 ++ bs2 → reads (p ≫= q) bs w.
Proof. intros Hp Hq E. eapply reads_at_bind; [exact Hp| |exact E]. intros n. by exists (λ _, w). Qed.

Lemma reads_unpack f v bs :
  fits1 f v → pack1 f v = Some bs → reads (_unpack f) bs v.
Proof.
  intros Hf Hp pre post. unfold _unpack. cbn [source _offset].
  assert (pack [f] (v, tt) = Some bs) as Hp' by (cbn; rewrite Hp; cbn; by rewrite app_nil_r).
  rewrite (unpack_from_app [f] (v, tt) bs pre post) by (done || exact Hp').
  destruct (unpack1_pack1 f v Hf) as (bs' & Hp2 & Hl & _). rewrite Hp in Hp2. injection Hp2 as <-.
  unfold set_offset. cbn. by rewrite length_app, Hl.
Qed.

Lemma reads_take bs : reads (_take (length bs)) bs bs.
Proof.
  intros pre post. unfold _take. cbn [source _offset].
  rewrite !length_app. destruct (Nat.ltb_spec (length pre + (length bs + length post))
    (length pre + length bs)); [lia|].
  by rewrite drop_app_length, take_app_length.
Qed.

Lemma reads_repeat {A B} (p : R B) (enc : A → bytes) (v : A → B) (xs : list A) :
  (∀ x, x ∈ xs → reads p (enc x) (v x)) → reads (repeat_m (length xs) p) (xs ≫= enc) (v <$> xs).
Proof.
  induction xs as [|x xs IH]; intros H; [apply reads_ret|].
  cbn [length repeat_m fmap list_fmap mbind list_bind].
  eapply reads_bind; [apply H; by left| |reflexivity].
  eapply reads_bind; [apply IH; intros; apply H; by right|apply reads_ret|by rewrite app_nil_r].
Qed.
End Reads.

(** ** Locality

    A read that succeeds depends only on the bytes in front of the offset it
    reaches, and a read that fails raises only the errors of the format. *)

Section Locality.
Import HeapReaderOps.

Definition at_offset (s : bytes) (off : nat) : HeapReader := mkHeapReader s off.

(** More bytes behind do not change a successful read. *)
Definition local {A} (p : R A) : Prop :=
  ∀ src off v r', p (at_offset src off) = (Ok v, r') →
    source r' = src ∧
    ∀ post, p (at_offset (src ++ post) off) = (Ok v, at_offset (src ++ post) (_offset r')).

Lemma local_ret {A} (v : A) : local (mret v).
Proof. intros src off v' r' [= <- <-]. done. Qed.
Lemma local_raise {A} e : local (raise e : R A).
Proof. intros src off v' r' [=]. Qed.
Lemma local_lift {A} (r : result exc A) : local (lift r).
Proof. intros src off v' r' [= -> <-]. done. Qed.

Lemma local_bind {A B} (p : R A) (q : A → R B) :
  local p → (∀ a, local (q a)) → local (p ≫= q).
Proof.
  intros Hp Hq src off v r' (a & r1 & H1 & H2)%bind_inv.
  apply Hp in H1 as [Hs1 H1]. destruct r1 as [s1 o1]. cbn in Hs1, H1. subst s1.
  apply Hq in H2 as [Hs2 H2]. split; [done|]. intros post.
  erewrite bind_ok by apply H1. apply H2.
Qed.

(** Asking for the offset only *)
Lemma local_offset {A} (p : nat → R A) :
  (∀ n, local (p n)) → local (r ← get; p (_offset r)).
Proof.
  intros Hp src off v r'. erewrite bind_ok by reflexivity. intros H.
  apply Hp in H as [Hs H]. split; [done|]. intros post. by erewrite bind_ok by reflexivity.
Qed.

Lemma local_unpack f : local (_unpack f).
Proof.
  intros src off v r'. unfold _unpack, at_offset. cbn [source _offset].
  unfold unpack_from. destruct (decide _) as [Hl|]; [|discriminate].
  destruct (unpack_fields [f] _) as [v' u] eqn:E. intros H.
  assert (set_offset (off + fmt_size f) (mkHeapReader src off) = r') as <- by exact (f_equal snd H).
  assert (v' = v) as <- by exact (Ok_inj _ _ (f_equal fst H)).
  split; [done|].
  intros post. rewrite decide_True by (rewrite length_app; lia).
  rewrite drop_app_le by lia. rewrite take_app_le by (rewrite length_drop; lia).
  by rewrite E.
Qed.

Lemma local_take n : local (_take n).
Proof.
  intros src off v r'. unfold _take, at_offset. cbn [source _offset].
  destruct (Nat.ltb_spec (length src) (off + n)); [discriminate|].
  intros [= <- <-]. split; [done|]. intros post. rewrite length_app.
  destruct (Nat.ltb_spec (length src + length post) (off + n)); [lia|].
  rewrite drop_app_le by lia. by rewrite take_app_le by (rewrite length_drop; lia).
Qed.

Lemma local_repeat {A} n (p : R A) : local p → local (repeat_m n p).
Proof.
  intros Hp. induction n as [|n IH]; cbn [repeat_m]; [apply local_ret|].
  apply local_bind; [done|]. intros a. apply local_bind; [done|]. intros. apply local_ret.
Qed.

Lemma local_for_each {A} (xs : list A) (body : A → R unit) :
  (∀ x, local (body x)) → local (for_each xs body).
Proof.
  intros Hb. induction xs as [|x xs IH]; cbn [for_each]; [apply local_ret|].
  by apply local_bind.
Qed.
End Locality.

Create HintDb local.
#[export] Hint Resolve local_ret local_raise local_lift local_bind local_unpack local_take
  local_repeat local_for_each : local.

(** Walks a reader's statements. *)
Ltac local_step :=
  lazymatch goal with
  | |- local (mret _) => apply local_ret
  | |- local (raise _) => apply local_raise
  | |- local (lift _) => apply local_lift
  | |- local (HeapReaderOps._unpack ?f) => exact (local_unpack f)
  | |- local (HeapReaderOps._take _) => apply local_take
  | |- local (repeat_m _ _) => apply local_repeat
  | |- local (for_each _ _) => apply local_for_each; intros ?
  | |- local (get ≫= _) =>
      apply (local_offset (λ n, HeapReaderOps._skip_long_string;; mret (Some n))); intros ?
  | |- local (_ ≫= _) => apply local_bind; [|intros ?]
  | |- local (if ?b then _ else _) => destruct b
  | |- local (match ?x with _ => _ end) => destruct x
  | |- local (let _ := _ in _) => cbv zeta
  end.
Ltac local_solve := repeat (local_step || (progress cbv beta zeta)); auto with local.

Section LocalReaders.
Import HeapReaderOps.

Lemma local_u32 : local _read_u32. Proof. exact (local_unpack FI). Qed.
Lemma local_u64 : local _read_u64. Proof. exact (local_unpack FQ). Qed.
Lemma local_long : local _read_long_string.
Proof. unfold _read_long_string, _read_u16, _read_string. local_solve. Qed.
Lemma local_skip : local _skip_long_string.
Proof. unfold _skip_long_string, _read_u16. local_solve. Qed.
Lemma local_counted {A} (p : R A) : local p → local (counted p).
Proof. intros. unfold counted, _read_u32. local_solve. Qed.
Lemma local_pair {A B} (p : R A) (q : R B) : local p → local q → local (pair_of p q).
Proof. intros. unfold pair_of. local_solve. Qed.
End LocalReaders.
#[export] Hint Resolve local_u32 local_u64 local_long local_skip local_counted local_pair : local.

Section LocalRead.
Import HeapReaderOps.

Lemma local_attribute frequent : local (read_attribute frequent).
Proof.
  unfold read_attribute, _read_attribute_name, _read_i16, _read_string, _read_u64. local_solve.
Qed.
#[local] Hint Resolve local_attribute : local.

Lemma local_frame : local read_frame.
Proof. unfold read_frame, _read_string_address_map. local_solve. Qed.
#[local] Hint Resolve local_frame : local.

Lemma local_thread : local read_thread.
Proof. unfold read_thread, _read_bool. local_solve. Qed.
#[local] Hint Resolve local_thread : local.

Lemma local_content t known : local (_read_content t known).
Proof. unfold _read_content. local_solve. Qed.
#[local] Hint Resolve local_content : local.

Lemma local_object h frequent common containers : local (read_object h frequent common containers).
Proof. unfold read_object, _read_address_set. local_solve. Qed.
#[local] Hint Resolve local_object : local.

Lemma local_objects n h frequent common containers result :
  local (read_objects n h frequent common containers result).
Proof.
  revert result. induction n as [|n IH]; intros result; cbn [read_objects]; local_solve.
Qed.
#[local] Hint Resolve local_objects : local.

Lemma local_contents : local read_contents.
Proof.
  unfold read_contents, _read_string_address_map, _read_threads, _read_string_list,
    _read_common_types, _read_objects, _read_address_string_map.
  local_solve.
Qed.

Lemma read_heap_inv src h :
  read_heap src = Ok h →
  ∃ v, read_contents (at_offset src 0) = (Ok v, at_offset src (length src)).
Proof.
  unfold read_heap, read. fold (at_offset src 0). intros H.
  destruct (read_contents (at_offset src 0)) as [[[[[hd ts] os] tys]|e] r'] eqn:Hc.
  2:{ erewrite bind_err in H by exact Hc. discriminate H. }
  pose proof Hc as [Hs _]%local_contents.
  erewrite bind_ok in H by exact Hc. cbv iota beta in H. erewrite bind_ok in H by reflexivity.
  destruct r' as [s o]. cbn in Hs. subst s. cbn [source _offset] in H.
  destruct (Nat.eqb_spec o (length src)) as [->|]; [eauto|discriminate H].
Qed.
End LocalRead.

(** C37: no accepted artifact is a proper prefix of another: whatever stands
    behind a complete artifact is reported, and so every truncation of an
    accepted artifact is rejected. *)
Theorem artifacts_prefix_free src post h :
  read_heap src = Ok h → post ≠ [] →
  read_heap (src ++ post) = Err (HeapFormatError (lit "unexpected data after PyHeap footer")).
Proof.
  intros (v & Hv)%read_heap_inv Hpost. unfold read_heap, HeapReaderOps.read.
  apply local_contents in Hv as [_ Hv]. specialize (Hv post).
  destruct v as [[[hd ts] os] tys].
  erewrite bind_ok by exact Hv. cbv iota beta. erewrite bind_ok by reflexivity.
  cbn [_offset source at_offset].
  destruct (Nat.eqb_spec (length src) (length (src ++ post))) as [E|]; [|done].
  rewrite length_app in E. destruct post; [done|cbn in E; lia].
Qed.

Lemma artifacts_prefix_free_witness :
  ∃ h, read_heap Golden.golden_artifact = Ok h ∧
    read_heap (Golden.golden_artifact ++ Golden.golden_artifact)
    = Err (HeapFormatError (lit "unexpected data after PyHeap footer")).
Proof.
  destruct (read_heap Golden.golden_artifact) as [h|e] eqn:E.
  - exists h. split; [done|]. apply (artifacts_prefix_free _ _ h E). discriminate.
  - exfalso. apply (f_equal is_ok) in E. vm_compute in E. discriminate E.
Defined.

(** The fixture as the analyzer sees it *)
Definition golden_heap : Heap :=
  match read_heap Golden.golden_artifact with
  | Ok h => h
  | Err _ => mkHeap (mkHeapHeader 0 [] (mkHeapFlags false) []) [] [] [] None
  end.
