(* ===== verification/LoadedHeap.v ===== *)
(** * What a loaded heap guarantees

    Every heap the reader accepts is well formed, whatever bytes it came from,
    and the reader fails with its own exceptions only.  The analyses rely on
    this: rendering an object of a loaded heap raises nothing. *)
From stdpp Require Import base tactics numbers list gmap strings.
From S2P Require Import Prelude PyData Struct Text Errors HeapModel HeapReader.
From S2P Require Golden.
Import HeapReaderOps.

(** ** Well-formed heaps *)

(** The addresses a container's content mentions *)
Definition content_mentions (c : ObjectContent) : gset Z :=
  match c with
  | ContentDict items => list_to_set (items.*1 ++ items.*2)
  | ContentList items | ContentTuple items => list_to_set items
  | ContentSet items => items
  | ContentNone => ∅
  end.

(** The content an object has is the one its type calls for. *)
Definition content_fits (known : dict str Z) (type_address : Z) (c : ObjectContent) : Prop :=
  match c with
  | ContentDict _ => dict_get known (lit "dict") = Some type_address
  | ContentList _ => dict_get known (lit "list") = Some type_address
  | ContentSet _ => dict_get known (lit "set") = Some type_address
  | ContentTuple _ => dict_get known (lit "tuple") = Some type_address
  | ContentNone => ∀ n, n ∈ [lit "dict"; lit "list"; lit "set"; lit "tuple"] →
                   dict_get known n ≠ Some type_address
  end.

Definition address_ok (a : Z) : Prop := 0 <= a < 2 ^ 64.

(** An object of a heap with these header and source *)
Record object_wf (source : bytes) (hd : HeapHeader) (containers : list Z) (o : HeapObject) : Prop := {
  ow_address : address_ok (address o);
  ow_type : address_ok (type_address o);
  ow_size : 0 <= size o < 2 ^ 32;
  ow_content : content_fits (well_known_types hd) (type_address o) (content o);
  ow_referents : content_mentions (content o) ⊆ referents o;
  ow_referents_ok : set_Forall address_ok (referents o);
  ow_string : match string_representation_offset o with
    | Some offset => with_str_repr (flags hd) = true ∧ type_address o ∉ containers ∧
                     is_Some (unpack_from [FH] source offset)
    | None => with_str_repr (flags hd) = false ∨ type_address o ∈ containers
    end;
}.

(** Texts without surrogates: the reader escapes what is not UTF-8. *)
Definition frame_texts (f : HeapThreadFrame) : Prop :=
  str_scalar (file_name f) ∧ str_scalar (function_name f) ∧ Forall (λ e, str_scalar e.1) (locals f).

Definition thread_texts (t : HeapThread) : Prop := str_scalar (name t) ∧ Forall frame_texts (stack_trace t).

Record heap_wf (h : Heap) : Prop := {
  hw_created : str_scalar (created_at (header h));
  hw_type_names : Forall (λ e, str_scalar e.2) (types h);
  hw_threads : Forall thread_texts (threads h);
  hw_version : version (header h) = FORMAT_VERSION;
  hw_objects : dict_wf (objects h);
  hw_types : dict_wf (types h);
  hw_keys : Forall (λ e, address e.2 = e.1) (objects h);
  hw_typed : Forall (λ e, type_address e.2 ∈ (types h).*1) (objects h);
  hw_known : ∃ containers, container_type_addresses (well_known_types (header h)) = Ok containers ∧
    ∃ source, _source h = Some source ∧
      Forall (λ e, object_wf source (header h) containers e.2) (objects h);
}.

(** The exceptions the reader raises: its own, and [KeyError] for a header
    without one of the four container types. *)
Definition reader_error (e : exc) : Prop := e = KeyError ∨ ∃ msg, e = HeapFormatError msg.

(** ** Reading with a postcondition *)

Section Yields.
Context (src : bytes).

(** A successful run leaves the source alone and returns a value with [Q]; a
    failing one raises an exception of the reader. *)
Definition yields {A} (p : R A) (Q : A → Prop) : Prop := ∀ off,
  match p (mkHeapReader src off) with
  | (Ok v, r) => source r = src ∧ Q v
  | (Err e, _) => reader_error e
  end.

Lemma yields_ret {A} (v : A) (Q : A → Prop) : Q v → yields (mret v) Q.
Proof. by intros HQ off. Qed.

Lemma yields_format_error {A} msg (Q : A → Prop) : yields (raise (HeapFormatError msg)) Q.
Proof. intros off. right. by eexists. Qed.

Lemma yields_key {A} (o : option A) : yields (lift (or_key_error o)) (λ v, o = Some v).
Proof. intros off. destruct o; cbn; [done|by left]. Qed.

Lemma yields_bind {A B} (p : R A) (q : A → R B) (Q : A → Prop) (Q' : B → Prop) :
  yields p Q → (∀ v, Q v → yields (q v) Q') → yields (p ≫= q) Q'.
Proof.
  intros Hp Hq off. unfold mbind, M_bind. specialize (Hp off).
  destruct (p (mkHeapReader src off)) as [[v|e] [s o]]; cbn in Hp; [|done].
  destruct Hp as [-> HQ]. exact (Hq v HQ o).
Qed.

Lemma yields_weaken {A} (p : R A) (Q Q' : A → Prop) :
  yields p Q → (∀ v, Q v → Q' v) → yields p Q'.
Proof.
  intros Hp HQ off. specialize (Hp off). destruct (p _) as [[v|e] r]; [|done].
  destruct Hp as [? ?]. auto.
Qed.

Lemma yields_any {A} (p : R A) (Q : A → Prop) : yields p Q → yields p (λ _, True).
Proof. intros Hp. by eapply yields_weaken. Qed.

Lemma yields_unpack f : yields (_unpack f) (fits1 f).
Proof.
  intros off. unfold _unpack. cbn [source _offset].
  destruct (unpack_from [f] src off) as [[v []]|] eqn:Hu; [|right; by eexists].
  split; [done|]. by destruct (unpack_from_fits _ _ _ _ Hu).
Qed.

Lemma yields_u64 : yields _read_u64 address_ok.
Proof. exact (yields_unpack FQ). Qed.
Lemma yields_u32 : yields _read_u32 (λ v, 0 <= v < 2 ^ 32).
Proof. exact (yields_unpack FI). Qed.
Lemma yields_u16 : yields _read_u16 (λ _, True).
Proof. exact (yields_any _ _ (yields_unpack FH)). Qed.
Lemma yields_i16 : yields _read_i16 (λ _, True).
Proof. exact (yields_any _ _ (yields_unpack Fh)). Qed.
Lemma yields_bool : yields _read_bool (λ _, True).
Proof. exact (yields_any _ _ (yields_unpack Fbool)). Qed.

Lemma yields_take n : yields (_take n) (λ _, True).
Proof.
  intros off. unfold _take. cbn [source _offset]. destruct (_ <? _)%nat; [right; by eexists|done].
Qed.

Lemma yields_repeat {A} n (p : R A) Q : yields p Q → yields (repeat_m n p) (Forall Q).
Proof.
  intros Hp. induction n as [|n IH]; cbn [repeat_m]; [by apply yields_ret|].
  eapply yields_bind; [exact Hp|intros v Hv]. eapply yields_bind; [exact IH|intros vs Hvs].
  apply yields_ret. by constructor.
Qed.

Lemma yields_counted {A} (p : R A) Q : yields p Q → yields (counted p) (Forall Q).
Proof. intros Hp. eapply yields_bind; [apply yields_u32|intros n _]. by apply yields_repeat. Qed.

Lemma yields_pair {A B} (p : R A) (q : R B) P Q :
  yields p P → yields q Q → yields (pair_of p q) (λ v, P v.1 ∧ Q v.2).
Proof.
  intros Hp Hq. eapply yields_bind; [exact Hp|intros x Hx]. eapply yields_bind; [exact Hq|intros y Hy].
  by apply yields_ret.
Qed.

Lemma yields_string n : yields (_read_string n) str_scalar.
Proof. eapply yields_bind; [apply yields_take|intros; apply yields_ret, utf8_decode_scalar]. Qed.
Lemma yields_long : yields _read_long_string str_scalar.
Proof. eapply yields_bind; [apply yields_u16|intros; apply yields_string]. Qed.

Lemma yields_addresses : yields _read_address_set (set_Forall address_ok).
Proof.
  eapply yields_bind; [apply yields_counted, yields_u64|intros l Hl]. apply yields_ret.
  intros x Hx%elem_of_list_to_set. by eapply Forall_forall in Hl.
Qed.

Lemma yields_attribute names : yields (read_attribute names) (λ _, True).
Proof.
  eapply yields_bind with (Q := λ _, True).
  - eapply yields_bind; [apply yields_i16|intros n _]. case_match; [by eapply yields_any, yields_string|].
    cbv zeta; case_match; [by apply yields_ret|apply yields_format_error].
  - intros name _. eapply yields_bind; [apply yields_u64|intros; by apply yields_ret].
Qed.

Lemma yields_common names : yields (_read_common_types names) (λ _, True).
Proof.
  eapply yields_bind; [apply yields_counted with (Q := λ _, True)|intros; by apply yields_ret].
  eapply yields_bind; [apply yields_u64|intros a _].
  eapply yields_bind; [apply yields_counted, yields_attribute|intros; by apply yields_ret].
Qed.

Lemma dict_of_all {K V} `{EqDecision K} (P : K * V → Prop) (l : list (K * V)) : Forall P l → Forall P (dict_of l).
Proof. rewrite !Forall_forall. intros Hl e He%dict_of_elem. by apply Hl. Qed.

Lemma yields_address_map : yields _read_address_string_map (λ d, dict_wf d ∧ Forall (λ e, str_scalar e.2) d).
Proof.
  eapply yields_bind; [apply yields_counted, yields_pair; [apply yields_u64|apply yields_long]|].
  intros l Hl. apply yields_ret. split; [apply dict_of_wf|]. apply dict_of_all.
  eapply Forall_impl; [exact Hl|]. by intros e [_ ?].
Qed.

Lemma yields_string_map : yields _read_string_address_map (Forall (λ e, str_scalar e.1)).
Proof.
  eapply yields_bind; [apply yields_counted, yields_pair; [apply yields_long|apply yields_u64]|].
  intros l Hl. apply yields_ret, dict_of_all. eapply Forall_impl; [exact Hl|]. by intros e [? _].
Qed.

Lemma yields_threads : yields _read_threads (Forall thread_texts).
Proof.
  apply yields_counted.
  eapply yields_bind; [apply yields_long|intros ? Hname]. eapply yields_bind; [apply yields_bool|intros ? _].
  eapply yields_bind; [apply yields_bool|intros ? _].
  eapply yields_bind; [apply yields_counted with (Q := frame_texts)|intros; by apply yields_ret].
  eapply yields_bind; [apply yields_long|intros ? ?]. eapply yields_bind; [apply yields_u32|intros ? _].
  eapply yields_bind; [apply yields_long|intros ? ?].
  eapply yields_bind; [apply yields_string_map|intros; by apply yields_ret].
Qed.
End Yields.

#[export] Hint Resolve yields_u64 yields_u32 yields_bool yields_long yields_addresses yields_attribute
  yields_common yields_address_map yields_string_map yields_threads yields_format_error yields_key : yields.

(** [step_yields] takes the next read of a sequence and names what it returns. *)
Ltac step_yields x H := eapply yields_bind; [solve [eauto with yields]|intros x H].

(** ** Contents and objects *)

Section ReadObjects.
Context (src : bytes).
Abbreviation yields := (yields src).

Lemma yields_content t known :
  yields (_read_content t known) (λ v, content_fits known t v.1 ∧ content_mentions v.1 ⊆ v.2 ∧
                                       set_Forall address_ok v.2).
Proof.
  unfold _read_content. step_yields d Hd. destruct (Z.eqb_spec t d) as [->|Htd].
  { eapply yields_bind; [apply yields_counted, yields_pair; apply yields_u64|intros l Hl].
    apply yields_ret. cbn. split; [done|]. rewrite Forall_forall in Hl. split.
    - intros x. rewrite !elem_of_list_to_set, !elem_of_app.
      intros [(e & -> & He%dict_of_elem)%list_elem_of_fmap|(e & -> & He%dict_of_elem)%list_elem_of_fmap];
        [left|right]; by apply list_elem_of_fmap_2.
    - intros x. rewrite elem_of_list_to_set, elem_of_app.
      intros [(e & -> & He%Hl)%list_elem_of_fmap|(e & -> & He%Hl)%list_elem_of_fmap]; tauto. }
  step_yields li Hli. step_yields tu Htu. step_yields se Hse. case_bool_decide as Hin.
  - eapply yields_bind; [apply yields_counted, yields_u64|intros l Hl].
    assert (set_Forall address_ok (list_to_set l : gset Z)) as Hok.
    { intros x Hx%elem_of_list_to_set. by eapply Forall_forall in Hl. }
    cbv zeta. destruct (Z.eqb_spec t tu) as [->|]; [by apply yields_ret|].
    destruct (Z.eqb_spec t se) as [->|]; [by apply yields_ret|].
    apply yields_ret. cbn. split; [|done]. set_solver.
  - apply yields_ret. cbn. split; [|done]. intros n Hn. set_unfold in Hn. set_unfold in Hin.
    destruct Hn as [->|[->|[->|[->|[]]]]]; rewrite ?Hd, ?Hli, ?Htu, ?Hse; intros [= ->]; naive_solver.
Qed.

(** The offset kept for a text is that of its length field. *)
Lemma yields_text_offset :
  yields (r ← get; _skip_long_string;; mret (Some (_offset r)))
    (λ o, ∃ n, o = Some n ∧ is_Some (unpack_from [FH] src n)).
Proof.
  intros off. erewrite bind_ok by reflexivity. unfold _skip_long_string. rewrite bind_assoc.
  unfold mbind at 1, M_bind at 1. unfold _read_u16, _unpack. cbn [source _offset].
  destruct (unpack_from [FH] src off) as [[v []]|] eqn:Hu; [|right; by eexists].
  cbn [fmt_size]. unfold mbind, M_bind, _take, set_offset. cbv beta zeta. cbn [source _offset]. match goal with |- context [if ?b then _ else _] => destruct b end; cbn; [right; by eexists|].
  split; [done|]. exists off. by rewrite Hu.
Qed.

Lemma yields_object hd names common containers :
  yields (read_object hd names common containers) (object_wf src hd containers).
Proof.
  unfold read_object. step_yields a Ha. step_yields t Ht. step_yields sz Hsz.
  eapply yields_bind; [apply yields_content|intros [c refs] (Hc & Hm & Hr)].
  step_yields refs' Hr'.
  eapply yields_bind with (Q := λ _, True).
  { case_bool_decide; [|by apply yields_ret].
    eapply yields_bind; [apply yields_counted, yields_attribute|intros; by apply yields_ret]. }
  intros _ _.
  eapply yields_bind with (Q := λ o, match o with
    | Some offset => with_str_repr (flags hd) = true ∧ t ∉ containers ∧ is_Some (unpack_from [FH] src offset)
    | None => with_str_repr (flags hd) = false ∨ t ∈ containers end).
  { destruct (with_str_repr (flags hd)); cbn [andb]; [|apply yields_ret; by left].
    case_bool_decide; cbn [negb]; [apply yields_ret; by right|].
    eapply yields_weaken; [apply yields_text_offset|]. intros o (n & -> & Hn). done. }
  intros o Ho. apply yields_ret. constructor; cbn in *; try done; [set_solver|].
  by apply set_Forall_union.
Qed.

(** The objects read so far *)
Definition objects_wf (hd : HeapHeader) (containers : list Z) (os : dict Z HeapObject) : Prop :=
  dict_wf os ∧ Forall (λ e, address e.2 = e.1 ∧ object_wf src hd containers e.2) os.

Lemma yields_objects n hd names common containers os :
  objects_wf hd containers os →
  yields (read_objects n hd names common containers os) (objects_wf hd containers).
Proof.
  revert os. induction n as [|n IH]; intros os [Hwf Hos]; cbn [read_objects]; [by apply yields_ret|].
  eapply yields_bind; [apply yields_object|intros o Ho].
  case_match; [apply yields_format_error|]. apply IH. split; [by apply dict_set_wf|].
  apply Forall_forall. intros e [->|He]%dict_set_elem; [done|]. by eapply Forall_forall in Hos.
Qed.
End ReadObjects.

(** ** The whole artifact *)

Section ReadHeap.
Context (src : bytes).
Abbreviation yields := (yields src).

Lemma yields_check {A} (P : A → Prop) `{∀ x, Decision (P x)} (msg : A → str) (xs : list A) :
  yields (for_each xs (λ x, if decide (P x) then mret tt else raise (HeapFormatError (msg x))))
    (λ _, Forall P xs).
Proof.
  induction xs as [|x xs IH]; cbn [for_each]; [by apply yields_ret|].
  eapply yields_bind with (Q := λ _, P x).
  { destruct (decide (P x)); [by apply yields_ret|apply yields_format_error]. }
  intros _ Hx. eapply yields_weaken; [exact IH|]. intros u Hxs. by constructor.
Qed.

Definition contents_wf (v : HeapHeader * list HeapThread * dict Z HeapObject * dict Z str) : Prop :=
  let '(hd, ts, os, tys) := v in
  str_scalar (created_at hd) ∧ Forall thread_texts ts ∧ Forall (λ e, str_scalar e.2) tys ∧
  version hd = FORMAT_VERSION ∧ dict_wf tys ∧ Forall (λ o, type_address o ∈ tys.*1) (dict_values os) ∧
  ∃ containers, container_type_addresses (well_known_types hd) = Ok containers ∧ objects_wf src hd containers os.

Lemma yields_containers known :
  yields (lift (container_type_addresses known)) (λ cs, container_type_addresses known = Ok cs).
Proof.
  intros off. unfold lift. cbn. unfold container_type_addresses.
  destruct (dict_get known (lit "dict")); [cbn|by left]. destruct (dict_get known (lit "list")); [cbn|by left].
  destruct (dict_get known (lit "set")); [cbn|by left]. by destruct (dict_get known (lit "tuple")); [|left].
Qed.

Lemma yields_contents : yields read_contents contents_wf.
Proof.
  unfold read_contents. step_yields magic Hm. destruct (negb _); [apply yields_format_error|].
  step_yields ver Hv. destruct (Z.eqb_spec ver FORMAT_VERSION) as [->|]; cbn [negb]; [|apply yields_format_error].
  step_yields created Hc. step_yields raw Hraw. cbv zeta. step_yields known Hknown.
  step_yields ts Hts. eapply yields_bind; [apply yields_counted, yields_long|intros names _].
  step_yields common Hcommon.
  eapply yields_bind with (Q := λ os, ∃ containers, container_type_addresses known = Ok containers ∧
    objects_wf src (mkHeapHeader FORMAT_VERSION created (mkHeapFlags (negb (Z.land raw FLAG_WITH_STR_REPR =? 0)))
                      known) containers os).
  { eapply yields_bind; [apply yields_containers|intros cs Hcs]. step_yields n Hn.
    eapply yields_weaken; [apply yields_objects; by split; [constructor|]|]. intros os Hos. by exists cs. }
  intros os Hos. step_yields tys Htys. destruct Htys as [Htys Hnames]. eapply yields_bind; [apply yields_check|intros u Htyped].
  step_yields footer Hf. destruct (negb (footer =? MAGIC)); [apply yields_format_error|]. by apply yields_ret.
Qed.

Lemma yields_read : yields read (λ h, heap_wf h ∧ _source h = Some src).
Proof.
  eapply yields_bind; [apply yields_contents|].
  intros [[[hd ts] os] tys] (Hcreated & Hthreads & Hnames & Hv & Htys & Htyped & cs & Hcs & Hwf & Hos) off.
  erewrite bind_ok by reflexivity. cbn [source _offset]. destruct (negb _); [right; by eexists|].
  split; [done|]. split; [|done]. constructor; cbn; try done.
  - eapply Forall_impl; [exact Hos|]. by intros e [? ?].
  - unfold dict_values in Htyped. by apply Forall_fmap in Htyped.
  - exists cs. split; [done|]. exists src. split; [done|].
    eapply Forall_impl; [exact Hos|]. by intros e [? ?].
Qed.
End ReadHeap.

(** ** Rendering *)

(** Succeeds, unless something nests too deep: then it raises [RecursionError]. *)
Definition unless_deep {A} (deep : Prop) (r : result exc A) : Prop :=
  match r with Ok _ => ¬ deep | Err e => e = RecursionError ∧ deep end.

Lemma unless_deep_Ok {A} (a : A) : unless_deep False (Ok a).
Proof. by intros []. Qed.

Lemma unless_deep_ok {A} (r : result exc A) : is_ok r = true → unless_deep False r.
Proof. destruct r; [intros _; apply unless_deep_Ok|done]. Qed.

Lemma unless_deep_iff {A} (D D' : Prop) (r : result exc A) : (D ↔ D') → unless_deep D r → unless_deep D' r.
Proof. destruct r; cbn; tauto. Qed.

Lemma unless_deep_bind {A B} (D1 D2 : Prop) (m : result exc A) (f : A → result exc B) :
  unless_deep D1 m → (∀ a, m = Ok a → unless_deep D2 (f a)) → unless_deep (D1 ∨ D2) (m ≫= f).
Proof.
  destruct m as [a|e]; cbn [mbind result_bind]; [|cbn; tauto]. intros Hm Hf. specialize (Hf a eq_refl).
  destruct (f a); cbn in *; tauto.
Qed.

(** A last step that raises nothing *)
Lemma unless_deep_then {A B} (D : Prop) (m : result exc A) (f : A → result exc B) :
  unless_deep D m → (∀ a, m = Ok a → is_ok (f a) = true) → unless_deep D (m ≫= f).
Proof.
  intros Hm Hf. eapply unless_deep_iff, unless_deep_bind; [|exact Hm|intros a Ha; by apply unless_deep_ok, Hf]. tauto.
Qed.

Lemma unless_deep_map {A B} (deep : A → Prop) (f : A → result exc B) xs :
  (∀ x, x ∈ xs → unless_deep (deep x) (f x)) → unless_deep (∃ x, x ∈ xs ∧ deep x) (map_result f xs).
Proof.
  induction xs as [|x xs IH]; intros Hf; cbn [map_result].
  { intros (x & Hx & _). by apply elem_of_nil in Hx. }
  eapply unless_deep_iff, unless_deep_bind; [|apply Hf; by left|]; cycle 1.
  { intros y _. apply unless_deep_then; [|done]. apply IH. intros; apply Hf; by right. }
  set_solver.
Qed.

Section Render.
Context (h : Heap) (wf : heap_wf h).

Lemma loaded_containers : ∃ cs, container_type_addresses (well_known_types (header h)) = Ok cs.
Proof. destruct (hw_known h wf) as (cs & Hcs & _). by exists cs. Qed.

Lemma brackets_ok t : is_ok (_container_brackets h t) = true.
Proof.
  destruct loaded_containers as [cs Hcs]. unfold container_type_addresses in Hcs. unfold _container_brackets.
  do 4 (apply result_bind_inv in Hcs as (? & ?%or_key_error_Ok & Hcs)).
  repeat match goal with H : dict_get _ _ = Some _ |- _ => rewrite H; clear H end.
  cbn [or_key_error mbind result_bind]. by repeat case_match.
Qed.

Lemma text_ok a o : dict_get (objects h) a = Some o → is_ok (_read_string_representation h o) = true.
Proof.
  intros Ho%dict_get_elem. destruct (hw_known h wf) as (cs & _ & src & Hsrc & Hos).
  rewrite Forall_forall in Hos. specialize (Hos _ Ho). cbn in Hos.
  pose proof (ow_string _ _ _ _ Hos) as Hs. unfold _read_string_representation. rewrite Hsrc.
  destruct (string_representation_offset o); [|done]. destruct Hs as (_ & _ & [[v []] ->]). done.
Qed.

(** Rendering succeeds, unless containers nest as deep as the calls may. *)
Lemma render_unless_deep depth a seen :
  unless_deep (nests h seen a depth) (_string_representation depth h a seen).
Proof.
  revert a seen. induction depth as [|depth IH]; intros a seen; [split; [done|constructor]|].
  cbn [_string_representation]. destruct (dict_get (objects h) a) as [o|] eqn:Ho.
  2: { intros Hn. inversion Hn; congruence. }
  destruct loaded_containers as [cs Hcs]. rewrite Hcs. cbn [mbind result_bind].
  case_bool_decide as Hc.
  { eapply unless_deep_iff; [|by eapply unless_deep_ok, text_ok]. split; [done|]. intros Hn.
    inversion Hn as [|? ? o' ? ? Ho' (cs' & Hcs' & Hin)]; subst. congruence. }
  pose proof (brackets_ok (type_address o)) as Hb.
  destruct (_container_brackets h (type_address o)) as [[l r]|]; [|done]. cbn [mbind result_bind].
  case_bool_decide as Hseen; [by intros Hn; inversion Hn|].
  apply unless_deep_iff with (D := ∃ x, x ∈ content_items (content o) ∧ nests h (seen ∪ {[a]}) x depth).
  { split.
    - intros (x & Hx & Hn). apply (nests_S h seen a o x depth); [done| |done..]. exists cs. split; [done|].
      exact Hc.
    - intros Hn. inversion Hn; subst. naive_solver. }
  cbv zeta. apply unless_deep_then; [|done].
  assert (∀ items, unless_deep (∃ x, x ∈ items ∧ nests h (seen ∪ {[a]}) x depth)
    (parts ← map_result (λ item, _string_representation depth h item (seen ∪ {[a]})) items;
     mret (join (lit ", ") parts))) as Hitems.
  { intros items. apply unless_deep_then; [|done]. apply unless_deep_map. intros x _. apply IH. }
  destruct (content o) as [items|items|items|items|]; cbn [content_items]; [|apply Hitems| |apply Hitems|].
  - apply unless_deep_then; [|done].
    apply unless_deep_iff with (D := ∃ e : Z * Z, e ∈ items ∧
      (nests h (seen ∪ {[a]}) e.1 depth ∨ nests h (seen ∪ {[a]}) e.2 depth)).
    { setoid_rewrite list_elem_of_bind. split.
      - intros (e & He & [Hd|Hd]); eexists; (split; [exists e; split; [|exact He]|exact Hd]); set_solver.
      - intros (x & (e & Hx & He) & Hd). exists e. split; [done|]. set_unfold in Hx.
        destruct Hx as [->|[->|[]]]; auto. }
    apply unless_deep_map. intros [k v] _. apply unless_deep_bind; [apply IH|]. intros k' _.
    apply unless_deep_then; [apply IH|done].
  - eapply unless_deep_iff; [|apply Hitems]. by setoid_rewrite (py_sort_perm Z.leb (elements items)).
  - apply unless_deep_iff with (D := False); [|apply unless_deep_Ok]. set_solver.
Qed.

Context `{Interpreter}.

(** The objects whose text is asked for but not rendered *)
Definition too_deep (o : HeapObject) : Prop :=
  with_str_repr (flags (header h)) = true ∧ nests h ∅ (address o) rendering_depth.

Lemma too_deep_objects o : too_deep o → (rendering_depth <= length (objects h))%nat.
Proof. intros [_ Hn]. by eapply nests_objects. Qed.

(** Rendering an object of a well-formed heap *)
Lemma render_object o :
  unless_deep (too_deep o) (string_representation h o) ∧
  ∀ text, string_representation h o = Ok text → (is_Some text ↔ with_str_repr (flags (header h)) = true).
Proof.
  unfold string_representation, too_deep. destruct (with_str_repr _).
  - pose proof (render_unless_deep rendering_depth (address o) ∅) as Hr.
    destruct (_string_representation _ _ _ _); cbn in *; (split; [tauto|]); [|done]. by intros ? [= <-].
  - split; [by intros [? _]|]. intros ? [= <-]. split; [by intros []|done].
Qed.
End Render.

Lemma load_heap_yields contents :
  match load_heap contents with
  | Ok h => heap_wf h ∧ _source h = Some contents
  | Err e => reader_error e ∨ (contents = [] ∧ ∃ msg, e = ValueError msg)
  end.
Proof.
  unfold load_heap. destruct contents as [|b bs]; [right; split; [done|by eexists]|].
  unfold read_heap. pose proof (yields_read (b :: bs) 0%nat) as H.
  destruct (read _) as [[h|e] r]; cbn; [by destruct H|by left].
Qed.

(** C22: the reader accepts well-formed heaps only, whatever bytes it is given:
    addresses and sizes within their widths, one object per address, contents
    of the kind the type calls for and covered by the referents, every type
    named, names without surrogates, every stored text inside the file. Everything else it refuses with
    [HeapFormatError], with [KeyError] when the header lacks a container type,
    or with [ValueError] when the file is empty. *)
Theorem load_heap_wellformed contents :
  match load_heap contents with
  | Ok h => heap_wf h ∧ _source h = Some contents
  | Err e => reader_error e ∨ (contents = [] ∧ ∃ msg, e = ValueError msg)
  end.
Proof. apply load_heap_yields. Qed.

(** C27: rendering an object of a loaded heap. When the artifact records texts
    it succeeds with one, unless the interpreter's recursion limit is in the way:
    it raises [RecursionError] exactly when as many different containers as calls
    may be nested lie inside each other, the object outermost, with something in
    the innermost; never on a heap with fewer objects. When the artifact records
    no texts there is none. Cycles end, and nothing else is raised. *)
Theorem loaded_objects_render `{Interpreter} contents h o :
  load_heap contents = Ok h →
  match string_representation h o with
  | Ok text =>
      (is_Some text ↔ with_str_repr (flags (header h)) = true) ∧
      (with_str_repr (flags (header h)) = true → ¬ nests h ∅ (address o) rendering_depth)
  | Err e =>
      e = RecursionError ∧ with_str_repr (flags (header h)) = true ∧ nests h ∅ (address o) rendering_depth ∧
      (rendering_depth <= length (objects h))%nat
  end.
Proof.
  intros Hl. pose proof (load_heap_yields contents) as Hwf. rewrite Hl in Hwf. destruct Hwf as [Hwf _].
  destruct (render_object h Hwf o) as [Hr Htext]. destruct (string_representation h o) as [text|e]; cbn in Hr.
  - split; [by apply Htext|]. unfold too_deep in Hr. tauto.
  - destruct Hr as [-> Hdeep]. pose proof (too_deep_objects h o Hdeep). by destruct Hdeep.
Qed.

(** The heap of the fixture, with a limit its containers respect, and with one
    they do not *)
Definition shallow_limits (depth : nat) (some : (0 < depth)%nat) : Interpreter :=
  {| rendering_depth := depth; json_depth := 16; rendering_some := some; json_depth_enough := Nat.le_refl 16 |}.

Lemma loaded_objects_render_witness :
  ∃ h o, load_heap Golden.golden_artifact = Ok h ∧ dict_get (objects h) 0x2000 = Some o ∧
    is_Some (match @string_representation (shallow_limits 2 Nat.lt_0_2) h o with Ok text => text | Err _ => None end) ∧
    @string_representation (shallow_limits 1 Nat.lt_0_1) h o = Err RecursionError ∧ nests h ∅ (address o) 1.
Proof.
  assert (match load_heap Golden.golden_artifact with
          | Ok h => match dict_get (objects h) 0x2000 with
                    | Some o => is_ok (@string_representation (shallow_limits 2 Nat.lt_0_2) h o)
                                && negb (is_ok (@string_representation (shallow_limits 1 Nat.lt_0_1) h o))
                                && with_str_repr (flags (header h))
                    | None => false
                    end
          | Err _ => false
          end = true) as Hc by (vm_compute; reflexivity).
  destruct (load_heap Golden.golden_artifact) as [h|e] eqn:E; [|discriminate].
  destruct (dict_get (objects h) 0x2000) as [o|] eqn:Ho; [|discriminate].
  apply andb_true_iff in Hc as [[Hc2 Hc1]%andb_true_iff Hflag].
  exists h, o. split; [reflexivity|]. split; [exact Ho|]. split.
  - pose proof (@loaded_objects_render (shallow_limits 2 Nat.lt_0_2) _ h o E) as Hr.
    destruct (@string_representation (shallow_limits 2 Nat.lt_0_2) h o) as [text|x]; [|discriminate].
    exact (proj2 (proj1 Hr) Hflag).
  - pose proof (@loaded_objects_render (shallow_limits 1 Nat.lt_0_1) _ h o E) as Hr.
    destruct (@string_representation (shallow_limits 1 Nat.lt_0_1) h o) as [text|x]; [discriminate|].
    destruct Hr as (-> & _ & Hn & _). split; [reflexivity|exact Hn].
Defined.
