(* ===== verification/RoundTrip.v ===== *)
(** * The two ends of the artifact contract agree

    The reader, run on what the layout specifies (and so on what the writer
    writes), gives back the recorded heap: capture side and analyzer share
    nothing but the byte format. *)
From stdpp Require Import base tactics numbers list gmap strings.
From Stdlib Require Import Strings.Byte.
From S2P Require Import Prelude PyData Struct Text Errors CaptureModel HeapWriter Golden Artifact.
From S2P Require HeapModel HeapReader.
Import HeapReader.HeapReaderOps.

(** ** What a recorded fact reads back as *)

(** Text comes back cut to its 16-bit length and with surrogates escaped. *)
Definition text_back (limit : Z) (s : str) : str := utf8_decode (stored_text limit s).
Definition long_back (s : str) : str := text_back MAX_STRING_SIZE s.

Definition frame_back (f : ThreadFrame) : HeapModel.HeapThreadFrame :=
  HeapModel.mkHeapThreadFrame (long_back (filename f)) (lineno f) (long_back (function f))
    (dict_of ((λ e, (long_back e.1, e.2)) <$> locals f)).

Definition thread_back (t : HeapThread) : HeapModel.HeapThread :=
  HeapModel.mkHeapThread (long_back (thread_name t)) (is_alive t) (is_daemon t)
    (frame_back <$> frames t).

Definition header_back (created : str) (wsr : bool) (known : dict str Z) : HeapModel.HeapHeader :=
  HeapModel.mkHeapHeader FORMAT_VERSION (long_back created) (HeapModel.mkHeapFlags wsr)
    (known_entries known).

Definition content_back (obj : HeapObject) : HeapModel.ObjectContent :=
  match content_kind obj with
  | NONE => HeapModel.ContentNone
  | DICT => HeapModel.ContentDict (dict_of (dict_content obj))
  | LIST => HeapModel.ContentList (sequence_content obj)
  | TUPLE => HeapModel.ContentTuple (sequence_content obj)
  | SET => HeapModel.ContentSet (list_to_set (sequence_content obj))
  end.

Definition has_text (wsr : bool) (known : dict str Z) (obj : HeapObject) : bool :=
  wsr && negb (bool_decide (type_address obj ∈ container_types known)).

(** The bytes of an object before its string representation *)
Definition object_prefix (obj : HeapObject) : bytes :=
  enc_u64 (address obj) ++ enc_u64 (type_address obj) ++ enc_u32 (stored_size obj)
  ++ enc_content obj
  ++ enc_seq enc_u64 (HeapWriterOps.sorted_addresses (referents obj ∖ content_addresses obj))
  ++ enc_seq enc_attribute (attributes obj).

(** An object whose record starts at [offset] *)
Definition object_back (wsr : bool) (known : dict str Z) (obj : HeapObject) (offset : nat)
  : HeapModel.HeapObject :=
  HeapModel.mkHeapObject (address obj) (type_address obj) (stored_size obj)
    (referents obj ∪ content_addresses obj) (content_back obj)
    (if has_text wsr known obj then Some (offset + length (object_prefix obj))%nat else None).

Fixpoint objects_back (wsr : bool) (known : dict str Z) (objs : list HeapObject) (offset : nat)
  : dict Z HeapModel.HeapObject :=
  match objs with
  | [] => []
  | obj :: objs =>
      (address obj, object_back wsr known obj offset)
      :: objects_back wsr known objs (offset + length (enc_object wsr known obj))
  end.

Definition types_back (types : dict Z str) : dict Z str :=
  (λ e, (e.1, long_back e.2)) <$> py_sort HeapWriterOps.type_entry_leb types.

(** The part of the artifact before the object records *)
Definition artifact_head (created : str) (wsr : bool) (known : dict str Z)
  (threads : list HeapThread) (count : Z) : bytes :=
  enc_header created wsr known ++ enc_seq enc_thread threads ++ enc_tables ++ enc_u32 count.

Definition heap_back (created : str) (wsr : bool) (known : dict str Z) (threads : list HeapThread)
  (objects : list HeapObject) (types : dict Z str) : HeapModel.Heap :=
  HeapModel.mkHeap (header_back created wsr known) (thread_back <$> threads)
    (objects_back wsr known objects
       (length (artifact_head created wsr known threads (blen objects))))
    (types_back types)
    (Some (artifact_bytes created wsr known threads objects types)).

(** ** Agreement of the content kind with the type

    The writer follows [content_kind], the reader follows the type address; the
    Agent reports a container kind for exact [dict], [list], [set] and [tuple]
    objects, so that the two say the same. *)
Definition kind_of_type (known : dict str Z) (t : Z) : ContentKind :=
  if t =? known_address known (lit "dict") then DICT
  else if bool_decide (t ∈ [known_address known (lit "list"); known_address known (lit "tuple");
                            known_address known (lit "set")]) then
    if t =? known_address known (lit "tuple") then TUPLE
    else if t =? known_address known (lit "set") then SET else LIST
  else NONE.

Definition kind_agrees (known : dict str Z) (obj : HeapObject) : Prop :=
  content_kind obj = kind_of_type known (type_address obj).

(** ** Reading each part *)

Abbreviation reads := HeapReader.reads.
Abbreviation reads_at := HeapReader.reads_at.

Lemma reads_u32 v : u32 v → reads _read_u32 (enc_u32 v) v.
Proof.
  intros Hv. apply (HeapReader.reads_unpack FI); [exact Hv|].
  cbn [pack1]. by destruct (pack_uint_Some 4 v Hv) as [-> _].
Qed.

Lemma reads_u64 v : u64 v → reads _read_u64 (enc_u64 v) v.
Proof.
  intros Hv. apply (HeapReader.reads_unpack FQ); [exact Hv|].
  cbn [pack1]. by destruct (pack_uint_Some 8 v Hv) as [-> _].
Qed.

Lemma reads_bool b : reads _read_bool (enc_bool b) b.
Proof. by apply (HeapReader.reads_unpack Fbool). Qed.

Lemma reads_u16 v : 0 <= v <= 0xFFFF → reads _read_u16 (be_encode 2 v) v.
Proof.
  intros Hv. assert (0 <= v < 2 ^ 16) as Hv' by lia.
  apply (HeapReader.reads_unpack FH); [exact Hv'|].
  cbn [pack1]. by destruct (pack_uint_Some 2 v Hv') as [-> _].
Qed.

Lemma reads_string bs : reads (_read_string (blen bs)) bs (utf8_decode bs).
Proof.
  unfold _read_string, blen. rewrite Nat2Z.id.
  eapply HeapReader.reads_bind; [apply HeapReader.reads_take|apply HeapReader.reads_ret|].
  by rewrite app_nil_r.
Qed.

Lemma reads_long s : reads _read_long_string (enc_long s) (long_back s).
Proof.
  eapply HeapReader.reads_bind; [apply reads_u16|apply reads_string|reflexivity].
  by apply stored_text_length.
Qed.

Lemma skips_long s : reads _skip_long_string (enc_long s) tt.
Proof.
  unfold _skip_long_string. set (e := stored_text MAX_STRING_SIZE s).
  eapply HeapReader.reads_bind; [apply (reads_u16 (blen e))| |reflexivity].
  { by apply stored_text_length. }
  unfold blen. rewrite Nat2Z.id.
  eapply HeapReader.reads_bind; [apply (HeapReader.reads_take e)|apply HeapReader.reads_ret|].
  by rewrite app_nil_r.
Qed.

(** A counted sequence reads back element by element. *)
Lemma reads_counted {A B} (p : R B) (enc : A → bytes) (v : A → B) (xs : list A) :
  u32 (blen xs) → (∀ x, x ∈ xs → reads p (enc x) (v x)) →
  reads (counted p) (enc_seq enc xs) (v <$> xs).
Proof.
  intros Hn H. eapply HeapReader.reads_bind; [by apply reads_u32| |reflexivity].
  unfold blen. rewrite Nat2Z.id. by apply HeapReader.reads_repeat.
Qed.

Lemma reads_empty {B} (p : R B) : reads (counted p) (enc_u32 0) [].
Proof.
  rewrite <- (app_nil_r (enc_u32 0)).
  eapply HeapReader.reads_bind; [by apply reads_u32|apply HeapReader.reads_ret|reflexivity].
Qed.

Lemma reads_pair {A B} (p : R A) (q : R B) bs1 bs2 v w :
  reads p bs1 v → reads q bs2 w → reads (pair_of p q) (bs1 ++ bs2) (v, w).
Proof.
  intros Hp Hq. eapply HeapReader.reads_bind; [exact Hp| |reflexivity].
  eapply HeapReader.reads_bind; [exact Hq|apply HeapReader.reads_ret|by rewrite app_nil_r].
Qed.

Lemma reads_map {A B} (f : A → B) (p : R A) bs v :
  reads p bs v → reads (x ← p; mret (f x)) bs (f v).
Proof.
  intros Hp. eapply HeapReader.reads_bind; [exact Hp|apply HeapReader.reads_ret|by rewrite app_nil_r].
Qed.

Lemma reads_named e : u64 e.2 → reads (pair_of _read_long_string _read_u64) (enc_named e) (long_back e.1, e.2).
Proof. intros. apply reads_pair; [apply reads_long | by apply reads_u64]. Qed.

Lemma reads_attribute a : u64 (attr_address a) → reads (read_attribute []) (enc_attribute a) tt.
Proof.
  intros Ha. unfold read_attribute, enc_attribute.
  eapply HeapReader.reads_bind; [| |reflexivity].
  - unfold _read_attribute_name, enc_short, enc_text. set (e := stored_text 0x7FFF _).
    assert (0 <= blen e <= 0x7FFF) as He by (by apply stored_text_length).
    eapply HeapReader.reads_bind; [|rewrite (proj2 (Z.leb_le _ _)); [apply reads_string|]|reflexivity].
    + apply (HeapReader.reads_unpack Fh (blen e)); [cbn; lia|]. cbn [pack1].
      by destruct (pack_sint_Some 2 (blen e) (2 ^ 15)) as [-> _]; [done|lia|].
    + apply He.
  - eapply HeapReader.reads_bind; [by apply reads_u64|apply HeapReader.reads_ret|by rewrite app_nil_r].
Qed.

Lemma reads_frame f : frame_ok f → reads read_frame (enc_frame f) (frame_back f).
Proof.
  intros (Hl & Hn & Hf). unfold read_frame, enc_frame.
  eapply HeapReader.reads_bind; [apply reads_long| |reflexivity].
  eapply HeapReader.reads_bind; [apply (reads_u32 _ Hl)| |reflexivity].
  eapply HeapReader.reads_bind; [apply reads_long| |reflexivity].
  apply (reads_map (λ d, HeapModel.mkHeapThreadFrame _ _ _ d)).
  apply (reads_map dict_of). apply (reads_counted _ _ (λ e, (long_back e.1, e.2))); [done|].
  intros e He. apply reads_named. by eapply Forall_forall in Hf.
Qed.

Lemma reads_thread t : thread_ok t → reads read_thread (enc_thread t) (thread_back t).
Proof.
  intros (Hn & Hf). unfold read_thread, enc_thread.
  eapply HeapReader.reads_bind; [apply reads_long| |reflexivity].
  eapply HeapReader.reads_bind; [apply reads_bool| |reflexivity].
  eapply HeapReader.reads_bind; [apply reads_bool| |reflexivity].
  apply (reads_map (λ fs, HeapModel.mkHeapThread _ _ _ fs)).
  apply reads_counted; [done|]. intros f Hin. apply reads_frame. by eapply Forall_forall.
Qed.

(** *** Header *)

Lemma names_back : long_back <$> WELL_KNOWN_TYPE_NAMES = WELL_KNOWN_TYPE_NAMES.
Proof. vm_compute. reflexivity. Qed.

Lemma names_NoDup : NoDup WELL_KNOWN_TYPE_NAMES.
Proof. apply (bool_decide_unpack _). vm_compute. exact I. Qed.

Lemma known_entries_keys known : (known_entries known).*1 = WELL_KNOWN_TYPE_NAMES.
Proof. unfold known_entries. rewrite <- list_fmap_compose. apply list_fmap_id. Qed.

Lemma known_entries_back known :
  (λ e, (long_back e.1, e.2)) <$> known_entries known = known_entries known.
Proof.
  unfold known_entries. rewrite <- list_fmap_compose.
  assert (Forall (λ n, long_back n = n) WELL_KNOWN_TYPE_NAMES) as Hall.
  { pose proof names_back as H. revert H. generalize WELL_KNOWN_TYPE_NAMES as l.
    induction l as [|x l IH]; cbn; intros [=]; constructor; auto. }
  revert Hall. generalize WELL_KNOWN_TYPE_NAMES as l.
  induction 1 as [|x l Hx Hl IH]; [done|]. cbn. rewrite Hx. by f_equal.
Qed.

Lemma known_entries_dict known : dict_of (known_entries known) = known_entries known.
Proof. apply dict_of_NoDup. rewrite known_entries_keys. apply names_NoDup. Qed.

Lemma known_entries_get known name :
  name ∈ WELL_KNOWN_TYPE_NAMES →
  dict_get (known_entries known) name = Some (known_address known name).
Proof.
  intros Hin. apply dict_elem_get.
  - unfold dict_wf. rewrite known_entries_keys. apply names_NoDup.
  - unfold known_entries. apply list_elem_of_fmap. by exists name.
Qed.

Lemma container_name name :
  name ∈ [lit "dict"; lit "list"; lit "set"; lit "tuple"] → name ∈ WELL_KNOWN_TYPE_NAMES.
Proof.
  assert (Forall (λ n, n ∈ WELL_KNOWN_TYPE_NAMES) [lit "dict"; lit "list"; lit "set"; lit "tuple"])
    as Hall by (apply (bool_decide_unpack _); vm_compute; exact I).
  rewrite Forall_forall in Hall. apply Hall.
Qed.

Lemma known_entries_lookup known name :
  name ∈ [lit "dict"; lit "list"; lit "set"; lit "tuple"] →
  or_key_error (dict_get (known_entries known) name) = Ok (known_address known name).
Proof. intros H. by rewrite known_entries_get by (by apply container_name). Qed.

Lemma containers_back known :
  HeapModel.container_type_addresses (known_entries known) = Ok (container_types known).
Proof.
  unfold HeapModel.container_type_addresses. by rewrite !known_entries_lookup by set_solver.
Qed.

Lemma known_ok_u64 known e : known_ok known → e ∈ known_entries known → u64 e.2.
Proof.
  intros Hk (name & -> & Hin)%list_elem_of_fmap. cbn.
  eapply Forall_forall in Hk as (a & Ha & Hu); [|exact Hin].
  unfold known_address. by rewrite Ha.
Qed.

Lemma reads_known known :
  known_ok known →
  reads _read_string_address_map (enc_seq enc_named (known_entries known)) (known_entries known).
Proof.
  intros Hk. rewrite <- (known_entries_dict known) at 2. rewrite <- (known_entries_back known) at 2.
  apply (reads_map dict_of). apply reads_counted.
  - unfold known_entries, blen. rewrite length_fmap. vm_compute. split; [discriminate|done].
  - intros e He. apply reads_named. by eapply known_ok_u64.
Qed.

(** *** Objects *)

Lemma reads_addresses l :
  u32 (blen l) → Forall u64 l → reads (counted _read_u64) (enc_seq enc_u64 l) l.
Proof.
  intros Hn Hl. rewrite <- (list_fmap_id l) at 2. apply reads_counted; [done|].
  intros x Hx. apply reads_u64. by eapply Forall_forall.
Qed.

Lemma reads_pairs l :
  u32 (blen l) → Forall (λ e, u64 e.1 ∧ u64 e.2) l →
  reads (counted (pair_of _read_u64 _read_u64)) (enc_seq enc_pair l) l.
Proof.
  intros Hn Hl. rewrite <- (list_fmap_id l) at 2. apply reads_counted; [done|].
  intros [k v] Hx. eapply Forall_forall in Hl as [? ?]; [|exact Hx].
  apply reads_pair; by apply reads_u64.
Qed.

Lemma reads_content known obj :
  object_ok obj → kind_agrees known obj →
  reads (_read_content (type_address obj) (known_entries known)) (enc_content obj)
        (content_back obj, content_addresses obj).
Proof.
  intros Hobj Hkind. pose proof (oo_content _ Hobj) as Hok. unfold content_ok in Hok. unfold _read_content.
  unfold kind_agrees, kind_of_type in Hkind.
  unfold enc_content, content_back, content_addresses.
  eapply HeapReader.reads_bind; [apply HeapReader.reads_lift, known_entries_lookup; set_solver| |reflexivity].
  destruct (type_address obj =? known_address known (lit "dict")).
  { rewrite Hkind in Hok |- *. destruct Hok as [Hdl Hd].
    apply (reads_map (λ items : list (Z * Z),
      (HeapModel.ContentDict (dict_of items), list_to_set (items.*1 ++ items.*2) : gset Z))).
    by apply reads_pairs. }
  eapply HeapReader.reads_bind; [apply HeapReader.reads_lift, known_entries_lookup; set_solver| |reflexivity].
  eapply HeapReader.reads_bind; [apply HeapReader.reads_lift, known_entries_lookup; set_solver| |reflexivity].
  eapply HeapReader.reads_bind; [apply HeapReader.reads_lift, known_entries_lookup; set_solver| |reflexivity].
  case_bool_decide.
  2:{ rewrite Hkind. apply HeapReader.reads_ret. }
  destruct (_ =? known_address known (lit "tuple")); [|destruct (_ =? known_address known (lit "set"))];
    rewrite Hkind in Hok |- *; destruct Hok as [Hsl Hs]; eapply HeapReader.reads_bind;
    [by apply reads_addresses|apply HeapReader.reads_ret|by rewrite app_nil_r
    |by apply reads_addresses|apply HeapReader.reads_ret|by rewrite app_nil_r
    |by apply reads_addresses|apply HeapReader.reads_ret|by rewrite app_nil_r].
Qed.

Lemma reads_remaining (s t : gset Z) :
  u32 (Z.of_nat (size (s ∖ t))) → set_Forall u64 (s ∖ t) →
  reads _read_address_set (enc_seq enc_u64 (HeapWriterOps.sorted_addresses (s ∖ t))) (s ∖ t).
Proof.
  intros Hn Hs.
  assert (list_to_set (HeapWriterOps.sorted_addresses (s ∖ t)) = (s ∖ t : gset Z)) as E.
  { apply set_eq. intros x. rewrite elem_of_list_to_set. apply elem_of_sorted_addresses. }
  rewrite <- E at 2. apply (reads_map list_to_set). apply reads_addresses.
  - unfold blen. by rewrite length_sorted_addresses.
  - apply Forall_forall. intros x Hx%elem_of_sorted_addresses. by apply Hs.
Qed.

Lemma reads_at_ext {A} (p : R A) bs (f g : nat → A) :
  (∀ n, f n = g n) → reads_at p bs f → reads_at p bs g.
Proof. intros E H pre post. by rewrite (H pre post), E. Qed.

(** A step whose value does not depend on where it stands, before one whose
    value does *)
Lemma reads_then {A B} (p : R A) (q : A → R B) bs1 bs2 v (h : nat → B) :
  reads p bs1 v → reads_at (q v) bs2 h →
  reads_at (p ≫= q) (bs1 ++ bs2) (λ n, h (n + length bs1)%nat).
Proof.
  intros Hp Hq. eapply HeapReader.reads_at_bind; [exact Hp| |reflexivity].
  intros n. by exists h.
Qed.

Lemma reads_at_then {A B} (p : R A) (q : A → R B) bs1 bs2 (f : nat → A) (h : nat → nat → B) :
  reads_at p bs1 f → (∀ n, reads_at (q (f n)) bs2 (h n)) →
  reads_at (p ≫= q) (bs1 ++ bs2) (λ n, h n (n + length bs1)%nat).
Proof.
  intros Hp Hq. eapply HeapReader.reads_at_bind; [exact Hp| |reflexivity].
  intros n. by exists (h n).
Qed.

Lemma reads_map_at {A B} (f : A → B) (p : R A) bs (g : nat → A) :
  reads_at p bs g → reads_at (x ← p; mret (f x)) bs (λ n, f (g n)).
Proof.
  intros Hp. eapply HeapReader.reads_at_bind; [exact Hp| |symmetry; apply app_nil_r].
  intros n. exists (λ _, f (g n)). split; [apply HeapReader.reads_ret|done].
Qed.

Lemma stored_size_u32 obj : u32 (stored_size obj).
Proof. unfold u32, stored_size, MAX_UINT32. lia. Qed.

Lemma reads_attributes obj :
  object_ok obj →
  reads (if bool_decide (type_address obj ∉ (∅ : gset Z))
         then counted (read_attribute []);; mret tt else mret tt)
    (enc_seq enc_attribute (attributes obj)) tt.
Proof.
  intros [_ _ _ _ _ Hn Ha]. rewrite bool_decide_true by set_solver.
  eapply (reads_map (λ _, tt)). apply (reads_counted _ _ (λ _, tt)); [exact Hn|].
  intros a Hin. apply reads_attribute. by eapply Forall_forall in Ha.
Qed.

Lemma reads_text wsr known obj :
  reads_at
    (if wsr && negb (bool_decide (type_address obj ∈ container_types known))
     then r ← get; _skip_long_string;; mret (Some (HeapReader._offset r)) else mret None)
    (if wsr && negb (bool_decide (type_address obj ∈ container_types known))
     then enc_long (str_repr obj) else [])
    (λ n, if has_text wsr known obj then Some n else None).
Proof.
  unfold has_text. destruct (wsr && _).
  - intros pre post. pose proof (skips_long (str_repr obj) pre post) as Hs.
    erewrite bind_ok by reflexivity. by erewrite bind_ok by exact Hs.
  - apply HeapReader.reads_ret.
Qed.

Lemma reads_object created wsr known obj :
  object_ok obj → kind_agrees known obj →
  reads_at (read_object (header_back created wsr known) [] ∅ (container_types known))
    (enc_object wsr known obj) (object_back wsr known obj).
Proof.
  intros Hobj Hkind. pose proof Hobj as [Ha Ht _ Hn Hr _ _].
  eapply reads_at_ext.
  2:{ unfold read_object, enc_object. cbn [header_back HeapModel.well_known_types HeapModel.flags HeapModel.with_str_repr].
      eapply reads_then; [exact (reads_u64 _ Ha)|].
      eapply reads_then; [exact (reads_u64 _ Ht)|].
      eapply reads_then; [apply (reads_u32 _ (stored_size_u32 obj))|].
      eapply reads_then; [apply (reads_content _ _ Hobj Hkind)|]. cbv iota.
      eapply reads_then; [by apply reads_remaining|].
      eapply reads_then; [by apply reads_attributes|].
      apply reads_map_at, reads_text. }
  intros n. unfold object_back, object_prefix. f_equal.
  - apply difference_union_L.
  - destruct (has_text wsr known obj); [|done]. rewrite !length_app. f_equal. lia.
Qed.

Lemma length_object_back wsr known objs n :
  (objects_back wsr known objs n).*1 = address <$> objs.
Proof. revert n. induction objs as [|obj objs IH]; intros n; cbn; [done|]. by rewrite IH. Qed.

Lemma reads_object_list created wsr known objs (done_ : dict Z HeapModel.HeapObject) :
  Forall object_ok objs → Forall (kind_agrees known) objs →
  NoDup (done_.*1 ++ (address <$> objs)) →
  reads_at (read_objects (length objs) (header_back created wsr known) [] ∅ (container_types known) done_)
    (objs ≫= enc_object wsr known) (λ n, done_ ++ objects_back wsr known objs n).
Proof.
  intros Hok. revert done_. induction Hok as [|obj objs Hobj Hok IH]; intros done_ Hk Hnd.
  { eapply reads_at_ext; [|apply HeapReader.reads_ret]. intros n. cbn. by rewrite app_nil_r. }
  inversion Hk as [|? ? Hk1 Hk2]; subst. cbn [length read_objects].
  change ((obj :: objs) ≫= enc_object wsr known)
    with (enc_object wsr known obj ++ (objs ≫= enc_object wsr known)).
  eapply HeapReader.reads_at_bind; [by apply reads_object| |reflexivity].
  intros n. cbn [object_back HeapModel.address].
  assert (dict_get done_ (address obj) = None) as Hnew.
  { apply dict_get_None. intros Hin. rewrite NoDup_app in Hnd.
    destruct Hnd as (_ & Hdis & _). apply (Hdis _ Hin). by left. }
  rewrite Hnew, dict_set_new by (by apply dict_get_None).
  eexists. split; [apply IH; [done|]|].
  - rewrite fmap_app. cbn in *. by rewrite <- app_assoc.
  - cbn. by rewrite <- app_assoc.
Qed.

(** *** The whole artifact *)

Lemma length_enc_u32 v : length (enc_u32 v) = 4%nat.
Proof. apply length_be_encode. Qed.


(** What makes a recorded heap readable, beyond the limits of its fields: the
    writer's two views of a container agree, addresses are unique and every
    object's type is named. *)
Record consistent (known : dict str Z) (objects : list HeapObject) (types : dict Z str) : Prop := {
  co_kinds : Forall (kind_agrees known) objects;
  co_addresses : NoDup (address <$> objects);
  co_types : NoDup types.*1;
  co_named : Forall (λ obj, type_address obj ∈ types.*1) objects;
}.

Lemma reads_objects created wsr known objs :
  Forall object_ok objs → Forall (kind_agrees known) objs → NoDup (address <$> objs) →
  u32 (blen objs) →
  reads_at (_read_objects (header_back created wsr known) [] ∅)
    (enc_seq (enc_object wsr known) objs)
    (λ n, objects_back wsr known objs (n + 4)).
Proof.
  intros Hok Hk Hnd Hn. unfold _read_objects.
  cbn [header_back HeapModel.well_known_types]. rewrite containers_back.
  eapply reads_at_ext.
  2:{ rewrite <- (app_nil_l (enc_seq _ _)).
      eapply reads_then; [by apply HeapReader.reads_lift|].
      eapply reads_then; [by apply reads_u32|].
      unfold blen. rewrite Nat2Z.id. by apply (reads_object_list created wsr known objs []). }
  intros n. cbn [app length]. by rewrite length_enc_u32, Nat.add_0_r.
Qed.

Lemma py_sort_NoDup_keys (types : dict Z str) :
  NoDup types.*1 → NoDup (py_sort HeapWriterOps.type_entry_leb types).*1.
Proof. by rewrite (py_sort_perm HeapWriterOps.type_entry_leb types). Qed.

Lemma reads_types types :
  types_ok types → NoDup types.*1 →
  reads _read_address_string_map (enc_types types) (types_back types).
Proof.
  intros [Hn Ht] Hnd. unfold types_back.
  assert (dict_of ((λ e : Z * str, (e.1, long_back e.2)) <$> py_sort HeapWriterOps.type_entry_leb types)
          = (λ e : Z * str, (e.1, long_back e.2)) <$> py_sort HeapWriterOps.type_entry_leb types) as <-.
  { apply dict_of_NoDup. rewrite <- list_fmap_compose. by apply py_sort_NoDup_keys. }
  apply (reads_map dict_of). apply (reads_counted _ _ (λ e, (e.1, long_back e.2))).
  - unfold blen. by rewrite length_py_sort.
  - intros e He. rewrite py_sort_perm in He. eapply Forall_forall in Ht; [|exact He].
    apply reads_pair; [by apply reads_u64|apply reads_long].
Qed.

Lemma reads_check {A} (xs : list A) (ok : A → R unit) :
  (∀ x, x ∈ xs → ok x = mret tt) → reads (for_each xs ok) [] tt.
Proof.
  induction xs as [|x xs IH]; intros H; cbn [for_each]; [apply HeapReader.reads_ret|].
  rewrite H by (by left). eapply HeapReader.reads_bind; [apply HeapReader.reads_ret| |reflexivity].
  apply IH. intros; apply H. by right.
Qed.

Lemma types_back_keys types a : a ∈ types.*1 → a ∈ dict_keys (types_back types).
Proof.
  intros H. unfold dict_keys, types_back. rewrite <- list_fmap_compose.
  change (a ∈ fst <$> py_sort HeapWriterOps.type_entry_leb types).
  by rewrite (py_sort_perm HeapWriterOps.type_entry_leb types).
Qed.

Lemma objects_back_named wsr known objs types n obj :
  Forall (λ obj, type_address obj ∈ types.*1) objs →
  obj ∈ dict_values (objects_back wsr known objs n) →
  HeapModel.type_address obj ∈ dict_keys (types_back types).
Proof.
  intros Hall. revert n. induction Hall as [|o objs Ho Hall IH]; intros n; cbn; [by intros ?%elem_of_nil|].
  intros [->|Hin]%elem_of_cons; [by apply types_back_keys|by eapply IH].
Qed.

Lemma reads_contents created wsr known threads objects types :
  within_limits known threads objects types → consistent known objects types →
  reads_at read_contents (artifact_bytes created wsr known threads objects types)
    (λ n, (header_back created wsr known, thread_back <$> threads,
           objects_back wsr known objects
             (n + length (artifact_head created wsr known threads (blen objects))),
           types_back types)).
Proof.
  intros [Hk Hnt Ht Hno Ho Hty] [Hkind Haddr Htk Hnamed]. unfold read_contents, artifact_bytes, enc_header.
  assert (u32 0) as H0 by done.
  assert (u32 FORMAT_VERSION) as Hver by done.
  assert (u64 (if wsr then FLAG_WITH_STR_REPR else 0)) as Hflag
    by (unfold u64, FLAG_WITH_STR_REPR; destruct wsr; lia).
  eapply reads_at_ext.
  2:{ rewrite <- !app_assoc.
      eapply reads_then; [exact (reads_u64 _ u64_magic)|].
      eapply reads_then; [exact (reads_u32 _ Hver)|].
      eapply reads_then; [apply reads_long|].
      eapply reads_then; [exact (reads_u64 _ Hflag)|].
      eapply reads_then; [by apply reads_known|].
      replace (negb (Z.land (if wsr then FLAG_WITH_STR_REPR else 0) HeapReader.FLAG_WITH_STR_REPR =? 0))
        with wsr by (by destruct wsr).
      fold (header_back created wsr known).
      eapply reads_then; [apply reads_counted; [done|]; intros t Hin; apply reads_thread;
                          by eapply Forall_forall in Ht|].
      unfold enc_tables. rewrite <- app_assoc.
      eapply reads_then; [apply reads_empty|].
      eapply reads_then; [apply (reads_map list_to_set), reads_empty|].
      change (list_to_set (@nil Z)) with (∅ : gset Z).
      eapply (reads_at_then _ _ _ _ _ (λ n _, (header_back created wsr known, thread_back <$> threads,
               objects_back wsr known objects (n + 4), types_back types)));
        [by apply reads_objects|].
      intros n.
      eapply (HeapReader.reads_bind _ _ _ (enc_u64 MAGIC)); [by apply reads_types| |reflexivity].
      rewrite <- (app_nil_l (enc_u64 MAGIC)).
      eapply HeapReader.reads_bind; [apply reads_check| |reflexivity].
      { intros obj Hin. by rewrite decide_True by (by eapply objects_back_named). }
      rewrite <- (app_nil_r (enc_u64 MAGIC)).
      eapply HeapReader.reads_bind; [exact (reads_u64 _ u64_magic)| |reflexivity].
      apply HeapReader.reads_ret. }
  intros n. cbv beta. do 2 f_equal. f_equal. unfold artifact_head, enc_header, enc_tables.
  rewrite !length_app, !length_enc_u32. cbn [length]. lia.
Qed.

Lemma read_heap_artifact created wsr known threads objects types :
  within_limits known threads objects types → consistent known objects types →
  HeapReader.read_heap (artifact_bytes created wsr known threads objects types)
  = Ok (heap_back created wsr known threads objects types).
Proof.
  intros Hwl Hco. unfold HeapReader.read_heap, read.
  pose proof (reads_contents created wsr known threads objects types Hwl Hco [] []) as H.
  rewrite app_nil_l, app_nil_r in H. cbn [length] in H.
  erewrite bind_ok by exact H. cbv beta iota. erewrite bind_ok by reflexivity.
  cbn [HeapReader._offset HeapReader.source]. by rewrite app_nil_l, Nat.eqb_refl.
Qed.

Lemma load_heap_artifact created wsr known threads objects types :
  within_limits known threads objects types → consistent known objects types →
  HeapReader.load_heap (artifact_bytes created wsr known threads objects types)
  = Ok (heap_back created wsr known threads objects types).
Proof.
  intros Hwl Hco. rewrite <- (read_heap_artifact created wsr known threads objects types Hwl Hco).
  unfold HeapReader.load_heap. destruct (artifact_bytes _ _ _ _ _ _) eqn:E; [|done].
  apply (f_equal length) in E. unfold artifact_bytes, enc_header in E.
  rewrite !length_app in E. discriminate E.
Qed.

(** *** Stored string representations *)

Lemma objects_back_app wsr known objs1 objs2 n :
  objects_back wsr known (objs1 ++ objs2) n =
  objects_back wsr known objs1 n
  ++ objects_back wsr known objs2 (n + length (objs1 ≫= enc_object wsr known)).
Proof.
  revert n. induction objs1 as [|o objs1 IH]; intros n.
  - cbn. by rewrite Nat.add_0_r.
  - change ((o :: objs1) ≫= enc_object wsr known)
      with (enc_object wsr known o ++ (objs1 ≫= enc_object wsr known)).
    cbn [app objects_back]. rewrite IH, length_app. do 3 f_equal. lia.
Qed.

Lemma objects_back_get wsr known objs n pre obj post :
  objs = pre ++ obj :: post → NoDup (address <$> objs) →
  dict_get (objects_back wsr known objs n) (address obj) =
  Some (object_back wsr known obj (n + length (pre ≫= enc_object wsr known))).
Proof.
  intros -> Hnd. apply dict_elem_get.
  - unfold dict_wf. by rewrite length_object_back.
  - rewrite objects_back_app. apply elem_of_app. right. by left.
Qed.

Lemma artifact_split created wsr known threads objects types :
  artifact_bytes created wsr known threads objects types =
  artifact_head created wsr known threads (blen objects)
  ++ (objects ≫= enc_object wsr known) ++ enc_types types ++ enc_u64 MAGIC.
Proof. unfold artifact_bytes, artifact_head, enc_seq. by rewrite <- !app_assoc. Qed.

Lemma object_split wsr known obj :
  has_text wsr known obj = true →
  enc_object wsr known obj = object_prefix obj ++ enc_long (str_repr obj).
Proof.
  unfold has_text, enc_object, object_prefix. intros ->. by rewrite <- !app_assoc.
Qed.

(** The text an offset points to, wherever it stands in the source *)
Lemma string_at h o src post s :
  HeapModel._source h = Some (src ++ enc_long s ++ post) →
  HeapModel.string_representation_offset o = Some (length src) →
  HeapModel._read_string_representation h o = Ok (long_back s).
Proof.
  intros Hs Ho. unfold HeapModel._read_string_representation. rewrite Hs, Ho.
  unfold enc_long, enc_text. set (e := stored_text _ s).
  assert (0 <= blen e < 2 ^ 16) as He.
  { pose proof (stored_text_length MAX_STRING_SIZE s). fold e in H. unfold MAX_STRING_SIZE in *. lia. }
  rewrite <- app_assoc.
  assert (pack [FH] (blen e, tt) = Some (be_encode 2 (blen e))) as Hp.
  { cbn [pack pack1]. by destruct (pack_uint_Some 2 (blen e) He) as [-> _]. }
  rewrite (unpack_from_app [FH] (blen e, tt) _ src _) by (done || exact Hp).
  cbn [or_struct_error mbind result_bind]. cbv iota. do 2 f_equal.
  replace (length src + 2)%nat with (length (src ++ be_encode 2 (blen e))).
  2:{ by rewrite length_app, length_be_encode. }
  rewrite (app_assoc src), drop_app_length. unfold blen. rewrite Nat2Z.id, take_app_length. done.
Qed.

Lemma stored_text_back created wsr known threads objects types obj :
  NoDup (address <$> objects) → obj ∈ objects → has_text wsr known obj = true →
  ∃ o, dict_get (HeapModel.objects (heap_back created wsr known threads objects types)) (address obj)
       = Some o ∧
    HeapModel.address o = address obj ∧ HeapModel.type_address o = type_address obj ∧
    HeapModel._read_string_representation (heap_back created wsr known threads objects types) o
    = Ok (long_back (str_repr obj)).
Proof.
  intros Hnd Hin Htext. apply list_elem_of_split in Hin as (pre & post & E).
  set (n := length (artifact_head created wsr known threads (blen objects))).
  exists (object_back wsr known obj (n + length (pre ≫= enc_object wsr known))).
  split; [exact (objects_back_get wsr known objects n pre obj post E Hnd)|].
  split; [done|]. split; [done|].
  set (src := artifact_head created wsr known threads (blen objects)
              ++ (pre ≫= enc_object wsr known) ++ object_prefix obj).
  apply (string_at _ _ src ((post ≫= enc_object wsr known) ++ enc_types types ++ enc_u64 MAGIC)).
  - cbn [heap_back HeapModel._source]. rewrite artifact_split. f_equal. unfold src.
    rewrite <- !app_assoc. f_equal. rewrite E, bind_app.
    change ((obj :: post) ≫= enc_object wsr known)
      with (enc_object wsr known obj ++ (post ≫= enc_object wsr known)).
    rewrite object_split by done. by rewrite <- !app_assoc.
  - cbn [object_back HeapModel.string_representation_offset]. rewrite Htext. f_equal.
    unfold src, n. rewrite !length_app. lia.
Qed.

(** ** Properties *)

(** C3: the analyzer reads back what the Collector wrote: for a heap within the
    format's limits whose containers, addresses and type table are consistent,
    writing succeeds and loading the file gives the recorded heap, threads and
    type names, text cut to its 16-bit length. *)
Theorem reader_inverts_writer now known created_at threads objects types wsr sync :
  within_limits known threads objects types → consistent known objects types →
  ∃ w, write_heap now known created_at threads objects types
         (new_writer (new_file None true) wsr sync) = (Ok tt, w) ∧
    HeapReader.load_heap (f_data (_file w)) =
      Ok (heap_back (HeapWriterOps.created created_at now) wsr known threads objects types).
Proof.
  intros Hwl Hco. destruct (write_heap_file now known created_at threads objects types wsr sync Hwl)
    as (w & Hw & Hd).
  exists w. split; [done|]. rewrite Hd. by apply load_heap_artifact.
Qed.

(** C38: an object's stored text is found again through the offset the reader
    kept: on the loaded heap the object renders as its recorded text, unchanged
    when it is encodable and fits its 16-bit length. *)
Theorem stored_strings_roundtrip `{Interpreter} created known threads objects types obj :
  within_limits known threads objects types → consistent known objects types →
  obj ∈ objects → type_address obj ∉ container_types known →
  ∃ h o, HeapReader.load_heap (artifact_bytes created true known threads objects types) = Ok h ∧
    dict_get (HeapModel.objects h) (address obj) = Some o ∧
    HeapModel.string_representation h o = Ok (Some (long_back (str_repr obj))) ∧
    (str_scalar (str_repr obj) → blen (utf8_encode (str_repr obj)) <= MAX_STRING_SIZE →
     long_back (str_repr obj) = str_repr obj).
Proof.
  intros Hwl Hco Hin Htype.
  assert (has_text true known obj = true) as Htext.
  { unfold has_text. by rewrite bool_decide_false. }
  destruct (stored_text_back created true known threads objects types obj (co_addresses _ _ _ Hco) Hin Htext)
    as (o & Ho & Ha & Ht & Hs).
  exists (heap_back created true known threads objects types), o.
  split; [by apply load_heap_artifact|]. split; [done|]. split.
  - unfold HeapModel.string_representation.
    change (HeapModel.with_str_repr (HeapModel.flags (HeapModel.header (heap_back created true known threads objects types))))
      with true. cbv iota.
    pose proof rendering_some as Hdepth. destruct rendering_depth as [|depth]; [lia|].
    cbn [HeapModel._string_representation]. rewrite Ha, Ho.
    change (HeapModel.well_known_types (HeapModel.header (heap_back created true known threads objects types)))
      with (known_entries known).
    rewrite containers_back. cbn [mbind result_bind]. rewrite Ht, bool_decide_true by done.
    by rewrite Hs.
  - intros Hsc Hlen. unfold long_back, text_back, stored_text.
    rewrite take_ge by (unfold blen in Hlen; lia). by apply utf8_decode_encode.
Qed.

(** The fixture satisfies both. *)
#[export] Instance kind_agrees_dec (known : dict str Z) obj : Decision (kind_agrees known obj).
Proof. unfold kind_agrees. apply _. Defined.

Lemma golden_consistent : consistent golden_known golden_objects golden_types.
Proof. constructor; apply (bool_decide_unpack _); vm_compute; exact I. Qed.

Lemma reader_inverts_writer_witness :
  ∃ h, HeapReader.load_heap golden_artifact = Ok h ∧
    HeapModel.threads h = [HeapModel.mkHeapThread (lit "MainThread") true false
      [HeapModel.mkHeapThreadFrame (lit "/app/main.py") 42 (lit "run") [(lit "payload", 0x2000)]]] ∧
    dict_keys (HeapModel.objects h) = [0x2000; 0x3000; 0x4000; 0x5000; 0x6000; 0x7000; 0x8000].
Proof.
  destruct (reader_inverts_writer [] golden_known (Some golden_created) golden_threads golden_objects
              golden_types true true golden_within_limits golden_consistent) as (w & Hw & Hl).
  assert (f_data (_file (snd (write_heap [] golden_known (Some golden_created) golden_threads
            golden_objects golden_types (new_writer (new_file None true) true true))))
          = golden_artifact) as Hd by (vm_compute; reflexivity).
  rewrite Hw in Hd. cbn [snd] in Hd. rewrite Hd in Hl.
  exists (heap_back golden_created true golden_known golden_threads golden_objects golden_types).
  split; [exact Hl|]. split; vm_compute; reflexivity.
Defined.

Lemma stored_strings_roundtrip_witness :
  ∃ h o, HeapReader.load_heap golden_artifact = Ok h ∧
    dict_get (HeapModel.objects h) 0x3000 = Some o ∧
    @HeapModel.string_representation default_limits h o = Ok (Some (lit "<object at 0x3000>")).
Proof.
  destruct (@stored_strings_roundtrip default_limits golden_created golden_known golden_threads golden_objects golden_types
              (_object 0x3000 (Golden.known "object") 16 "<object at 0x3000>" ∅)
              golden_within_limits golden_consistent) as (h & o & Hl & Ho & Hs & _).
  - right. left.
  - apply (bool_decide_unpack _). vm_compute. exact I.
  - exists h, o. split; [|split; [exact Ho|]].
    + etransitivity; [|exact Hl]. apply (f_equal HeapReader.load_heap). vm_compute. reflexivity.
    + etransitivity; [exact Hs|]. vm_compute. reflexivity.
Defined.
