(* ===== verification/Delivery.v ===== *)
(** * The artifact under its final name

    [Collector.capture]: where the artifact goes, what is left of a failed
    session, and what a delivered artifact holds. *)
From S2P Require Import HeapModel HeapReader RoundTrip.
From stdpp Require Import base tactics numbers list gmap sets fin_sets strings.
From Stdlib Require Import Strings.Byte.
From S2P Require Import Prelude PyData Struct Text Paths Errors Protocol CaptureModel HeapWriter Golden Artifact.
From S2P Require Import Collector Capture CaptureEnds Conforming SmallTarget.
Import CollectorOps.

(** ** The output path *)

(** [Path(f"{requested}.{index}")] *)
Lemma candidate_inj requested i j :
  0 <= i → 0 <= j → candidate requested i = candidate requested j → i = j.
Proof.
  destruct requested as [directory name]. unfold candidate. intros Hi Hj [= E%app_inv_head].
  apply (app_inv_head (lit ".")) in E. by apply dec_string_inj.
Qed.

(** The text of the source, for paths of all shapes *)
Example candidate_examples :
  forallb (λ s, bool_decide (candidate (path_of s) 7 = path_of (path_str (path_of s) ++ lit ".7")))
    (map lit ["heap.pyheap"; "/tmp/a"; "/tmp//x/./a/"; "."; "/"; "//"; "//a"; ".."; "a/.."; ""]%string) = true.
Proof. vm_compute. reflexivity. Qed.

Lemma first_free_spec fuel (taken : Path → bool) requested i :
  0 <= i →
  match first_free fuel taken requested i with
  | Ok p => ∃ j, i <= j < i + Z.of_nat fuel ∧ p = candidate requested j ∧ taken p = false ∧
      ∀ k, i <= k < j → taken (candidate requested k) = true
  | Err e => e = OutOfFuel ∧ ∀ k, i <= k < i + Z.of_nat fuel → taken (candidate requested k) = true
  end.
Proof.
  revert i. induction fuel as [|fuel IH]; intros i Hi; cbn [first_free]; [split; [done|intros; lia]|].
  destruct (taken (candidate requested i)) eqn:E.
  - specialize (IH (i + 1) ltac:(lia)). destruct (first_free _ _ _ _) as [p|e].
    + destruct IH as (j & Hj & -> & Hn & Hall). exists j. split; [lia|]. split; [done|]. split; [done|].
      intros k Hk. destruct (decide (k = i)) as [->|]; [done|apply Hall; lia].
    + destruct IH as [-> Hall]. split; [done|].
      intros k Hk. destruct (decide (k = i)) as [->|]; [done|apply Hall; lia].
  - exists i. split; [lia|]. split; [done|]. split; [done|]. intros; lia.
Qed.

Section Output.
Context (disk : Disk).

Lemma path_taken_spec fs p : path_taken disk fs p = true ↔ p ∈ dom fs ∪ folders disk.
Proof. unfold path_taken. rewrite orb_true_iff, !bool_decide_eq_true, elem_of_union, elem_of_dom. done. Qed.

Lemma path_free fs p : path_taken disk fs p = false ↔ fs !! p = None ∧ p ∉ folders disk.
Proof.
  rewrite <- not_true_iff_false, path_taken_spec, not_elem_of_union, not_elem_of_dom. done.
Qed.

(** As many names in a row are taken as there are files and directories, at most. *)
Lemma taken_bound fs requested (n : nat) :
  (∀ k, 0 <= k < Z.of_nat n → path_taken disk fs (candidate requested k) = true) →
  (n <= size fs + size (folders disk))%nat.
Proof.
  intros Hall. set (names := (λ k, candidate requested (Z.of_nat k)) <$> seq 0 n).
  assert (NoDup names) as Hnd.
  { apply NoDup_fmap_2_strong; [|apply NoDup_seq].
    intros x y _ _ E%candidate_inj; lia. }
  rewrite <- (length_seq n 0), <- (length_fmap (λ k, candidate requested (Z.of_nat k))). fold names.
  rewrite <- (size_list_to_set (C:=gset Path) names Hnd), <- (size_dom (D:=gset Path) fs).
  etransitivity; [apply (subseteq_size _ (dom fs ∪ folders disk))|].
  - intros p Hp%elem_of_list_to_set.
    apply list_elem_of_fmap in Hp as (k & -> & Hk%elem_of_seq). apply path_taken_spec, Hall. lia.
  - rewrite size_union_alt. apply Nat.add_le_mono_l, subseteq_size. set_solver.
Qed.

Lemma available_output_path_spec fs requested :
  ∃ p, available_output_path disk fs requested = Ok p ∧ path_taken disk fs p = false.
Proof.
  unfold available_output_path. destruct (path_taken disk fs requested) eqn:E; [|by exists requested].
  set (n := S (size fs + size (folders disk))).
  pose proof (first_free_spec n (path_taken disk fs) requested 0 ltac:(lia)) as Hff.
  destruct (first_free _ _ _ _) as [p|e].
  - destruct Hff as (j & Hj & -> & Hn & _). by eexists.
  - destruct Hff as [_ Hall]. pose proof (taken_bound fs requested n ltac:(intros; apply Hall; lia)). lia.
Qed.

(** The output path is always found and never in use: the requested one when
    it is free, otherwise the numbered name with the smallest free index, and
    that index is at most the number of files and directories. *)
Lemma available_output_path_correct fs requested :
  ∃ p, available_output_path disk fs requested = Ok p ∧ path_taken disk fs p = false ∧
    if path_taken disk fs requested
    then ∃ i, 0 <= i <= Z.of_nat (size fs + size (folders disk)) ∧ p = candidate requested i ∧
           ∀ k, 0 <= k < i → path_taken disk fs (candidate requested k) = true
    else p = requested.
Proof.
  destruct (available_output_path_spec fs requested) as (p & Hp & Hn). exists p.
  split; [done|]. split; [done|]. unfold available_output_path in Hp.
  destruct (path_taken disk fs requested); [|by injection Hp].
  set (n := S (size fs + size (folders disk))) in *.
  pose proof (first_free_spec n (path_taken disk fs) requested 0 ltac:(lia)) as Hff. rewrite Hp in Hff.
  destruct Hff as (j & Hj & -> & _ & Hall). exists j. split; [lia|]. by split.
Qed.
End Output.

(** ** Delivery *)

Lemma temporary_ne self p : temporary_path self p ≠ p.
Proof.
  unfold temporary_path. intros E%(f_equal (λ q, length q.2)). cbn [fst snd] in E.
  rewrite !length_app in E. change (length (lit ".")) with 1%nat in E. lia.
Qed.

Lemma validate_no_fuel path bs : validate_artifact path bs ≠ Err OutOfFuel.
Proof.
  unfold validate_artifact. case_match; [done|].
  destruct (unpack _UNSIGNED_LONG (take _ _)) as [[? ?]|]; [|done].
  destruct (unpack _UNSIGNED_LONG (drop _ _)) as [[? ?]|]; [|done].
  cbn [or_struct_error mbind result_bind]. by case_match.
Qed.

Section Delivery.
Context `{SetOrder} (self : Collector) (now : str) (disk : Disk).

(** The session a delivery runs *)
Definition fresh_session (w : World) : Session :=
  mkSession (w_channel w) (new_writer (new_file (quota disk) (syncs disk)) (0 <=? _str_repr_len self) true)
    (w_stats w) (w_warnings w) (w_progress w).

(** What [deliver] leaves of the files: on success the validated artifact
    under its final name and nothing under the temporary one. *)
Lemma deliver_run temporary final w :
  temporary ≠ final →
  match deliver self now disk temporary final w with
  | (Ok n, w') =>
      path_taken disk (files w) temporary = false ∧
      ∃ s, _capture self now (fresh_session w) = (Ok n, s) ∧
        validate_artifact (path_str temporary) (f_data (_file (writer s))) = Ok tt ∧
        files w' = <[final := f_data (_file (writer s))]> (files w)
  | (Err e, w') => delete temporary (files w') = delete temporary (files w) ∧ e ≠ OutOfFuel
  end.
Proof.
  intros Hne. unfold deliver, write_temporary.
  destruct (path_taken disk (files w) temporary) eqn:Hf.
  { erewrite bind_err by (cbv beta; by rewrite Hf, ?Hopen). by split. }
  destruct (open_error disk) as [reason|] eqn:Hopen.
  { erewrite bind_err by (cbv beta; by rewrite Hf, ?Hopen). by split. }
  destruct (_capture self now (fresh_session w)) as [[n|e] s] eqn:Hrun.
  - erewrite bind_ok by (cbv beta; rewrite Hf, ?Hopen; fold (fresh_session w); by rewrite Hrun).
    erewrite bind_ok by reflexivity. cbn [files]. rewrite lookup_insert_eq. cbn [default from_option id].
    destruct (validate_artifact _ _) as [[]|e] eqn:Hv.
    + erewrite bind_ok by reflexivity. destruct (replace_error disk) as [reason|] eqn:Hreplace.
      * erewrite bind_err by (unfold replace_file; cbn [files]; rewrite lookup_insert_eq, Hreplace; reflexivity).
        cbn [files]. by rewrite delete_insert_eq.
      * erewrite bind_ok by (unfold replace_file; cbn [files]; rewrite lookup_insert_eq, Hreplace; reflexivity).
        cbn. split; [done|]. exists s. split; [done|]. split; [done|].
        apply path_free in Hf as [Hf _]. by rewrite delete_insert_id.
    + erewrite bind_err by reflexivity. cbn [files]. rewrite delete_insert_eq. split; [done|].
      intros ->. by apply validate_no_fuel in Hv.
  - erewrite bind_err by (cbv beta; rewrite Hf, ?Hopen; fold (fresh_session w); by rewrite Hrun).
    cbn [files]. rewrite delete_insert_eq. split; [done|].
    apply capture_ends in Hrun. intros ->. done.
Qed.

(** What an abandoned delivery leaves: all other files, and of the temporary file
    nothing unless it cannot be removed. *)
Definition abandoned (temporary : Path) (fs fs' : Files) : Prop :=
  delete temporary fs' = delete temporary fs ∧
  (unlink_error disk = None → temporary ∉ folders disk → fs' = delete temporary fs).

(** What [capture] does to the files, with the session behind a delivery *)
Lemma capture_run output w :
  match capture self now disk output w with
  | (Ok (final, n), w') =>
      available_output_path disk (files w) output = Ok final ∧ path_taken disk (files w) final = false ∧
      ∃ s, _capture self now (fresh_session (mkWorld (files w) (w_channel w) new_capture_stats (w_warnings w)
                                               (w_progress w))) = (Ok n, s) ∧
        validate_artifact (path_str (temporary_path self final)) (f_data (_file (writer s))) = Ok tt ∧
        files w' = <[final := f_data (_file (writer s))]> (files w)
  | (Err e, w') =>
      e ≠ OutOfFuel ∧ ∃ final, available_output_path disk (files w) output = Ok final ∧
        abandoned (temporary_path self final) (files w) (files w')
  end.
Proof.
  destruct (available_output_path_spec disk (files w) output) as (final & Hfinal & Hfree).
  unfold capture. erewrite bind_ok by reflexivity. rewrite Hfinal.
  erewrite bind_ok by reflexivity. erewrite bind_ok by reflexivity.
  set (w1 := mkWorld _ _ _ _ _).
  pose proof (deliver_run (temporary_path self final) final w1 (temporary_ne self final)) as Hd.
  unfold finally, on_error, mbind, M_bind.
  destruct (deliver _ _ _ _ _ w1) as [[n|e] w2]; cbn.
  - destruct Hd as (_ & s & Hrun & Hv & Hfiles). split; [done|]. split; [done|]. by exists s.
  - destruct Hd as (Hfiles & He). unfold unlink, abandoned. cbn in Hfiles.
    destruct (unlink_error disk) as [reason|]; [|case_bool_decide]; cbn; (split; [done|]); exists final; (split; [done|]);
      [by split..|]. rewrite Hfiles. split; [by rewrite delete_delete_eq|done].
Qed.

(** C8: delivery is all or nothing. A session that ends with an exception,
    whichever it is, leaves the files as they were, less the temporary file
    unless that cannot be removed; one that succeeds adds exactly one file, a
    validated artifact, at a path where nothing was. No session is cut off. *)
Theorem capture_atomic output w :
  match capture self now disk output w with
  | (Ok (final, n), w') =>
      available_output_path disk (files w) output = Ok final ∧ path_taken disk (files w) final = false ∧
      ∃ contents, validate_artifact (path_str (temporary_path self final)) contents = Ok tt ∧
        files w' = <[final := contents]> (files w)
  | (Err e, w') =>
      e ≠ OutOfFuel ∧ ∃ final, available_output_path disk (files w) output = Ok final ∧
        abandoned (temporary_path self final) (files w) (files w')
  end.
Proof.
  pose proof (capture_run output w) as Hr. destruct (capture self now disk output w) as [[[final n]|e] w'].
  - destruct Hr as (? & ? & s & _ & ? & ?). eauto.
  - done.
Qed.

(** A successful session is delivered. *)
Lemma capture_delivers output w final n s contents :
  open_error disk = None → replace_error disk = None →
  available_output_path disk (files w) output = Ok final →
  path_taken disk (files w) (temporary_path self final) = false →
  _capture self now (fresh_session (mkWorld (files w) (w_channel w) new_capture_stats (w_warnings w)
                                      (w_progress w))) = (Ok n, s) →
  f_data (_file (writer s)) = contents →
  validate_artifact (path_str (temporary_path self final)) contents = Ok tt →
  ∃ w', capture self now disk output w = (Ok (final, n), w') ∧
    files w' = <[final := contents]> (files w) ∧ w_channel w' = channel s.
Proof.
  intros Hopen Hreplace Hfinal Htemp Hrun <- Hv. unfold capture. erewrite bind_ok by reflexivity. rewrite Hfinal.
  erewrite bind_ok by reflexivity. erewrite bind_ok by reflexivity.
  set (w1 := mkWorld _ _ _ _ _) in *.
  assert (∃ w2, deliver self now disk (temporary_path self final) final w1 = (Ok n, w2) ∧
            files w2 = <[final := f_data (_file (writer s))]> (files w) ∧ w_channel w2 = channel s)
    as (w2 & Hd & Hfiles & Hchannel).
  { unfold deliver, write_temporary.
    erewrite bind_ok by (cbv beta; cbn [files w1]; rewrite Htemp, Hopen; fold (fresh_session w1); by rewrite Hrun).
    erewrite bind_ok by reflexivity. cbn [files]. rewrite lookup_insert_eq. cbn [default from_option id].
    rewrite Hv. erewrite bind_ok by reflexivity.
    erewrite bind_ok by (unfold replace_file; cbn [files]; rewrite lookup_insert_eq, Hreplace; reflexivity).
    eexists. split; [reflexivity|]. cbn. apply path_free in Htemp as [Htemp _]. by rewrite delete_insert_id. }
  unfold finally, on_error, mbind, M_bind. rewrite Hd. cbn. eexists. split; [reflexivity|]. by split.
Qed.
End Delivery.

(** ** What a delivered artifact holds *)

Section Contents.
Context `{SetOrder} (self : Collector) (now : str).

Abbreviation with_str_repr := (0 <=? _str_repr_len self).

Lemma complete_consistent known objs types :
  complete known objs types → Forall (kind_agrees known) objs → consistent known objs types.
Proof. intros [_ ? _ ? ?] Hk. by constructor. Qed.

(** C6: whatever the Agent sends, an artifact that is delivered is complete: it
    is the encoding, in the documented layout, of a list of objects without
    repetitions that contains the well-known types and everything the objects
    mention, with a type table that names every object's type; the reported
    count is its length. The Collector does not check that an object's content is
    of the kind its type calls for; when it is for every object, the analyzer
    loads exactly that heap from the artifact. *)
Theorem delivered_artifact_complete disk output w final n w' :
  quota disk = None → syncs disk = true →
  capture self now disk output w = (Ok (final, n), w') →
  ∃ addresses objs types contents,
    files w' !! final = Some contents ∧
    contents = Artifact.artifact_bytes now with_str_repr (known_of addresses) [] objs types ∧
    complete (known_of addresses) objs types ∧ n = blen objs ∧
    (∀ a, a ∈ addresses → a ≠ 0 → a ∈ address <$> objs) ∧
    (Forall (kind_agrees (known_of addresses)) objs →
     HeapReader.load_heap contents
     = Ok (heap_back now with_str_repr (known_of addresses) [] objs types)).
Proof.
  intros Hquota Hsyncs Hcap. pose proof (capture_run self now disk output w) as Hr. rewrite Hcap in Hr.
  destruct Hr as (_ & _ & s & Hrun & _ & Hfiles).
  destruct (capture_run_complete self now with_str_repr true
              (fresh_session self disk _) _ _ ltac:(unfold fresh_session; cbn; by rewrite Hquota, Hsyncs) Hrun)
    as (addresses & objs & types & Hc & Hn & Hbytes & _ & Hknown).
  exists addresses, objs, types, (f_data (_file (writer s))). cbn. rewrite Hfiles, lookup_insert_eq.
  split; [done|]. split; [done|]. split; [done|]. split; [done|]. split; [done|].
  intros Hk. rewrite Hbytes. apply load_heap_artifact; [apply Hc|by apply complete_consistent].
Qed.

(** C4: an Agent that answers each message it is sent as the protocol asks is
    served to the end. For any finite heap, however the Agent's records are
    batched and its stream is cut, the Collector sends it the options, one request
    for each batch, and the end, and nothing else; the requests name each object
    reachable from the roots and the well-known types exactly once, in batches of
    at most the configured size; and the artifact of exactly those objects is
    delivered. *)
Theorem conforming_capture_delivered target A addresses root_lists U :
  conforming self target A addresses root_lists U →
  let batches := session_batches self target addresses root_lists U in
  let addrs := concat batches in
    Forall (λ batch, 0 < blen batch <= _batch_size self) batches ∧
    NoDup addrs ∧ (∀ x, x ∈ addrs ↔ reach target (session_roots addresses root_lists) x) ∧
    ∃ options, decode_options options = Ok (_str_repr_len self, _dump_attributes self) ∧
    ∀ folders w output final,
      connected A (length (session_messages options batches)) (w_channel w) →
      available_output_path (working folders) (files w) output = Ok final →
      path_taken (working folders) (files w) (temporary_path self final) = false →
      ∃ w', capture self now (working folders) output w = (Ok (final, blen addrs), w') ∧
        outbox (_socket (w_channel w')) =
          outbox (_socket (w_channel w)) ++ wire_of (session_messages options batches) ∧
        files w' = <[final := Artifact.artifact_bytes now with_str_repr (known_of addresses) []
                                (target <$> addrs) (session_types addresses (target <$> addrs))]> (files w).
Proof.
  intros Hc.
  destruct (conforming_session self now with_str_repr true target A addresses root_lists U Hc)
    as (Hbs & Hnd & Hall & options & Hopt & Hrun).
  cbv zeta. split; [done|]. split; [done|]. split; [done|]. exists options. split; [done|].
  intros folders w output final Hconn Hfinal Htemp.
  destruct (Hrun (fresh_session self (working folders) (mkWorld (files w) (w_channel w) new_capture_stats (w_warnings w)
                                     (w_progress w)))) as (s & Hs & Hsent & Hbytes); [done..|].
  destruct (capture_delivers self now (working folders) output w final _ s _ eq_refl eq_refl Hfinal Htemp Hs Hbytes
              (validate_artifact_bytes _ _ _ _ _ _ _)) as (w' & Hcap & Hfiles & Hchannel).
  exists w'. split; [done|]. split; [|done]. by rewrite Hchannel.
Qed.
End Contents.


Import Example.

(** What an error of the disk leaves: nothing, or the partial artifact where it
    cannot be removed *)
Example disk_errors :
  List.map (λ disk, let '(r, w) := @capture elements_order collector now disk output world in
              (r, bool_decide (files w = files world), elements (dom (files w))))
    [mkDisk (Some 100%nat) true None None None ∅; mkDisk None true (Some (lit "denied")) None None ∅;
     mkDisk None true None (Some (lit "denied")) None ∅;
     mkDisk None true None (Some (lit "denied")) (Some (lit "denied again")) ∅;
     working {[temporary_path collector (lit "/tmp", lit "heap.pyheap.0")]}]
  = [(Err (OSError (lit "No space left on device")), true, [output]); (Err (OSError (lit "denied")), true, [output]);
     (Err (OSError (lit "denied")), true, [output]);
     (Err (OSError (lit "denied again")), false, [output; temporary_path collector (lit "/tmp", lit "heap.pyheap.0")]);
     (Err (OSError (lit "Is a directory")), true, [output])].
Proof. vm_compute. reflexivity. Qed.

Lemma delivered_artifact_complete_witness :
  let r := @capture elements_order collector now (working ∅) output world in
  r.1 = Ok ((lit "/tmp", lit "heap.pyheap.0"), 14) ∧
  ∃ addresses objs types contents,
    files r.2 !! (lit "/tmp", lit "heap.pyheap.0") = Some contents ∧
    complete (known_of addresses) objs types ∧ 14 = blen objs ∧
    contents = Artifact.artifact_bytes now true (known_of addresses) [] objs types.
Proof.
  cbv zeta. destruct (@capture elements_order collector now (working ∅) output world) as [r w'] eqn:E.
  assert (r = Ok ((lit "/tmp", lit "heap.pyheap.0"), 14)) as ->.
  { change r with (r, w').1. rewrite <- E. vm_compute. reflexivity. }
  split; [reflexivity|].
  destruct (@delivered_artifact_complete elements_order collector now (working ∅) output world _ _ _ eq_refl eq_refl E)
    as (a & o & t & c & Hc & Hb & Ho & Hn & _).
  exists a, o, t, c. exact (conj Hc (conj Ho (conj Hn Hb))).
Defined.

Lemma conforming_capture_delivered_witness :
  let addrs := [0x100c; 0x100b; 0x100a; 0x1009; 0x1008; 0x1007; 0x1006; 0x1005; 0x1004; 0x1003; 0x1002; 0x1001; 0x1000;
                0x2000] in
  NoDup addrs ∧ (∀ x, x ∈ addrs ↔ reach target (session_roots addresses [[0x2000; 0]]) x) ∧
  ∃ options w', decode_options options = Ok (64, true) ∧
    @capture elements_order collector now (working ∅) output world = (Ok ((lit "/tmp", lit "heap.pyheap.0"), 14), w') ∧
    outbox (_socket (w_channel w')) = wire_of (session_messages options (example_batches 5)).
Proof.
  cbv zeta.
  destruct (@conforming_capture_delivered elements_order collector now target agent addresses [[0x2000; 0]]
              (list_to_set reachable) example_conforming) as (_ & Hnd & Hall & options & Hopt & Hrun).
  change (@session_batches elements_order collector target addresses [[0x2000; 0]] (list_to_set reachable))
    with (example_batches 5) in *.
  rewrite batches_of_five in *.
  split; [exact Hnd|]. split; [exact Hall|].
  destruct (Hrun ∅ world output (lit "/tmp", lit "heap.pyheap.0")) as (w' & Hw & Hsent & _).
  - exact (channel_connected 5).
  - vm_compute. reflexivity.
  - vm_compute. reflexivity.
  - exists options, w'. exact (conj Hopt (conj Hw Hsent)).
Defined.
