(* ===== verification/Cascade.v ===== *)
(** * What deleting a root releases

    The specification of retained heap, on an abstract reference graph: a
    cascade of deletions along references, and its relation to reachability. *)
From stdpp Require Import base tactics numbers list gmap sets fin_sets.
From S2P Require Import Prelude PyData.

(** ** The cascade *)

Section Cascade.
(** The references of an address, the number of references that have to go
    before it goes, and the addresses released first. *)
Context (succ : Z → gset Z) (need : Z → Z) (start : gset Z).

Inductive cascade : Z → Prop :=
| cascade_intro x (P : gset Z) :
    (x ∈ start ∨ P ≠ ∅) →
    (∀ p, p ∈ P → x ∈ succ p) → (∀ p, p ∈ P → cascade p) →
    need x <= Z.of_nat (size P) →
    cascade x.

(** The references to [x] from within [D] *)
Definition referrers (D : gset Z) (x : Z) : gset Z := filter (λ p, x ∈ succ p) D.

Lemma elem_of_referrers D x p : p ∈ referrers D x ↔ x ∈ succ p ∧ p ∈ D.
Proof. unfold referrers. by rewrite fin_sets.elem_of_filter. Qed.

(** A set is closed when the cascade cannot leave it. *)
Definition closed (D : gset Z) : Prop :=
  ∀ x, (x ∈ start ∨ referrers D x ≠ ∅) → need x <= Z.of_nat (size (referrers D x)) → x ∈ D.

Lemma cascade_closed D : closed D → ∀ x, cascade x → x ∈ D.
Proof.
  intros Hcl x Hx. induction Hx as [x P Hs Hp _ IH Hn].
  assert (P ⊆ referrers D x) as Hsub.
  { intros p Hin. apply elem_of_referrers. auto. }
  apply Hcl.
  - destruct Hs as [|HP]; [by left|right]. set_solver.
  - apply subseteq_size in Hsub. lia.
Qed.

Lemma cascade_extend (D : gset Z) x :
  (∀ d, d ∈ D → cascade d) → (x ∈ start ∨ referrers D x ≠ ∅) →
  need x <= Z.of_nat (size (referrers D x)) → cascade x.
Proof.
  intros HD Hs Hn. apply (cascade_intro x (referrers D x)); [done| | |done];
    intros p [? ?]%elem_of_referrers; auto.
Qed.

Lemma referrers_insert D x d :
  d ∉ D → size (referrers ({[d]} ∪ D) x) =
    ((if bool_decide (x ∈ succ d) then 1 else 0) + size (referrers D x))%nat.
Proof.
  intros Hd. unfold referrers. rewrite filter_union_L. case_bool_decide as Hx.
  - rewrite (filter_singleton_True_L (λ p, x ∈ succ p) d Hx).
    rewrite size_union, size_singleton; [done|].
    intros y Hy%elem_of_singleton [_ Hin]%fin_sets.elem_of_filter. congruence.
  - rewrite (filter_singleton_False_L (λ p, x ∈ succ p) d Hx). by rewrite union_empty_l_L.
  - apply _.
Qed.
End Cascade.

(** ** Objects reachable only through one of them *)

Section OnlyVia.
Context (edge : Z → Z → Prop) (a : Z).

(** [x] goes with [a]: it is [a], or it is referenced and everything that
    references it goes with [a]. *)
Inductive only_via : Z → Prop :=
| only_via_self : only_via a
| only_via_step x :
    (∃ p, edge p x) → (∀ p, edge p x → only_via p) → only_via x.

(** [x] can be reached from [r] without passing through [a]. *)
Inductive avoids : Z → Z → Prop :=
| avoids_here x : x ≠ a → avoids x x
| avoids_step r p x : avoids r p → edge p x → x ≠ a → avoids r x.

Lemma avoids_source r x : avoids r x → r ≠ a.
Proof. by induction 1. Qed.

Lemma avoids_only_via r x : avoids r x → only_via x → only_via r.
Proof.
  induction 1 as [x|r p x Hrp IH Hpx Hx]; [done|]. intros Hv.
  destruct Hv as [|x _ Hall]; [done|]. auto.
Qed.

(** [x] is dominated: no object without references to it reaches [x] but
    through [a]. *)
Definition dominated (x : Z) : Prop :=
  ∀ r, avoids r x → ∃ p, edge p r.

Lemma only_via_dominated x : only_via x → dominated x.
Proof.
  intros Hx r Hr. pose proof (avoids_source r x Hr) as Hra.
  destruct (avoids_only_via r x Hr Hx); done.
Qed.
End OnlyVia.

(** On an acyclic graph the cascade takes everything that is dominated. *)
Section Acyclic.
Context (edge : Z → Z → Prop) (a : Z).
Context (edge_wf : well_founded edge).

Lemma dominated_pred p x :
  edge p x → x ≠ a → dominated edge a x → dominated edge a p.
Proof. intros Hpx Hx Hd r Hr. apply Hd. by eapply avoids_step. Qed.

Lemma dominated_only_via x : dominated edge a x → only_via edge a x.
Proof.
  induction (edge_wf x) as [x _ IH]. intros Hd.
  destruct (decide (x = a)) as [->|Hx]; [constructor|].
  apply only_via_step.
  - apply Hd. by constructor.
  - intros p Hp. apply IH; [done|]. by eapply dominated_pred.
Qed.
End Acyclic.
