(* ===== verification/RetainedModel.v ===== *)
(** * The retained-heap calculation

    [analyzer/python/src/pydump_analyzer/retained.py]: [InboundReferences],
    [RetainedHeapCalculator] and the derived views.  Loops
    over a Python set follow the order of a [SetOrder]; a loop that Python runs
    until nothing changes takes fuel. *)
From stdpp Require Import base tactics numbers list gmap strings.
From S2P Require Import Prelude PyData Struct Text Errors HeapModel.

(** ** Inbound references *)

(** [self._inbound] *)
Abbreviation InboundReferences := (gmap Z (gset Z)).

(** [inbound.setdefault(referent, set()).add(address)] *)
Definition add_referrer (address : Z) (inbound : InboundReferences) (referent : Z)
  : InboundReferences :=
  <[referent := default ∅ (inbound !! referent) ∪ {[address]}]> inbound.

Definition setdefault_empty (inbound : InboundReferences) (address : Z) : InboundReferences :=
  <[address := default ∅ (inbound !! address)]> inbound.

(** [self._inbound[address]] *)
Definition inbound_of (inbound : InboundReferences) (address : Z) : result exc (gset Z) :=
  or_key_error (inbound !! address).

(** ** The result *)

Record RetainedHeap := mkRetainedHeap { r_objects : dict Z Z; r_threads : dict str Z }.

Definition get_for_object (r : RetainedHeap) (address : Z) : option Z := dict_get (r_objects r) address.
Definition get_for_thread (r : RetainedHeap) (thread_name : str) : result exc Z :=
  or_key_error (dict_get (r_threads r) thread_name).

(** ** Equality of threads

    The dataclass compares its fields; a frame's locals are a [dict], equal
    whatever the order of its entries. *)
Definition dict_eqb (d1 d2 : dict str Z) : bool :=
  (length d1 =? length d2)%nat
  && forallb (λ e, bool_decide (dict_get d2 e.1 = Some e.2)) d1.

Definition frame_eqb (f g : HeapThreadFrame) : bool :=
  bool_decide (file_name f = file_name g) && (line_number f =? line_number g)
  && bool_decide (function_name f = function_name g) && dict_eqb (locals f) (locals g).

Fixpoint list_eqb {A} (eqb : A → A → bool) (l1 l2 : list A) : bool :=
  match l1, l2 with
  | [], [] => true
  | x :: l1, y :: l2 => eqb x y && list_eqb eqb l1 l2
  | _, _ => false
  end.

Definition thread_eqb (t u : HeapThread) : bool :=
  bool_decide (name t = name u) && Bool.eqb (is_alive t) (is_alive u)
  && Bool.eqb (is_daemon t) (is_daemon u) && list_eqb frame_eqb (stack_trace t) (stack_trace u).

(** ** The calculator *)

Record RetainedHeapCalculator := mkCalculator {
  _subtree_roots : gset Z;
  _object_retained : dict Z Z;
  _thread_retained : dict str Z;
  _calculated : bool;
}.

Definition new_calculator : RetainedHeapCalculator := mkCalculator ∅ [] [] false.

(** The local variables of [_retained_heap] and [_delete_unreferenced] *)
Record Deletion := mkDeletion {
  d_front : list Z;
  d_view : gmap Z Z;
  d_deleted : gset Z;
  d_retained : Z;
  d_happened : bool;
}.

Section Calculator.
Context `{SetOrder} (heap : Heap).

Definition inbound_references : InboundReferences :=
  foldl (λ inbound '(address, obj),
    foldl (add_referrer address) (setdefault_empty inbound address) (set_iter (referents obj)))
    ∅ (objects heap).

Context (inbound : InboundReferences).

(** *** [_find_strict_subtrees] *)

Definition mark_subtree (address retained : Z) (self : RetainedHeapCalculator) :=
  mkCalculator (_subtree_roots self ∪ {[address]})
    (dict_set (_object_retained self) address retained)
    (_thread_retained self) (_calculated self).

(** The first loop: the leaves with at most one reference *)
Fixpoint find_leaves (objs : list (Z * HeapObject)) (self : RetainedHeapCalculator) (front : gset Z)
  : result exc (RetainedHeapCalculator * gset Z) :=
  match objs with
  | [] => mret (self, front)
  | (address, obj) :: objs =>
      if bool_decide (referents obj = ∅) then
        refs ← inbound_of inbound address;
        if (base.size refs <? 2)%nat
        then find_leaves objs (mark_subtree address (size obj) self) (front ∪ refs)
        else find_leaves objs self front
      else find_leaves objs self front
  end.

(** [sum(self._object_retained[referent] for referent in obj.referents)] *)
Fixpoint sum_retained (retained : dict Z Z) (addresses : list Z) : result exc Z :=
  match addresses with
  | [] => mret 0
  | address :: addresses =>
      v ← or_key_error (dict_get retained address);
      vs ← sum_retained retained addresses;
      mret (v + vs)
  end.

(** [for address in front] *)
Fixpoint visit_front (front : list Z) (self : RetainedHeapCalculator) (next_front : gset Z)
  : result exc (RetainedHeapCalculator * gset Z) :=
  match front with
  | [] => mret (self, next_front)
  | address :: front =>
      obj ← or_key_error (dict_get (objects heap) address);
      refs ← inbound_of inbound address;
      if (1 <? base.size refs)%nat then visit_front front self next_front
      else if bool_decide (referents obj ∖ _subtree_roots self ≠ ∅)
      then visit_front front self (next_front ∪ {[address]})
      else
        total ← sum_retained (_object_retained self) (set_iter (referents obj));
        visit_front front (mark_subtree address (size obj + total) self) (next_front ∪ refs)
  end.

Fixpoint climb (fuel : nat) (self : RetainedHeapCalculator) (front : gset Z)
  : result exc RetainedHeapCalculator :=
  match fuel with
  | O => Err OutOfFuel
  | S fuel =>
      '(self, next_front) ← visit_front (set_iter front) self ∅;
      if bool_decide (next_front = front) then mret self else climb fuel self next_front
  end.

Definition climb_fuel : nat := (length (objects heap) + 2) * (length (objects heap) + 4).

Definition _find_strict_subtrees (self : RetainedHeapCalculator) : result exc RetainedHeapCalculator :=
  '(self, front) ← find_leaves (objects heap) self ∅;
  climb climb_fuel self front.

(** *** [_retained_heap] *)

Fixpoint _decrement_inbound (addresses : list Z) (view : gmap Z Z) : result exc (gmap Z Z) :=
  match addresses with
  | [] => mret view
  | address :: addresses =>
      match view !! address with
      | Some v => _decrement_inbound addresses (<[address := v - 1]> view)
      | None =>
          refs ← inbound_of inbound address;
          _decrement_inbound addresses (<[address := Z.of_nat (base.size refs) - 1]> view)
      end
  end.

(** The body of the loop over the front, from [front.pop(index)] on *)
Definition delete_current (self : RetainedHeapCalculator) (use_subtrees : bool) (current : Z)
  (index : nat) (d : Deletion) : result exc Deletion :=
  let front := delete index (d_front d) in
  let deleted := d_deleted d ∪ {[current]} in
  if use_subtrees && bool_decide (current ∈ _subtree_roots self) then
    v ← or_key_error (dict_get (_object_retained self) current);
    mret (mkDeletion front (d_view d) deleted (d_retained d + v) true)
  else
    match dict_get (objects heap) current with
    | None => mret (mkDeletion front (d_view d) deleted (d_retained d) true)
    | Some obj =>
        let new_front := referents obj ∖ deleted in
        view ← _decrement_inbound (set_iter new_front) (d_view d);
        mret (mkDeletion (front ++ set_iter new_front) view deleted (d_retained d + size obj) true)
    end.

(** [for index in range(len(front) - 1, -1, -1)]: [index] positions are left. *)
Fixpoint _delete_unreferenced (self : RetainedHeapCalculator) (use_subtrees : bool) (index : nat)
  (d : Deletion) : result exc Deletion :=
  match index with
  | O => mret d
  | S index =>
      match d_front d !! index with
      | None => Err IndexError
      | Some current =>
          v ← or_key_error (d_view d !! current);
          if 0 <? v then mret d
          else if bool_decide (current ∈ d_deleted d)
          then _delete_unreferenced self use_subtrees index d
          else
            d ← delete_current self use_subtrees current index d;
            _delete_unreferenced self use_subtrees index d
      end
  end.

(** [front.sort(key=inbound_view.__getitem__, reverse=True)] *)
Definition sort_front (view : gmap Z Z) (front : list Z) : result exc (list Z) :=
  keyed ← map_result (λ address, v ← or_key_error (view !! address); mret (v, address)) front;
  mret (py_sort (λ x y, y.1 <=? x.1) keyed).*2.

Fixpoint retained_loop (fuel : nat) (self : RetainedHeapCalculator) (use_subtrees : bool)
  (d : Deletion) : result exc Z :=
  match fuel with
  | O => Err OutOfFuel
  | S fuel =>
      front ← sort_front (d_view d) (d_front d);
      d' ← _delete_unreferenced self use_subtrees (length front)
             (mkDeletion front (d_view d) (d_deleted d) (d_retained d) false);
      if d_happened d' then retained_loop fuel self use_subtrees d' else mret (d_retained d)
  end.

(** A deletion happens at most once for each address with inbound references. *)
Definition _retained_heap (self : RetainedHeapCalculator) (view : gmap Z Z) (front : list Z)
  (use_subtrees : bool) : result exc Z :=
  retained_loop (S (S (base.size (dom inbound)))) self use_subtrees (mkDeletion front view ∅ 0 false).

Definition _retained_heap_for_object (self : RetainedHeapCalculator) (address : Z) : result exc Z :=
  _retained_heap self {[address := 0]} [address] true.

(** *** [_calculate_threads] *)

(** [sum(address in thread.locals for thread in threads if thread != removed_thread)] *)
Definition pins (removed_thread : HeapThread) (address : Z) : Z :=
  zsum ((λ t, Z.b2z (bool_decide (address ∈ thread_locals t))) <$>
        filter (λ t, thread_eqb t removed_thread = false) (threads heap)).

Fixpoint thread_view (removed_thread : HeapThread) (addresses : list Z) (view : gmap Z Z)
  : result exc (gmap Z Z) :=
  match addresses with
  | [] => mret view
  | address :: addresses =>
      refs ← inbound_of inbound address;
      thread_view removed_thread addresses
        (<[address := Z.of_nat (base.size refs) + pins removed_thread address]> view)
  end.

Definition set_thread (thread_name : str) (v : Z) (self : RetainedHeapCalculator) :=
  mkCalculator (_subtree_roots self) (_object_retained self)
    (dict_set (_thread_retained self) thread_name v) (_calculated self).

Fixpoint _calculate_threads (ts : list HeapThread) (self : RetainedHeapCalculator)
  : result exc RetainedHeapCalculator :=
  match ts with
  | [] => mret self
  | t :: ts =>
      view ← thread_view t (set_iter (thread_locals t)) ∅;
      v ← _retained_heap self view (set_iter (thread_locals t)) false;
      _calculate_threads ts (set_thread (name t) v self)
  end.

(** *** [calculate] *)

Definition set_object (address v : Z) (self : RetainedHeapCalculator) :=
  mkCalculator (_subtree_roots self) (dict_set (_object_retained self) address v)
    (_thread_retained self) (_calculated self).

Fixpoint calculate_objects (addresses : list Z) (self : RetainedHeapCalculator)
  : result exc RetainedHeapCalculator :=
  match addresses with
  | [] => mret self
  | address :: addresses =>
      v ← _retained_heap_for_object self address;
      calculate_objects addresses (set_object address v self)
  end.

Definition calculate (self : RetainedHeapCalculator)
  : result exc (RetainedHeap * RetainedHeapCalculator) :=
  if _calculated self then Err (ValueError (lit "retained heap is already calculated"))
  else
    self ← _find_strict_subtrees self;
    self ← calculate_objects (dict_keys (objects heap)) self;
    self ← _calculate_threads (threads heap) self;
    mret (mkRetainedHeap (_object_retained self) (_thread_retained self),
          mkCalculator (_subtree_roots self) (_object_retained self) (_thread_retained self) true).
End Calculator.

(** [RetainedHeapCalculator(heap, InboundReferences(heap)).calculate()] *)
Definition calculate_retained `{SetOrder} (heap : Heap) : result exc RetainedHeap :=
  fst <$> calculate heap (inbound_references heap) new_calculator.

(** ** Derived views *)

Definition objects_sorted_by_retained_heap (heap : Heap) (retained : RetainedHeap) : list (Z * Z) :=
  py_sort (λ x y, y.2 <=? x.2)
    ((λ address, (address, default 0 (get_for_object retained address))) <$> dict_keys (objects heap)).

Definition total_heap_size (heap : Heap) : Z := zsum (size <$> dict_values (objects heap)).
