(* ===== verification/Deletions.v ===== *)
(** * One deletion run computes one cascade

    [_retained_heap] of retained.py, for any view and with or without the
    subtree shortcut: it terminates, raises nothing and adds up the weights of
    exactly the addresses of the cascade. *)
From stdpp Require Import base tactics numbers list gmap sets fin_sets.
From S2P Require Import Prelude PyData Errors HeapModel Cascade RetainedModel.

(** ** The reference graph of a heap *)

Definition references (heap : Heap) (a : Z) : gset Z :=
  match dict_get (objects heap) a with Some obj => referents obj | None => ∅ end.

Definition shallow (heap : Heap) (a : Z) : Z :=
  match dict_get (objects heap) a with Some obj => size obj | None => 0 end.

(** [a] refers to [x]. *)
Definition refers (heap : Heap) (a x : Z) : Prop := x ∈ references heap a.

(** What the calculator relies on: the index lists exactly the referrers of
    every address the heap mentions. *)
Class InboundIndex (heap : Heap) (inbound : InboundReferences) : Prop := {
  inbound_dom : ∀ x, is_Some (inbound !! x) ↔ x ∈ dict_keys (objects heap) ∨ ∃ a, refers heap a x;
  inbound_elem : ∀ x S, inbound !! x = Some S → ∀ a, a ∈ S ↔ refers heap a x;
}.

(** How many objects refer to [x] *)
Definition inbound_count (inbound : InboundReferences) (x : Z) : Z :=
  Z.of_nat (base.size (default ∅ (inbound !! x))).

Lemma lookup_in_front {A} (l : list A) i x : l !! i = Some x → x ∈ l.
Proof. apply list_elem_of_lookup_2. Qed.

Section Run.
Context `{SetOrder} (heap : Heap) (inbound : InboundReferences) `{!InboundIndex heap inbound}.
Context (self : RetainedHeapCalculator) (use_subtrees : bool) (view0 : gmap Z Z).

Definition shortcut (x : Z) : bool := use_subtrees && bool_decide (x ∈ _subtree_roots self).

(** The graph and the weights the run works with: a subtree root stands for
    its whole subtree. *)
Definition run_succ (x : Z) : gset Z := if shortcut x then ∅ else references heap x.
Definition run_weight (x : Z) : Z :=
  if shortcut x then default 0 (dict_get (_object_retained self) x) else shallow heap x.
Definition run_need (x : Z) : Z := default (inbound_count inbound x) (view0 !! x).

Context (roots_known : ∀ x, shortcut x = true → is_Some (dict_get (_object_retained self) x)).
Context (view0_known : ∀ x, x ∈ dom view0 → is_Some (inbound !! x)).

Abbreviation run_cascade := (cascade run_succ run_need (dom view0)).
Abbreviation count := (referrers run_succ).

Record run_inv (d : Deletion) : Prop := {
  ri_front : ∀ x, x ∈ d_front d → x ∈ dom (d_view d);
  ri_pending : ∀ x, x ∈ dom (d_view d) → x ∉ d_deleted d → x ∈ d_front d;
  ri_dom : ∀ x, x ∈ dom (d_view d) ↔ x ∈ dom view0 ∨ count (d_deleted d) x ≠ ∅;
  ri_deleted : d_deleted d ⊆ dom (d_view d);
  ri_view : ∀ x v, x ∉ d_deleted d → d_view d !! x = Some v →
              v = run_need x - Z.of_nat (base.size (count (d_deleted d) x));
  ri_zero : ∀ x v, x ∈ d_deleted d → d_view d !! x = Some v → v <= 0;
  ri_cascade : ∀ x, x ∈ d_deleted d → run_cascade x;
  ri_retained : d_retained d = gsum run_weight (d_deleted d);
}.

Lemma run_succ_known x y : y ∈ run_succ x → is_Some (inbound !! y).
Proof.
  unfold run_succ. destruct (shortcut x); [set_solver|]. intros Hy.
  apply inbound_dom. right. by exists x.
Qed.

(** *** [_decrement_inbound] *)

Lemma decrement_spec addresses view :
  NoDup addresses → (∀ x, x ∈ addresses → is_Some (inbound !! x)) →
  ∃ view', _decrement_inbound inbound addresses view = Ok view' ∧
    ∀ x, view' !! x = if decide (x ∈ addresses)
                      then Some (default (inbound_count inbound x) (view !! x) - 1)
                      else view !! x.
Proof.
  intros Hnd. revert view. induction Hnd as [|a addresses Ha Hnd IH]; intros view Hin.
  { exists view. split; [done|]. intros x. by rewrite decide_False by set_solver. }
  cbn [_decrement_inbound].
  assert (∃ refs, inbound !! a = Some refs) as [refs Hrefs] by (apply Hin; by left).
  assert (∀ w, w = default (inbound_count inbound a) (view !! a) - 1 →
    ∃ view', _decrement_inbound inbound addresses (<[a := w]> view) = Ok view' ∧
      ∀ x, view' !! x = if decide (x ∈ a :: addresses)
                        then Some (default (inbound_count inbound x) (view !! x) - 1)
                        else view !! x) as Hrest.
  { intros w ->.
    destruct (IH (<[a := default (inbound_count inbound a) (view !! a) - 1]> view))
      as (view' & Hrun & Hv); [intros; apply Hin; by right|].
    exists view'. split; [done|]. intros x. rewrite Hv.
    destruct (decide (x = a)) as [->|Hxa].
    - rewrite decide_False by done. by rewrite lookup_insert_eq, decide_True by (by left).
    - rewrite lookup_insert_ne by done.
      destruct (decide (x ∈ addresses)); [rewrite decide_True by (by right)|
        rewrite decide_False by (by intros [?|?]%elem_of_cons)]; done. }
  destruct (view !! a) as [v|] eqn:Hva; [by apply Hrest|].
  unfold inbound_of. rewrite Hrefs. cbn [or_key_error mbind result_bind]. apply Hrest.
  unfold inbound_count. by rewrite Hrefs.
Qed.

(** *** Deleting one address *)

Section OneDeletion.
Context (d : Deletion) (current : Z) (index : nat).
Context (Hd : run_inv d) (Hidx : d_front d !! index = Some current).
Context (Hnew : current ∉ d_deleted d).

Definition released : gset Z := run_succ current ∖ (d_deleted d ∪ {[current]}).

Lemma count_after x :
  base.size (count (d_deleted d ∪ {[current]}) x) =
  ((if bool_decide (x ∈ run_succ current) then 1 else 0) + base.size (count (d_deleted d) x))%nat.
Proof. rewrite (union_comm_L (d_deleted d)). by apply referrers_insert. Qed.

Lemma count_nonempty D x : count D x ≠ ∅ ↔ ∃ p, p ∈ D ∧ x ∈ run_succ p.
Proof.
  split.
  - intros (p & Hp)%set_choose_L. apply elem_of_referrers in Hp. naive_solver.
  - intros (p & Hp & Hx) E. apply (not_elem_of_empty (C:=gset Z) p). rewrite <- E.
    by apply elem_of_referrers.
Qed.

(** The view after the references of [current] are gone *)
Definition view_after (view' : gmap Z Z) : Prop :=
  ∀ x, view' !! x = if decide (x ∈ released)
                    then Some (default (inbound_count inbound x) (d_view d !! x) - 1)
                    else d_view d !! x.

Lemma view_after_dom view' x :
  view_after view' → x ∈ dom view' ↔ x ∈ dom (d_view d) ∨ x ∈ released.
Proof.
  intros Hv. rewrite !elem_of_dom, Hv. destruct (decide (x ∈ released)); [|tauto].
  split; [tauto|]. intros _. eauto.
Qed.

Lemma fresh_count x : d_view d !! x = None → count (d_deleted d) x = ∅ ∧ view0 !! x = None.
Proof.
  intros Hx%not_elem_of_dom. rewrite (ri_dom d Hd) in Hx. split.
  - destruct (decide (count (d_deleted d) x = ∅)); [done|tauto].
  - apply not_elem_of_dom. tauto.
Qed.

Lemma delete_inv v view' front' retained' :
  d_view d !! current = Some v → v <= 0 → view_after view' →
  (∀ x, x ∈ front' ↔ x ∈ delete index (d_front d) ∨ x ∈ released) →
  retained' = d_retained d + run_weight current →
  run_inv (mkDeletion front' view' (d_deleted d ∪ {[current]}) retained' true).
Proof.
  intros Hcur Hv Hview Hfront Hret.
  pose proof (delete_Permutation _ _ _ Hidx) as Hperm.
  assert (current ∈ dom (d_view d)) as Hcurdom by (by apply elem_of_dom).
  constructor; cbn [d_front d_view d_deleted d_retained].
  - intros x Hx%Hfront. rewrite view_after_dom by done.
    destruct Hx as [Hx|]; [left|by right]. apply (ri_front d Hd). rewrite Hperm. by right.
  - intros x Hx Hxd. apply Hfront. rewrite view_after_dom in Hx by done.
    destruct Hx as [Hx|]; [left|by right].
    assert (x ∈ d_front d) as Hin by (apply (ri_pending d Hd); set_solver).
    rewrite Hperm in Hin. apply elem_of_cons in Hin. set_solver.
  - intros x. rewrite view_after_dom, (ri_dom d Hd), !count_nonempty by done.
    unfold released. split.
    + intros [[|(p & ? & ?)]|Hx]; [by left|right; exists p; set_solver|].
      right. exists current. set_solver.
    + intros [|(p & Hp & Hx)]; [by do 2 left|].
      apply elem_of_union in Hp as [Hp|Hp%elem_of_singleton]; [left; right; eauto|]. subst p.
      destruct (decide (x ∈ d_deleted d ∪ {[current]})) as [Hxd|]; [|right; set_solver].
      left. rewrite <- count_nonempty, <- (ri_dom d Hd).
      pose proof (ri_deleted d Hd). set_solver.
  - intros x Hx. rewrite view_after_dom by done. pose proof (ri_deleted d Hd). set_solver.
  - intros x w Hx Hw. rewrite Hview in Hw. rewrite count_after.
    assert (x ∈ released ↔ x ∈ run_succ current) as Hrel by (unfold released; set_solver).
    destruct (decide (x ∈ released)) as [Hr|Hr].
    + rewrite bool_decide_true by tauto. injection Hw as <-.
      destruct (d_view d !! x) as [u|] eqn:Hu; cbn [from_option id].
      * rewrite (ri_view d Hd x u) by (set_solver || done). lia.
      * apply fresh_count in Hu as [-> Hu]. unfold run_need. rewrite Hu, size_empty. cbn. lia.
    + rewrite bool_decide_false by tauto. apply (ri_view d Hd x w); [set_solver|done].
  - intros x w Hx Hw. rewrite Hview, decide_False in Hw by (unfold released; set_solver).
    apply elem_of_union in Hx as [Hx|Hx%elem_of_singleton]; [by eapply (ri_zero d Hd)|].
    subst x. congruence.
  - intros x [Hx|Hx%elem_of_singleton]%elem_of_union; [by apply (ri_cascade d Hd)|]. subst x.
    apply (cascade_extend _ _ _ (d_deleted d)); [apply (ri_cascade d Hd)|by apply (ri_dom d Hd)|].
    pose proof (ri_view d Hd current v Hnew Hcur). lia.
  - rewrite (union_comm_L (d_deleted d)), gsum_insert by done.
    rewrite Hret, (ri_retained d Hd). lia.
Qed.

Lemma delete_current_spec v :
  d_view d !! current = Some v → v <= 0 →
  ∃ d', delete_current heap inbound self use_subtrees current index d = Ok d' ∧ run_inv d' ∧
    d_happened d' = true ∧ d_deleted d' = d_deleted d ∪ {[current]} ∧
    ∀ j, (j < index)%nat → d_front d' !! j = d_front d !! j.
Proof.
  intros Hcur Hv. unfold delete_current. fold (shortcut current).
  assert (index < length (d_front d))%nat as Hlen by (by eapply lookup_lt_Some).
  assert (∀ l j, (j < index)%nat → (delete index (d_front d) ++ l) !! j = d_front d !! j) as Hlook.
  { intros l j Hj. rewrite lookup_app_l by (rewrite length_delete by eauto; lia).
    by apply list_lookup_delete_lt. }
  assert (run_succ current = ∅ → ∀ w, w = run_weight current →
    ∃ d', @Ok exc _ (mkDeletion (delete index (d_front d)) (d_view d) (d_deleted d ∪ {[current]})
            (d_retained d + w) true) = Ok d' ∧ run_inv d' ∧
    d_happened d' = true ∧ d_deleted d' = d_deleted d ∪ {[current]} ∧
    ∀ j, (j < index)%nat → d_front d' !! j = d_front d !! j) as Hleaf.
  { intros Hempty w ->. eexists. split; [done|]. split; [|split; [done|split; [done|]]].
    - assert (released = ∅) as E by (unfold released; rewrite Hempty; set_solver).
      eapply delete_inv; [exact Hcur|done| | |done].
      + intros x. rewrite E. by rewrite decide_False by set_solver.
      + intros x. rewrite E. set_solver.
    - intros j Hj. cbn. by apply list_lookup_delete_lt. }
  destruct (shortcut current) eqn:Hsc.
  { destruct (roots_known current Hsc) as [o Ho]. rewrite Ho. cbn [or_key_error mbind result_bind].
    apply Hleaf; [unfold run_succ; by rewrite Hsc|]. unfold run_weight. by rewrite Hsc, Ho. }
  destruct (dict_get (objects heap) current) as [obj|] eqn:Hobj.
  2:{ rewrite <- (Z.add_0_r (d_retained d)). apply Hleaf.
      - unfold run_succ, references. by rewrite Hsc, Hobj.
      - unfold run_weight, shallow. by rewrite Hsc, Hobj. }
  assert (run_succ current = referents obj) as Hsucc.
  { unfold run_succ, references. by rewrite Hsc, Hobj. }
  assert (referents obj ∖ (d_deleted d ∪ {[current]}) = released) as Hrel
    by (unfold released; by rewrite Hsucc).
  rewrite Hrel.
  destruct (decrement_spec (set_iter released) (d_view d)) as (view' & Hrun & Hview).
  { apply NoDup_set_iter. }
  { intros x Hx%elem_of_set_iter. apply (run_succ_known current). unfold released in Hx. set_solver. }
  rewrite Hrun. cbn [mbind result_bind]. eexists. split; [done|].
  split; [|split; [done|split; [done|intros j Hj; cbn; by apply Hlook]]].
  eapply delete_inv; [exact Hcur|done| | |].
  - intros x. rewrite Hview. pose proof (elem_of_set_iter released x).
    by destruct (decide (x ∈ set_iter released)), (decide (x ∈ released)); try tauto.
  - intros x. by rewrite elem_of_app, elem_of_set_iter.
  - unfold run_weight, shallow. by rewrite Hsc, Hobj.
Qed.
End OneDeletion.

(** *** One pass *)

(** Nothing at or before the last position looked at can go: the positions
    behind hold deleted addresses only. *)
Definition quiet (d : Deletion) (index : nat) : Prop :=
  ∃ k, (k <= index)%nat ∧
    (∀ j x, (k <= j < index)%nat → d_front d !! j = Some x → x ∈ d_deleted d) ∧
    (k = 0%nat ∨ ∃ x v, d_front d !! (k - 1)%nat = Some x ∧ d_view d !! x = Some v ∧ 0 < v).

Lemma delete_pass index d :
  run_inv d → (index <= length (d_front d))%nat →
  ∃ d', _delete_unreferenced heap inbound self use_subtrees index d = Ok d' ∧ run_inv d' ∧
    ((d' = d ∧ quiet d index) ∨
     (d_happened d' = true ∧ (base.size (d_deleted d) < base.size (d_deleted d'))%nat)).
Proof.
  revert d. induction index as [|index IH]; intros d Hd Hlen; cbn [_delete_unreferenced].
  { exists d. split; [done|]. split; [done|]. left. split; [done|].
    exists 0%nat. split; [done|]. split; [lia|by left]. }
  destruct (lookup_lt_is_Some_2 (d_front d) index) as [current Hidx]; [lia|]. rewrite Hidx.
  pose proof (ri_front d Hd current (lookup_in_front _ _ _ Hidx)) as [v Hv]%elem_of_dom.
  rewrite Hv. cbn [or_key_error mbind result_bind].
  destruct (Z.ltb_spec 0 v) as [Hpos|Hpos].
  { exists d. split; [done|]. split; [done|]. left. split; [done|].
    exists (S index). split; [done|]. split; [lia|]. right. exists current, v.
    by replace (S index - 1)%nat with index by lia. }
  case_bool_decide as Hdel.
  { destruct (IH d Hd) as (d' & Hrun & Hd' & [[-> Hq]|Hgrow]); [lia| |].
    - exists d. split; [done|]. split; [done|]. left. split; [done|].
      destruct Hq as (k & Hk & Hall & Hend). exists k. split; [lia|]. split; [|done].
      intros j x Hj Hx. destruct (decide (j = index)) as [->|]; [congruence|].
      apply (Hall j x); [lia|done].
    - exists d'. split; [done|]. split; [done|]. by right. }
  destruct (delete_current_spec d current index Hd Hidx Hdel v Hv) as
    (d1 & Hrun1 & Hd1 & Hhap & Hdel1 & Hfront); [lia|].
  rewrite Hrun1. cbn [mbind result_bind].
  assert (index <= length (d_front d1))%nat as Hlen1.
  { destruct index as [|i]; [lia|]. assert (is_Some (d_front d1 !! i)) as Hi%lookup_lt_is_Some; [|lia].
    rewrite Hfront by lia. apply lookup_lt_is_Some. lia. }
  assert (base.size (d_deleted d) < base.size (d_deleted d1))%nat as Hsize.
  { rewrite Hdel1, size_union, size_singleton by set_solver. lia. }
  destruct (IH d1 Hd1 Hlen1) as (d' & Hrun & Hd' & Hcase).
  exists d'. split; [done|]. split; [done|]. right.
  destruct Hcase as [[-> _]|[??]]; [done|split; [done|lia]].
Qed.

(** *** Sorting the front *)

Definition keyed (view : gmap Z Z) (x : Z) : Z * Z := (default 0 (view !! x), x).

Lemma map_result_Ok {A B} (f : A → result exc B) (g : A → B) xs :
  (∀ x, x ∈ xs → f x = Ok (g x)) → map_result f xs = Ok (g <$> xs).
Proof.
  induction xs as [|x xs IH]; intros Hf; [done|]. cbn [map_result].
  rewrite Hf by (by left). cbn [mbind result_bind].
  rewrite IH by (intros; apply Hf; by right). done.
Qed.

Lemma sort_front_spec view front :
  (∀ x, x ∈ front → x ∈ dom view) →
  ∃ front', sort_front view front = Ok front' ∧ front' ≡ₚ front ∧
    ∀ i j x y u v, (i < j)%nat → front' !! i = Some x → front' !! j = Some y →
      view !! x = Some u → view !! y = Some v → v <= u.
Proof.
  intros Hdom. unfold sort_front.
  rewrite (map_result_Ok _ (keyed view)).
  2:{ intros x Hx. apply Hdom, elem_of_dom in Hx as [v Hv]. unfold keyed. by rewrite Hv. }
  cbn [mbind result_bind]. set (le := λ x y : Z * Z, y.1 <=? x.1).
  exists (py_sort le (keyed view <$> front)).*2. split; [done|].
  pose proof (py_sort_perm le (keyed view <$> front)) as Hperm.
  assert (py_sort le (keyed view <$> front) = keyed view <$> (py_sort le (keyed view <$> front)).*2) as Hkey.
  { assert (Forall (λ p, p = keyed view p.2) (py_sort le (keyed view <$> front))) as Hall.
    { rewrite Hperm. apply Forall_fmap, Forall_true. done. }
    rewrite <- list_fmap_compose. clear Hperm. induction Hall as [|p l Hp Hl IH]; [done|].
    cbn. f_equal; [exact Hp|exact IH]. }
  split.
  - rewrite Hperm, <- list_fmap_compose. by rewrite list_fmap_id.
  - intros i j x y u v Hij Hi Hj Hu Hv.
    pose proof (py_sort_sorted le (keyed view <$> front)) as Hsorted.
    rewrite Hkey in Hsorted.
    pose proof (StronglySorted_lookup _ _ i j (keyed view x) (keyed view y) Hsorted Hij) as Hle.
    rewrite (list_lookup_fmap (keyed view) _ i), (list_lookup_fmap (keyed view) _ j), Hi, Hj in Hle.
    specialize (Hle eq_refl eq_refl). unfold le, keyed in Hle. cbn in Hle.
    rewrite Hu, Hv in Hle. by apply Z.leb_le in Hle.
Qed.

(** *** Running to the end *)

Definition settled (d : Deletion) : Prop :=
  ∀ x v, x ∉ d_deleted d → d_view d !! x = Some v → 0 < v.

Lemma quiet_settled d :
  run_inv d → quiet d (length (d_front d)) →
  (∀ i j x y u v, (i < j)%nat → d_front d !! i = Some x → d_front d !! j = Some y →
     d_view d !! x = Some u → d_view d !! y = Some v → v <= u) →
  settled d.
Proof.
  intros Hd (k & Hk & Hall & Hend) Hsorted x v Hx Hv.
  assert (x ∈ d_front d) as Hin by (apply (ri_pending d Hd); [by apply elem_of_dom|done]).
  apply list_elem_of_lookup in Hin as [i Hi].
  assert (i < length (d_front d))%nat as Hlt by (by eapply lookup_lt_Some).
  destruct (decide (k <= i)%nat) as [|Hik].
  { exfalso. apply Hx. by apply (Hall i); [lia|]. }
  destruct Hend as [->|(y & w & Hy & Hw & Hpos)]; [lia|].
  destruct (decide (i = (k - 1)%nat)) as [->|]; [congruence|].
  assert (w <= v); [|lia]. apply (Hsorted i (k - 1)%nat x y); [lia|done..].
Qed.

Lemma settled_closed d : run_inv d → settled d → closed run_succ run_need (dom view0) (d_deleted d).
Proof.
  intros Hd Hset x Hx Hn. destruct (decide (x ∈ d_deleted d)) as [|Hnot]; [done|].
  apply (ri_dom d Hd), elem_of_dom in Hx as [v Hv].
  pose proof (ri_view d Hd x v Hnot Hv). pose proof (Hset x v Hnot Hv). lia.
Qed.

Lemma settled_cascade d :
  run_inv d → settled d → ∀ x, x ∈ d_deleted d ↔ run_cascade x.
Proof.
  intros Hd Hset x. split; [apply (ri_cascade d Hd)|].
  intros Hx. by eapply cascade_closed; [apply settled_closed|].
Qed.

Lemma run_inv_known d : run_inv d → d_deleted d ⊆ dom inbound.
Proof.
  intros Hd x Hx. apply elem_of_dom. apply (ri_deleted d Hd), (ri_dom d Hd) in Hx as [Hx|Hx].
  - by apply view0_known.
  - apply count_nonempty in Hx as (p & _ & Hp). by eapply run_succ_known.
Qed.

(** Sorting and resetting the flag keep the invariant. *)
Lemma run_inv_front d front' happened :
  run_inv d → front' ≡ₚ d_front d →
  run_inv (mkDeletion front' (d_view d) (d_deleted d) (d_retained d) happened).
Proof.
  intros Hd Hp. constructor; cbn [d_front d_view d_deleted d_retained]; try by apply Hd.
  - intros x. rewrite Hp. apply Hd.
  - intros x. rewrite Hp. apply Hd.
Qed.

Lemma retained_loop_spec fuel d :
  run_inv d → (base.size (dom inbound) - base.size (d_deleted d) < fuel)%nat →
  ∃ D, retained_loop heap inbound fuel self use_subtrees d = Ok (gsum run_weight D) ∧
       ∀ x, x ∈ D ↔ run_cascade x.
Proof.
  revert d. induction fuel as [|fuel IH]; intros d Hd Hfuel; [lia|]. cbn [retained_loop].
  destruct (sort_front_spec (d_view d) (d_front d) (ri_front d Hd)) as (front' & Hs & Hp & Hsorted).
  rewrite Hs. cbn [mbind result_bind].
  set (d0 := mkDeletion front' _ _ _ false).
  assert (run_inv d0) as Hd0 by (by apply run_inv_front).
  destruct (delete_pass (length front') d0 Hd0) as (d' & Hrun & Hd' & Hcase); [done|].
  rewrite Hrun. cbn [mbind result_bind].
  destruct Hcase as [[-> Hq]|[Hhap Hgrow]].
  - cbn [d_happened d0]. exists (d_deleted d). split.
    + by rewrite (ri_retained d Hd).
    + apply (settled_cascade d0 Hd0). apply quiet_settled; [done|exact Hq|exact Hsorted].
  - rewrite Hhap. apply IH; [done|].
    pose proof (subseteq_size _ _ (run_inv_known d' Hd')). cbn [d0 d_deleted] in Hgrow. lia.
Qed.

Lemma run_inv_start front :
  (∀ x, x ∈ front ↔ x ∈ dom view0) → run_inv (mkDeletion front view0 ∅ 0 false).
Proof.
  intros Hf. constructor; cbn [d_front d_view d_deleted d_retained].
  - intros x. by rewrite Hf.
  - intros x. by rewrite Hf.
  - intros x. rewrite count_nonempty. set_solver.
  - set_solver.
  - intros x v _ Hv. unfold run_need. rewrite Hv. cbn [from_option id default].
    replace (count ∅ x) with (∅ : gset Z); [rewrite size_empty; lia|].
    apply set_eq. intros p. rewrite elem_of_referrers. set_solver.
  - set_solver.
  - set_solver.
  - by rewrite gsum_empty.
Qed.

(** [_retained_heap] is the weight of the cascade. *)
Lemma retained_heap_spec front :
  (∀ x, x ∈ front ↔ x ∈ dom view0) →
  ∃ D, _retained_heap heap inbound self view0 front use_subtrees = Ok (gsum run_weight D) ∧
       ∀ x, x ∈ D ↔ run_cascade x.
Proof.
  intros Hf. apply retained_loop_spec; [by apply run_inv_start|]. cbn [d_deleted]. lia.
Qed.
End Run.
