(* ===== verification/Subtrees.v ===== *)
(** * Strict subtrees

    [_find_strict_subtrees] of retained.py: the loop terminates, and what it
    collects are exactly the objects whose whole reference tree is referenced
    from nowhere else, each with the weight of its tree. *)
From stdpp Require Import base tactics numbers list gmap sets fin_sets.
From S2P Require Import Prelude PyData Errors HeapModel Cascade RetainedModel Deletions.

(** An object referenced at most once whose references are strict subtrees *)
Inductive strict_subtree (heap : Heap) (inbound : InboundReferences) : Z → Prop :=
| strict_subtree_intro x :
    x ∈ dict_keys (objects heap) → inbound_count inbound x <= 1 →
    (∀ c, c ∈ references heap x → strict_subtree heap inbound c) →
    strict_subtree heap inbound x.

Section Subtrees.
Context `{SetOrder} (heap : Heap) (inbound : InboundReferences) `{!InboundIndex heap inbound}.

Abbreviation is_object x := (x ∈ dict_keys (objects heap)).
Abbreviation count := (inbound_count inbound).
Abbreviation refs := (references heap).

Definition value (self : RetainedHeapCalculator) (x : Z) : Z :=
  default 0 (dict_get (_object_retained self) x).

(** The roots in the order they were found: each after everything it
    references *)
Definition root_order (self : RetainedHeapCalculator) : list Z := dict_keys (_object_retained self).

Record forest (self : RetainedHeapCalculator) : Prop := {
  fo_roots : ∀ x, x ∈ _subtree_roots self ↔ x ∈ root_order self;
  fo_wf : NoDup (root_order self);
  fo_root : ∀ i r, root_order self !! i = Some r →
    is_object r ∧ count r <= 1 ∧
    ∀ c, c ∈ refs r → ∃ j, (j < i)%nat ∧ root_order self !! j = Some c;
  fo_value : ∀ r, r ∈ _subtree_roots self →
    value self r = shallow heap r + gsum (value self) (refs r);
}.

Lemma object_get x : is_object x ↔ ∃ obj, dict_get (objects heap) x = Some obj.
Proof. unfold dict_keys. rewrite <- dict_get_is_Some. done. Qed.

Lemma object_refs x obj :
  dict_get (objects heap) x = Some obj → refs x = referents obj ∧ shallow heap x = size obj.
Proof. intros Hx. unfold references, shallow. by rewrite Hx. Qed.

Lemma inbound_object x :
  is_object x → ∃ S, inbound !! x = Some S ∧ count x = Z.of_nat (base.size S) ∧
                    ∀ a, a ∈ S ↔ refers heap a x.
Proof.
  intros Hx. assert (is_Some (inbound !! x)) as [S HS] by (apply inbound_dom; by left).
  exists S. split; [done|]. unfold inbound_count. rewrite HS. split; [done|]. by apply inbound_elem.
Qed.

Lemma refers_object a x : refers heap a x → is_object a.
Proof.
  unfold refers, references. intros Hx. apply object_get.
  destruct (dict_get (objects heap) a); [eauto|set_solver].
Qed.

Lemma root_facts self r :
  forest self → r ∈ _subtree_roots self →
  is_object r ∧ count r <= 1 ∧ refs r ⊆ _subtree_roots self.
Proof.
  intros Hf Hr. apply (fo_roots self Hf) in Hr as Hin.
  apply list_elem_of_lookup in Hin as [i Hi].
  destruct (fo_root self Hf i r Hi) as (Ho & Hc & Hrefs). split; [done|]. split; [done|].
  intros c Hcin. destruct (Hrefs c Hcin) as (j & _ & Hj).
  apply (fo_roots self Hf). by eapply lookup_in_front.
Qed.

Lemma forest_length self : forest self → (length (root_order self) <= length (objects heap))%nat.
Proof.
  intros Hf. rewrite <- (length_fmap fst (objects heap)).
  apply submseteq_length, NoDup_submseteq; [apply (fo_wf self Hf)|].
  intros x [i Hi]%list_elem_of_lookup. by destruct (fo_root self Hf i x Hi).
Qed.

Lemma forest_new : forest new_calculator.
Proof. constructor; cbn; [set_solver|constructor|intros i r Hi; by rewrite lookup_nil in Hi|set_solver]. Qed.

(** *** Marking a subtree root *)

Definition ready (self : RetainedHeapCalculator) (x : Z) : Prop :=
  is_object x ∧ count x <= 1 ∧ refs x ⊆ _subtree_roots self.

Lemma mark_old self x :
  forest self → x ∈ _subtree_roots self →
  mark_subtree x (shallow heap x + gsum (value self) (refs x)) self = self.
Proof.
  intros Hf Hx. rewrite <- (fo_value self Hf x Hx). unfold mark_subtree.
  rewrite dict_set_id.
  - destruct self as [roots o t c]. cbn in *. f_equal. set_solver.
  - unfold value. apply (fo_roots self Hf) in Hx. unfold root_order, dict_keys in Hx.
    apply dict_get_is_Some in Hx as [v Hv]. by rewrite Hv.
Qed.

Lemma mark_new self x :
  forest self → x ∉ _subtree_roots self → ready self x →
  let self' := mark_subtree x (shallow heap x + gsum (value self) (refs x)) self in
  forest self' ∧ root_order self' = root_order self ++ [x].
Proof.
  intros Hf Hx (Ho & Hc & Hrefs). cbv zeta.
  set (v := shallow heap x + _). set (self' := mark_subtree x v self).
  assert (x ∉ root_order self) as Hnew by (by rewrite <- (fo_roots self Hf)).
  assert (_object_retained self' = _object_retained self ++ [(x, v)]) as Hret
    by (unfold self', mark_subtree; cbn; by rewrite dict_set_new).
  assert (root_order self' = root_order self ++ [x]) as Hord.
  { unfold root_order, dict_keys. rewrite Hret, fmap_app. done. }
  assert (∀ c, c ≠ x → value self' c = value self c) as Hval.
  { intros c Hcx. unfold value, self'. cbn. by rewrite dict_get_set_ne. }
  split; [|done]. constructor.
  - intros y. rewrite Hord, elem_of_app, list_elem_of_singleton, <- (fo_roots self Hf).
    unfold self'. cbn. set_solver.
  - rewrite Hord. apply NoDup_app. split; [apply (fo_wf self Hf)|].
    split; [set_solver|apply NoDup_singleton].
  - intros i r Hi. rewrite Hord in Hi |- *.
    assert (∀ c j, root_order self !! j = Some c → (root_order self ++ [x]) !! j = Some c) as Hext.
    { intros c j Hj. rewrite lookup_app_l; [done|]. by eapply lookup_lt_Some. }
    apply lookup_app_Some in Hi as [Hi|[Hlen Hi]].
    + destruct (fo_root self Hf i r Hi) as (? & ? & Hr). split; [done|]. split; [done|].
      intros c Hcin. destruct (Hr c Hcin) as (j & ? & ?). exists j. auto.
    + apply list_lookup_singleton_Some in Hi as [Hi ->]. split; [done|]. split; [done|].
      intros c Hcin%Hrefs%(fo_roots self Hf).
      apply list_elem_of_lookup in Hcin as [j Hj]. exists j. split; [|by apply Hext].
      apply lookup_lt_Some in Hj. lia.
  - assert (∀ r, refs r ⊆ _subtree_roots self → gsum (value self') (refs r) = gsum (value self) (refs r))
      as Hsum.
    { intros r Hr. apply gsum_ext. intros c Hcin. apply Hval. set_solver. }
    intros r Hr. destruct (decide (r = x)) as [->|Hrx].
    + rewrite Hsum by done. unfold value at 1, self'. cbn. by rewrite dict_get_set_eq.
    + assert (r ∈ _subtree_roots self) as Hr' by (unfold self' in Hr; cbn in Hr; set_solver).
      rewrite Hval, Hsum by (done || by apply root_facts). by apply fo_value.
Qed.

Lemma sum_retained_spec retained (addresses : list Z) :
  (∀ c, c ∈ addresses → is_Some (dict_get retained c)) →
  sum_retained retained addresses = Ok (zsum ((λ c, default 0 (dict_get retained c)) <$> addresses)).
Proof.
  induction addresses as [|a addresses IH]; intros Hin; [done|]. cbn [sum_retained].
  destruct (Hin a) as [v Hv]; [by left|]. rewrite Hv. cbn [or_key_error mbind result_bind].
  rewrite IH by (intros; apply Hin; by right). cbn. by rewrite Hv.
Qed.

Lemma sum_roots self x :
  forest self → refs x ⊆ _subtree_roots self →
  sum_retained (_object_retained self) (set_iter (refs x)) = Ok (gsum (value self) (refs x)).
Proof.
  intros Hf Hx. rewrite sum_retained_spec, zsum_set_iter; [done|].
  intros c Hc%elem_of_set_iter%Hx%(fo_roots self Hf).
  by apply dict_get_is_Some.
Qed.

(** *** One visit of the front *)

(** [self'] has the roots of [self] and some of those in [front]. *)
Definition grows (self self' : RetainedHeapCalculator) (front : list Z) : Prop :=
  ∃ extra, root_order self' = root_order self ++ extra ∧ (∀ x, x ∈ extra → x ∈ front)
           ∧ (extra = [] → self' = self)
           ∧ _thread_retained self' = _thread_retained self ∧ _calculated self' = _calculated self.

Lemma grows_roots self self' front x :
  forest self → forest self' → grows self self' front →
  x ∈ _subtree_roots self → x ∈ _subtree_roots self'.
Proof.
  intros Hf Hf' (extra & Ho & _). rewrite (fo_roots self Hf), (fo_roots self' Hf'), Ho. set_solver.
Qed.

Lemma grows_old self self' front x :
  forest self → forest self' → grows self self' front →
  x ∈ _subtree_roots self' → x ∉ front → x ∈ _subtree_roots self.
Proof.
  intros Hf Hf' (extra & Ho & He & _). rewrite (fo_roots self Hf), (fo_roots self' Hf'), Ho. set_solver.
Qed.

Lemma mark_ready self x :
  forest self → ready self x →
  let self' := mark_subtree x (shallow heap x + gsum (value self) (refs x)) self in
  forest self' ∧ x ∈ _subtree_roots self' ∧ grows self self' [x].
Proof.
  intros Hf Hx. cbv zeta. destruct (decide (x ∈ _subtree_roots self)) as [Hin|Hin].
  - rewrite mark_old by done. split; [done|]. split; [done|]. exists [].
    rewrite app_nil_r. split; [done|]. split; [set_solver|done].
  - destruct (mark_new self x Hf Hin Hx) as [Hf' Ho]. split; [done|].
    split; [cbn; set_solver|]. exists [x]. repeat split; done.
Qed.

Lemma grows_trans self1 self2 self3 front1 front2 :
  grows self1 self2 front1 → grows self2 self3 front2 → grows self1 self3 (front1 ++ front2).
Proof.
  intros (e1 & Ho1 & He1 & Hn1 & ? & ?) (e2 & Ho2 & He2 & Hn2 & ? & ?). exists (e1 ++ e2).
  split; [by rewrite Ho2, Ho1, app_assoc|]. split; [set_solver|].
  split; [intros [-> ->]%app_nil; rewrite Hn2, Hn1; done|]. split; congruence.
Qed.

Lemma grows_refl self : grows self self [].
Proof. exists []. rewrite app_nil_r. repeat split; set_solver. Qed.

(** What a visit leaves for the next round: the candidates that were not
    ready, and the referrers of the roots it met. *)
Definition next_of (self' : RetainedHeapCalculator) (front : list Z) (y : Z) : Prop :=
  (y ∈ front ∧ count y <= 1 ∧ y ∉ _subtree_roots self')
  ∨ ∃ x, x ∈ front ∧ x ∈ _subtree_roots self' ∧ refers heap y x.

Lemma next_of_cons self' a front y :
  next_of self' (a :: front) y ↔
  (y = a ∧ count a <= 1 ∧ a ∉ _subtree_roots self')
  ∨ (a ∈ _subtree_roots self' ∧ refers heap y a) ∨ next_of self' front y.
Proof.
  unfold next_of. split.
  - intros [(Hy & ? & ?)|(x & Hx & ? & ?)].
    + apply elem_of_cons in Hy as [->|]; [by left|right; right; by left].
    + apply elem_of_cons in Hx as [->|]; [right; by left|right; right; right; eauto].
  - intros [(-> & ? & ?)|[[? ?]|[(? & ? & ?)|(x & ? & ? & ?)]]].
    + left. split; [by left|done].
    + right. exists a. split; [by left|done].
    + left. split; [by right|done].
    + right. exists x. split; [by right|done].
Qed.

Lemma grows_weaken self self' front front' :
  grows self self' front → (∀ x, x ∈ front → x ∈ front') → grows self self' front'.
Proof. intros (e & ? & ? & ?) Hsub. exists e. split; [done|]. split; [auto|done]. Qed.

Lemma visit_front_spec front self next :
  forest self → NoDup front → (∀ x, x ∈ front → is_object x) →
  ∃ self' next', visit_front heap inbound front self next = Ok (self', next') ∧
    forest self' ∧ grows self self' front ∧
    (∀ y, y ∈ next' ↔ y ∈ next ∨ next_of self' front y) ∧
    (∀ x, x ∈ front → count x <= 1 → refs x ⊆ _subtree_roots self → x ∈ _subtree_roots self').
Proof.
  intros Hf Hnd. revert self next Hf. induction Hnd as [|a front Ha Hnd IH]; intros self next Hf Hobj.
  { exists self, next. split; [done|]. split; [done|]. split; [apply grows_refl|].
    split; [unfold next_of; set_solver|set_solver]. }
  cbn [visit_front].
  assert (is_object a) as Hao by (apply Hobj; by left).
  destruct (proj1 (object_get a) Hao) as [obj Hget]. rewrite Hget. cbn [or_key_error mbind result_bind].
  destruct (object_refs a obj Hget) as [Hrefs Hsize].
  destruct (inbound_object a Hao) as (S & HS & Hcount & Helem).
  unfold inbound_of. rewrite HS. cbn [or_key_error mbind result_bind].
  assert (∀ x, x ∈ front → is_object x) as Hobj' by (intros; apply Hobj; by right).
  destruct (Nat.ltb_spec 1 (base.size S)) as [Hmany|Hfew].
  { (* referenced more than once: dropped *)
    destruct (IH self next Hf Hobj') as (self' & next' & Hrun & Hf' & Hg & Hnext & Hready).
    assert (a ∉ _subtree_roots self') as Hnot by (intros Hin; apply root_facts in Hin; [lia|done]).
    exists self', next'. split; [done|]. split; [done|].
    split; [eapply grows_weaken; [exact Hg|intros; by right]|]. split.
    - intros y. rewrite Hnext, next_of_cons. split; [tauto|].
      intros [|[(_ & ? & _)|[[? _]|]]]; [tauto|lia|done|tauto].
    - intros x [->|Hx]%elem_of_cons; [lia|by apply Hready]. }
  case_bool_decide as Hrest.
  { (* not ready: kept *)
    destruct (IH self (next ∪ {[a]}) Hf Hobj') as (self' & next' & Hrun & Hf' & Hg & Hnext & Hready).
    assert (¬ refs a ⊆ _subtree_roots self) as Hnr by (rewrite Hrefs; set_solver).
    assert (a ∉ _subtree_roots self') as Hnot.
    { intros Hin. pose proof (grows_old self self' front a Hf Hf' Hg Hin Ha) as Hin'.
      apply root_facts in Hin' as (_ & _ & ?); done. }
    exists self', next'. split; [done|]. split; [done|].
    split; [eapply grows_weaken; [exact Hg|intros; by right]|]. split.
    - intros y. rewrite Hnext, next_of_cons, elem_of_union, elem_of_singleton. split.
      + intros [[| ->]|]; [tauto| |tauto]. right. left. split; [done|]. split; [lia|done].
      + intros [|[(-> & _)|[[? _]|]]]; [tauto|tauto|done|tauto].
    - intros x [->|Hx]%elem_of_cons; [done|by apply Hready]. }
  (* ready: a subtree root *)
  assert (referents obj ⊆ _subtree_roots self) as Hsub.
  { intros c Hc. destruct (decide (c ∈ _subtree_roots self)); [done|]. set_solver. }
  rewrite <- Hrefs in Hsub |- *. rewrite sum_roots by done. cbn [mbind result_bind]. rewrite <- Hsize.
  destruct (mark_ready self a Hf) as (Hf1 & Hin1 & Hg1); [by split; [|split; [lia|]]|].
  set (self1 := mark_subtree _ _ self) in *.
  destruct (IH self1 (next ∪ S) Hf1 Hobj') as (self' & next' & Hrun & Hf' & Hg & Hnext & Hready).
  pose proof (grows_roots self1 self' front a Hf1 Hf' Hg Hin1) as Hin.
  exists self', next'. split; [done|]. split; [done|].
  split; [exact (grows_trans self self1 self' [a] front Hg1 Hg)|]. split.
  - intros y. rewrite Hnext, next_of_cons, elem_of_union, Helem. split; [tauto|].
    intros [|[(_ & _ & ?)|[[_ ?]|]]]; [tauto|done|tauto|tauto].
  - intros x [->|Hx]%elem_of_cons Hc Hr; [done|]. apply Hready; [done|done|].
    intros c Hcin%Hr. by eapply grows_roots; [exact Hf| |exact Hg1|].
Qed.

(** *** The leaves *)

(** Every referrer of a root is in the front. *)
Definition covered (self : RetainedHeapCalculator) (front : gset Z) : Prop :=
  ∀ r y, r ∈ _subtree_roots self → refers heap y r → y ∈ front.

Lemma find_leaves_spec objs self front :
  forest self → covered self front → (∀ y, y ∈ front → is_object y) →
  (∀ a obj, (a, obj) ∈ objs → dict_get (objects heap) a = Some obj) →
  ∃ self' front', find_leaves inbound objs self front = Ok (self', front') ∧
    forest self' ∧ grows self self' objs.*1 ∧ covered self' front' ∧
    (∀ y, y ∈ front' → is_object y) ∧
    (∀ a obj, (a, obj) ∈ objs → refs a = ∅ → count a <= 1 → a ∈ _subtree_roots self').
Proof.
  revert self front. induction objs as [|[a obj] objs IH]; intros self front Hf Hcov Hobj Hin.
  { exists self, front. split_and!; try done; [apply grows_refl|set_solver]. }
  cbn [find_leaves].
  assert (dict_get (objects heap) a = Some obj) as Hget by (apply Hin; by left).
  assert (∀ b o, (b, o) ∈ objs → dict_get (objects heap) b = Some o) as Hin' by (intros; apply Hin; by right).
  destruct (object_refs a obj Hget) as [Hrefs Hsize].
  assert (is_object a) as Hao by (apply object_get; eauto).
  destruct (inbound_object a Hao) as (S & HS & Hcount & Helem).
  assert ((refs a = ∅ → count a <= 1 → False) →
    ∃ self' front', find_leaves inbound objs self front = Ok (self', front') ∧
      forest self' ∧ grows self self' ((a, obj) :: objs).*1 ∧ covered self' front' ∧
      (∀ y, y ∈ front' → is_object y) ∧
      (∀ b o, (b, o) ∈ (a, obj) :: objs → refs b = ∅ → count b <= 1 → b ∈ _subtree_roots self')) as Hskip.
  { intros Hno. destruct (IH self front Hf Hcov Hobj Hin') as (self' & front' & Hrun & Hf' & Hg & Hc & Ho & Hl).
    exists self', front'. split; [done|]. split; [done|].
    split; [eapply grows_weaken; [exact Hg|intros; by right]|]. split; [done|]. split; [done|].
    intros b o [[= -> ->]|Hb]%elem_of_cons; [intros; exfalso; auto|by eapply Hl]. }
  case_bool_decide as Hempty; [|apply Hskip; by rewrite Hrefs].
  unfold inbound_of. rewrite HS. cbn [or_key_error mbind result_bind].
  destruct (Nat.ltb_spec (base.size S) 2) as [Hfew|]; [|apply Hskip; lia].
  rewrite Hempty in Hrefs.
  destruct (mark_ready self a Hf) as (Hf1 & Hin1 & Hg1); [split; [done|split; [lia|set_solver]]|].
  rewrite Hrefs, gsum_empty, Z.add_0_r, Hsize in Hf1, Hin1, Hg1.
  set (self1 := mark_subtree _ _ self) in *.
  destruct (IH self1 (front ∪ S) Hf1) as (self' & front' & Hrun & Hf' & Hg & Hc & Ho & Hl); [| |done|].
  - intros r y Hr Hy. apply elem_of_union. destruct (decide (r = a)) as [->|Hra]; [right; by apply Helem|].
    left. apply (Hcov r); [|done]. eapply (grows_old self self1 [a]); [exact Hf|exact Hf1|exact Hg1|exact Hr|set_solver].
  - intros y [Hy|Hy]%elem_of_union; [by apply Hobj|]. apply Helem in Hy. by eapply refers_object.
  - exists self', front'. split; [done|]. split; [done|].
    split; [exact (grows_trans self self1 self' [a] objs.*1 Hg1 Hg)|]. split; [done|]. split; [done|].
    intros b o [[= -> ->]|Hb]%elem_of_cons; [|by eapply Hl]. intros _ _.
    exact (grows_roots self1 self' objs.*1 a Hf1 Hf' Hg Hin1).
Qed.

(** *** Climbing *)

(** Candidates with a root below them wait in the front. *)
Definition waiting (self : RetainedHeapCalculator) (front : gset Z) : Prop :=
  ∀ x c, is_object x → count x <= 1 → x ∉ _subtree_roots self →
    c ∈ refs x → c ∈ _subtree_roots self → x ∈ front.

Definition leaves_found (self : RetainedHeapCalculator) : Prop :=
  ∀ x, is_object x → refs x = ∅ → count x <= 1 → x ∈ _subtree_roots self.

(** Nothing is left to find. *)
Definition saturated (self : RetainedHeapCalculator) : Prop :=
  ∀ x, ready self x → x ∈ _subtree_roots self.

(** After [k] rounds without a new root the front holds none of the first [k]
    roots, and in the end only candidates that are not ready. *)
Definition quiet_rounds (k : nat) (self : RetainedHeapCalculator) (front : gset Z) : Prop :=
  (∀ i r, (i < k)%nat → root_order self !! i = Some r → r ∉ front)
  ∧ ((length (objects heap) < k)%nat → ∀ y, y ∈ front → count y <= 1).

Section Round.
Context (self self' : RetainedHeapCalculator) (front next : gset Z).
Context (Hf : forest self) (Hf' : forest self') (Hg : grows self self' (set_iter front)).
Context (Hnext : ∀ y, y ∈ next ↔ next_of self' (set_iter front) y).
Context (Hready : ∀ x, x ∈ set_iter front → count x <= 1 → refs x ⊆ _subtree_roots self →
                       x ∈ _subtree_roots self').

Lemma round_waiting : waiting self front → waiting self' next.
Proof.
  intros Hw x c Ho Hc Hx Hcin Hcroot. apply Hnext.
  destruct (decide (c ∈ set_iter front)) as [Hcf|Hcf].
  - right. by exists c.
  - left. split; [|done]. apply elem_of_set_iter, (Hw x c Ho Hc); [|done|].
    + intros Hin. apply Hx. exact (grows_roots _ _ _ _ Hf Hf' Hg Hin).
    + exact (grows_old _ _ _ _ Hf Hf' Hg Hcroot Hcf).
Qed.

Lemma round_objects : (∀ y, y ∈ front → is_object y) → ∀ y, y ∈ next → is_object y.
Proof.
  intros Ho y [[Hy _]|(x & _ & _ & Hy)]%Hnext.
  - by apply Ho, elem_of_set_iter.
  - by eapply refers_object.
Qed.

Lemma round_stable_roots i r : next = front → root_order self' !! i = Some r → r ∉ front.
Proof.
  intros E. revert r. induction i as [i IH] using lt_wf_ind. intros r Hi Hin.
  rewrite <- E in Hin. apply Hnext in Hin as [(_ & _ & Hr)|(x & Hx & _ & Hrx)].
  - apply Hr, (fo_roots self' Hf'). by eapply lookup_in_front.
  - destruct (fo_root self' Hf' i r Hi) as (_ & _ & Hbelow).
    destruct (Hbelow x Hrx) as (j & Hj & Hjx). apply (IH j Hj x Hjx). by apply elem_of_set_iter.
Qed.

Lemma round_saturated :
  next = front → leaves_found self → waiting self front → saturated self'.
Proof.
  intros E Hl Hw x (Ho & Hc & Hr). destruct (decide (x ∈ _subtree_roots self')) as [|Hx]; [done|].
  assert (∀ c, c ∈ _subtree_roots self' → c ∈ _subtree_roots self) as Hsame.
  { intros c Hc'. eapply grows_old; [exact Hf|exact Hf'|exact Hg|done|].
    rewrite elem_of_set_iter. apply (fo_roots self' Hf') in Hc' as [i Hi]%list_elem_of_lookup.
    by eapply round_stable_roots. }
  assert (x ∉ _subtree_roots self) as Hx0 by (intros Hin; exact (Hx (grows_roots _ _ _ _ Hf Hf' Hg Hin))).
  destruct (decide (refs x = ∅)) as [Hempty|[c Hcin]%set_choose_L].
  - exfalso. apply Hx0. by apply Hl.
  - apply Hready; [apply elem_of_set_iter, (Hw x c); auto|done|]. intros d Hd. auto.
Qed.

Lemma round_quiet k :
  self' = self → (k <= length (objects heap))%nat →
  quiet_rounds k self front → quiet_rounds (S k) self next.
Proof.
  intros E Hk [Hq _]. split.
  - intros i r Hi Hr [(_ & _ & Hnot)|(x & Hx & Hxr & Hrx)]%Hnext.
    + rewrite E in Hnot. apply Hnot, (fo_roots self Hf). by eapply lookup_in_front.
    + destruct (fo_root self Hf i r Hr) as (_ & _ & Hbelow). destruct (Hbelow x Hrx) as (j & Hj & Hjx).
      apply (Hq j x); [lia|done|by apply elem_of_set_iter].
  - intros Hlt y [(_ & Hc & _)|(x & Hx & Hxr & _)]%Hnext; [done|exfalso].
    rewrite E in Hxr. apply (fo_roots self Hf) in Hxr as [i Hi]%list_elem_of_lookup.
    apply (Hq i x); [|done|by apply elem_of_set_iter].
    pose proof (forest_length self Hf). apply lookup_lt_Some in Hi. lia.
Qed.

Lemma round_stop k :
  self' = self → (length (objects heap) < k)%nat → quiet_rounds k self front → next = front.
Proof.
  intros E Hk [Hq Hc].
  assert (∀ x, x ∈ front → x ∉ _subtree_roots self) as Hnone.
  { intros x Hx [i Hi]%(fo_roots self Hf)%list_elem_of_lookup.
    apply (Hq i x); [|done|done]. pose proof (forest_length self Hf). apply lookup_lt_Some in Hi. lia. }
  apply set_eq. intros y. rewrite Hnext, E. unfold next_of. rewrite elem_of_set_iter. split.
  - intros [[? _]|(x & Hx & Hxr & _)]; [done|]. exfalso. eapply Hnone; [|done]. by apply elem_of_set_iter.
  - intros Hy. left. auto.
Qed.
End Round.

Lemma climb_spec fuel k self front :
  forest self → (∀ y, y ∈ front → is_object y) → leaves_found self → waiting self front →
  quiet_rounds k self front → (k <= S (length (objects heap)))%nat →
  ((length (objects heap) - length (root_order self)) * (length (objects heap) + 3)
   + (length (objects heap) + 2 - k) < fuel)%nat →
  ∃ self', climb heap inbound fuel self front = Ok self' ∧ forest self' ∧ saturated self' ∧
    _thread_retained self' = _thread_retained self ∧ _calculated self' = _calculated self.
Proof.
  revert k self front. induction fuel as [|fuel IH]; intros k self front Hf Hobj Hl Hw Hq Hk Hfuel; [by apply Nat.nlt_0_r in Hfuel|].
  cbn [climb]. set (n := length (objects heap)) in *.
  destruct (visit_front_spec (set_iter front) self ∅ Hf (NoDup_set_iter front)) as
    (self' & next & Hrun & Hf' & Hg & Hnext & Hready).
  { intros x Hx%elem_of_set_iter. by apply Hobj. }
  rewrite Hrun. cbn [mbind result_bind].
  assert (∀ y, y ∈ next ↔ next_of self' (set_iter front) y) as Hnext'.
  { intros y. rewrite Hnext. set_solver. }
  pose proof Hg as (extra & Hord & Hextra & Hsame & Hthr & Hcal).
  case_bool_decide as Hstop.
  { exists self'. split; [done|]. split; [done|]. split; [|by rewrite Hthr, Hcal].
    exact (round_saturated self self' front next Hf Hf' Hg Hnext' Hready Hstop Hl Hw). }
  assert (waiting self' next) as Hw' by 
    by exact (round_waiting self self' front next Hf Hf' Hg Hnext' Hw).
  assert (∀ y, y ∈ next → is_object y) as Hobj' by by exact (round_objects self' front next Hnext' Hobj).
  assert (leaves_found self') as Hl'.
  { intros x Ho He Hc. apply (grows_roots _ _ _ _ Hf Hf' Hg). by apply Hl. }
  rewrite <- Hthr, <- Hcal.
  destruct extra as [|e extra].
  - specialize (Hsame eq_refl). destruct (decide (k <= n)%nat) as [Hkn|Hkn].
    + apply (IH (S k)); try done; [|lia|rewrite Hord, app_nil_r; lia].
      rewrite Hsame in Hnext' |- *. exact (round_quiet self self front next Hf Hnext' k eq_refl Hkn Hq).
    + exfalso. apply Hstop. apply (round_stop self self' front next Hf Hnext' k Hsame); [unfold n in *; lia|done].
  - apply (IH 0%nat); try done; [|lia|].
    + split; [lia|]. intros ?. lia.
    + pose proof (forest_length self' Hf') as Hlen. rewrite Hord, length_app in Hlen |- *.
      cbn [length] in *. fold n in Hlen.
      assert (n - (length (root_order self) + S (length extra)) < n - length (root_order self))%nat by lia.
      nia.
Qed.

Lemma find_strict_subtrees_spec :
  dict_wf (objects heap) →
  ∃ self, _find_strict_subtrees heap inbound new_calculator = Ok self ∧ forest self ∧
    saturated self ∧ _thread_retained self = [] ∧ _calculated self = false.
Proof.
  intros Hwf. unfold _find_strict_subtrees.
  destruct (find_leaves_spec (objects heap) new_calculator ∅ forest_new)
    as (self & front & Hrun & Hf & Hg & Hcov & Hobj & Hl).
  - intros r y Hr. cbn in Hr. set_solver.
  - set_solver.
  - intros a obj Hin. by apply dict_elem_get.
  - rewrite Hrun. cbn [mbind result_bind].
    destruct (climb_spec (climb_fuel heap) 0 self front) as (self' & Hc & Hf' & Hs & Ht & Hcal).
    + done.
    + done.
    + intros x [obj Hx]%object_get Hr Hc. eapply Hl; [|done|done]. by apply dict_get_elem.
    + intros x c _ _ _ Hc Hroot. by apply (Hcov c x).
    + split; [lia|]. intros ?. lia.
    + lia.
    + unfold climb_fuel. nia.
    + exists self'. destruct Hg as (_ & _ & _ & _ & Ht0 & Hc0).
      split; [done|]. split; [done|]. split; [done|]. by rewrite Ht, Hcal, Ht0, Hc0.
Qed.

Lemma forest_strict self r :
  forest self → r ∈ _subtree_roots self → strict_subtree heap inbound r.
Proof.
  intros Hf Hr. apply (fo_roots self Hf) in Hr as [i Hi]%list_elem_of_lookup.
  revert r Hi. induction i as [i IH] using lt_wf_ind. intros r Hi.
  destruct (fo_root self Hf i r Hi) as (Ho & Hc & Hbelow). constructor; [done|done|].
  intros c (j & Hj & Hcj)%Hbelow. by apply (IH j Hj).
Qed.

Lemma saturated_strict self x :
  saturated self → strict_subtree heap inbound x → x ∈ _subtree_roots self.
Proof. intros Hs. induction 1 as [x Ho Hc _ IH]. apply Hs. split; [done|]. split; [done|]. exact IH. Qed.
End Subtrees.
