(* ===== verification/Retained.v ===== *)
(** * Retained heap is what its specification says

    The inbound index is correct, the subtree shortcut changes no result, and
    [calculate] gives every object and every thread the bytes of its cascade. *)
From stdpp Require Import base tactics numbers list gmap sets fin_sets strings.
From S2P Require Import Prelude PyData Text Errors HeapModel Cascade RetainedModel Deletions Subtrees.

(** ** The inbound index *)

Section Inbound.
Context `{SetOrder} (heap : Heap).

Definition index_of (inbound : InboundReferences) (x : Z) : gset Z := default ∅ (inbound !! x).

Lemma add_referrers_spec address l inbound x :
  let inbound' := foldl (add_referrer address) inbound l in
  (is_Some (inbound' !! x) ↔ is_Some (inbound !! x) ∨ x ∈ l) ∧
  (∀ a, a ∈ index_of inbound' x ↔ a ∈ index_of inbound x ∨ (a = address ∧ x ∈ l)).
Proof.
  cbv zeta. revert inbound. induction l as [|y l IH]; intros inbound; cbn [foldl]; [set_solver|].
  destruct (IH (add_referrer address inbound y)) as [IH1 IH2].
  assert ((is_Some (add_referrer address inbound y !! x) ↔ is_Some (inbound !! x) ∨ x = y) ∧
          (∀ a, a ∈ index_of (add_referrer address inbound y) x ↔
                a ∈ index_of inbound x ∨ (a = address ∧ x = y))) as [H1 H2].
  { unfold add_referrer, index_of. destruct (decide (x = y)) as [->|Hxy].
    - rewrite lookup_insert_eq. cbn. split; [split; [by right|eauto]|set_solver].
    - rewrite lookup_insert_ne by done. split; [tauto|set_solver]. }
  split.
  - rewrite IH1, H1, elem_of_cons. tauto.
  - intros a. rewrite IH2, H2, elem_of_cons. tauto.
Qed.

Lemma inbound_fold objs inbound x :
  let inbound' := foldl (λ inbound '(address, obj),
    foldl (add_referrer address) (setdefault_empty inbound address) (set_iter (referents obj))) inbound objs in
  (is_Some (inbound' !! x) ↔
     is_Some (inbound !! x) ∨ x ∈ objs.*1 ∨ ∃ a obj, (a, obj) ∈ objs ∧ x ∈ referents obj) ∧
  (∀ a, a ∈ index_of inbound' x ↔
     a ∈ index_of inbound x ∨ ∃ obj, (a, obj) ∈ objs ∧ x ∈ referents obj).
Proof.
  cbv zeta. revert inbound. induction objs as [|[b obj] objs IH]; intros inbound; cbn [foldl].
  { split; [set_solver|]. intros a. set_solver. }
  destruct (IH (foldl (add_referrer b) (setdefault_empty inbound b) (set_iter (referents obj)))) as [IH1 IH2].
  destruct (add_referrers_spec b (set_iter (referents obj)) (setdefault_empty inbound b) x) as [H1 H2].
  assert ((is_Some (setdefault_empty inbound b !! x) ↔ is_Some (inbound !! x) ∨ x = b) ∧
          index_of (setdefault_empty inbound b) x = index_of inbound x) as [H3 H4].
  { unfold setdefault_empty, index_of. destruct (decide (x = b)) as [->|Hxb].
    - rewrite lookup_insert_eq. split; [split; [by right|eauto]|done].
    - rewrite lookup_insert_ne by done. split; [tauto|done]. }
  split.
  - rewrite IH1, H1, H3, elem_of_set_iter. cbn. rewrite elem_of_cons. split.
    + intros [[[?| ->]|?]|[?|(a & o & ? & ?)]]; [tauto|tauto| |tauto|].
      * right. right. exists b, obj. split; [by left|done].
      * right. right. exists a, o. split; [by right|done].
    + intros [?|[[->|?]|(a & o & [[= -> ->]|?]%elem_of_cons & ?)]]; [tauto..|right; right; eauto].
  - intros a. rewrite IH2, H2, H4, elem_of_set_iter. split.
    + intros [[?|[-> ?]]|(o & ? & ?)]; [tauto| |].
      * right. exists obj. split; [by left|done].
      * right. exists o. split; [by right|done].
    + intros [?|(o & [[= -> ->]|?]%elem_of_cons & ?)]; [tauto..|right; eauto].
Qed.

(** [InboundReferences(heap)] is the index the calculator expects. *)
Lemma inbound_references_index : dict_wf (objects heap) → InboundIndex heap (inbound_references heap).
Proof.
  intros Hwf.
  assert (∀ a x, refers heap a x ↔ ∃ obj, (a, obj) ∈ objects heap ∧ x ∈ referents obj) as Href.
  { intros a x. unfold refers, references. split.
    - destruct (dict_get (objects heap) a) as [obj|] eqn:E; [|set_solver].
      intros Hx. exists obj. split; [by apply dict_get_elem|done].
    - intros (obj & Hin & Hx). by rewrite (dict_elem_get _ _ _ Hwf Hin). }
  constructor.
  - intros x. destruct (inbound_fold (objects heap) ∅ x) as [H1 _].
    unfold inbound_references. rewrite H1, lookup_empty. setoid_rewrite Href. unfold dict_keys. split.
    + intros [[? ?]|[?|(a & o & ? & ?)]]; [done|by left|right; eauto].
    + intros [?|(a & o & ? & ?)]; right; [by left|right; eauto].
  - intros x S HS a. destruct (inbound_fold (objects heap) ∅ x) as [_ H2].
    specialize (H2 a). unfold index_of in H2 at 1. fold (inbound_references heap) in H2.
    rewrite HS in H2. cbn [from_option id] in H2.
    rewrite H2, Href. unfold index_of. rewrite lookup_empty. set_solver.
Qed.
End Inbound.

(** ** The subtree shortcut *)

Section Objects.
Context `{SetOrder} (heap : Heap) (inbound : InboundReferences) `{!InboundIndex heap inbound}.

Abbreviation refs := (references heap).
Abbreviation count := (inbound_count inbound).

(** The referrers of an address, as a set *)
Definition referrers_of (x : Z) : gset Z := default ∅ (inbound !! x).

Lemma elem_of_referrers_of x p : p ∈ referrers_of x ↔ refers heap p x.
Proof.
  unfold referrers_of. destruct (inbound !! x) as [S|] eqn:HS; cbn [from_option id].
  - by apply inbound_elem.
  - split; [set_solver|]. intros Hp.
    assert (is_Some (inbound !! x)) as [? ?] by (apply inbound_dom; eauto). congruence.
Qed.

Lemma all_referrers P x :
  (∀ p, p ∈ P → refers heap p x) → count x <= Z.of_nat (base.size P) → P = referrers_of x.
Proof.
  intros HP Hc. apply set_eq. assert (P ⊆ referrers_of x) as Hsub.
  { intros p Hp. by apply elem_of_referrers_of, HP. }
  intros p. split; [apply Hsub|]. intros Hp.
  destruct (decide (p ∈ P)) as [|Hnot]; [done|exfalso].
  assert (P ⊂ referrers_of x) as Hlt%subset_size.
  { split; [done|]. intros Hback. apply Hnot. by apply Hback. }
  unfold inbound_count, referrers_of in *. lia.
Qed.

Lemma single_referrer x p q :
  count x <= 1 → refers heap p x → refers heap q x → p = q.
Proof.
  intros Hc Hp%elem_of_referrers_of Hq%elem_of_referrers_of.
  destruct (decide (p = q)) as [|Hpq]; [done|exfalso].
  assert ({[p; q]} ⊆ referrers_of x) as Hsub%subseteq_size by set_solver.
  rewrite size_union, !size_singleton in Hsub by set_solver.
  unfold inbound_count in Hc. fold (referrers_of x) in Hc. lia.
Qed.

(** What the run for an object needs of the subtree roots: they are referenced
    once, their references are roots, in order, and each has its value. *)
Record rooted (order : list Z) (self : RetainedHeapCalculator) : Prop := {
  ro_order : NoDup order;
  ro_in_order : ∀ r, r ∈ _subtree_roots self → r ∈ order;
  ro_once : ∀ r, r ∈ _subtree_roots self → count r <= 1;
  ro_below : ∀ i r, order !! i = Some r → ∀ c, c ∈ refs r → ∃ j, (j < i)%nat ∧ order !! j = Some c;
  ro_refs : ∀ r, r ∈ _subtree_roots self → refs r ⊆ _subtree_roots self;
  ro_known : ∀ r, r ∈ _subtree_roots self → is_Some (dict_get (_object_retained self) r);
  ro_value : ∀ r, r ∈ _subtree_roots self →
    value self r = shallow heap r + gsum (value self) (refs r);
}.

Lemma forest_rooted self : forest heap inbound self → rooted (root_order self) self.
Proof.
  intros Hf. constructor.
  - apply (fo_wf _ _ self Hf).
  - intros r. apply (fo_roots _ _ self Hf).
  - intros r Hr. by apply (root_facts heap inbound self r Hf).
  - intros i r Hi. by apply (fo_root _ _ self Hf).
  - intros r Hr. by apply (root_facts heap inbound self r Hf).
  - intros r Hr%(fo_roots _ _ self Hf). by apply dict_get_is_Some.
  - apply (fo_value _ _ self Hf).
Qed.

Lemma short_succ {self} p x :
  x ∈ run_succ heap self true p ↔ refers heap p x ∧ p ∉ _subtree_roots self.
Proof. unfold run_succ, shortcut. cbn [andb]. case_bool_decide; [set_solver|]. unfold refers. tauto. Qed.

Section OneObject.
Context (order : list Z) (self : RetainedHeapCalculator) (Hr : rooted order self) (a : Z).

Abbreviation roots := (_subtree_roots self).
Abbreviation goes_with := (only_via (refers heap) a).
Abbreviation view := ({[a := 0]} : gmap Z Z).
Abbreviation short_cascade :=
  (cascade (run_succ heap self true) (run_need inbound view) (dom view)).

Lemma view_need_self : run_need inbound view a = 0.
Proof. unfold run_need. by rewrite lookup_singleton_eq. Qed.
Lemma view_need_other x : x ≠ a → run_need inbound view x = count x.
Proof. intros Hx. unfold run_need. by rewrite lookup_singleton_ne. Qed.

(** The shortened cascade, with its side conditions resolved *)
Lemma short_inv x :
  short_cascade x → x = a ∨ (∃ p, refers heap p x) ∧ ∀ p, refers heap p x → short_cascade p ∧ p ∉ roots.
Proof.
  intros Hx. destruct Hx as [x P Hs HP Hc Hn].
  destruct (decide (x = a)) as [|Hxa]; [by left|right].
  rewrite view_need_other in Hn by done.
  assert (P = referrers_of x) as HPx.
  { apply all_referrers; [|done]. intros p Hp. by apply (short_succ (self:=self)), HP. }
  split.
  - destruct Hs as [Hs|[p Hp]%set_choose_L]; [rewrite dom_singleton_L in Hs; set_solver|].
    exists p. by apply (short_succ (self:=self)), HP.
  - intros p Hp%elem_of_referrers_of. rewrite <- HPx in Hp. split; [by apply Hc|].
    by destruct (proj1 (short_succ p x) (HP p Hp)).
Qed.

Lemma short_self : short_cascade a.
Proof.
  apply (cascade_intro _ _ _ a ∅); [left; rewrite dom_singleton_L; set_solver|set_solver|set_solver|].
  rewrite view_need_self. lia.
Qed.

Lemma short_step x :
  (∃ p, refers heap p x) → (∀ p, refers heap p x → short_cascade p ∧ p ∉ roots) → short_cascade x.
Proof.
  intros [q Hq] Hall. destruct (decide (x = a)) as [->|Hxa]; [apply short_self|].
  apply (cascade_intro _ _ _ x (referrers_of x)).
  - right. apply elem_of_referrers_of in Hq. set_solver.
  - intros p Hp%elem_of_referrers_of. apply (short_succ (self:=self)). split; [done|]. by apply Hall.
  - intros p Hp%elem_of_referrers_of. by apply Hall.
  - rewrite view_need_other by done. done.
Qed.

Lemma short_goes_with x : short_cascade x → goes_with x.
Proof.
  induction 1 as [x P Hs HP Hc IH Hn]. destruct (decide (x = a)) as [->|Hxa]; [constructor|].
  destruct (short_inv x (cascade_intro _ _ _ x P Hs HP Hc Hn)) as [->|[Hex Hall]]; [constructor|].
  apply only_via_step; [done|]. intros p Hp. apply IH.
  rewrite view_need_other in Hn by done.
  rewrite (all_referrers P x); [by apply elem_of_referrers_of| |done].
  intros q Hq. by apply (short_succ (self:=self)), HP.
Qed.

(** What goes with [a] but is left to the subtree roots *)
Definition under (D : gset Z) (x : Z) : Prop := ∃ r, r ∈ roots ∧ r ∈ D ∧ x ∈ refs r.

Lemma goes_with_split (D D' : gset Z) :
  (∀ x, x ∈ D ↔ goes_with x) → (∀ x, x ∈ D' ↔ short_cascade x) →
  ∀ x, goes_with x → x ∈ D' ∨ under D x.
Proof.
  intros HD HD' x Hx. induction Hx as [|x Hex Hall IH].
  - left. apply HD', short_self.
  - destruct (decide (referrers_of x ∩ roots = ∅)) as [Hnone|[p Hp]%set_choose_L].
    + left. apply HD', short_step; [done|]. intros p Hp.
      assert (p ∉ roots) as Hpr by (apply elem_of_referrers_of in Hp; set_solver).
      split; [|done]. destruct (IH p Hp) as [Hin|(r & Hrr & _ & Hrp)]; [by apply HD'|].
      exfalso. apply Hpr. by apply (ro_refs _ _ Hr r).
    + right. apply elem_of_intersection in Hp as [Hp%elem_of_referrers_of Hpr].
      exists p. split; [done|]. split; [|done]. apply HD. by apply Hall.
Qed.

Lemma root_position x :
  a ∈ roots → goes_with x → ∃ i j, order !! i = Some a ∧ order !! j = Some x ∧ (j <= i)%nat.
Proof.
  intros Har Hx. apply (ro_in_order _ _ Hr) in Har as [i Hi]%list_elem_of_lookup. exists i.
  induction Hx as [|x [p Hp] Hall IH]; [by exists i|].
  destruct (IH p Hp) as (j & _ & Hj & Hle). destruct (ro_below _ _ Hr j p Hj x Hp) as (k & Hk & Hkx).
  exists k. split; [done|]. split; [done|lia].
Qed.

Lemma under_disjoint (D D' : gset Z) x :
  (∀ x, x ∈ D ↔ goes_with x) → (∀ x, x ∈ D' ↔ short_cascade x) →
  x ∈ D' → under D x → False.
Proof.
  intros HD HD' Hx (r & Hrr & HrD & Hrx). apply HD', short_inv in Hx as [->|[_ Hall]].
  - assert (a ∈ roots) as Har by (by apply (ro_refs _ _ Hr r)).
    apply HD in HrD. destruct (root_position r Har HrD) as (i & j & Hi & Hj & Hle).
    destruct (ro_below _ _ Hr j r Hj a Hrx) as (k & Hk & Hka).
    assert (k = i); [|lia]. by eapply (NoDup_lookup order); [apply (ro_order _ _ Hr)|..].
  - by apply (Hall r).
Qed.

(** The shortcut does not change the sum. *)
Lemma short_sum (D D' : gset Z) :
  (∀ x, x ∈ D ↔ goes_with x) → (∀ x, x ∈ D' ↔ short_cascade x) →
  gsum (run_weight heap self true) D' = gsum (shallow heap) D.
Proof.
  intros HD HD'. set (w := run_weight heap self true).
  set (H' := set_bind refs (roots ∩ D) : gset Z).
  assert (∀ x, x ∈ H' ↔ under D x) as HH.
  { intros x. unfold H', under. rewrite elem_of_set_bind. set_solver. }
  assert (D = D' ∪ H') as Hsplit.
  { apply set_eq. intros x. rewrite elem_of_union, HH, HD. split; [by apply goes_with_split|].
    intros [Hx|(r & Hrr & HrD & Hrx)]; [by apply short_goes_with, HD'|].
    apply only_via_step; [by exists r|]. intros p Hp.
    assert (x ∈ roots) as Hxr by (by apply (ro_refs _ _ Hr r)).
    rewrite (single_referrer x p r (ro_once _ _ Hr x Hxr) Hp Hrx). by apply HD. }
  assert (D' ## H') as Hdis.
  { intros x Hx Hxh%HH. by eapply under_disjoint. }
  assert (gsum w H' = gsum (λ r, gsum (value self) (refs r)) (roots ∩ D)) as Hunder.
  { rewrite (gsum_ext w (value self)).
    - apply gsum_set_bind. intros r1 r2 Hr1 Hr2 Hne x Hx1 Hx2. apply Hne.
      assert (x ∈ roots) as Hxr by (apply (ro_refs _ _ Hr r1); set_solver).
      by apply (single_referrer x); [apply (ro_once _ _ Hr)| |].
    - intros x (r & Hrr & _ & Hrx)%HH. assert (x ∈ roots) by (by apply (ro_refs _ _ Hr r)).
      unfold w, run_weight, shortcut. by rewrite bool_decide_true. }
  assert (gsum w D = gsum (shallow heap) D
            + gsum (λ r, gsum (value self) (refs r)) (roots ∩ D)) as Htotal.
  { rewrite <- gsum_restrict, <- gsum_add. apply gsum_ext. intros x _.
    unfold w, run_weight, shortcut. cbn [andb]. case_bool_decide as Hxr; [|lia].
    by rewrite <- (ro_value _ _ Hr x Hxr). }
  rewrite Hsplit in Htotal at 1. rewrite gsum_union in Htotal by done. lia.
Qed.
End OneObject.
End Objects.

(** ** Retained bytes of an object *)

(** [a] retains [v] bytes: the shallow sizes of everything reachable only
    through it. *)
Definition retains (heap : Heap) (a v : Z) : Prop :=
  ∃ D : gset Z, (∀ x, x ∈ D ↔ only_via (refers heap) a x) ∧ v = gsum (shallow heap) D.

Lemma retains_unique heap a v w : retains heap a v → retains heap a w → v = w.
Proof.
  intros (D & HD & ->) (D' & HD' & ->). f_equal. apply set_eq. intros x. by rewrite HD, HD'.
Qed.

Section ObjectLoop.
Context `{SetOrder} (heap : Heap) (inbound : InboundReferences) `{!InboundIndex heap inbound}.

Lemma rooted_new : rooted heap inbound [] new_calculator.
Proof. constructor; cbn; [constructor|set_solver..|set_solver|set_solver]. Qed.

Lemma goes_with_set a :
  is_Some (inbound !! a) → ∃ D : gset Z, ∀ x, x ∈ D ↔ only_via (refers heap) a x.
Proof.
  intros Ha. destruct (retained_heap_spec heap inbound new_calculator true {[a := 0]}) with [a] as (D & _ & HD).
  - intros x Hx. unfold shortcut in Hx. cbn in Hx. by rewrite bool_decide_false in Hx by set_solver.
  - intros x. rewrite dom_singleton_L, elem_of_singleton. by intros ->.
  - intros x. rewrite dom_singleton_L. set_solver.
  - exists D. intros x. rewrite HD. split; [by eapply short_goes_with, rooted_new|].
    induction 1 as [|x Hex _ IH]; [apply (short_self heap inbound [] new_calculator rooted_new)|].
    apply (short_step heap inbound [] new_calculator rooted_new a x); [done|]. intros p Hp. split; [by apply IH|]. cbn. set_solver.
Qed.

Lemma retained_for_object order self a :
  rooted heap inbound order self → is_Some (inbound !! a) →
  ∃ v, _retained_heap_for_object heap inbound self a = Ok v ∧ retains heap a v ∧
       (a ∈ _subtree_roots self → v = value self a).
Proof.
  intros Hr Ha. destruct (goes_with_set a Ha) as (D & HD).
  destruct (retained_heap_spec heap inbound self true {[a := 0]}) with [a] as (D' & Hrun & HD').
  - intros x Hx. unfold shortcut in Hx. cbn in Hx. apply bool_decide_eq_true in Hx.
    by apply (ro_known _ _ _ _ Hr).
  - intros x. rewrite dom_singleton_L, elem_of_singleton. by intros ->.
  - intros x. rewrite dom_singleton_L. set_solver.
  - eexists. split; [exact Hrun|]. split.
    + exists D. split; [done|]. by eapply short_sum.
    + intros Har. replace D' with ({[a]} : gset Z).
      * rewrite gsum_singleton. unfold run_weight, shortcut. by rewrite bool_decide_true.
      * apply set_eq. intros x. rewrite elem_of_singleton, HD'. split; [intros ->; by eapply short_self|].
        induction 1 as [x P Hs HP _ IH _].
        destruct Hs as [Hs|[p Hp]%set_choose_L]; [rewrite dom_singleton_L in Hs; set_solver|].
        destruct (proj1 (short_succ heap inbound p x) (HP p Hp)) as [_ Hpr].
        rewrite (IH p Hp) in Hpr. done.
Qed.

(** Storing a result keeps what the shortcut needs. *)
Lemma rooted_set_object order self a v :
  rooted heap inbound order self → (a ∈ _subtree_roots self → v = value self a) →
  rooted heap inbound order (set_object a v self).
Proof.
  intros Hr Hv.
  assert (∀ r, r ∈ _subtree_roots self → value (set_object a v self) r = value self r) as Hval.
  { intros r Hrr. unfold value at 1, set_object. cbn. destruct (decide (r = a)) as [->|Hra].
    - rewrite dict_get_set_eq. cbn. by apply Hv.
    - by rewrite dict_get_set_ne. }
  constructor; try by apply Hr.
  - intros r Hrr. cbn. destruct (decide (r = a)) as [->|Hra].
    + rewrite dict_get_set_eq. eauto.
    + rewrite dict_get_set_ne by done. by apply (ro_known _ _ _ _ Hr).
  - intros r Hrr. cbn in Hrr. rewrite Hval by done.
    rewrite (gsum_ext (value (set_object a v self)) (value self)); [by apply (ro_value _ _ _ _ Hr)|].
    intros c Hc. apply Hval. by apply (ro_refs _ _ _ _ Hr r).
Qed.

Lemma calculate_objects_spec order addresses self :
  rooted heap inbound order self → (∀ a, a ∈ addresses → is_Some (inbound !! a)) →
  ∃ self', calculate_objects heap inbound addresses self = Ok self' ∧
    _subtree_roots self' = _subtree_roots self ∧
    _thread_retained self' = _thread_retained self ∧ _calculated self' = _calculated self ∧
    ∀ a, (a ∈ addresses → ∃ v, dict_get (_object_retained self') a = Some v ∧ retains heap a v) ∧
         (a ∉ addresses → dict_get (_object_retained self') a = dict_get (_object_retained self) a).
Proof.
  revert self. induction addresses as [|b addresses IH]; intros self Hr Hin; cbn [calculate_objects].
  { exists self. split_and!; try done. intros a. split; [set_solver|done]. }
  destruct (retained_for_object order self b Hr) as (v & Hrun & Hv & Hroot); [apply Hin; by left|].
  rewrite Hrun. cbn [mbind result_bind].
  destruct (IH (set_object b v self)) as (self' & Hrest & Hro & Ht & Hc & Hget).
  { by apply rooted_set_object. }
  { intros a Ha. apply Hin. by right. }
  exists self'. split_and!; try done. intros a. destruct (Hget a) as [H1 H2]. split.
  - intros Ha. destruct (decide (a ∈ addresses)) as [|Hnot]; [by apply H1|].
    apply elem_of_cons in Ha as [->|]; [|done]. exists v. split; [|done].
    rewrite H2 by done. cbn. apply dict_get_set_eq.
  - intros Ha. rewrite H2 by set_solver. cbn. apply dict_get_set_ne. set_solver.
Qed.
End ObjectLoop.

(** ** Retained bytes of a thread *)

(** No other thread has [x] among its locals; threads with equal contents count
    as the same. *)
Definition unpinned (heap : Heap) (t : HeapThread) (x : Z) : Prop :=
  ∀ u, u ∈ threads heap → thread_eqb u t = false → x ∉ thread_locals u.

(** What goes with the locals of a thread: an unpinned local or a referenced
    object, all of whose referrers go too. *)
Inductive released (heap : Heap) (t : HeapThread) : Z → Prop :=
| released_intro x :
    (x ∈ thread_locals t → unpinned heap t x) →
    (x ∈ thread_locals t ∨ ∃ p, refers heap p x) →
    (∀ p, refers heap p x → released heap t p) →
    released heap t x.

Definition thread_retains (heap : Heap) (t : HeapThread) (v : Z) : Prop :=
  ∃ D : gset Z, (∀ x, x ∈ D ↔ released heap t x) ∧ v = gsum (shallow heap) D.

Lemma thread_retains_unique heap t v w : thread_retains heap t v → thread_retains heap t w → v = w.
Proof.
  intros (D & HD & ->) (D' & HD' & ->). f_equal. apply set_eq. intros x. by rewrite HD, HD'.
Qed.

Lemma zsum_b2z_zero {A} (f : A → bool) l :
  0 <= zsum ((λ x, Z.b2z (f x)) <$> l) ∧
  (zsum ((λ x, Z.b2z (f x)) <$> l) = 0 ↔ ∀ x, x ∈ l → f x = false).
Proof.
  induction l as [|y l [IH1 IH2]]; cbn; [split; [done|set_solver]|]. fold (zsum ((λ x, Z.b2z (f x)) <$> l)).
  unfold zsum in *. split; [destruct (f y); cbn [Z.b2z]; lia|]. split.
  - intros E x [->|Hx]%elem_of_cons.
    + destruct (f y); cbn [Z.b2z] in E; [lia|done].
    + apply IH2; [|done]. destruct (f y); cbn [Z.b2z] in E; lia.
  - intros Hall. rewrite (Hall y) by (by left). cbn [Z.b2z]. rewrite (proj2 IH2); [done|].
    intros x Hx. apply Hall. by right.
Qed.

Lemma pins_zero heap t x : 0 <= pins heap t x ∧ (pins heap t x = 0 ↔ unpinned heap t x).
Proof.
  unfold pins. destruct (zsum_b2z_zero (λ u, bool_decide (x ∈ thread_locals u))
    (filter (λ u, thread_eqb u t = false) (threads heap))) as [H1 H2].
  split; [done|]. rewrite H2. unfold unpinned. split.
  - intros Hall u Hu He. eapply bool_decide_eq_false, Hall. by apply list_elem_of_filter.
  - intros Hall u [He Hu]%list_elem_of_filter. by apply bool_decide_eq_false, Hall.
Qed.

Section Threads.
Context `{SetOrder} (heap : Heap) (inbound : InboundReferences) `{!InboundIndex heap inbound}.

(** Every local of the thread is an object or referenced by one. *)
Definition locals_known (t : HeapThread) : Prop := ∀ x, x ∈ thread_locals t → is_Some (inbound !! x).

Lemma thread_view_spec t addresses view :
  (∀ x, x ∈ addresses → is_Some (inbound !! x)) →
  ∃ view', thread_view heap inbound t addresses view = Ok view' ∧
    ∀ x, view' !! x = if decide (x ∈ addresses)
                      then Some (inbound_count inbound x + pins heap t x) else view !! x.
Proof.
  revert view. induction addresses as [|a addresses IH]; intros view Hin; cbn [thread_view].
  { exists view. split; [done|]. intros x. by rewrite decide_False by set_solver. }
  assert (∃ S, inbound !! a = Some S) as [S HS] by (apply Hin; by left).
  unfold inbound_of. rewrite HS. cbn [or_key_error mbind result_bind].
  destruct (IH (<[a := Z.of_nat (base.size S) + pins heap t a]> view)) as (view' & Hrun & Hv).
  { intros x Hx. apply Hin. by right. }
  exists view'. split; [done|]. intros x. rewrite Hv.
  destruct (decide (x ∈ addresses)) as [Hx|Hx].
  - by rewrite decide_True by (by right).
  - destruct (decide (x = a)) as [->|Hxa].
    + rewrite decide_True by (by left). rewrite lookup_insert_eq. unfold inbound_count. by rewrite HS.
    + rewrite decide_False by (by intros [?|?]%elem_of_cons). by rewrite lookup_insert_ne.
Qed.

Lemma thread_view_unknown t addresses view x :
  x ∈ addresses → inbound !! x = None → thread_view heap inbound t addresses view = Err KeyError.
Proof.
  intros Hx Hn. revert view. induction addresses as [|a addresses IH]; intros view; [set_solver|].
  cbn [thread_view]. unfold inbound_of. destruct (inbound !! a) as [S|] eqn:Ha; cbn; [|done].
  apply IH. apply elem_of_cons in Hx as [->|]; [congruence|done].
Qed.

Lemma thread_cascade_released t view :
  (∀ x, view !! x = if decide (x ∈ thread_locals t)
                    then Some (inbound_count inbound x + pins heap t x) else None) →
  ∀ x, cascade (references heap) (run_need inbound view) (dom view) x ↔ released heap t x.
Proof.
  intros Hview.
  assert (∀ x, x ∈ dom view ↔ x ∈ thread_locals t) as Hdom.
  { intros x. rewrite elem_of_dom, Hview. destruct (decide (x ∈ thread_locals t)); [by split; eauto|].
    split; [by intros [? ?]|done]. }
  assert (∀ x, run_need inbound view x =
            inbound_count inbound x + (if decide (x ∈ thread_locals t) then pins heap t x else 0)) as Hneed.
  { intros x. unfold run_need. rewrite Hview. destruct (decide _); cbn; lia. }
  intros x. split.
  - induction 1 as [x P Hs HP Hc IH Hn]. rewrite Hneed in Hn.
    pose proof (pins_zero heap t x) as [Hpos Hzero].
    assert (inbound_count inbound x <= Z.of_nat (base.size P)) as Hcount by (destruct (decide _); lia).
    pose proof (all_referrers heap inbound P x HP Hcount) as HPx.
    constructor.
    + intros Hx. apply Hzero. rewrite decide_True in Hn by done.
      unfold inbound_count in Hn. fold (referrers_of inbound x) in Hn. rewrite <- HPx in Hn. lia.
    + destruct Hs as [Hs|[p Hp]%set_choose_L]; [left; by apply Hdom|right; exists p; by apply HP].
    + intros p Hp. apply IH. rewrite HPx. by apply (elem_of_referrers_of heap inbound).
  - induction 1 as [x Hl Hex Hall IH].
    apply (cascade_intro _ _ _ x (referrers_of inbound x)).
    + destruct Hex as [Hx|[p Hp]]; [left; by apply Hdom|right].
      apply (elem_of_referrers_of heap inbound) in Hp. set_solver.
    + intros p Hp. by apply (elem_of_referrers_of heap inbound).
    + intros p Hp. apply IH. by apply (elem_of_referrers_of heap inbound).
    + rewrite Hneed. unfold inbound_count. fold (referrers_of inbound x).
      destruct (decide _) as [Hx|]; [|lia].
      pose proof (proj2 (proj2 (pins_zero heap t x)) (Hl Hx)). lia.
Qed.

Lemma retained_for_thread self t :
  locals_known t →
  ∃ view v, thread_view heap inbound t (set_iter (thread_locals t)) ∅ = Ok view ∧
    _retained_heap heap inbound self view (set_iter (thread_locals t)) false = Ok v ∧
    thread_retains heap t v.
Proof.
  intros Hk. destruct (thread_view_spec t (set_iter (thread_locals t)) ∅) as (view & Hrun & Hview).
  { intros x Hx%elem_of_set_iter. by apply Hk. }
  assert (∀ x, view !! x = if decide (x ∈ thread_locals t)
                    then Some (inbound_count inbound x + pins heap t x) else None) as Hview'.
  { intros x. rewrite Hview, lookup_empty. pose proof (elem_of_set_iter (thread_locals t) x).
    by destruct (decide (x ∈ set_iter _)), (decide (x ∈ thread_locals t)); try tauto. }
  assert (∀ x, x ∈ dom view ↔ x ∈ thread_locals t) as Hdom.
  { intros x. rewrite elem_of_dom, Hview'. destruct (decide (x ∈ thread_locals t)); [by split; eauto|].
    split; [by intros [? ?]|done]. }
  destruct (retained_heap_spec heap inbound self false view) with (set_iter (thread_locals t))
    as (D & Hret & HD).
  - intros x Hx. discriminate Hx.
  - intros x Hx%Hdom. by apply Hk.
  - intros x. by rewrite elem_of_set_iter, Hdom.
  - exists view. eexists. split; [done|]. split; [exact Hret|]. exists D. split; [|done].
    intros x. rewrite HD. by apply thread_cascade_released.
Qed.

Lemma calculate_threads_spec ts self :
  (∀ t, t ∈ ts → locals_known t) →
  ∃ self', _calculate_threads heap inbound ts self = Ok self' ∧
    _object_retained self' = _object_retained self ∧ _subtree_roots self' = _subtree_roots self ∧
    (∀ nm, (∀ t, t ∈ ts → name t ≠ nm) →
       dict_get (_thread_retained self') nm = dict_get (_thread_retained self) nm) ∧
    (∀ pre t post, ts = pre ++ t :: post → (∀ u, u ∈ post → name u ≠ name t) →
       ∃ v, dict_get (_thread_retained self') (name t) = Some v ∧ thread_retains heap t v).
Proof.
  revert self. induction ts as [|t ts IH]; intros self Hk; cbn [_calculate_threads].
  { exists self. split_and!; try done. intros [|? ?] ? ? [=]. }
  destruct (retained_for_thread self t) as (view & v & Hview & Hrun & Hv); [apply Hk; by left|].
  rewrite Hview. cbn [mbind result_bind]. rewrite Hrun. cbn [mbind result_bind].
  destruct (IH (set_thread (name t) v self)) as (self' & Hrest & Ho & Hr & Hother & Hlast).
  { intros u Hu. apply Hk. by right. }
  exists self'. split_and!; try done.
  - intros nm Hnm. rewrite Hother by (intros; apply Hnm; by right). cbn.
    apply dict_get_set_ne. intros ->. by apply (Hnm t); [left|].
  - intros [|t' pre] u post [= -> ->] Hpost.
    + exists v. split; [|done]. rewrite Hother by done. cbn. apply dict_get_set_eq.
    + by eapply Hlast.
Qed.

Lemma calculate_threads_unknown ts self t x :
  t ∈ ts → x ∈ thread_locals t → inbound !! x = None →
  _calculate_threads heap inbound ts self = Err KeyError.
Proof.
  intros Ht Hx Hn. revert self. induction ts as [|u ts IH]; intros self; [set_solver|].
  cbn [_calculate_threads].
  destruct (decide (Forall (λ y, inbound !! y ≠ None) (set_iter (thread_locals u)))) as [Hall|Hnot].
  - rewrite Forall_forall in Hall.
    destruct (retained_for_thread self u) as (view & v & Hview & Hrun & _).
    { intros y Hy. apply not_eq_None_Some, Hall. by apply elem_of_set_iter. }
    rewrite Hview. cbn [mbind result_bind]. rewrite Hrun. cbn [mbind result_bind].
    apply IH. apply elem_of_cons in Ht as [->|]; [|done].
    exfalso. apply (Hall x); [by apply elem_of_set_iter|done].
  - apply not_Forall_Exists, Exists_exists in Hnot as (y & Hy & Hyn); [|apply _].
    rewrite (thread_view_unknown u _ ∅ y Hy); [done|]. by apply dec_stable.
Qed.
End Threads.

(** ** The whole calculation *)

(** The heap mentions [x]: it is an object or referenced by one. *)
Definition mentioned (heap : Heap) (x : Z) : Prop :=
  x ∈ dict_keys (objects heap) ∨ ∃ a, refers heap a x.

(** [t] is the last thread of its name, the one whose result stays. *)
Definition last_named (ts : list HeapThread) (t : HeapThread) : Prop :=
  ∃ pre post, ts = pre ++ t :: post ∧ ∀ u, u ∈ post → name u ≠ name t.

Lemma last_named_exists ts nm :
  (∀ t, t ∈ ts → name t ≠ nm) ∨ ∃ t, last_named ts t ∧ name t = nm.
Proof.
  induction ts as [|t ts [Hnone|(u & (pre & post & -> & Hpost) & Hu)]]; [left; set_solver| |].
  - destruct (decide (name t = nm)) as [<-|Hne].
    + right. exists t. split; [|done]. by exists [], ts.
    + left. intros u [->|Hu]%elem_of_cons; [done|by apply Hnone].
  - right. exists u. split; [|done]. by exists (t :: pre), post.
Qed.

Section Calculate.
Context `{SetOrder} (heap : Heap).
Context (heap_wf : dict_wf (objects heap)).

Lemma before_threads :
  InboundIndex heap (inbound_references heap) →
  ∃ self0 self, _find_strict_subtrees heap (inbound_references heap) new_calculator = Ok self0 ∧
    calculate_objects heap (inbound_references heap) (dict_keys (objects heap)) self0 = Ok self ∧
    _thread_retained self = [] ∧
    (∀ a, a ∈ dict_keys (objects heap) →
       ∃ v, dict_get (_object_retained self) a = Some v ∧ retains heap a v) ∧
    (∀ a, a ∉ dict_keys (objects heap) → dict_get (_object_retained self) a = None).
Proof.
  intros Hix. destruct (find_strict_subtrees_spec heap _ heap_wf) as (self0 & Hfind & Hf & _ & Ht & _).
  destruct (calculate_objects_spec heap (inbound_references heap) (root_order self0)
              (dict_keys (objects heap)) self0) as (self & Hrun & _ & Ht' & _ & Hget).
  { by apply forest_rooted. }
  { intros a Ha. apply inbound_dom. by left. }
  exists self0, self. split_and!; try done.
  - by rewrite Ht', Ht.
  - intros a. by apply Hget.
  - intros a Ha. destruct (Hget a) as [_ Hno]. rewrite (Hno Ha).
    apply dict_get_None. intros [i Hi]%list_elem_of_lookup.
    by destruct (fo_root _ _ self0 Hf i a Hi) as (Ho & _).
Qed.

Lemma calculate_spec :
  (∀ t x, t ∈ threads heap → x ∈ thread_locals t → mentioned heap x) →
  ∃ r, calculate_retained heap = Ok r ∧
    (∀ a, a ∈ dict_keys (objects heap) → ∃ v, get_for_object r a = Some v ∧ retains heap a v) ∧
    (∀ a, a ∉ dict_keys (objects heap) → get_for_object r a = None) ∧
    (∀ t, last_named (threads heap) t →
       ∃ v, get_for_thread r (name t) = Ok v ∧ thread_retains heap t v) ∧
    (∀ nm, (∀ t, t ∈ threads heap → name t ≠ nm) → get_for_thread r nm = Err KeyError).
Proof.
  intros Hk. pose proof (inbound_references_index heap heap_wf) as Hix.
  destruct (before_threads Hix) as (self0 & self & Hfind & Hobj & Ht & Hget & Hno).
  destruct (calculate_threads_spec heap (inbound_references heap) (threads heap) self)
    as (self' & Hthr & Ho & _ & Hother & Hlast).
  { intros t Hin x Hx. apply inbound_dom. by eapply Hk. }
  exists (mkRetainedHeap (_object_retained self') (_thread_retained self')). split.
  { unfold calculate_retained, calculate. cbn [_calculated new_calculator].
    rewrite Hfind. cbn [mbind result_bind]. rewrite Hobj. cbn [mbind result_bind].
    by rewrite Hthr. }
  unfold get_for_object, get_for_thread. cbn [r_objects r_threads]. rewrite Ho.
  split; [done|]. split; [done|]. split.
  - intros t (pre & post & E & Hpost). destruct (Hlast pre t post E Hpost) as (v & Hv & Hr).
    exists v. by rewrite Hv.
  - intros nm Hnm. by rewrite Hother, Ht.
Qed.

Lemma calculate_unknown t x :
  t ∈ threads heap → x ∈ thread_locals t → ¬ mentioned heap x → calculate_retained heap = Err KeyError.
Proof.
  intros Ht Hx Hm. pose proof (inbound_references_index heap heap_wf) as Hix.
  destruct (before_threads Hix) as (self0 & self & Hfind & Hobj & _).
  unfold calculate_retained, calculate. cbn [_calculated new_calculator].
  rewrite Hfind. cbn [mbind result_bind]. rewrite Hobj. cbn [mbind result_bind].
  rewrite (calculate_threads_unknown heap (inbound_references heap) (threads heap) self t x Ht Hx); [done|].
  destruct (inbound_references heap !! x) as [S|] eqn:E; [|done]. exfalso. apply Hm.
  apply inbound_dom. eauto.
Qed.
End Calculate.

Lemma mentioned_or `{SetOrder} heap x : dict_wf (objects heap) → mentioned heap x ∨ ¬ mentioned heap x.
Proof.
  intros Hwf. pose proof (inbound_references_index heap Hwf) as Hix.
  destruct (inbound_references heap !! x) as [S|] eqn:E; [left; apply inbound_dom; eauto|right].
  intros Hm%inbound_dom. destruct Hm as [? ?]. congruence.
Qed.

(** A calculation that succeeds gives the specified sizes. *)
Lemma calculate_Ok `{SetOrder} heap r :
  dict_wf (objects heap) → calculate_retained heap = Ok r →
  ∀ a v, get_for_object r a = Some v → a ∈ dict_keys (objects heap) ∧ retains heap a v.
Proof.
  intros Hwf Hr.
  assert (∀ t x, t ∈ threads heap → x ∈ thread_locals t → mentioned heap x) as Hk.
  { intros t x Ht Hx. destruct (mentioned_or heap x Hwf) as [|Hm]; [done|].
    rewrite (calculate_unknown heap Hwf t x Ht Hx Hm) in Hr. done. }
  destruct (calculate_spec heap Hwf Hk) as (r' & Hr' & Hobj & Hno & _).
  assert (r' = r) as -> by congruence.
  intros a v Ha. destruct (decide (a ∈ dict_keys (objects heap))) as [Hin|Hin].
  - destruct (Hobj a Hin) as (w & Hw & Hv). split; [done|]. congruence.
  - rewrite (Hno a Hin) in Ha. discriminate.
Qed.

(** ** Properties *)

Lemma only_via_trans edge a b x : only_via edge a b → only_via edge b x → only_via edge a x.
Proof. intros Hab. induction 1 as [|x Hex _ IH]; [done|]. by apply only_via_step. Qed.

Lemma shallow_object heap a obj : dict_get (objects heap) a = Some obj → shallow heap a = size obj.
Proof. unfold shallow. by intros ->. Qed.

Lemma total_heap_size_gsum heap :
  dict_wf (objects heap) → total_heap_size heap = gsum (shallow heap) (list_to_set (dict_keys (objects heap))).
Proof.
  intros Hwf. unfold total_heap_size, gsum, dict_keys, dict_values.
  assert (elements (list_to_set (objects heap).*1 : gset Z) ≡ₚ (objects heap).*1) as ->
    by (apply elements_list_to_set; exact Hwf).
  rewrite <- !list_fmap_compose. f_equal. apply list_fmap_ext. intros i [a obj] Hi. cbn.
  symmetry. apply shallow_object, dict_elem_get; [done|]. by eapply list_elem_of_lookup_2.
Qed.

Definition sizes_ok (heap : Heap) : Prop := Forall (λ e, 0 <= size e.2) (objects heap).

Lemma shallow_nonneg heap x : sizes_ok heap → 0 <= shallow heap x.
Proof.
  intros Hs. unfold shallow. destruct (dict_get (objects heap) x) as [obj|] eqn:E; [|done].
  apply dict_get_elem in E. exact (proj1 (Forall_forall _ _) Hs _ E).
Qed.

Lemma retains_le_total heap a v :
  dict_wf (objects heap) → sizes_ok heap → retains heap a v → v <= total_heap_size heap.
Proof.
  intros Hwf Hs (D & _ & ->). rewrite total_heap_size_gsum by done.
  set (K := list_to_set (dict_keys (objects heap)) : gset Z).
  rewrite (gsum_ext _ (λ x, if bool_decide (x ∈ K) then shallow heap x else 0)).
  - rewrite gsum_restrict. apply gsum_subseteq; [set_solver|]. intros x _. by apply shallow_nonneg.
  - intros x _. case_bool_decide as Hx; [done|]. unfold shallow.
    destruct (dict_get (objects heap) x) eqn:E; [|done]. exfalso. apply Hx, elem_of_list_to_set.
    apply dict_get_is_Some. eauto.
Qed.

Lemma retains_mono heap a b v w :
  sizes_ok heap → only_via (refers heap) a b → retains heap a v → retains heap b w → w <= v.
Proof.
  intros Hs Hab (D & HD & ->) (E & HE & ->). apply gsum_subseteq.
  - intros x Hx%HE. apply HD. by eapply only_via_trans.
  - intros x _. by apply shallow_nonneg.
Qed.

Lemma retains_own heap a v : sizes_ok heap → retains heap a v → shallow heap a <= v.
Proof.
  intros Hs (D & HD & ->). rewrite <- gsum_singleton. apply gsum_subseteq.
  - intros x ->%elem_of_singleton. apply HD. constructor.
  - intros x _. by apply shallow_nonneg.
Qed.

(** [InboundReferences] indexes exactly the addresses the heap mentions, and
    lists for each the objects that refer to it, whatever the order in which
    the referents are visited. *)
Lemma inbound_references_correct `{SetOrder} heap x :
  dict_wf (objects heap) →
  (mentioned heap x → ∃ S, inbound_of (inbound_references heap) x = Ok S ∧
                           ∀ a, a ∈ S ↔ refers heap a x) ∧
  (¬ mentioned heap x → inbound_of (inbound_references heap) x = Err KeyError).
Proof.
  intros Hwf. pose proof (inbound_references_index heap Hwf) as Hix. unfold inbound_of. split.
  - intros Hm. assert (is_Some (inbound_references heap !! x)) as [S HS] by (by apply inbound_dom).
    exists S. rewrite HS. split; [done|]. by apply inbound_elem.
  - intros Hm. destruct (inbound_references heap !! x) as [S|] eqn:E; [|done].
    exfalso. apply Hm, inbound_dom. eauto.
Qed.

(** C9: the search for strict subtrees terminates and finds exactly the objects
    whose whole reference tree is referenced from nowhere else; it stores for
    each the bytes that object retains. *)
Theorem strict_subtrees_exact `{SetOrder} heap :
  dict_wf (objects heap) →
  ∃ self, _find_strict_subtrees heap (inbound_references heap) new_calculator = Ok self ∧
    (∀ x, x ∈ _subtree_roots self ↔ strict_subtree heap (inbound_references heap) x) ∧
    (∀ x, x ∈ _subtree_roots self →
       ∃ v, dict_get (_object_retained self) x = Some v ∧ retains heap x v).
Proof.
  intros Hwf. pose proof (inbound_references_index heap Hwf) as Hix.
  destruct (find_strict_subtrees_spec heap _ Hwf) as (self & Hrun & Hf & Hs & _).
  exists self. split; [done|]. split.
  - intros x. split; [by apply forest_strict|by apply saturated_strict].
  - intros x Hx. pose proof (forest_rooted heap _ self Hf) as Hr.
    destruct (retained_for_object heap _ (root_order self) self x Hr) as (v & _ & Hv & Hval).
    { destruct (root_facts _ _ self x Hf Hx) as (Ho & _). apply inbound_dom. by left. }
    destruct (ro_known _ _ _ _ Hr x Hx) as [w Hw].
    exists v. split; [|done]. rewrite Hw. f_equal. rewrite (Hval Hx). unfold value. by rewrite Hw.
Qed.


(** C21: a thread local that is neither a recorded object nor referenced by one
    makes the whole calculation fail with [KeyError]. *)
Theorem calculate_unknown_local `{SetOrder} heap t x :
  dict_wf (objects heap) → t ∈ threads heap → x ∈ thread_locals t → ¬ mentioned heap x →
  calculate_retained heap = Err KeyError.
Proof. intros Hwf Ht Hx Hm. by eapply calculate_unknown. Qed.

(** C11: the result does not depend on the order in which Python happens to visit
    sets: under any two orders the calculation fails alike, or gives the same
    value for every object and every thread name. *)
Theorem calculate_order_independent (O1 O2 : SetOrder) heap :
  dict_wf (objects heap) →
  (@calculate_retained O1 heap = Err KeyError ∧ @calculate_retained O2 heap = Err KeyError) ∨
  ∃ r1 r2, @calculate_retained O1 heap = Ok r1 ∧ @calculate_retained O2 heap = Ok r2 ∧
    (∀ a, get_for_object r1 a = get_for_object r2 a) ∧
    (∀ nm, get_for_thread r1 nm = get_for_thread r2 nm).
Proof.
  intros Hwf. pose proof (@inbound_references_index O1 heap Hwf) as Hix.
  set (unknown := λ x, @inbound_references O1 heap !! x = None).
  destruct (decide (Exists (λ t, Exists unknown (elements (thread_locals t))) (threads heap))) as [Hex|Hno].
  - left. apply Exists_exists in Hex as (t & Ht & (x & Hx & Hu)%Exists_exists).
    apply elem_of_elements in Hx.
    assert (¬ mentioned heap x) as Hm.
    { intros Hm%inbound_dom. destruct Hm as [? ?]. unfold unknown in Hu. congruence. }
    split; by eapply calculate_unknown.
  - right. assert (∀ t x, t ∈ threads heap → x ∈ thread_locals t → mentioned heap x) as Hk.
    { intros t x Ht Hx. destruct (@inbound_references O1 heap !! x) as [S|] eqn:E.
      - apply inbound_dom. eauto.
      - exfalso. apply Hno, Exists_exists. exists t. split; [done|]. apply Exists_exists.
        exists x. split; [by apply elem_of_elements|done]. }
    destruct (@calculate_spec O1 heap Hwf Hk) as (r1 & H1 & Ho1 & Hn1 & Ht1 & Hu1).
    destruct (@calculate_spec O2 heap Hwf Hk) as (r2 & H2 & Ho2 & Hn2 & Ht2 & Hu2).
    exists r1, r2. split; [done|]. split; [done|]. split.
    + intros a. destruct (decide (a ∈ dict_keys (objects heap))) as [Ha|Ha].
      * destruct (Ho1 a Ha) as (v & -> & Hv), (Ho2 a Ha) as (w & -> & Hw).
        by rewrite (retains_unique heap a v w).
      * by rewrite Hn1, Hn2.
    + intros nm. destruct (last_named_exists (threads heap) nm) as [Hnone|(t & Ht & <-)].
      * by rewrite Hu1, Hu2.
      * destruct (Ht1 t Ht) as (v & -> & Hv), (Ht2 t Ht) as (w & -> & Hw).
        by rewrite (thread_retains_unique heap t v w).
Qed.

(** C20: retained sizes are sane: an object retains at least its own size and at
    most the whole heap, and whatever its deletion releases by reference counting
    retains no more than it does. (On cycles that is less than what is reachable
    only through it: see [cycle_not_collected].) *)
Theorem retained_size_bounds `{SetOrder} heap a b r v w :
  dict_wf (objects heap) → sizes_ok heap → calculate_retained heap = Ok r →
  get_for_object r a = Some v → get_for_object r b = Some w →
  shallow heap a <= v ∧ v <= total_heap_size heap ∧ (only_via (refers heap) a b → w <= v).
Proof.
  intros Hwf Hs Hr Ha Hb.
  assert (∀ c u, get_for_object r c = Some u → retains heap c u) as Hret
    by (intros c u Hc; by eapply calculate_Ok).
  split; [by apply retains_own, Hret|]. split; [by eapply retains_le_total, Hret|].
  intros Hab. eapply retains_mono; [done|exact Hab| |]; by apply Hret.
Qed.

(** C19: what an object retains cannot be reached from an unreferenced object
    without passing through it; on a heap without reference cycles the converse
    holds too, so there the retained bytes are exactly those the object
    dominates. *)
Theorem retained_is_dominated `{SetOrder} heap r a v :
  dict_wf (objects heap) → calculate_retained heap = Ok r → get_for_object r a = Some v →
  ∃ D : gset Z, v = gsum (shallow heap) D ∧
    (∀ x, x ∈ D → dominated (refers heap) a x) ∧
    (well_founded (refers heap) → ∀ x, dominated (refers heap) a x → x ∈ D).
Proof.
  intros Hwf Hr Ha. destruct (calculate_Ok heap r Hwf Hr a v Ha) as [_ (D & HD & ->)].
  exists D. split; [done|]. split.
  - intros x Hx. by apply only_via_dominated, HD.
  - intros Hacyclic x Hx. apply HD. by apply dominated_only_via.
Qed.

(** ** Concrete heaps *)

Definition small_object (a sz : Z) (refs : list Z) : Z * HeapObject :=
  (a, mkHeapObject a 0 sz (list_to_set refs) ContentNone None).
Definition small_thread (nm : string) (locals : list Z) : HeapThread :=
  mkHeapThread (lit nm) true false
    [mkHeapThreadFrame (lit "f.py") 1 (lit "f") (imap (λ i x, (lit "v" ++ dec_string (Z.of_nat i), x)) locals)].
Definition small_heap (objs : list (Z * HeapObject)) (ts : list HeapThread) : Heap :=
  mkHeap (mkHeapHeader 1 [] (mkHeapFlags false) []) ts objs [] None.

(** A diamond with a tail that only one thread holds:
    1 -> 2, 3; 2 -> 4; 3 -> 4; 4 -> 5 *)
Definition diamond : Heap :=
  small_heap [small_object 1 10 [2; 3]; small_object 2 20 [4]; small_object 3 30 [4];
              small_object 4 40 [5]; small_object 5 50 []] [small_thread "main" [1]].

Lemma diamond_wf : dict_wf (objects diamond).
Proof. apply (bool_decide_unpack _). vm_compute. exact I. Qed.


Lemma inbound_references_correct_witness :
  ∃ S, inbound_of (@inbound_references elements_order diamond) 4 = Ok S ∧ 2 ∈ S.
Proof.
  destruct (@inbound_references_correct elements_order diamond 4 diamond_wf) as [H _].
  destruct H as (S & HS & Hiff).
  - left. apply (bool_decide_unpack _). vm_compute. exact I.
  - exists S. split; [exact HS|]. apply Hiff. unfold refers. apply (bool_decide_unpack _). vm_compute. exact I.
Defined.

Lemma strict_subtrees_exact_witness :
  ∃ self, @_find_strict_subtrees elements_order diamond (@inbound_references elements_order diamond)
            new_calculator = Ok self ∧ 4 ∉ _subtree_roots self ∧ 5 ∈ _subtree_roots self.
Proof.
  destruct (@strict_subtrees_exact elements_order diamond diamond_wf) as (self & Hrun & _).
  exists self. split; [exact Hrun|].
  vm_compute in Hrun. apply Ok_inj in Hrun. subst self.
  split; apply (bool_decide_unpack _); vm_compute; exact I.
Defined.


(** A thread that holds an address no object of the artifact mentions *)
Definition stray : Heap := small_heap [small_object 1 10 []] [small_thread "main" [1; 7]].

Lemma calculate_unknown_local_witness : @calculate_retained elements_order stray = Err KeyError.
Proof.
  apply (@calculate_unknown_local elements_order stray (small_thread "main" [1; 7]) 7).
  - apply (bool_decide_unpack _). vm_compute. exact I.
  - left.
  - apply (bool_decide_unpack _). vm_compute. exact I.
  - intros Hm. assert (dict_wf (objects stray)) as Hwf by (apply (bool_decide_unpack _); vm_compute; exact I).
    pose proof (@inbound_references_index elements_order stray Hwf) as Hix.
    apply inbound_dom in Hm as [S HS]. vm_compute in HS. discriminate HS.
Defined.

Lemma calculate_order_independent_witness :
  ∃ r1 r2, @calculate_retained elements_order diamond = Ok r1 ∧
           @calculate_retained reversed_order diamond = Ok r2 ∧
           get_for_object r1 4 = get_for_object r2 4.
Proof.
  destruct (calculate_order_independent elements_order reversed_order diamond diamond_wf)
    as [[Hbad _]|(r1 & r2 & H1 & H2 & Ho & _)].
  - exfalso. apply (f_equal is_ok) in Hbad. vm_compute in Hbad. discriminate Hbad.
  - exists r1, r2. split; [exact H1|]. split; [exact H2|]. apply Ho.
Defined.

Lemma diamond_sizes : sizes_ok diamond.
Proof. apply (bool_decide_unpack _). vm_compute. exact I. Qed.

Lemma retained_size_bounds_witness :
  shallow diamond 4 <= 90 ∧ 90 <= total_heap_size diamond ∧
  (only_via (refers diamond) 4 5 → 50 <= 90).
Proof.
  destruct (@calculate_retained elements_order diamond) as [r|e] eqn:E.
  - apply (@retained_size_bounds elements_order diamond 4 5 r 90 50 diamond_wf diamond_sizes E);
      vm_compute in E; apply Ok_inj in E; subst r; vm_compute; reflexivity.
  - exfalso. apply (f_equal is_ok) in E. vm_compute in E. discriminate E.
Defined.

Lemma retained_is_dominated_witness :
  ∃ D : gset Z, 90 = gsum (shallow diamond) D ∧ ∀ x, x ∈ D → dominated (refers diamond) 4 x.
Proof.
  destruct (@calculate_retained elements_order diamond) as [r|e] eqn:E.
  - destruct (@retained_is_dominated elements_order diamond r 4 90 diamond_wf E) as (D & HD & Hdom & _).
    + vm_compute in E; apply Ok_inj in E; subst r; vm_compute; reflexivity.
    + exists D. split; [exact HD|exact Hdom].
  - exfalso. apply (f_equal is_ok) in E. vm_compute in E. discriminate E.
Defined.

(** *** Where the cascade stops short of reachability *)

(** A cycle that hangs off an object survives it: 1 -> 2 -> 3 -> 2.  Only 1
    leads there, yet 1 retains its own size only. *)
Definition cycle : Heap :=
  small_heap [small_object 1 10 [2]; small_object 2 20 [3]; small_object 3 30 [2]] [].

Example cycle_not_collected :
  (r ← @calculate_retained elements_order cycle; mret (get_for_object r 1)) = Ok (Some 10).
Proof. vm_compute. reflexivity. Qed.

(** Another thread's local is kept only where it is also a local of the removed
    thread: thread [a] holds 1, 1 refers to 2 and thread [b] holds 2, yet 2
    counts as released with thread [a]. *)
Definition shared_below : Heap :=
  small_heap [small_object 1 10 [2]; small_object 2 20 []]
    [small_thread "a" [1]; small_thread "b" [2]].

Example shared_below_released :
  (r ← @calculate_retained elements_order shared_below; get_for_thread r (lit "a")) = Ok 30.
Proof. vm_compute. reflexivity. Qed.

(** Two threads with equal contents do not keep each other's locals. *)
Definition twins : Heap :=
  small_heap [small_object 1 10 []] [small_thread "w" [1]; small_thread "w" [1]].

Example twins_release :
  (r ← @calculate_retained elements_order twins; get_for_thread r (lit "w")) = Ok 10.
Proof. vm_compute. reflexivity. Qed.
