(* ===== verification/Report.v ===== *)
(** * The analysis report

    [analyzer/python/src/pydump_analyzer/report.py]: the consumer-neutral JSON
    form of a heap analysis. *)
From stdpp Require Import base tactics numbers list sorting gmap strings.
From S2P Require Import Prelude PyData Struct Text Digest Errors Json HeapModel HeapReader LoadedHeap.
From S2P Require Import RetainedModel.
From S2P Require Golden.

Definition ANALYSIS_SCHEMA : str := lit "pydump.analysis/v1".

Definition _address (value : Z) : str := lit "0x" ++ hex_string value.

(** [_sha256(path)], given the file's contents *)
Definition _sha256 (contents : bytes) : str := bytes_hex (sha256 contents).

(** ** Types *)

(** [d[key] = d.get(key, 0) + n] *)
Definition dict_add (d : dict Z Z) (key n : Z) : dict Z Z := dict_set d key (default 0 (dict_get d key) + n).

Definition type_counts (heap : Heap) : dict Z Z :=
  foldl (λ counts obj, dict_add counts (type_address obj) 1) [] (dict_values (objects heap)).
Definition type_sizes (heap : Heap) : dict Z Z :=
  foldl (λ sizes obj, dict_add sizes (type_address obj) (size obj)) [] (dict_values (objects heap)).

(** A row of the table, and the key of its order: the largest types first *)
Record TypeRow := mkTypeRow { tr_address : Z; tr_name : str; tr_count : Z; tr_size : Z }.

Definition type_row_leb : TypeRow → TypeRow → bool :=
  lex_Z (λ row, - tr_size row) (lex_Z (λ row, - tr_count row)
    (lex_str tr_name (λ x y, tr_address x <=? tr_address y))).

Definition type_row (heap : Heap) (address : Z) : result exc TypeRow :=
  size ← or_key_error (dict_get (type_sizes heap) address);
  count ← or_key_error (dict_get (type_counts heap) address);
  name ← or_key_error (dict_get (types heap) address);
  mret (mkTypeRow address name count size).

Definition type_rows (heap : Heap) : result exc (list TypeRow) :=
  rows ← map_result (type_row heap) (dict_keys (type_counts heap));
  mret (py_sort type_row_leb rows).

Definition type_summary (row : TypeRow) : json :=
  JObject [(lit "type_address", JString (_address (tr_address row)));
           (lit "type_name", JString (tr_name row));
           (lit "object_count", JInt (tr_count row));
           (lit "shallow_size_bytes", JInt (tr_size row))].

Definition _type_summaries (heap : Heap) : result exc json :=
  rows ← type_rows heap; mret (JList (type_summary <$> rows)).

(** ** Threads *)

Definition _object_type_name (heap : Heap) (address : Z) : option str :=
  match dict_get (objects heap) address with
  | None => None
  | Some obj => dict_get (types heap) (type_address obj)
  end.

(** The order of [sorted(frame.locals.items())] *)
Definition local_leb : str * Z → str * Z → bool := lex_str fst (λ x y, x.2 <=? y.2).

Definition local_summary (heap : Heap) (local : str * Z) : json :=
  JObject [(lit "name", JString local.1);
           (lit "object_address", JString (_address local.2));
           (lit "type_name", json_option JString (_object_type_name heap local.2))].

Definition frame_summary (heap : Heap) (frame : HeapThreadFrame) : json :=
  JObject [(lit "file_name", JString (file_name frame));
           (lit "line_number", JInt (line_number frame));
           (lit "function_name", JString (function_name frame));
           (lit "local_variables",
            JList (local_summary heap <$> py_sort local_leb (locals frame)))].

Definition _thread_summary (heap : Heap) (thread : HeapThread) (retained : option RetainedHeap)
  : result exc json :=
  let frames := frame_summary heap <$> stack_trace thread in
  retained_size ←
    match retained with
    | Some retained => size ← get_for_thread retained (name thread); mret (JInt size)
    | None => mret JNull
    end;
  mret (JObject [(lit "name", JString (name thread));
                 (lit "is_alive", JBool (is_alive thread));
                 (lit "is_daemon", JBool (is_daemon thread));
                 (lit "retained_size_bytes", retained_size);
                 (lit "frames", JList frames)]).

(** ** Retained heap *)

Section Document.
Context `{Interpreter}.

Definition _object_string (heap : Heap) (obj : HeapObject) : result exc (option str) :=
  if with_str_repr (flags (header heap)) then string_representation heap obj else mret None.

Definition top_object (heap : Heap) (entry : Z * Z) : result exc json :=
  let '(address, retained_size) := entry in
  obj ← or_key_error (dict_get (objects heap) address);
  type_name ← or_key_error (dict_get (types heap) (type_address obj));
  representation ← _object_string heap obj;
  mret (JObject [(lit "object_address", JString (_address address));
                 (lit "type_name", JString type_name);
                 (lit "shallow_size_bytes", JInt (size obj));
                 (lit "retained_size_bytes", JInt retained_size);
                 (lit "string_representation", json_option JString representation)]).

Definition _retained_summary (heap : Heap) (retained : option RetainedHeap) (top_n : Z) : result exc json :=
  match retained with
  | None => mret (JObject [(lit "status", JString (lit "not_computed")); (lit "top_n", JInt top_n);
                           (lit "top_objects", JList [])])
  | Some retained =>
      top_objects ← map_result (top_object heap)
        (py_prefix top_n (objects_sorted_by_retained_heap heap retained));
      mret (JObject [(lit "status", JString (lit "complete")); (lit "top_n", JInt top_n);
                     (lit "top_objects", JList top_objects)])
  end.

(** ** The document *)

Definition referent_count (heap : Heap) : Z :=
  zsum ((λ obj, Z.of_nat (base.size (referents obj))) <$> dict_values (objects heap)).

(** [contents] are the bytes of the heap file. *)
Definition build_heap_analysis (contents : bytes) (heap : Heap) (retained : option RetainedHeap) (top_n : Z)
  : result exc json :=
  types_part ← _type_summaries heap;
  threads_part ← map_result (λ thread, _thread_summary heap thread retained) (threads heap);
  retained_part ← _retained_summary heap retained top_n;
  mret (JObject
    [(lit "schema", JString ANALYSIS_SCHEMA);
     (lit "source", JObject
       [(lit "sha256", JString (_sha256 contents));
        (lit "size_bytes", JInt (blen contents));
        (lit "heap_format_version", JInt (version (header heap)));
        (lit "created_at", JString (created_at (header heap)));
        (lit "with_string_representations", JBool (with_str_repr (flags (header heap))))]);
     (lit "heap", JObject
       [(lit "object_count", JInt (blen (objects heap)));
        (lit "type_count", JInt (blen (types heap)));
        (lit "thread_count", JInt (blen (threads heap)));
        (lit "referent_count", JInt (referent_count heap));
        (lit "shallow_size_bytes", JInt (total_heap_size heap))]);
     (lit "types", types_part);
     (lit "threads", JList threads_part);
     (lit "retained_heap", retained_part)]).

End Document.

(** The contract's expected document, [contracts/testdata/analysis-v1.expected.json],
    with single quotes for double ones. *)
Definition requote (s : str) : str := (λ c, if c =? 0x27 then quote else c) <$> s.

Definition golden_analysis : str := requote (lit
"{
  'schema': 'pydump.analysis/v1',
  'source': {
    'sha256': '6fd07af74817a21c2b16591cd27351f3520a8d086282123d38fac2cd808b7d51',
    'size_bytes': 750,
    'heap_format_version': 1,
    'created_at': '2026-08-13T12:00:00+00:00',
    'with_string_representations': true
  },
  'heap': {
    'object_count': 7,
    'type_count': 5,
    'thread_count': 1,
    'referent_count': 9,
    'shallow_size_bytes': 288
  },
  'types': [
    {
      'type_address': '0x1002',
      'type_name': 'dict',
      'object_count': 1,
      'shallow_size_bytes': 80
    },
    {
      'type_address': '0x1000',
      'type_name': 'list',
      'object_count': 1,
      'shallow_size_bytes': 64
    },
    {
      'type_address': '0x100a',
      'type_name': 'object',
      'object_count': 3,
      'shallow_size_bytes': 56
    },
    {
      'type_address': '0x1003',
      'type_name': 'set',
      'object_count': 1,
      'shallow_size_bytes': 48
    },
    {
      'type_address': '0x1001',
      'type_name': 'tuple',
      'object_count': 1,
      'shallow_size_bytes': 40
    }
  ],
  'threads': [
    {
      'name': 'MainThread',
      'is_alive': true,
      'is_daemon': false,
      'retained_size_bytes': 64,
      'frames': [
        {
          'file_name': '/app/main.py',
          'line_number': 42,
          'function_name': 'run',
          'local_variables': [
            {
              'name': 'payload',
              'object_address': '0x2000',
              'type_name': 'list'
            }
          ]
        }
      ]
    }
  ],
  'retained_heap': {
    'status': 'complete',
    'top_n': 8,
    'top_objects': [
      {
        'object_address': '0x8000',
        'type_name': 'dict',
        'shallow_size_bytes': 80,
        'retained_size_bytes': 80,
        'string_representation': '{<object at 0x3000>: <object at 0x4000>}'
      },
      {
        'object_address': '0x2000',
        'type_name': 'list',
        'shallow_size_bytes': 64,
        'retained_size_bytes': 64,
        'string_representation': '[<object at 0x3000>, <object at 0x4000>]'
      },
      {
        'object_address': '0x6000',
        'type_name': 'set',
        'shallow_size_bytes': 48,
        'retained_size_bytes': 48,
        'string_representation': '{<object at 0x3000>, <object at 0x4000>}'
      },
      {
        'object_address': '0x7000',
        'type_name': 'tuple',
        'shallow_size_bytes': 40,
        'retained_size_bytes': 40,
        'string_representation': '(<object at 0x3000>)'
      },
      {
        'object_address': '0x4000',
        'type_name': 'object',
        'shallow_size_bytes': 32,
        'retained_size_bytes': 32,
        'string_representation': '<object at 0x4000>'
      },
      {
        'object_address': '0x3000',
        'type_name': 'object',
        'shallow_size_bytes': 16,
        'retained_size_bytes': 16,
        'string_representation': '<object at 0x3000>'
      },
      {
        'object_address': '0x5000',
        'type_name': 'object',
        'shallow_size_bytes': 8,
        'retained_size_bytes': 8,
        'string_representation': '<object at 0x5000>'
      }
    ]
  }
}
").

(** Loading, analysing and reporting the fixture gives that document. *)
Definition golden_report : result exc str :=
  heap ← load_heap Golden.golden_artifact;
  retained ← @calculate_retained elements_order heap;
  report ← @build_heap_analysis default_limits Golden.golden_artifact heap (Some retained) 8;
  mret (dumps_indented report ++ [10]).

Example golden_report_expected : golden_report = Ok golden_analysis.
Proof. vm_compute. reflexivity. Qed.
