(* ===== verification/Reports.v ===== *)
(** * The report's theorems

    The type table partitions the heap, the retained part lists the largest
    objects, and every artifact the reader accepts can be reported on: without
    retained sizes always, with them unless a listed object nests too deep. *)
From stdpp Require Import base tactics numbers list sorting gmap strings.
From S2P Require Import Prelude PyData Struct Text Errors Json HeapModel HeapReader LoadedHeap.
From S2P Require Import RetainedModel Deletions Retained Report.
From S2P Require Golden.

(** ** The type table *)

Lemma dict_add_keys d key n x : x ∈ (dict_add d key n).*1 ↔ x = key ∨ x ∈ d.*1.
Proof. apply dict_set_keys. Qed.

Lemma dict_add_get d key n x :
  default 0 (dict_get (dict_add d key n) x) = default 0 (dict_get d x) + (if decide (x = key) then n else 0).
Proof.
  unfold dict_add. rewrite dict_get_set. case_decide as Hx; cbn; [by subst|lia].
Qed.

Lemma zsum_cons z l : zsum (z :: l) = z + zsum l.
Proof. done. Qed.

(** Adding up a number per object, grouped by a key *)
Section Totals.
Context {A : Type} (key : A → Z) (amount : A → Z).

Definition total (l : list A) : dict Z Z := foldl (λ d x, dict_add d (key x) (amount x)) [] l.

Lemma total_snoc l x : total (l ++ [x]) = dict_add (total l) (key x) (amount x).
Proof. unfold total. by rewrite foldl_app. Qed.

Lemma total_wf l : dict_wf (total l).
Proof.
  induction l as [|x l IH] using rev_ind; [constructor|]. rewrite total_snoc. by apply dict_set_wf.
Qed.

Lemma total_keys l k : k ∈ (total l).*1 ↔ ∃ x, x ∈ l ∧ key x = k.
Proof.
  induction l as [|x l IH] using rev_ind.
  - split; [by intros ?%elem_of_nil|by intros (x & ?%elem_of_nil & _)].
  - rewrite total_snoc, dict_add_keys, IH. set_solver.
Qed.

Lemma total_get l k : default 0 (dict_get (total l) k) = zsum (amount <$> filter (λ x, key x = k) l).
Proof.
  induction l as [|x l IH] using rev_ind; [done|].
  rewrite total_snoc, dict_add_get, IH, filter_app, fmap_app, zsum_app.
  rewrite filter_cons, filter_nil. repeat case_decide; subst; cbn; try done; lia.
Qed.

Lemma total_lookup l k :
  k ∈ (total l).*1 → dict_get (total l) k = Some (zsum (amount <$> filter (λ x, key x = k) l)).
Proof. intros [v Hv]%dict_get_is_Some. rewrite <- total_get, Hv. done. Qed.

Lemma zsum_partition (ks : list Z) (l : list A) :
  NoDup ks → (∀ x, x ∈ l → key x ∈ ks) →
  zsum ((λ k, zsum (amount <$> filter (λ x, key x = k) l)) <$> ks) = zsum (amount <$> l).
Proof.
  intros Hnd. revert l. induction Hnd as [|k ks Hk Hnd IH]; intros l Hl; cbn.
  - destruct l as [|x l]; [done|]. exfalso. specialize (Hl x ltac:(by left)). by apply elem_of_nil in Hl.
  - assert (zsum (amount <$> l) = zsum (amount <$> filter (λ x, key x = k) l)
            + zsum (amount <$> filter (λ x, key x ≠ k) l)) as ->.
    { clear. induction l as [|x l IH]; [done|]. rewrite !filter_cons.
      destruct (decide (key x = k)); [rewrite decide_False by tauto|rewrite decide_True by done];
        rewrite !fmap_cons, !zsum_cons; lia. }
    f_equal. rewrite <- (IH (filter (λ x, key x ≠ k) l)).
    + f_equal. apply list_fmap_ext. intros i k' Hi%list_elem_of_lookup_2. f_equal. f_equal.
      clear -Hk Hi. induction l as [|x l IH]; [done|]. rewrite !filter_cons.
      destruct (decide (key x = k)) as [->|]; [rewrite (decide_False (P := k = k')) by congruence|].
      * rewrite decide_False by tauto. done.
      * rewrite (decide_True (P := key x ≠ k)) by done. rewrite filter_cons. by case_decide; rewrite IH.
    + intros x [Hx Hin]%list_elem_of_filter. specialize (Hl x Hin). set_solver.
Qed.
End Totals.

Lemma map_result_Ok_all {A B} (f : A → result exc B) (g : A → B) xs :
  (∀ x, x ∈ xs → f x = Ok (g x)) → map_result f xs = Ok (g <$> xs).
Proof.
  induction xs as [|x xs IH]; intros Hf; [done|]. cbn [map_result].
  rewrite Hf by (by left). cbn [mbind result_bind]. by rewrite IH by (intros; apply Hf; by right).
Qed.

(** The objects of a type *)
Definition of_type (heap : Heap) (t : Z) : list HeapObject :=
  filter (λ o, type_address o = t) (dict_values (objects heap)).

Definition row_of (heap : Heap) (t : Z) : TypeRow :=
  mkTypeRow t (default [] (dict_get (types heap) t)) (blen (of_type heap t)) (zsum (size <$> of_type heap t)).

Lemma zsum_ones {A} (l : list A) : zsum ((λ _, 1) <$> l) = blen l.
Proof. induction l as [|x l IH]; [done|]. rewrite fmap_cons, zsum_cons, IH, blen_cons. lia. Qed.

Lemma type_row_spec heap t :
  t ∈ (type_counts heap).*1 → t ∈ (types heap).*1 → type_row heap t = Ok (row_of heap t).
Proof.
  intros Hc Ht. unfold type_row.
  change (type_sizes heap) with (total type_address size (dict_values (objects heap))).
  change (type_counts heap) with (total type_address (λ _, 1) (dict_values (objects heap))) in *.
  assert (t ∈ (total type_address size (dict_values (objects heap))).*1) as Hs
    by (apply total_keys; by apply total_keys in Hc).
  rewrite (total_lookup type_address size) by done. cbn [or_key_error mbind result_bind].
  rewrite (total_lookup type_address (λ _, 1)) by done. cbn [or_key_error mbind result_bind].
  apply dict_get_is_Some in Ht as [n Hn]. rewrite Hn. cbn [or_key_error mbind result_bind].
  unfold row_of, of_type. by rewrite Hn, zsum_ones.
Qed.

Lemma type_counts_keys heap t :
  t ∈ (type_counts heap).*1 ↔ ∃ o, o ∈ dict_values (objects heap) ∧ type_address o = t.
Proof. apply (total_keys type_address (λ _, 1)). Qed.

Lemma type_counts_wf heap : dict_wf (type_counts heap).
Proof. apply (total_wf type_address (λ _, 1)). Qed.

(** Every type of the heap's objects is in its type table. *)
Definition types_named (heap : Heap) : Prop := Forall (λ e, type_address e.2 ∈ (types heap).*1) (objects heap).

Lemma type_rows_run heap :
  types_named heap → type_rows heap = Ok (py_sort type_row_leb (row_of heap <$> dict_keys (type_counts heap))).
Proof.
  intros Hn. unfold type_rows. rewrite (map_result_Ok_all _ (row_of heap)); [done|].
  intros t Ht. apply type_row_spec; [done|].
  apply type_counts_keys in Ht as (o & Ho & <-). unfold dict_values in Ho.
  apply list_elem_of_fmap in Ho as (e & -> & He). by eapply Forall_forall in Hn.
Qed.

(** The order of strings: one begins with the other, or the first characters that
    differ decide *)
Definition str_before (s t : str) : Prop :=
  (∃ c r, t = s ++ c :: r) ∨ ∃ p c d s' t', s = p ++ c :: s' ∧ t = p ++ d :: t' ∧ c < d.

Lemma str_leb_before s t : str_leb s t = true → s = t ∨ str_before s t.
Proof.
  revert t. induction s as [|c s IH]; intros [|d t]; [by left|right; left; by exists d, t|done|].
  cbn [str_leb]. destruct (Z.eqb_spec c d) as [->|Hne].
  - intros [->|[(e & r & ->)|(p & e & e' & s' & t' & -> & -> & Hlt)]]%IH; [by left|right; left; by exists e, r|].
    right. right. by exists (d :: p), e, e', s', t'.
  - intros Hlt%Z.ltb_lt. right. right. by exists [], c, d, s, t.
Qed.

(** The rows' order: the largest total size first, then the largest number of
    objects, then the names, then the addresses *)
Definition listed_before (x y : TypeRow) : Prop :=
  tr_size y < tr_size x ∨ tr_size x = tr_size y ∧
    (tr_count y < tr_count x ∨ tr_count x = tr_count y ∧
       (str_before (tr_name x) (tr_name y) ∨ tr_name x = tr_name y ∧ tr_address x < tr_address y)).

Lemma type_row_leb_before x y :
  type_row_leb x y = true → tr_address x ≠ tr_address y → listed_before x y.
Proof.
  unfold type_row_leb, lex_Z, lex_str, listed_before. intros Hle Hne.
  destruct (Z.eqb_spec (- tr_size x) (- tr_size y)) as [Hs|]; [right|left; lia]. split; [lia|].
  destruct (Z.eqb_spec (- tr_count x) (- tr_count y)) as [Hc|]; [right|left; lia]. split; [lia|].
  case_bool_decide as Hn; [right; split; [done|lia]|left].
  by apply str_leb_before in Hle as [|].
Qed.

(** C24: the type table of the report is a partition of the heap: one row for each
    type that occurs, with the number and the total size of exactly its
    objects and its name, the rows adding up to the whole heap. The rows are
    listed by total size, the largest first, then by the number of objects, the
    largest first, then by name and then by address; each is an object with the
    type's address in hexadecimal, its name, the number and the size. *)
Theorem type_summaries_correct heap :
  types_named heap →
  ∃ rows, _type_summaries heap = Ok (JList ((λ row,
      JObject [(lit "type_address", JString (lit "0x" ++ hex_string (tr_address row)));
               (lit "type_name", JString (tr_name row));
               (lit "object_count", JInt (tr_count row));
               (lit "shallow_size_bytes", JInt (tr_size row))]) <$> rows)) ∧
    NoDup (tr_address <$> rows) ∧
    (∀ t, t ∈ tr_address <$> rows ↔ ∃ o, o ∈ dict_values (objects heap) ∧ type_address o = t) ∧
    (∀ row, row ∈ rows → row = row_of heap (tr_address row)) ∧
    (∀ i j x y, (i < j)%nat → rows !! i = Some x → rows !! j = Some y → listed_before x y) ∧
    zsum (tr_count <$> rows) = blen (objects heap) ∧ zsum (tr_size <$> rows) = total_heap_size heap.
Proof.
  intros Hn. set (ks := dict_keys (type_counts heap)).
  exists (py_sort type_row_leb (row_of heap <$> ks)).
  pose proof (type_rows_run heap Hn) as Hrun.
  split; [unfold _type_summaries; by rewrite Hrun|].
  assert (py_sort type_row_leb (row_of heap <$> ks) ≡ₚ row_of heap <$> ks) as Hperm by apply py_sort_perm.
  assert (tr_address <$> (row_of heap <$> ks) = ks) as Hks.
  { rewrite <- list_fmap_compose. apply list_fmap_id. }
  assert (∀ o, o ∈ dict_values (objects heap) → type_address o ∈ ks) as Hall
    by (intros o Ho; apply type_counts_keys; by exists o).
  assert (NoDup (tr_address <$> py_sort type_row_leb (row_of heap <$> ks))) as Hnodup
    by (rewrite Hperm, Hks; apply type_counts_wf).
  split; [done|].
  split; [intros t; rewrite Hperm, Hks; apply type_counts_keys|].
  split.
  { intros row. rewrite Hperm. by intros (t & -> & _)%list_elem_of_fmap. }
  split.
  { intros i j x y Hij Hi Hj. apply type_row_leb_before.
    - eapply (StronglySorted_lookup (λ x y, type_row_leb x y = true)); [apply py_sort_sorted; apply _|done..].
    - intros E. assert (i = j); [|lia]. eapply NoDup_lookup; [exact Hnodup|by rewrite list_lookup_fmap, Hi|].
      rewrite list_lookup_fmap, Hj. cbn. by rewrite E. }
  split.
  - rewrite Hperm.
    rewrite <- list_fmap_compose.
    transitivity (zsum ((λ _, 1) <$> dict_values (objects heap))).
    + rewrite <- (zsum_partition type_address (λ _, 1) ks) by (done || apply type_counts_wf).
      f_equal. apply list_fmap_ext. intros i t _. cbn. by rewrite zsum_ones.
    + rewrite zsum_ones. unfold blen, dict_values. by rewrite length_fmap.
  - rewrite Hperm.
    rewrite <- list_fmap_compose. unfold total_heap_size.
    rewrite <- (zsum_partition type_address size ks) by (done || apply type_counts_wf).
    done.
Qed.

(** ** The retained part *)

Lemma sorted_entries_elem heap retained e :
  e ∈ objects_sorted_by_retained_heap heap retained ↔
  e.1 ∈ (objects heap).*1 ∧ e.2 = default 0 (get_for_object retained e.1).
Proof.
  unfold objects_sorted_by_retained_heap. rewrite py_sort_perm, list_elem_of_fmap. unfold dict_keys.
  split; [by intros (a & -> & Ha)|]. destruct e as [a v]. cbn. intros [Ha ->]. by exists a.
Qed.

Lemma listed_elem heap retained top_n e :
  e ∈ py_prefix top_n (objects_sorted_by_retained_heap heap retained) →
  e.1 ∈ (objects heap).*1 ∧ e.2 = default 0 (get_for_object retained e.1).
Proof.
  unfold py_prefix. intros He. apply sorted_entries_elem.
  destruct (0 <=? top_n); by eapply elem_of_take in He as (? & ?%list_elem_of_lookup_2 & _).
Qed.

Lemma descending_sorted (l : list (Z * Z)) :
  StronglySorted (λ x y, (y.2 <=? x.2) = true) l → StronglySorted (λ x y, y.2 <= x.2) l.
Proof.
  induction 1 as [|x l _ IH Hall]; constructor; [done|].
  eapply Forall_impl; [exact Hall|]. intros y. apply Z.leb_le.
Qed.

(** The [top_n] objects that retain most: as many as asked for or all, in
    descending order, each with its own retained size, no object left out that
    retains more than a listed one *)
Record largest (heap : Heap) (retained : RetainedHeap) (top_n : Z) (listed : list (Z * Z)) : Prop := {
  lg_number : blen listed = Z.min top_n (blen (objects heap));
  lg_once : NoDup listed.*1;
  lg_sorted : ∀ i j x y, (i < j)%nat → listed !! i = Some x → listed !! j = Some y → y.2 <= x.2;
  lg_sizes : ∀ a v, (a, v) ∈ listed → a ∈ (objects heap).*1 ∧ v = default 0 (get_for_object retained a);
  lg_others : ∀ a, a ∈ (objects heap).*1 → a ∉ listed.*1 →
    ∀ b v, (b, v) ∈ listed → default 0 (get_for_object retained a) <= v;
}.

Lemma sorted_largest heap retained top_n :
  dict_wf (objects heap) → 0 <= top_n →
  largest heap retained top_n (py_prefix top_n (objects_sorted_by_retained_heap heap retained)).
Proof.
  intros Hwf Hn. pose proof (λ e, listed_elem heap retained top_n e) as Helem.
  unfold py_prefix in *. rewrite (proj2 (Z.leb_le 0 top_n)) in * by done.
  set (l := objects_sorted_by_retained_heap heap retained) in *.
  assert (StronglySorted (λ x y : Z * Z, y.2 <= x.2) l) as Hsorted.
  { apply descending_sorted, py_sort_sorted, _. }
  assert (l.*1 ≡ₚ (objects heap).*1) as Hkeys.
  { unfold l, objects_sorted_by_retained_heap. rewrite py_sort_perm, <- list_fmap_compose.
    unfold dict_keys. by rewrite list_fmap_id. }
  assert (length l = length (objects heap)) as Hlen.
  { rewrite <- (length_fmap fst l), Hkeys. by rewrite length_fmap. }
  assert (l = take (Z.to_nat top_n) l ++ drop (Z.to_nat top_n) l) as Hsplit by (by rewrite take_drop).
  rewrite Hsplit in Hsorted. apply StronglySorted_app in Hsorted as (Hrel & Htop & _). constructor.
  - unfold blen. rewrite length_take, Hlen. lia.
  - rewrite fmap_take. apply (NoDup_app (take (Z.to_nat top_n) l.*1) (drop (Z.to_nat top_n) l.*1)).
    rewrite take_drop, Hkeys. exact Hwf.
  - intros i j x y. by apply (StronglySorted_lookup (λ x y : Z * Z, y.2 <= x.2)).
  - intros a v Ha. by apply (Helem (a, v)).
  - intros a Ha Hout b v Hb. rewrite <- Hkeys in Ha. apply list_elem_of_fmap in Ha as ([a' w] & -> & Hin).
    pose proof (proj1 (sorted_entries_elem heap retained (a', w)) Hin) as [_ Hw]. cbn in Hw |- *. rewrite <- Hw.
    rewrite Hsplit in Hin. apply elem_of_app in Hin as [Hin|Hin]; [|exact (Hrel (b, v) (a', w) Hb Hin)].
    exfalso. apply Hout. by apply (list_elem_of_fmap_2 fst _ (a', w)).
Qed.

(** ** Whole reports *)

Section Reporting.
Context `{Interpreter} (h : Heap) (wf : heap_wf h).

(** A listed object whose text is not rendered *)
Definition deep_entry (e : Z * Z) : Prop := ∃ o, dict_get (objects h) e.1 = Some o ∧ too_deep h o.

(** What an entry of the report says of a listed object *)
Definition object_entry (e : Z * Z) (j : json) : Prop :=
  ∃ o name text, dict_get (objects h) e.1 = Some o ∧ dict_get (types h) (type_address o) = Some name ∧
    string_representation h o = Ok text ∧
    j = JObject [(lit "object_address", JString (lit "0x" ++ hex_string e.1));
                 (lit "type_name", JString name);
                 (lit "shallow_size_bytes", JInt (size o));
                 (lit "retained_size_bytes", JInt e.2);
                 (lit "string_representation", match text with Some s => JString s | None => JNull end)].

Lemma named o a : dict_get (objects h) a = Some o → ∃ n, dict_get (types h) (type_address o) = Some n.
Proof.
  intros Ho%dict_get_elem. pose proof (hw_typed h wf) as Hn. rewrite Forall_forall in Hn.
  apply dict_get_is_Some. exact (Hn _ Ho).
Qed.

(** The text of an object, asked for where there is none, is none. *)
Lemma object_string o : _object_string h o = string_representation h o.
Proof. unfold _object_string, string_representation. by destruct (with_str_repr _). Qed.

Lemma top_object_spec e :
  e.1 ∈ (objects h).*1 →
  unless_deep (deep_entry e) (top_object h e) ∧ ∀ j, top_object h e = Ok j → object_entry e j.
Proof.
  destruct e as [a v]. cbn [fst]. intros [o Ho]%dict_get_is_Some. unfold top_object. rewrite Ho.
  cbn [or_key_error mbind result_bind].
  destruct (named o a Ho) as [n Hn]. rewrite Hn, object_string. cbn [or_key_error mbind result_bind].
  destruct (render_object h wf o) as [Hr _]. split.
  - apply unless_deep_iff with (D := too_deep h o).
    { unfold deep_entry. cbn [fst]. rewrite Ho. naive_solver. }
    by apply unless_deep_then.
  - intros j (text & Htext & [= <-])%result_bind_inv. by exists o, n, text.
Qed.

Lemma map_result_Forall2 {A B} (P : A → B → Prop) (f : A → result exc B) xs ys :
  (∀ x y, x ∈ xs → f x = Ok y → P x y) → map_result f xs = Ok ys → Forall2 P xs ys.
Proof.
  revert ys. induction xs as [|x xs IH]; intros ys Hf; cbn [map_result]; [intros [= <-]; constructor|].
  intros (y & Hy & (zs & Hzs & [= <-])%result_bind_inv)%result_bind_inv.
  constructor; [apply Hf; [by left|done]|]. apply IH; [|done]. intros. apply Hf; [by right|done].
Qed.

(** C25: the retained part of the report. It lists the [top_n] objects that retain
    most, or all: in descending order, each once, with its address, the name of
    its type, its own size, its retained size and its text, no object left out
    that retains more than a listed one. It fails only where a listed object's
    text nests deeper than the interpreter's recursion limit, with
    [RecursionError]. *)
Theorem top_objects_are_largest retained top_n :
  0 <= top_n →
  ∃ listed, largest h retained top_n listed ∧
    match _retained_summary h (Some retained) top_n with
    | Ok j => ∃ entries, Forall2 object_entry listed entries ∧
        j = JObject [(lit "status", JString (lit "complete")); (lit "top_n", JInt top_n);
                     (lit "top_objects", JList entries)]
    | Err e => e = RecursionError ∧ ∃ entry, entry ∈ listed ∧ deep_entry entry
    end.
Proof.
  intros Hn. eexists. split; [by apply sorted_largest, Hn; apply (hw_objects h wf)|].
  unfold _retained_summary. set (listed := py_prefix _ _).
  assert (∀ e, e ∈ listed → e.1 ∈ (objects h).*1) as Hin by (intros e He; by apply listed_elem in He as [? _]).
  pose proof (unless_deep_map deep_entry (top_object h) listed (λ e He, proj1 (top_object_spec e (Hin e He)))) as Hd.
  destruct (map_result (top_object h) listed) as [entries|x] eqn:E; cbn [mbind result_bind].
  - exists entries. split; [|done]. eapply map_result_Forall2; [|exact E].
    intros e j He. by apply top_object_spec, Hin.
  - destruct Hd as [-> Hd]. split; [done|]. done.
Qed.

Lemma thread_summary_total t retained :
  (∀ r, retained = Some r → ∃ v, get_for_thread r (name t) = Ok v) →
  is_ok (_thread_summary h t retained) = true.
Proof.
  intros Hr. unfold _thread_summary. destruct retained as [r|]; [|done].
  destruct (Hr r eq_refl) as [v Hv]. by rewrite Hv.
Qed.

(** Some object's text is not rendered. *)
Definition deep_heap : Prop := ∃ a o, dict_get (objects h) a = Some o ∧ too_deep h o.

Lemma deep_heap_objects : deep_heap → (rendering_depth <= length (objects h))%nat.
Proof. intros (a & o & _ & Hd). by eapply too_deep_objects. Qed.

(** A report about a well-formed heap, with no retained sizes or with one for
    each thread: it is built, unless an object listed in it nests too deep. *)
Lemma report_built contents retained top_n :
  (∀ r t, retained = Some r → t ∈ threads h → ∃ v, get_for_thread r (name t) = Ok v) →
  match build_heap_analysis contents h retained top_n with
  | Ok _ => True
  | Err e => e = RecursionError ∧ is_Some retained ∧ deep_heap
  end.
Proof.
  intros Hr. unfold build_heap_analysis, _type_summaries.
  rewrite (type_rows_run h (hw_typed h wf)). cbn [mbind result_bind].
  assert (is_ok (map_result (λ t, _thread_summary h t retained) (threads h)) = true) as Ht.
  { pose proof (unless_deep_map (λ _, False) (λ t, _thread_summary h t retained) (threads h)) as Hm.
    destruct (map_result _ _) as [ts|e]; [done|]. exfalso. destruct Hm as [_ (? & _ & [])].
    intros t Hin. apply unless_deep_ok, thread_summary_total. intros r Hret. by apply Hr. }
  destruct (map_result _ (threads h)) as [ts|]; [|done]. cbn [mbind result_bind].
  unfold _retained_summary. destruct retained as [r|]; [|done].
  pose proof (unless_deep_map deep_entry (top_object h) (py_prefix top_n (objects_sorted_by_retained_heap h r))
    (λ e He, proj1 (top_object_spec e (proj1 (listed_elem _ _ _ _ He))))) as Hd.
  destruct (map_result (top_object h) _) as [js|e]; [done|]. cbn [mbind result_bind].
  destruct Hd as [-> (x & _ & o & Ho & Hdeep)]. split; [done|]. split; [done|]. by exists x.1, o.
Qed.

Lemma report_total contents top_n : ∃ j, build_heap_analysis contents h None top_n = Ok j.
Proof.
  pose proof (report_built contents None top_n ltac:(done)) as Hr.
  destruct (build_heap_analysis _ _ _ _) as [j|e]; [by exists j|]. by destruct Hr as (_ & [? ?] & _).
Qed.
End Reporting.

(** The calculation of a loaded heap, and that it names every thread *)
Lemma retained_for_report `{SetOrder} h :
  heap_wf h → (∀ t x, t ∈ threads h → x ∈ thread_locals t → mentioned h x) →
  ∃ r, calculate_retained h = Ok r ∧ ∀ t, t ∈ threads h → ∃ v, get_for_thread r (name t) = Ok v.
Proof.
  intros Hwf Hlocals.
  destruct (calculate_spec h (hw_objects h Hwf) Hlocals) as (r & Hr & _ & _ & Hthreads & _).
  exists r. split; [done|]. intros t Ht.
  destruct (last_named_exists (threads h) (name t)) as [Hno|(u & Hu & <-)].
  - by destruct (Hno t Ht).
  - destruct (Hthreads u Hu) as (v & Hv & _). by exists v.
Qed.

(** ** The fixture *)

Lemma golden_named : types_named golden_heap.
Proof. apply (bool_decide_unpack _). vm_compute. exact I. Qed.

Lemma golden_wf : dict_wf (objects golden_heap).
Proof. apply (bool_decide_unpack _). vm_compute. exact I. Qed.

Lemma type_summaries_correct_witness :
  ∃ rows summaries, _type_summaries golden_heap = Ok (JList summaries) ∧ length summaries = 5%nat ∧
    zsum (tr_count <$> rows) = 7 ∧ zsum (tr_size <$> rows) = 288 ∧
    ∀ i j x y, (i < j)%nat → rows !! i = Some x → rows !! j = Some y → listed_before x y.
Proof.
  destruct (type_summaries_correct golden_heap golden_named) as (rows & Hr & _ & _ & _ & Hs & Hc & Hz).
  match type of Hr with _ = Ok (JList ?l) => exists rows, l end.
  split; [exact Hr|]. split; [|split; [rewrite Hc; vm_compute; reflexivity|split; [rewrite Hz; vm_compute; reflexivity|exact Hs]]].
  apply (f_equal (λ r, match r with Ok (JList l) => length l | _ => O end)) in Hr.
  cbv beta iota in Hr. rewrite <- Hr. vm_compute. reflexivity.
Defined.

Lemma golden_loaded : heap_wf golden_heap.
Proof.
  pose proof (load_heap_yields Golden.golden_artifact) as Hy.
  assert (load_heap Golden.golden_artifact = Ok golden_heap) as E by (vm_compute; reflexivity).
  rewrite E in Hy. apply Hy.
Qed.

Lemma top_objects_are_largest_witness :
  let retained := mkRetainedHeap [(0x3000, 16); (0x2000, 64)] [] in
  ∃ listed, largest golden_heap retained 2 listed ∧
    match @_retained_summary default_limits golden_heap (Some retained) 2 with
    | Ok j => ∃ entries, Forall2 (@object_entry default_limits golden_heap) listed entries ∧
        j = JObject [(lit "status", JString (lit "complete")); (lit "top_n", JInt 2); (lit "top_objects", JList entries)]
    | Err _ => False
    end.
Proof.
  cbv zeta. set (retained := mkRetainedHeap _ _).
  destruct (@top_objects_are_largest default_limits golden_heap golden_loaded retained 2) as (listed & Hl & Hj);
    [vm_compute; discriminate|].
  exists listed. split; [exact Hl|].
  assert (is_ok (@_retained_summary default_limits golden_heap (Some retained) 2) = true) as Hok by (vm_compute; reflexivity).
  destruct (@_retained_summary default_limits golden_heap (Some retained) 2) as [j|x]; [exact Hj|discriminate].
Defined.
