(* ===== verification/ReportText.v ===== *)
(** * The printed report is read back

    The report of a loaded heap is a document whose text [json.load] reads as the
    report again: its texts hold no surrogates and its objects no key twice. *)
From stdpp Require Import base tactics numbers list gmap strings.
From S2P Require Import Prelude PyData Struct Text StrOps Errors Json JsonParse JsonRoundTrip HeapModel LoadedHeap.
From S2P Require Import RetainedModel Report Reports.

(** ** Rendered texts *)

Lemma map_result_all {A B} (f : A → result exc B) (P : B → Prop) xs ys :
  (∀ x y, f x = Ok y → P y) → map_result f xs = Ok ys → Forall P ys.
Proof.
  intros Hf. revert ys. induction xs as [|x xs IH]; intros ys; cbn [map_result]; [intros [= <-]; constructor|].
  intros (y & Hy & (zs & Hzs & [= <-])%result_bind_inv)%result_bind_inv. constructor; [by eapply Hf|by apply IH].
Qed.

Lemma parts_scalar {A} (f : A → result exc str) xs s :
  (∀ x t, f x = Ok t → str_scalar t) →
  (parts ← map_result f xs; mret (join (lit ", ") parts)) = Ok s → str_scalar s.
Proof.
  intros Hf (parts & Hp & [= <-])%result_bind_inv. apply join_scalar; [by apply lit_scalar|].
  by eapply map_result_all.
Qed.

Lemma brackets_scalar h t p : _container_brackets h t = Ok p → str_scalar p.1 ∧ str_scalar p.2.
Proof.
  unfold _container_brackets. intros (l & _ & H)%result_bind_inv.
  destruct (_ =? l); [injection H as <-; by split; apply lit_scalar|].
  apply result_bind_inv in H as (u & _ & H). by destruct (_ =? u); injection H as <-; split; apply lit_scalar.
Qed.

Lemma render_scalar h fuel a seen s : _string_representation fuel h a seen = Ok s → str_scalar s.
Proof.
  revert a seen s. induction fuel as [|fuel IH]; intros a seen s; [done|]. cbn [_string_representation].
  destruct (dict_get (objects h) a) as [o|]; [|intros [= <-]; by apply lit_scalar].
  intros (cs & _ & H)%result_bind_inv. case_bool_decide.
  { unfold _read_string_representation in H.
    destruct (_source h); [|injection H as <-; constructor].
    destruct (string_representation_offset o); [|injection H as <-; constructor].
    apply result_bind_inv in H as ([len []] & _ & H). injection H as <-. apply utf8_decode_scalar. }
  apply result_bind_inv in H as ([l r] & [Hl Hr]%brackets_scalar & H). cbn [fst snd] in *.
  case_bool_decide; [injection H as <-; apply str_scalar_app; [done|]; by repeat constructor|].
  cbv zeta in H. apply result_bind_inv in H as (inner & Hin & H). injection H as <-.
  assert (str_scalar inner); [|by do 2 (apply str_scalar_app; [done|])].
  destruct (content o); try (eapply parts_scalar; [|exact Hin]; intros x t; apply IH).
  - eapply parts_scalar; [|exact Hin]. intros [k v] t (k' & Hk & (v' & Hv & [= <-])%result_bind_inv)%result_bind_inv.
    apply str_scalar_app; [by eapply IH|]. do 2 (constructor; [done|]). by eapply IH.
  - injection Hin as <-. constructor.
Qed.

(** ** The document *)

Lemma doc_list items : Forall doc_ok items → doc_ok (JList items).
Proof. intros Hi. cbn. induction Hi; cbn; auto. Qed.

Lemma doc_object members :
  NoDup members.*1 → Forall (λ e, str_scalar e.1 ∧ doc_ok e.2) members → doc_ok (JObject members).
Proof. intros Hk Hm. split; [done|]. clear Hk. induction Hm; cbn; auto. Qed.

Lemma doc_option {A} (f : A → json) o : (∀ a, o = Some a → doc_ok (f a)) → doc_ok (json_option f o).
Proof. destruct o as [a|]; cbn; auto. Qed.

(** A document whose keys are written out: what is left are its values. *)
Ltac doc_members :=
  apply doc_object; [by apply (bool_decide_unpack _)|];
  repeat (apply Forall_cons; split; [split; [by apply lit_scalar|cbn [snd]]|]); try apply Forall_nil_2; try exact I.

Lemma address_scalar v : str_scalar (_address v).
Proof. apply str_scalar_app; [by apply lit_scalar|apply hex_string_scalar]. Qed.

#[local] Hint Resolve address_scalar : doc.

Section Documents.
Context `{Interpreter} (h : Heap) (wf : heap_wf h).

Lemma type_name_scalar t n : dict_get (types h) t = Some n → str_scalar n.
Proof.
  intros Hn%dict_get_elem. pose proof (hw_type_names h wf) as Ht. rewrite Forall_forall in Ht.
  exact (Ht _ Hn).
Qed.

Lemma types_doc j : _type_summaries h = Ok j → doc_ok j.
Proof.
  unfold _type_summaries. rewrite (type_rows_run h (hw_typed h wf)). intros [= <-]. apply doc_list, Forall_fmap.
  rewrite py_sort_perm. apply Forall_fmap, Forall_forall. intros t _. unfold compose, type_summary, row_of. cbn [tr_address tr_name tr_count tr_size]. doc_members.
  - apply address_scalar.
  - destruct (dict_get (types h) t) eqn:E; [by eapply type_name_scalar|constructor].
Qed.

Lemma local_doc e : str_scalar e.1 → doc_ok (local_summary h e).
Proof.
  intros He. unfold local_summary. doc_members; [done|apply address_scalar|].
  apply doc_option. intros n. unfold _object_type_name. destruct (dict_get (objects h) e.2); [|done].
  apply type_name_scalar.
Qed.

Lemma frame_doc f : frame_texts f → doc_ok (frame_summary h f).
Proof.
  intros (Hfile & Hfunction & Hlocals). unfold frame_summary. doc_members; [done..|].
  apply doc_list, Forall_fmap. rewrite py_sort_perm. eapply Forall_impl; [exact Hlocals|]. apply local_doc.
Qed.

Lemma thread_doc t retained j : thread_texts t → _thread_summary h t retained = Ok j → doc_ok j.
Proof.
  intros [Hname Hframes]. unfold _thread_summary. intros (size & Hsize & [= <-])%result_bind_inv. doc_members.
  - done.
  - destruct retained; [|by injection Hsize as <-]. by apply result_bind_inv in Hsize as (? & _ & [= <-]).
  - apply doc_list, Forall_fmap. eapply Forall_impl; [exact Hframes|]. apply frame_doc.
Qed.

Lemma top_object_doc e j : top_object h e = Ok j → doc_ok j.
Proof.
  destruct e as [a v]. unfold top_object.
  intros (o & Ho & (n & Hn%or_key_error_Ok & (r & Hr & [= <-])%result_bind_inv)%result_bind_inv)%result_bind_inv.
  doc_members; [apply address_scalar|by eapply type_name_scalar|].
  apply doc_option. intros s ->. cbn. unfold _object_string, string_representation in Hr.
  destruct (with_str_repr _); [|done]. apply result_bind_inv in Hr as (t & Ht & [= <-]). by eapply render_scalar.
Qed.

Lemma report_doc contents retained top_n j :
  build_heap_analysis contents h retained top_n = Ok j → doc_ok j.
Proof.
  unfold build_heap_analysis.
  intros (ty & Hty%types_doc & (th & Hth & (re & Hre & [= <-])%result_bind_inv)%result_bind_inv)%result_bind_inv.
  doc_members.
  - by apply lit_scalar.
  - doc_members; [apply bytes_hex_scalar|apply (hw_created h wf)].
  - doc_members.
  - done.
  - apply doc_list. clear Hre. pose proof (hw_threads h wf) as Hall. revert th Hth.
    induction Hall as [|t ts Ht _ IH]; intros th; cbn [map_result]; [intros [= <-]; constructor|].
    intros (x & Hx & (xs & Hxs & [= <-])%result_bind_inv)%result_bind_inv.
    constructor; [by eapply thread_doc|by apply IH].
  - unfold _retained_summary in Hre. destruct retained as [r|].
    + apply result_bind_inv in Hre as (tops & Htops & [= <-]). doc_members; [by apply lit_scalar|].
      apply doc_list. eapply map_result_all; [|exact Htops]. apply top_object_doc.
    + injection Hre as <-. doc_members; by apply lit_scalar.
Qed.

(** The report nests seven levels. *)
Ltac flat_members :=
  apply nesting_object;
  repeat (apply Forall_cons; split; [cbn [snd]; try (cbn [nesting]; lia)|]); try apply Forall_nil_2.

Lemma thread_nesting t retained j : _thread_summary h t retained = Ok j → (nesting j <= 5)%nat.
Proof.
  unfold _thread_summary. intros (size & Hsize & [= <-])%result_bind_inv. flat_members.
  - destruct retained; [|by injection Hsize as <-; cbn; lia].
    apply result_bind_inv in Hsize as (? & _ & [= <-]). cbn. lia.
  - apply nesting_list, Forall_fmap, Forall_forall. intros f _. unfold compose, frame_summary. flat_members.
    apply nesting_list, Forall_fmap, Forall_forall. intros e _. unfold compose, local_summary. flat_members.
    destruct (_object_type_name h e.2); cbn; lia.
Qed.

Lemma top_object_nesting e j : top_object h e = Ok j → (nesting j <= 1)%nat.
Proof.
  destruct e as [a v]. unfold top_object.
  intros (o & _ & (n & _ & (r & _ & [= <-])%result_bind_inv)%result_bind_inv)%result_bind_inv.
  flat_members. destruct r; cbn; lia.
Qed.

Lemma report_nesting contents retained top_n j :
  build_heap_analysis contents h retained top_n = Ok j → (nesting j <= 7)%nat.
Proof.
  unfold build_heap_analysis.
  intros (ty & Hty & (th & Hth & (re & Hre & [= <-])%result_bind_inv)%result_bind_inv)%result_bind_inv.
  flat_members.
  - apply Nat.le_trans with 1%nat; [|lia]. flat_members.
  - apply Nat.le_trans with 1%nat; [|lia]. flat_members.
  - unfold _type_summaries in Hty. apply result_bind_inv in Hty as (rows & _ & [= <-]).
    apply Nat.le_trans with 2%nat; [|lia]. apply nesting_list, Forall_fmap, Forall_forall. intros row _.
    unfold compose, type_summary. flat_members.
  - apply nesting_list. eapply map_result_all; [|exact Hth]. intros x y. apply thread_nesting.
  - apply Nat.le_trans with 3%nat; [|lia]. unfold _retained_summary in Hre. destruct retained as [r|].
    + apply result_bind_inv in Hre as (tops & Htops & [= <-]). flat_members.
      apply nesting_list. eapply map_result_all; [|exact Htops]. apply top_object_nesting.
    + injection Hre as <-. flat_members. cbn. lia.
Qed.

(** What [_print_json] writes of a report is read as that report. *)
Lemma report_reads_back contents retained top_n j :
  build_heap_analysis contents h retained top_n = Ok j → json_loads (dumps_indented j ++ [10]) = Ok (value_of j).
Proof.
  intros Hj. apply loads_dumps_indented; [by eapply report_doc|]. pose proof (report_nesting _ _ _ _ Hj). lia.
Qed.
End Documents.
