(* ===== verification/Cache.v ===== *)
(** * The retained-heap cache

    [RetainedHeapCache] and [retained_heap_with_cache] of
    [analyzer/python/src/pydump_analyzer/retained.py]: results are kept beside
    the artifact, or in a directory of their own, under a name made of the
    artifact's digest. *)
From stdpp Require Import base tactics numbers list gmap strings.
From Stdlib Require Import Strings.Byte.
From S2P Require Import Prelude PyData Struct Text StrOps Floats Paths Digest Errors Json JsonParse JsonRoundTrip.
From S2P Require Import HeapModel RetainedModel.

(** ** Dumping and loading results *)

(** [dump()], with the integer keys written as JSON writes them *)
Definition dump (r : RetainedHeap) : json :=
  JObject [(lit "objects", JObject ((λ e, (dec_string e.1, JInt e.2)) <$> r_objects r));
           (lit "threads", JObject ((λ e, (e.1, JInt e.2)) <$> r_threads r))].

(** [value[key].items()]: only objects have items. *)
Definition member_items (members : list (str * json_value)) (key : str) : result exc (list (str * json_value)) :=
  v ← or_key_error (dict_get members key);
  match v with JObject items => mret items | _ => Err AttributeError end.

(** [RetainedHeap.load(value)] *)
Definition load_result `{Unicode} (members : list (str * json_value)) : result exc RetainedHeap :=
  objects ← member_items members (lit "objects");
  objects ← map_result (λ e,
    address ← or_value_error (int_of_str e.1); size ← int_of_json e.2; mret (address, size)) objects;
  threads ← member_items members (lit "threads");
  threads ← map_result (λ e, size ← int_of_json e.2; mret (e.1, size)) threads;
  mret (mkRetainedHeap (dict_of objects) (dict_of threads)).

(** ** The cache *)

Record RetainedHeapCache := mkCache { _heap_file : Path; _cache_dir : option str }.

Definition CACHE_VERSION : Z := 1.

Definition suffix (contents : bytes) : str :=
  lit "." ++ bytes_hex (sha1 contents) ++ lit "." ++ dec_string CACHE_VERSION ++ lit ".retained_heap".

(** The [path] property; an unreadable heap file is an [OSError]. *)
Definition path (self : RetainedHeapCache) (files : Files) : result exc Path :=
  match files !! _heap_file self with
  | None => Err (OSError (lit "No such file or directory"))
  | Some contents =>
      mret match _cache_dir self with
           | None => ((_heap_file self).1, (_heap_file self).2 ++ suffix contents)
           | Some dir => (dir, (_heap_file self).2 ++ suffix contents)
           end
  end.

Section Cache.
Context `{SetOrder} `{Unicode} `{Interpreter}.

(** The file's text: text mode decodes strictly. *)
Definition read_text (files : Files) (p : Path) : result exc str :=
  match files !! p with
  | None => Err (OSError (lit "No such file or directory"))
  | Some contents =>
      match utf8_decode_strict contents with
      | Some text => mret (universal_newlines text)
      | None => Err UnicodeDecodeError
      end
  end.

Definition load_value (self : RetainedHeapCache) (files : Files) : result exc (option RetainedHeap) :=
  p ← path self files;
  text ← read_text files p;
  v ← json_loads text;
  match v with
  | JObject members => Some <$> load_result members
  | _ => mret None
  end.

(** [except (OSError, ValueError, TypeError, KeyError, AttributeError)] *)
Definition unusable (e : exc) : bool :=
  is_OSError e || is_ValueError e || match e with TypeError | KeyError | AttributeError => true | _ => false end.

(** [cache.load()] *)
Definition load (self : RetainedHeapCache) (files : Files) : result exc (option RetainedHeap) :=
  match load_value self files with
  | Err e => if unusable e then mret None else Err e
  | r => r
  end.

(** How writing goes: to the end, or to an [OSError] before the file is in place *)
Inductive disk := Works | Fails (reason : str).

(** [cache.store(retained)]: written aside and moved into place; the temporary
    file never survives. *)
Definition store (d : disk) (self : RetainedHeapCache) (retained : RetainedHeap) : M Files exc unit := λ files,
  match path self files with
  | Err e => (Err e, files)
  | Ok p =>
      match d with
      | Works => (Ok tt, <[p := utf8_encode (dumps (dump retained))]> files)
      | Fails reason => (Err (OSError reason), files)
      end
  end.

(** [with contextlib.suppress(OSError): m] *)
Definition suppress_OSError (m : M Files exc unit) : M Files exc unit := λ files,
  match m files with
  | (Err e, files) => if is_OSError e then (Ok tt, files) else (Err e, files)
  | r => r
  end.

(** [retained_heap_with_cache(heap_file, heap)] *)
Definition retained_heap_with_cache (d : disk) (self : RetainedHeapCache) (heap : Heap)
  : M Files exc RetainedHeap :=
  files ← get;
  cached ← lift (load self files);
  match cached with
  | Some retained => mret retained
  | None =>
      retained ← lift (calculate_retained heap);
      suppress_OSError (store d self retained);;
      mret retained
  end.
End Cache.

(** ** Results are dictionaries *)

Section Tables.
(** The names the thread table may hold *)
Context (names : list str).

Definition thread_table_wf (d : dict str Z) : Prop := dict_wf d ∧ ∀ n, n ∈ d.*1 → n ∈ names.

Definition tables_wf (self : RetainedHeapCalculator) : Prop :=
  dict_wf (_object_retained self) ∧ thread_table_wf (_thread_retained self).

Lemma mark_wf a v self : tables_wf self → tables_wf (mark_subtree a v self).
Proof. intros [Ho Ht]. split; [by apply dict_set_wf|done]. Qed.

(** A computation whose result, if any, has [P] *)
Definition gives {A} (r : result exc A) (P : A → Prop) : Prop := ∀ a, r = Ok a → P a.

Lemma gives_Ok {A} (a : A) (P : A → Prop) : P a → gives (mret a) P.
Proof. by intros HP b [= <-]. Qed.

Lemma gives_bind {A B} (r : result exc A) (f : A → result exc B) (P : B → Prop) :
  (∀ a, r = Ok a → gives (f a) P) → gives (r ≫= f) P.
Proof. intros Hf b (a & Ha & Hb)%result_bind_inv. by apply (Hf a). Qed.

Lemma find_leaves_wf inbound objs self front :
  tables_wf self → gives (find_leaves inbound objs self front) (λ r, tables_wf r.1).
Proof.
  revert self front. induction objs as [|[a o] objs IH]; intros self front Hwf; cbn [find_leaves];
    [by apply gives_Ok|].
  case_bool_decide; [|by apply IH]. apply gives_bind. intros refs _.
  case_match; [|by apply IH]. by apply IH, mark_wf.
Qed.

Section TablesWf.
Context `{SetOrder} (heap : Heap) (inbound : InboundReferences).

Lemma visit_front_wf front self next :
  tables_wf self → gives (visit_front heap inbound front self next) (λ r, tables_wf r.1).
Proof.
  revert self next. induction front as [|a front IH]; intros self next Hwf; cbn [visit_front];
    [by apply gives_Ok|].
  apply gives_bind. intros o _. apply gives_bind. intros refs _. case_match; [by apply IH|].
  case_bool_decide; [by apply IH|]. apply gives_bind. intros v _. by apply IH, mark_wf.
Qed.

Lemma climb_wf fuel self front : tables_wf self → gives (climb heap inbound fuel self front) tables_wf.
Proof.
  revert self front. induction fuel as [|fuel IH]; intros self front Hwf; cbn [climb]; [by intros ?|].
  apply gives_bind. intros [self' next] Hv. apply (visit_front_wf _ _ _ Hwf) in Hv. cbn in Hv.
  case_bool_decide; [by apply gives_Ok|by apply IH].
Qed.

Lemma calculate_objects_wf addresses self :
  tables_wf self → gives (calculate_objects heap inbound addresses self) tables_wf.
Proof.
  revert self. induction addresses as [|a l IH]; intros self Hwf; cbn [calculate_objects]; [by apply gives_Ok|].
  apply gives_bind. intros v _. apply IH. destruct Hwf. split; [by apply dict_set_wf|done].
Qed.

Lemma calculate_threads_wf ts self :
  (∀ t, t ∈ ts → name t ∈ names) → tables_wf self → gives (_calculate_threads heap inbound ts self) tables_wf.
Proof.
  revert self. induction ts as [|t ts IH]; intros self Hts Hwf; cbn [_calculate_threads]; [by apply gives_Ok|].
  apply gives_bind. intros view _. apply gives_bind. intros v _.
  apply IH; [intros t' Ht'; apply Hts; by right|].
  destruct Hwf as [Ho [Ht Hn]]. split; [done|]. split; [by apply dict_set_wf|].
  intros n [->|Hin]%dict_set_keys; [apply Hts; by left|by apply Hn].
Qed.
End TablesWf.
End Tables.

(** The result's tables are dictionaries, the names those of threads. *)
Lemma calculate_result_wf `{SetOrder} heap r :
  calculate_retained heap = Ok r →
  dict_wf (r_objects r) ∧ dict_wf (r_threads r) ∧ ∀ n, n ∈ (r_threads r).*1 → n ∈ name <$> threads heap.
Proof.
  unfold calculate_retained. destruct (calculate heap _ new_calculator) as [[r' self']|e] eqn:E; [|done].
  intros [= <-]. unfold calculate in E. cbn [new_calculator _calculated] in E.
  apply result_bind_inv in E as (s1 & H1 & E). apply result_bind_inv in E as (s2 & H2 & E).
  apply result_bind_inv in E as (s3 & H3 & E). injection E as <- _. cbn.
  unfold _find_strict_subtrees in H1. apply result_bind_inv in H1 as ([s0 front] & H0 & H1).
  set (names := name <$> threads heap).
  assert (tables_wf names new_calculator) as Hnew by (split; [constructor|split; [constructor|by intros n ?%elem_of_nil]]).
  apply (find_leaves_wf names _ _ _ _ Hnew) in H0. apply (climb_wf names _ _ _ _ _ H0) in H1.
  apply (calculate_objects_wf names _ _ _ _ H1) in H2.
  apply (calculate_threads_wf names) in H3 as [? [? ?]]; [done| |done].
  intros t Ht. by apply list_elem_of_fmap_2.
Qed.

(** ** The cache's guarantees *)

(** The numerals of different addresses differ. *)
Lemma dec_string_NoDup (l : list Z) : NoDup l → NoDup (dec_string <$> l).
Proof.
  intros Hl. apply NoDup_fmap_2_strong; [|done]. intros x y _ _ E.
  apply (f_equal (@int_of_str ascii_only)) in E. rewrite !int_of_dec_string in E. congruence.
Qed.

(** Results the calculator produces for heaps whose thread names are text *)
Definition storable (r : RetainedHeap) : Prop :=
  dict_wf (r_objects r) ∧ dict_wf (r_threads r) ∧ Forall str_scalar (r_threads r).*1.

Lemma dump_ok r : storable r → doc_ok (dump r).
Proof.
  intros (Ho & Ht & Hn). cbn. split; [by apply (bool_decide_unpack _)|].
  assert (∀ s, ascii (lit s) → str_scalar (lit s)) as Hl by (intros s; apply ascii_scalar).
  repeat split; try (apply Hl, lit_ascii; reflexivity).
  - rewrite <- list_fmap_compose. replace (_ <$> r_objects r) with (dec_string <$> (r_objects r).*1)
      by (rewrite <- list_fmap_compose; done). by apply dec_string_NoDup.
  - clear. induction (r_objects r) as [|e l IH]; [done|]. cbn. repeat split; [|done].
    apply ascii_scalar, dec_string_ascii.
  - rewrite <- list_fmap_compose. done.
  - clear Ht. induction (r_threads r) as [|e l IH]; [done|]. cbn in *.
    apply Forall_cons in Hn as [? ?]. by repeat split; [..|apply IH].
Qed.

Lemma dump_nesting r : (nesting (dump r) <= 2)%nat.
Proof.
  apply nesting_object. repeat (apply Forall_cons; split; [|]); [..|constructor];
    apply nesting_object, Forall_fmap, Forall_forall; intros e _; cbn; lia.
Qed.

Lemma load_dump `{Unicode} r :
  storable r →
  match value_of (dump r) with JObject members => load_result members | _ => Err TypeError end = Ok r.
Proof.
  intros (Ho & Ht & _). destruct r as [os ts]. cbn [dump r_objects r_threads value_of List.map] in *.
  unfold load_result.
  set (os' := List.map _ ((λ e : Z * Z, (dec_string e.1, JInt e.2)) <$> os)).
  set (ts' := List.map _ ((λ e : str * Z, (e.1, JInt e.2)) <$> ts)).
  assert (map_result (λ e : str * json_value,
    address ← or_value_error (int_of_str e.1); size ← int_of_json e.2; mret (address, size)) os' = Ok os) as E1.
  { subst os'. clear. induction os as [|[a v] os IH]; [done|]. cbn [fmap list_fmap List.map map_result fst snd].
    rewrite int_of_dec_string. cbn [mbind result_bind mret result_ret int_of_json value_of or_value_error].
    cbn in IH |- *. by rewrite IH. }
  assert (map_result (λ e : str * json_value, size ← int_of_json e.2; mret (e.1, size)) ts' = Ok ts) as E2.
  { subst ts'. clear. induction ts as [|[n v] ts IH]; [done|]. cbn in IH |- *. by rewrite IH. }
  set (members := [(lit "objects", JObject os'); (lit "threads", JObject ts')]).
  assert (member_items members (lit "objects") = Ok os') as -> by reflexivity.
  assert (member_items members (lit "threads") = Ok ts') as -> by reflexivity.
  cbn [mbind result_bind]. rewrite E1. cbn [mbind result_bind]. rewrite E2.
  cbn [mbind result_bind mret result_ret].
  by rewrite !dict_of_NoDup.
Qed.

(** The cache file is never the heap file. *)
Lemma path_ne self files p : path self files = Ok p → p ≠ _heap_file self.
Proof.
  unfold path. destruct (files !! _heap_file self) as [b|]; [|done]. intros [= <-] E.
  assert ((_heap_file self).2 ++ suffix b = (_heap_file self).2) as E2
    by (destruct (_cache_dir self); by rewrite <- E at 2).
  apply (f_equal length) in E2. rewrite length_app in E2. unfold suffix in E2. rewrite !length_app in E2.
  change (length (lit ".")) with 1%nat in E2. lia.
Qed.

Lemma path_insert self files p text : path self files = Ok p → path self (<[p := text]> files) = Ok p.
Proof.
  intros Hp. pose proof (path_ne self files p Hp) as Hne. unfold path in *. by rewrite lookup_insert_ne.
Qed.

Section Guarantees.
Context `{SetOrder} `{Unicode} `{Interpreter}.

Lemma load_stored self files p r :
  storable r → path self files = Ok p →
  load self (<[p := utf8_encode (dumps (dump r))]> files) = Ok (Some r).
Proof.
  intros Hr Hp. pose proof (dumps_plain (dump r)) as Hplain. unfold load, load_value.
  rewrite (path_insert _ _ _ _ Hp). cbn [mbind result_bind]. unfold read_text. rewrite lookup_insert_eq.
  rewrite decode_strict_plain by done. cbn [mbind result_bind mret result_ret].
  rewrite newlines_plain, loads_dumps by (done || (by apply dump_ok) || (pose proof (dump_nesting r); lia)).
  cbn [mbind result_bind].
  pose proof (load_dump r Hr) as Hl. cbn [dump value_of List.map] in Hl |- *. by rewrite Hl.
Qed.

(** C28: a result that was stored is loaded back unchanged, sizes, names and
    order included: the JSON parser and [int] invert what was written, whatever
    the file system held before. *)
Theorem cache_roundtrip self files files' r :
  storable r → store Works self r files = (Ok tt, files') → load self files' = Ok (Some r).
Proof.
  intros Hr. unfold store. destruct (path self files) as [p|e] eqn:Hp; [|done].
  intros [= <-]. by apply load_stored.
Qed.

(** A run without a usable cached result *)
Lemma cold_run d self heap files r :
  calculate_retained heap = Ok r → load self files = Ok None →
  ∃ files', retained_heap_with_cache d self heap files = (Ok r, files') ∧
    (∀ p, files' !! p ≠ files !! p → path self files = Ok p) ∧
    (d = Works → ∀ p, path self files = Ok p → files' = <[p := utf8_encode (dumps (dump r))]> files).
Proof.
  intros Hcalc Hcold. unfold retained_heap_with_cache. erewrite bind_ok by reflexivity. rewrite Hcold, Hcalc.
  erewrite bind_ok by reflexivity. cbv beta iota. erewrite bind_ok by reflexivity. unfold suppress_OSError, store.
  destruct (path self files) as [p|e] eqn:Hp.
  - destruct d as [|reason]; (erewrite bind_ok by (cbv beta; rewrite Hp; reflexivity));
      (eexists; split; [reflexivity|]); split; try done.
    + intros q Hq. destruct (decide (q = p)) as [->|Hne]; [done|]. by rewrite lookup_insert_ne in Hq.
    + by intros _ q [= <-].
  - assert (is_OSError e = true) as He.
    { unfold path in Hp. destruct (files !! _heap_file self); [done|]. by injection Hp as <-. }
    erewrite bind_ok by (cbv beta; rewrite Hp, He; reflexivity). eexists. split; [reflexivity|]. by split.
Qed.

(** Without a cache file, or with one that is no JSON, there is no cached result. *)
Lemma load_missing self files p : path self files = Ok p → files !! p = None → load self files = Ok None.
Proof. intros Hp Hf. unfold load, load_value. rewrite Hp. cbn. unfold read_text. by rewrite Hf. Qed.

(** C26: the cache is transparent. With no usable cached result the analysis is
    calculated and returned, whether or not the disk takes the cache file; the
    heap file and all others stay as they are; and after a successful store the
    next run, whatever its disk does, returns the same result and writes
    nothing. *)
Theorem cache_transparent d self heap files r :
  calculate_retained heap = Ok r → Forall str_scalar (name <$> threads heap) →
  load self files = Ok None →
  ∃ files', retained_heap_with_cache d self heap files = (Ok r, files') ∧
    (∀ p, files' !! p ≠ files !! p → path self files = Ok p) ∧
    (d = Works → is_ok (path self files) = true →
     ∀ d', retained_heap_with_cache d' self heap files' = (Ok r, files')).
Proof.
  intros Hcalc Hnames Hcold. destruct (calculate_result_wf heap r Hcalc) as (Ho & Ht & Hn).
  assert (storable r) as Hr.
  { split_and!; [done|done|]. rewrite Forall_forall in Hnames |- *. auto. }
  destruct (cold_run d self heap files r Hcalc Hcold) as (files' & Hrun & Hother & Hstored).
  exists files'. split; [done|]. split; [done|]. intros Hd Hp d'.
  destruct (path self files) as [p|] eqn:E; [|done]. rewrite (Hstored Hd p eq_refl).
  unfold retained_heap_with_cache. erewrite bind_ok by reflexivity.
  by erewrite bind_ok by (unfold lift; by rewrite (load_stored self files p r Hr E)).
Qed.

Lemma raises_map_result {A B} (P : exc → Prop) (f : A → result exc B) l :
  (∀ x, x ∈ l → raises P (f x)) → raises P (map_result f l).
Proof. intros Hf e. apply map_result_total. intros x e' Hx. by apply Hf. Qed.

(** A table of a JSON document with an infinite size *)
Definition infinite_size (members : list (str * json_value)) : Prop :=
  ∃ table items name negative, dict_get members table = Some (JObject items) ∧
    (name, JFloat (Infinity negative)) ∈ items.

Lemma load_result_raises members :
  raises (λ e, unusable e = true ∨ e = OverflowError ∧ infinite_size members) (load_result members).
Proof.
  set (P := λ e, unusable e = true ∨ e = OverflowError ∧ infinite_size members).
  assert (∀ key, raises P (member_items members key)) as Hitems.
  { intros key. apply raises_bind; [destruct (dict_get members key); intros e [= <-]; by left|].
    intros [] e; try done; intros [= <-]; by left. }
  assert (∀ key items, member_items members key = Ok items → dict_get members key = Some (JObject items)) as Hget.
  { intros key items (v & ->%or_key_error_Ok & Hv)%result_bind_inv. destruct v; try done. by injection Hv as ->. }
  assert (∀ s, raises P (or_value_error (int_of_str s))) as Hint
    by (intros s; destruct (int_of_str s); intros e [= <-]; by left).
  assert (∀ key items e, member_items members key = Ok items → e ∈ items → raises P (int_of_json e.2)) as Hsize.
  { intros key items [n v] Hi He x Hx. cbn [snd] in Hx.
    destruct (int_of_json_raises v x Hx) as [Hv|[->| ->]]; [left; unfold unusable; by rewrite Hv, orb_true_r|by left|].
    right. split; [done|]. destruct v as [|b|m|[neg m q|neg|]|t|l|ms]; cbn in Hx; try done; [|by destruct (int_of_str t)].
    exists key, items, n, neg. split; [by apply Hget|done]. }
  unfold load_result. intros e He.
  destruct (member_items members (lit "objects")) as [objects|x] eqn:Ho; [|injection He as <-; by eapply Hitems].
  revert e He. cbn [mbind result_bind]. apply raises_bind.
  { apply raises_map_result. intros x Hx. apply raises_bind; [done|]. intros a.
    apply raises_bind; [by eapply Hsize|by intros ? ?]. }
  intros os e He. destruct (member_items members (lit "threads")) as [threads|x] eqn:Ht; [|injection He as <-; by eapply Hitems].
  revert e He. cbn [mbind result_bind]. apply raises_bind; [|by intros ts e].
  apply raises_map_result. intros x Hx. apply raises_bind; [by eapply Hsize|by intros ? ?].
Qed.

(** C29: whatever a cache file holds, loading it returns a result or no result,
    or raises one of the two exceptions the handler forgets: [OverflowError], only
    when a size is an infinite float, and [RecursionError], exactly when the JSON
    parser raises it on the file's text, only for texts longer than the arrays
    and objects it may enter. A file that does not decode, is no JSON or has the
    wrong shape is as good as none. *)
Theorem cache_load_errors self files :
  match load self files with
  | Ok _ => ∀ p text, path self files = Ok p → read_text files p = Ok text → json_loads text ≠ Err RecursionError
  | Err e =>
      ∃ p text, path self files = Ok p ∧ read_text files p = Ok text ∧
        (e = RecursionError ∧ json_loads text = Err RecursionError ∧ (json_depth < length text)%nat ∨
         e = OverflowError ∧ ∃ members, json_loads text = Ok (JObject members) ∧ infinite_size members)
  end.
Proof.
  unfold load, load_value. destruct (path self files) as [p|e] eqn:Hp; cbn [mbind result_bind].
  2: { unfold path in Hp. destruct (files !! _heap_file self); [done|]. by injection Hp as <-. }
  destruct (read_text files p) as [text|e] eqn:Ht; cbn [mbind result_bind].
  2: { assert (unusable e = true) as ->; [|intros p' text' [= <-] Ht'; congruence].
       unfold read_text in Ht. destruct (files !! p) as [contents|]; [|by injection Ht as <-].
       destruct (utf8_decode_strict contents); [done|by injection Ht as <-]. }
  destruct (json_loads text) as [v|e] eqn:Hj; cbn [mbind result_bind].
  - assert (∀ p' text', @Ok exc _ p = Ok p' → read_text files p' = Ok text' → json_loads text' ≠ Err RecursionError) as Hok
      by (intros p' text' [= <-] Ht'; congruence).
    destruct v as [| | | | | |members]; try done.
    destruct (load_result members) as [r|e] eqn:Hr; cbn; [done|].
    destruct (load_result_raises members e Hr) as [->|[-> Hinf]]; [done|].
    exists p, text. split; [done|]. split; [done|]. right. split; [done|]. by exists members.
  - destruct (json_loads_raises text e Hj) as [He|[-> Hlen]].
    + assert (unusable e = true) as -> by (unfold unusable; by rewrite He, orb_true_r).
      intros p' text' [= <-] Ht'. rewrite Ht in Ht'. injection Ht' as <-. rewrite Hj. by intros [= ->].
    + exists p, text. split; [done|]. split; [done|]. by left.
Qed.
End Guarantees.

(** ** A concrete cache *)

#[local] Existing Instance default_limits.

Module Example.
Definition result : RetainedHeap := mkRetainedHeap [(0x2000, 150); (0x3000, 20)] [(lit "main", 170)].

Definition cache : RetainedHeapCache := mkCache (lit "/data", lit "a.pyheap") (Some (lit "/cache")).
Definition heap_files : Files := {[(lit "/data", lit "a.pyheap") := [x61; x62; x63]]}.
Definition empty_heap : Heap := mkHeap (mkHeapHeader 1 [] (mkHeapFlags false) []) [] [] [] None.

(** A cache file with the given text *)
Definition with_text (s : string) : Files :=
  match path cache heap_files with
  | Ok p => <[p := utf8_encode (quoted s)]> heap_files
  | Err _ => heap_files
  end.
End Example.

Example load_lenient :
  @load ascii_only default_limits Example.cache
    (Example.with_text "{~objects~: {~ 1_0 ~: 2.75, ~11~: ~7~, ~010~: true}, ~threads~: {~m~: 3}, ~x~: []}")
  = Ok (Some (mkRetainedHeap [(10, 1); (11, 7)] [(lit "m", 3)])).
Proof. vm_compute. reflexivity. Qed.

Example load_unusable :
  forallb (λ s, match @load ascii_only default_limits Example.cache (Example.with_text s) with Ok None => true | _ => false end)
    ["{"; "[]"; "{}"; "{~objects~: [], ~threads~: {}}"; "{~objects~: {~x~: 1}, ~threads~: {}}";
     "{~objects~: {~1~: null}, ~threads~: {}}"; "{~objects~: {~1~: NaN}, ~threads~: {}}"]%string = true.
Proof. vm_compute. reflexivity. Qed.

Example load_infinity :
  @load ascii_only default_limits Example.cache (Example.with_text "{~objects~: {~1~: 1e999}, ~threads~: {}}") = Err OverflowError.
Proof. vm_compute. reflexivity. Qed.

(** A cache file that nests too deep ends the analyzer. *)
Example load_deep :
  @load ascii_only default_limits Example.cache (Example.with_text (String.string_of_list_ascii (replicate 991 (Ascii.ascii_of_nat 91))))
  = Err RecursionError.
Proof. vm_compute. reflexivity. Qed.

Lemma example_storable : storable Example.result.
Proof. split_and!; apply (bool_decide_unpack _); vm_compute; exact I. Qed.

Lemma cache_roundtrip_witness :
  ∃ files', store Works Example.cache Example.result Example.heap_files = (Ok tt, files') ∧
    @load ascii_only default_limits Example.cache files' = Ok (Some Example.result).
Proof.
  eexists. split; [reflexivity|].
  apply (@cache_roundtrip ascii_only default_limits Example.cache Example.heap_files _ Example.result); [exact example_storable|reflexivity].
Defined.

Lemma cache_transparent_witness :
  let r := mkRetainedHeap [] [] in
  ∃ files', @retained_heap_with_cache elements_order ascii_only default_limits Works Example.cache Example.empty_heap
              Example.heap_files = (Ok r, files') ∧
    @retained_heap_with_cache elements_order ascii_only default_limits (Fails (lit "disk full")) Example.cache
      Example.empty_heap files' = (Ok r, files').
Proof.
  cbv zeta.
  destruct (@cache_transparent elements_order ascii_only default_limits Works Example.cache
              Example.empty_heap Example.heap_files (mkRetainedHeap [] [])) as (files' & H1 & _ & H2).
  - vm_compute. reflexivity.
  - constructor.
  - vm_compute. reflexivity.
  - exists files'. split; [exact H1|]. apply H2; [reflexivity|]. vm_compute. reflexivity.
Defined.
