(* ===== verification/AnalyzerCli.v ===== *)
(** * The analyzer's command line

    [analyzer/python/src/pydump_analyzer/cli.py]: the argument parser, the two commands, their output and what they leave on disk. *)
From stdpp Require Import base tactics numbers list gmap strings.
From Stdlib Require Import Strings.Byte.
From S2P Require Import Prelude PyData Struct Text StrOps Paths Digest Errors ArgParse Json JsonParse HeapModel HeapReader LoadedHeap.
From S2P Require Import RetainedModel Deletions Retained Report Reports ReportText Cache.
From S2P Require Golden.

(** ** Text layout *)

(** [{:<width}] and [{:>width}] *)
Definition ljust (width : nat) (s : str) : str := s ++ replicate (width - length s) 32.
Definition rjust (width : nat) (s : str) : str := replicate (width - length s) 32 ++ s.

(** What the process has written, and the files *)
Record Console := mkConsole { out : str; files : Files }.

Module Cli.
Abbreviation IO := (M Console exc).

(** [print(line)] and [sys.stdout.write(text)] *)
Definition write (text : str) : IO unit := modify (λ c, mkConsole (out c ++ text) (files c)).
Definition print (line : str) : IO unit := write (line ++ [10]).

Definition _print_json (value : json) : IO unit := write (dumps_indented value);; write [10].

(** [load_heap(heap_file)] *)
Definition open_heap (heap_file : Path) : IO (bytes * Heap) :=
  c ← get;
  match files c !! heap_file with
  | None => raise (OSError (lit "No such file or directory"))
  | Some contents => heap ← lift (load_heap contents); mret (contents, heap)
  end.

Definition _summary `{Interpreter} (heap_file : Path) : IO unit :=
  '(contents, heap) ← open_heap heap_file;
  report ← lift (build_heap_analysis contents heap None 100);
  _print_json report.

(** *** The text form of the retained heap *)

Definition prefix (a b c : str) : str :=
  ljust 15 a ++ lit " | " ++ ljust 15 b ++ lit " | " ++ rjust 18 c ++ lit " | ".

Definition representation_width (terminal_columns : Z) : Z :=
  Z.max 0 (terminal_columns - blen (prefix [] [] [])).

Definition row (terminal_columns : Z) (a b c d : str) : str :=
  prefix a b c ++ ljust (Z.to_nat (representation_width terminal_columns)) d.

Definition object_line `{Interpreter} (terminal_columns : Z) (heap : Heap) (entry : Z * Z) : result exc str :=
  obj ← or_key_error (dict_get (objects heap) entry.1);
  representation ← string_representation heap obj;
  type_name ← or_key_error (dict_get (types heap) (type_address obj));
  mret (row terminal_columns (dec_string entry.1) type_name (dec_string entry.2)
          (py_prefix (representation_width terminal_columns) (default [] representation))).

Definition thread_line (entry : str * Z) : str := ljust 50 entry.1 ++ lit " | " ++ rjust 18 (dec_string entry.2).

Definition _print_retained_text `{Interpreter} (terminal_columns : Z) (heap : Heap) (retained : RetainedHeap) (top_n : Z)
  : IO unit :=
  print (lit "Retained heap for objects:");;
  print (row terminal_columns (lit "Address") (lit "Object type") (lit "Retained heap size")
           (lit "String representation"));;
  print (replicate (Z.to_nat terminal_columns) 0x2D);;
  for_each (py_prefix top_n (objects_sorted_by_retained_heap heap retained)) (λ entry,
    line ← lift (object_line terminal_columns heap entry); print line);;
  print ([10] ++ lit "Retained heap for threads:");;
  print (ljust 50 (lit "Thread") ++ lit " | " ++ rjust 18 (lit "Retained heap size"));;
  print (replicate 71 0x2D);;
  for_each (py_sort (λ x y, y.2 <=? x.2) (r_threads retained)) (λ entry, print (thread_line entry));;
  print ([10] ++ lit "Total heap size: " ++ dec_string (total_heap_size heap) ++ lit " bytes").

(** *** Commands *)

Inductive output_format := Text | Json.

Inductive command :=
| Summary (file : Path)
| RetainedHeapCommand (file : Path) (top_n : Z) (format : output_format).

(** [_non_negative_int]: what the parser accepts for [--top-n] *)
Definition _non_negative_int `{Unicode} (value : str) : result exc Z :=
  parsed ← or_value_error (int_of_str value);
  if parsed <? 0 then Err (ArgumentTypeError (lit "value must be non-negative")) else mret parsed.

(** *** The parser *)

(** What [parse_args] returns *)
Record Namespace := mkNamespace { n_command : str; n_file : option Path; n_top_n : Z; n_format : str }.

Definition set_command (v : str) (n : Namespace) : Namespace := mkNamespace v (n_file n) (n_top_n n) (n_format n).
Definition set_file (v : Path) (n : Namespace) : Namespace := mkNamespace (n_command n) (Some v) (n_top_n n) (n_format n).
Definition set_top_n (v : Z) (n : Namespace) : Namespace := mkNamespace (n_command n) (n_file n) v (n_format n).
Definition set_format (v : str) (n : Namespace) : Namespace := mkNamespace (n_command n) (n_file n) (n_top_n n) v.

Definition defaults : Namespace := mkNamespace [] None 100 (lit "text").

Definition format_value (s : str) : result exc str :=
  if bool_decide (s ∈ [lit "text"; lit "json"]) then mret s else Err (ArgumentTypeError (lit "invalid choice")).

Section Parsers.
Context `{Unicode}.

Definition the_file : argument Namespace :=
  mkArgument [lit "--file"; lit "-f"] (Store (λ s, mret (set_file (path_of s)))).

Definition summary_parser : parser Namespace := mkParser true [help_argument; the_file] [] [[lit "--file"]] None.

Definition retained_parser : parser Namespace :=
  mkParser true
    [help_argument; the_file;
     mkArgument [lit "--top-n"; lit "-n"] (Store (λ s, set_top_n <$> _non_negative_int s));
     mkArgument [lit "--format"] (Store (λ s, set_format <$> format_value s))]
    [] [[lit "--file"]] None.

(** The parsers of the subcommands allow abbreviations, which only the outer one
    switches off.  The first word names the command, the rest is its own parser's. *)
Definition subcommand (argv : list str) (n : Namespace) : result stop (Namespace * bool) :=
  match argv with
  | name :: argv =>
      if bool_decide (name = lit "summary") then parse_known_args summary_parser argv (set_command name n)
      else if bool_decide (name = lit "retained-heap") then parse_known_args retained_parser argv (set_command name n)
      else usage_error
  | [] => usage_error
  end.

Definition build_parser : parser Namespace := mkParser false [help_argument] [] [[lit "command"]] (Some subcommand).

(** The namespace as [main] reads it *)
Definition command_of (n : Namespace) : result stop command :=
  match n_file n with
  | None => Err (Raises TypeError)
  | Some file =>
      mret (if bool_decide (n_command n = lit "summary") then Summary file
            else RetainedHeapCommand file (n_top_n n) (if bool_decide (n_format n = lit "json") then Json else Text))
  end.

Definition parse (argv : list str) : result stop command := n ← parse_args build_parser argv defaults; command_of n.
End Parsers.

Section Main.
Context `{SetOrder} `{Unicode} `{Interpreter} (d : disk) (cache_dir : option str) (terminal_columns : Z).

(** A call that works on the files *)
Definition on_files {A} (m : M Files exc A) : IO A := λ c,
  let '(r, fs) := m (files c) in (r, mkConsole (out c) fs).

(** [cache_dir] is the value of [PYHEAP_CACHE_DIR]. *)
Definition _retained_heap (heap_file : Path) (format : output_format) (top_n : Z) : IO unit :=
  '(contents, heap) ← open_heap heap_file;
  retained ← on_files (retained_heap_with_cache d (mkCache heap_file cache_dir) heap);
  match format with
  | Json => report ← lift (build_heap_analysis contents heap (Some retained) top_n); _print_json report
  | Text => _print_retained_text terminal_columns heap retained top_n
  end.

(** [main], from the parsed arguments on *)
Definition main (args : command) : IO Z :=
  match args with
  | Summary file => _summary file
  | RetainedHeapCommand file top_n format => _retained_heap file format top_n
  end;;
  mret 0.

(** The program: its exit code, or the exception that ends it *)
Definition pydump_analyzer (argv : list str) (c : Console) : result stop Z * Console :=
  match parse argv with
  | Ok args => match main args c with (Ok code, c) => (Ok code, c) | (Err error, c) => (Err (Raises error), c) end
  | Err (Exits code) => (Ok code, c)
  | Err (Raises error) => (Err (Raises error), c)
  end.
End Main.
End Cli.

(** ** Running the commands *)

(** The fixture's thread refers to an object. *)
Lemma golden_locals t x : t ∈ threads golden_heap → x ∈ thread_locals t → mentioned golden_heap x.
Proof.
  intros Ht Hx. left. revert x Hx. change (set_Forall (λ x, x ∈ dict_keys (objects golden_heap)) (thread_locals t)).
  revert t Ht. apply Forall_forall. apply (bool_decide_unpack _). vm_compute. exact I.
Qed.

Import Cli.

Lemma write_run text c : write text c = (Ok tt, mkConsole (out c ++ text) (files c)).
Proof. done. Qed.

Lemma print_json_run j c :
  _print_json j c = (Ok tt, mkConsole (out c ++ dumps_indented j ++ [10]) (files c)).
Proof. unfold _print_json. erewrite bind_ok by reflexivity. cbn. by rewrite app_assoc. Qed.

(** Printed lines *)
Definition lines (ls : list str) : str := ls ≫= λ line, line ++ [10].

Lemma lines_app ls ls' : lines (ls ++ ls') = lines ls ++ lines ls'.
Proof. unfold lines. by rewrite bind_app. Qed.

(** [m] prints lines and succeeds. *)
Definition prints (ls : list str) (m : IO unit) : Prop :=
  ∀ c, m c = (Ok tt, mkConsole (out c ++ lines ls) (files c)).

Lemma prints_print line : prints [line] (print line).
Proof. intros c. cbn. by rewrite app_nil_r. Qed.

Lemma prints_seq ls ls' m k : prints ls m → prints ls' k → prints (ls ++ ls') (m;; k).
Proof.
  intros Hm Hk c. erewrite bind_ok by apply Hm. rewrite Hk. cbn [out files]. by rewrite lines_app, app_assoc.
Qed.

Lemma prints_each {A} (f : A → str) (xs : list A) : prints (f <$> xs) (for_each xs (λ x, print (f x))).
Proof.
  induction xs as [|x xs IH]; cbn [for_each].
  - intros [o fs]. cbn. by rewrite app_nil_r.
  - change (f <$> x :: xs) with ([f x] ++ (f <$> xs)). apply prints_seq; [apply prints_print|done].
Qed.

(** Lines that are worked out one by one: the first failure ends the printing. *)
Lemma print_results {A} (f : A → result exc str) xs c :
  ∃ ls, for_each xs (λ x, line ← lift (f x); print line) c
        = (match map_result f xs with Ok _ => Ok tt | Err e => Err e end, mkConsole (out c ++ lines ls) (files c)) ∧
    (is_ok (map_result f xs) = true → map_result f xs = Ok ls).
Proof.
  revert c. induction xs as [|x xs IH]; intros c; cbn [for_each map_result].
  - exists []. split; [|done]. destruct c. cbn. by rewrite app_nil_r.
  - destruct (f x) as [line|e] eqn:Hx; cbn [mbind result_bind].
    + destruct (IH (mkConsole (out c ++ lines [line]) (files c))) as (ls & Hrun & Hok).
      exists (line :: ls). split.
      * erewrite bind_ok; [rewrite Hrun; cbn [out files]|by erewrite bind_ok by reflexivity; apply prints_print].
        change (lines (line :: ls)) with (lines ([line] ++ ls)). rewrite lines_app, app_assoc.
        by destruct (map_result f xs).
      * destruct (map_result f xs) as [ls'|]; [|done]. by injection (Hok eq_refl) as ->.
    + exists []. split; [|done]. destruct c. cbn. by rewrite app_nil_r.
Qed.

(** *** What the text form shows *)

(** Columns of a table: filled up with spaces on the right, or on the left *)
Definition left_cell (width : nat) (s : str) : str := s ++ replicate (width - length s) 32.
Definition right_cell (width : nat) (s : str) : str := replicate (width - length s) 32 ++ s.

(** The width left for the text of an object: 57 columns are taken. *)
Definition text_width (cols : Z) : nat := Z.to_nat (cols - 57).

Definition table_row (cols : Z) (a b c d : str) : str :=
  left_cell 15 a ++ lit " | " ++ left_cell 15 b ++ lit " | " ++ right_cell 18 c ++ lit " | " ++ left_cell (text_width cols) d.

Section RetainedText.
Context `{Interpreter} (cols : Z) (h : Heap) (wf : heap_wf h).

(** The line of an object: its address, the name of its type, its retained size
    and the beginning of its text *)
Definition object_row (e : Z * Z) (line : str) : Prop :=
  ∃ o name text, dict_get (objects h) e.1 = Some o ∧ dict_get (types h) (type_address o) = Some name ∧
    string_representation h o = Ok text ∧
    line = table_row cols (dec_string e.1) name (dec_string e.2)
             (match text with Some s => take (text_width cols) s | None => [] end).

(** The whole text: the objects that retain most, every thread, the one that
    retains most first, and the total size *)
Definition retained_text (r : RetainedHeap) (top_n : Z) (text : str) : Prop :=
  ∃ listed rows ts, largest h r top_n listed ∧ Forall2 object_row listed rows ∧
    ts ≡ₚ r_threads r ∧ (∀ i j x y, (i < j)%nat → ts !! i = Some x → ts !! j = Some y → y.2 <= x.2) ∧
    text = lines (
      [lit "Retained heap for objects:";
       table_row cols (lit "Address") (lit "Object type") (lit "Retained heap size") (lit "String representation");
       replicate (Z.to_nat cols) 0x2D] ++ rows ++
      [[]; lit "Retained heap for threads:";
       left_cell 50 (lit "Thread") ++ lit " | " ++ right_cell 18 (lit "Retained heap size");
       replicate 71 0x2D] ++
      ((λ t, left_cell 50 t.1 ++ lit " | " ++ right_cell 18 (dec_string t.2)) <$> ts) ++
      [[]; lit "Total heap size: " ++ dec_string (zsum (size <$> dict_values (objects h))) ++ lit " bytes"]).

Lemma row_table a b c d : row cols a b c d = table_row cols a b c d.
Proof.
  unfold row, table_row, prefix, representation_width, text_width. change (blen _) with 57.
  replace (Z.to_nat (Z.max 0 (cols - 57))) with (Z.to_nat (cols - 57)) by lia. by rewrite <- !app_assoc.
Qed.

Lemma object_line_spec e :
  e.1 ∈ (objects h).*1 →
  unless_deep (deep_entry h e) (object_line cols h e) ∧ ∀ line, object_line cols h e = Ok line → object_row e line.
Proof.
  destruct e as [a v]. cbn [fst]. intros [o Ho]%dict_get_is_Some. unfold object_line. cbn [fst snd]. rewrite Ho.
  cbn [or_key_error mbind result_bind].
  destruct (named h wf o a Ho) as [n Hn]. destruct (render_object h wf o) as [Hr _]. split.
  - apply unless_deep_iff with (D := too_deep h o).
    { unfold deep_entry. cbn [fst]. rewrite Ho. naive_solver. }
    apply unless_deep_then; [done|]. intros text _. by rewrite Hn.
  - intros line (text & Htext & Hline)%result_bind_inv. rewrite Hn in Hline. injection Hline as <-.
    exists o, n, text. split; [done|]. split; [done|]. split; [done|]. cbn [fst snd].
    rewrite row_table. f_equal. unfold py_prefix, representation_width, text_width.
    change (blen (prefix [] [] [])) with 57.
    rewrite (proj2 (Z.leb_le 0 _)) by lia.
    replace (Z.to_nat (Z.max 0 (cols - 57))) with (Z.to_nat (cols - 57)) by lia.
    destruct text; cbn [default from_option id]; by rewrite ?take_nil.
Qed.

(** The text form prints just that, or some lines of it before a [RecursionError]. *)
Lemma print_retained_run r top_n c :
  0 <= top_n →
  let '(result, c') := _print_retained_text cols h r top_n c in
  ∃ text, c' = mkConsole (out c ++ text) (files c) ∧
    match result with
    | Ok _ => retained_text r top_n text
    | Err e => e = RecursionError ∧ deep_heap h
    end.
Proof.
  intros Hn. pose proof (sorted_largest h r top_n (hw_objects h wf) Hn) as Hlargest.
  unfold _print_retained_text. set (listed := py_prefix _ _) in *.
  assert (∀ e, e ∈ listed → e.1 ∈ (objects h).*1) as Hin by (intros e He; by apply listed_elem in He as [? _]).
  pose proof (unless_deep_map (deep_entry h) (object_line cols h) listed
    (λ e He, proj1 (object_line_spec e (Hin e He)))) as Hd.
  do 3 (erewrite bind_ok by apply prints_print; cbn [out files]).
  rewrite <- !app_assoc, <- !lines_app. set (head := _ ++ _).
  set (c1 := mkConsole _ (files c)). destruct (print_results (object_line cols h) listed c1) as (rows & Hrun & Hrows).
  destruct (map_result (object_line cols h) listed) as [rows'|x] eqn:E.
  - rewrite (bind_ok _ _ _ _ _ Hrun). injection (Hrows eq_refl) as ->.
    set (ts := py_sort _ _).
    assert (∀ m ls c, prints ls m → m c = (Ok tt, mkConsole (out c ++ lines ls) (files c))) as Hp by auto.
    erewrite Hp.
    2: { apply prints_seq; [apply prints_print|]. apply prints_seq; [apply prints_print|].
         apply prints_seq; [apply prints_print|]. apply prints_seq; [apply prints_each|apply prints_print]. }
    subst c1 head. cbn [out files]. rewrite <- !app_assoc, <- !lines_app.
    eexists. split; [reflexivity|]. exists listed, rows, ts. split; [done|].
    split. { eapply map_result_Forall2; [|exact E]. intros e l He. by apply object_line_spec, Hin. }
    split; [apply py_sort_perm|]. split.
    { intros i j x y Hij Hi Hj. apply Z.leb_le.
      eapply (StronglySorted_lookup (λ x y : str * Z, (y.2 <=? x.2) = true)); [apply py_sort_sorted, _|done..]. }
    rewrite !lines_app. rewrite row_table. cbn [lines mbind list_bind app]. rewrite <- !app_assoc. cbn [app]. done.
  - erewrite bind_err by exact Hrun. subst c1 head. cbn [out files]. rewrite <- app_assoc. eexists. split; [reflexivity|].
    destruct Hd as [-> (e & He & o & Ho & Hdeep)]. split; [done|]. by exists e.1, o.
Qed.
End RetainedText.

(** ** The parser *)

(** The namespace of an accepted command line names a file, and a command; the
    number of objects is not negative. *)
Definition parsing_wf (st : parsing Namespace) : Prop :=
  (lit "--file" ∈ seen st → is_Some (n_file (namespace st))) ∧ 0 <= n_top_n (namespace st).

Definition exits (e : stop) : Prop := e = Exits 0 ∨ e = Exits 2.

Section Parser.
Context `{Unicode}.

Lemma help_exits I p option_string explicit next (st : parsing Namespace) :
  keeps I exits fst (take_option p help_argument option_string explicit next st).
Proof.
  unfold take_option. cbn [takes_value act help_argument]. unfold exits. destruct explicit as [tail|]; [|by left].
  destruct (_ || _); [by right|]. destruct (tail_options p tail) as [[flags [[b ex]|]]|]; [|by left|by right].
  destruct (negb _); [by right|by left].
Qed.

(** A subcommand's parser, started on a namespace *)
Lemma subparser_keeps p argv n :
  (∀ a, a ∈ arguments p → a = help_argument ∨ ∃ set, act a = Store set ∧ ∀ v st, parsing_wf st →
     match set v with
     | Ok f => parsing_wf (mkParsing (f (namespace st)) (name_of a :: seen st) (extras st))
     | Err e => refuses e = true
     end) →
  ArgParse.command p = None → required p = [[lit "--file"]] → 0 <= n_top_n n →
  match parse_known_args p argv n with
  | Ok (n, _) => is_Some (n_file n) ∧ 0 <= n_top_n n
  | Err e => exits e
  end.
Proof.
  intros Hargs Hcommand Hreq Hn. unfold parse_known_args.
  destruct (classify_all p argv) as [ws|] eqn:Hws; [|by right].
  apply classify_all_ok in Hws as [_ Hok]. cbn [mbind result_bind mret result_ret].
  assert (keeps parsing_wf exits id (consume p 0 ws (mkParsing n [] false))) as Hk.
  { apply consume_keeps.
    - intros run ? ? Hrun. by rewrite Hcommand in Hrun.
    - done.
    - intros s a name explicit next st Hin Hst. rewrite Forall_forall in Hok. destruct (Hok _ Hin) as [Ha _].
      destruct (Hargs a Ha) as [->|(set & Hset & Hkeep)]; [apply help_exits|].
      eapply take_option_value; [exact Hset|by right|]. intros v. specialize (Hkeep v st Hst).
      destruct (set v); [by intros _|done].
    - split; [by intros ?%not_elem_of_nil|done]. }
  destruct (consume p 0 ws _) as [st|e]; [|exact Hk]. cbn [mbind result_bind]. rewrite Hreq.
  destruct (forallb _ _) eqn:Hf; [|by right]. cbn [forallb existsb] in Hf.
  rewrite andb_true_iff, orb_true_iff, bool_decide_eq_true in Hf. destruct Hf as [[Hf|] _]; [|done].
  destruct Hk as [Hfile Htop]. by split; [apply Hfile|].
Qed.

Lemma file_wf st p name : parsing_wf st → parsing_wf (mkParsing (set_file p (namespace st)) name (extras st)).
Proof. intros [_ Ht]. by split. Qed.

Lemma other_wf st f name :
  parsing_wf st → name ≠ lit "--file" → n_file (f (namespace st)) = n_file (namespace st) → 0 <= n_top_n (f (namespace st)) →
  parsing_wf (mkParsing (f (namespace st)) (name :: seen st) (extras st)).
Proof.
  intros [Hs _] Hne Hf Ht. split; [|done]. cbn [namespace seen]. rewrite Hf. by intros [Heq|Hin]%elem_of_cons; [congruence|apply Hs].
Qed.

Lemma subcommand_keeps argv n :
  0 <= n_top_n n →
  match subcommand argv n with
  | Ok (n, _) => is_Some (n_file n) ∧ 0 <= n_top_n n
  | Err e => exits e
  end.
Proof.
  intros Hn. unfold subcommand. destruct argv as [|name argv]; [by right|].
  assert (∀ v (st : parsing Namespace), parsing_wf st →
    parsing_wf (mkParsing (set_file (path_of v) (namespace st)) (name_of the_file :: seen st) (extras st)))
    as Hfile by (intros; by apply file_wf).
  case_bool_decide; [|case_bool_decide; [|by right]].
  - apply subparser_keeps; [|done..]. intros a Ha. cbn [arguments summary_parser] in Ha.
    repeat apply elem_of_cons in Ha as [->|Ha]; [by left|right|by apply not_elem_of_nil in Ha].
    eexists. split; [reflexivity|]. exact Hfile.
  - apply subparser_keeps; [|done..]. intros a Ha. cbn [arguments retained_parser] in Ha.
    repeat apply elem_of_cons in Ha as [->|Ha]; [by left|right..|by apply not_elem_of_nil in Ha];
      (eexists; split; [reflexivity|]).
    + exact Hfile.
    + intros v st Hst. cbv beta. unfold _non_negative_int. destruct (int_of_str v) as [x|]; [|done].
      cbn [or_value_error mbind result_bind]. destruct (Z.ltb_spec x 0); [done|]. by apply other_wf.
    + intros v st Hst. cbv beta. unfold format_value. case_bool_decide; [|done]. apply other_wf; [done..|]. apply Hst.
Qed.

(** Every command line is a command or ends the process with code 0 or 2; the
    number of objects of a command is not negative. *)
Lemma accepted_commands argv :
  match parse argv with
  | Ok (RetainedHeapCommand _ top_n _) => 0 <= top_n
  | Ok (Summary _) => True
  | Err e => exits e
  end.
Proof.
  unfold parse, parse_args, parse_known_args.
  destruct (classify_all build_parser argv) as [ws|] eqn:Hws; [|by right].
  apply classify_all_ok in Hws as [_ Hok]. cbn [mbind result_bind mret result_ret].
  set (I := λ st : parsing Namespace, (lit "command" ∈ seen st → is_Some (n_file (namespace st))) ∧ 0 <= n_top_n (namespace st)).
  assert (keeps I exits id (consume build_parser 0 ws (mkParsing defaults [] false))) as Hk.
  { apply consume_keeps.
    - intros run ws' st [= <-] [_ Hst]. unfold take_command. pose proof (subcommand_keeps ws'.*1 (namespace st) Hst) as Hs.
      destruct (subcommand _ _) as [[n x]|e]; [|done]. destruct Hs. by split.
    - done.
    - intros s a name explicit next st Hin _. rewrite Forall_forall in Hok. destruct (Hok _ Hin) as [Ha _].
      apply list_elem_of_singleton in Ha as ->. apply help_exits.
    - split; [by intros ?%not_elem_of_nil|done]. }
  destruct (consume build_parser 0 ws _) as [st|e]; [|exact Hk]. cbn [mbind result_bind].
  change (required build_parser) with [[lit "command"]].
  destruct (forallb _ _) eqn:Hf; [|by right]. cbn [forallb existsb] in Hf.
  rewrite andb_true_iff, orb_true_iff, bool_decide_eq_true in Hf. destruct Hf as [[Hf|] _]; [|done].
  destruct Hk as [Hfile Htop]. destruct (Hfile Hf) as [file Hfile']. cbn [mbind result_bind mret result_ret id] in *.
  destruct (extras st); [by right|]. cbn [mbind result_bind mret result_ret].
  unfold command_of. rewrite Hfile'. by case_bool_decide.
Qed.
End Parser.

(** The subcommands take abbreviations. *)
Example abbreviated_lines :
  @parse ascii_only (lit <$> ["summary"; "--fi"; "a"]%string) = Ok (Summary ([], lit "a")) ∧
  @parse ascii_only (lit <$> ["retained-heap"; "-f"; "a"; "--fo=json"; "-n5"]%string)
  = Ok (RetainedHeapCommand ([], lit "a") 5 Json) ∧
  @parse ascii_only (lit <$> ["retained-heap"; "--f"; "a"]%string) = Err (Exits 2) ∧
  @parse ascii_only (lit <$> ["--he"]%string) = Err (Exits 2).
Proof. vm_compute. auto. Qed.

Definition command_file (args : command) : Path :=
  match args with Summary file => file | RetainedHeapCommand file _ _ => file end.

Section Commands.
Context `{SetOrder} `{Unicode} `{Interpreter} (d : disk) (cache_dir : option str) (cols : Z).

Lemma open_heap_run file contents c :
  files c !! file = Some contents →
  open_heap file c = (h ← load_heap contents; mret (contents, h), c).
Proof.
  intros Hf. unfold open_heap. erewrite bind_ok by reflexivity. rewrite Hf.
  unfold lift, mbind, M_bind. by destruct (load_heap contents).
Qed.

(** A command line that is accepted comes down to its command. *)
Lemma program_runs argv args c :
  parse argv = Ok args →
  pydump_analyzer d cache_dir cols argv c
  = match main d cache_dir cols args c with (Ok code, c) => (Ok code, c) | (Err error, c) => (Err (Raises error), c) end.
Proof. intros Hp. unfold pydump_analyzer. by rewrite Hp. Qed.

(** The summary of a file the reader accepts *)
Lemma summary_runs file contents h report c :
  files c !! file = Some contents → load_heap contents = Ok h → build_heap_analysis contents h None 100 = Ok report →
  main d cache_dir cols (Summary file) c = (Ok 0, mkConsole (out c ++ dumps_indented report ++ [10]) (files c)).
Proof.
  intros Hf Hload Hreport. pose proof (open_heap_run file contents c Hf) as Ho. rewrite Hload in Ho.
  unfold main, _summary. erewrite bind_ok; [reflexivity|]. rewrite (bind_ok _ _ _ _ _ Ho), Hreport.
  erewrite bind_ok by reflexivity. apply print_json_run.
Qed.

(** What the retained-heap command prints *)
Definition retained_output (contents : bytes) (h : Heap) (r : RetainedHeap) (top_n : Z) (format : output_format)
  (text : str) : Prop :=
  match format with
  | Text => retained_text cols h r top_n text
  | Json => ∃ report, build_heap_analysis contents h (Some r) top_n = Ok report ∧
      text = dumps_indented report ++ [10] ∧ json_loads text = Ok (value_of report)
  end.

(** The retained-heap command on a well-formed heap, with no result in the cache *)
Lemma retained_runs file contents h c top_n format :
  files c !! file = Some contents → load_heap contents = Ok h → heap_wf h → 0 <= top_n →
  (∀ t x, t ∈ threads h → x ∈ thread_locals t → mentioned h x) →
  load (mkCache file cache_dir) (files c) = Ok None →
  ∃ r files', calculate_retained h = Ok r ∧
    (∀ p, files' !! p ≠ files c !! p → path (mkCache file cache_dir) (files c) = Ok p) ∧
    let '(result, c') := main d cache_dir cols (RetainedHeapCommand file top_n format) c in
    ∃ text, c' = mkConsole (out c ++ text) files' ∧
      match result with
      | Ok code => code = 0 ∧ retained_output contents h r top_n format text
      | Err e => e = RecursionError ∧ deep_heap h
      end.
Proof.
  intros Hf Hload Hwf Hn Hlocals Hcold. pose proof (open_heap_run file contents c Hf) as Ho. rewrite Hload in Ho.
  destruct (retained_for_report h Hwf Hlocals) as (r & Hr & Hthreads).
  destruct (cold_run d (mkCache file cache_dir) h (files c) r Hr Hcold) as (fs & Hrun & Hother & _).
  set (c1 := mkConsole (out c) fs).
  assert (on_files (retained_heap_with_cache d (mkCache file cache_dir) h) c = (Ok r, c1)) as Hon
    by (unfold on_files; by rewrite Hrun).
  exists r, fs. split; [done|]. split; [done|]. unfold main, _retained_heap. destruct format.
  - pose proof (print_retained_run cols h Hwf r top_n c1 Hn) as Hp.
    destruct (_print_retained_text cols h r top_n c1) as [[[]|e] c2] eqn:E; destruct Hp as (text & -> & Hp).
    + erewrite bind_ok by (rewrite (bind_ok _ _ _ _ _ Ho), (bind_ok _ _ _ _ _ Hon); exact E). by exists text.
    + erewrite bind_err by (rewrite (bind_ok _ _ _ _ _ Ho), (bind_ok _ _ _ _ _ Hon); exact E). by exists text.
  - pose proof (report_built h Hwf contents (Some r) top_n) as Hb.
    assert (∀ r' t, Some r = Some r' → t ∈ threads h → ∃ v, get_for_thread r' (name t) = Ok v) as Hall
      by (intros r' t [= <-]; apply Hthreads).
    specialize (Hb Hall). destruct (build_heap_analysis contents h (Some r) top_n) as [j|e] eqn:Hj.
    + erewrite bind_ok by (rewrite (bind_ok _ _ _ _ _ Ho), (bind_ok _ _ _ _ _ Hon), Hj; erewrite bind_ok by reflexivity;
        apply print_json_run).
      eexists. split; [reflexivity|]. split; [done|]. exists j. split; [done|]. split; [done|].
      by apply (report_reads_back h Hwf contents (Some r) top_n).
    + erewrite bind_err by (rewrite (bind_ok _ _ _ _ _ Ho), (bind_ok _ _ _ _ _ Hon), Hj; by erewrite bind_err by reflexivity).
      exists []. rewrite app_nil_r. split; [done|]. by destruct Hb as (-> & _ & ?).
Qed.

(** C23: the commands of the analyzer, on any command line that is parsed to them.
    A file the reader refuses ends the program with the reader's exception,
    nothing printed and nothing written. For every file it accepts, the summary
    prints the report, which reads back, and touches no file. The retained-heap
    command, when the heap mentions its thread locals and there is no cached
    result, changes no file but its cache and prints, with exit code 0, either the
    JSON report of the calculated result, which reads back, or the text form: the
    objects that retain most with address, type, retained size and text in columns,
    the threads by retained size, and the total size. It fails only with
    [RecursionError], when some object's text nests deeper than the interpreter
    lets it. *)
Theorem analyzer_commands c file contents top_n format :
  files c !! file = Some contents →
  match load_heap contents with
  | Err e => ∀ argv args, parse argv = Ok args → command_file args = file →
      pydump_analyzer d cache_dir cols argv c = (Err (Raises e), c)
  | Ok h =>
      (∃ report, build_heap_analysis contents h None 100 = Ok report ∧
         json_loads (dumps_indented report ++ [10]) = Ok (value_of report) ∧
         ∀ argv, parse argv = Ok (Summary file) →
           pydump_analyzer d cache_dir cols argv c = (Ok 0, mkConsole (out c ++ dumps_indented report ++ [10]) (files c))) ∧
      ((∀ t x, t ∈ threads h → x ∈ thread_locals t → mentioned h x) →
       load (mkCache file cache_dir) (files c) = Ok None →
       ∀ argv, parse argv = Ok (RetainedHeapCommand file top_n format) →
       ∃ r files', calculate_retained h = Ok r ∧
         (∀ p, files' !! p ≠ files c !! p → path (mkCache file cache_dir) (files c) = Ok p) ∧
         let '(result, c') := pydump_analyzer d cache_dir cols argv c in
         ∃ text, c' = mkConsole (out c ++ text) files' ∧
           match result with
           | Ok code => code = 0 ∧ retained_output contents h r top_n format text
           | Err stopped => stopped = Raises RecursionError ∧
               ∃ a o, dict_get (objects h) a = Some o ∧ too_deep h o
           end)
  end.
Proof.
  intros Hf. pose proof (load_heap_yields contents) as Hwf. destruct (load_heap contents) as [h|error] eqn:Hload.
  - destruct Hwf as [Hwf _]. split.
    + destruct (report_total h Hwf contents 100) as [j Hj]. exists j. split; [done|].
      split; [by apply (report_reads_back h Hwf contents None 100)|]. intros argv Hargs.
      by rewrite (program_runs _ _ _ Hargs), (summary_runs file contents h j).
    + intros Hlocals Hcold argv Hargs. pose proof (accepted_commands argv) as Hn. rewrite Hargs in Hn.
      destruct (retained_runs file contents h c top_n format) as (r & fs & Hr & Hother & Hrun); [done..|].
      exists r, fs. split; [done|]. split; [done|]. rewrite (program_runs _ _ _ Hargs).
      destruct (main d cache_dir cols _ c) as [[code|e] c']; [done|].
      destruct Hrun as (text & -> & -> & Hdeep). by exists text.
  - pose proof (open_heap_run file contents c Hf) as Ho. rewrite Hload in Ho.
    intros argv [f|f n fmt] Hargs <-; rewrite (program_runs _ _ _ Hargs); unfold main, _summary, _retained_heap;
      (erewrite (bind_err _ _ c error c); [done|]); apply bind_err, Ho.
Qed.
End Commands.

#[local] Existing Instances elements_order ascii_only default_limits.

Lemma analyzer_commands_witness :
  let file := (lit "/data", lit "a.pyheap") in
  let c := mkConsole [] {[file := Golden.golden_artifact]} in
  load_heap Golden.golden_artifact = Ok golden_heap ∧
  (∃ report, pydump_analyzer Works None 80 (lit <$> ["summary"; "--file"; "/data/a.pyheap"]%string) c
    = (Ok 0, mkConsole (dumps_indented report ++ [10]) (files c))) ∧
  ∃ r text, calculate_retained golden_heap = Ok r ∧
    (pydump_analyzer Works None 80 (lit <$> ["retained-heap"; "-n8"; "--file"; "/data/a.pyheap"]%string) c).1 = Ok 0 ∧
    out (pydump_analyzer Works None 80 (lit <$> ["retained-heap"; "-n8"; "--file"; "/data/a.pyheap"]%string) c).2 = text ∧
    retained_text 80 golden_heap r 8 text.
Proof.
  cbv zeta. set (file := (lit "/data", lit "a.pyheap")). set (c := mkConsole [] {[file := Golden.golden_artifact]}).
  assert (load_heap Golden.golden_artifact = Ok golden_heap) as E by (vm_compute; reflexivity).
  pose proof (analyzer_commands Works None 80 c file Golden.golden_artifact 8 Text) as H.
  rewrite E in H. destruct (H eq_refl) as [(report & _ & _ & Hsummary) Hretained]. split; [exact E|]. split.
  - exists report. apply Hsummary. vm_compute. reflexivity.
  - set (words := lit <$> ["retained-heap"; "-n8"; "--file"; "/data/a.pyheap"]%string) in *.
    destruct (Hretained golden_locals) with (argv := words) as (r & fs & Hr & _ & Hrun).
    + vm_compute. reflexivity.
    + vm_compute. reflexivity.
    + assert (is_ok (pydump_analyzer Works None 80 words c).1 = true) as Hok by (vm_compute; reflexivity).
      destruct (pydump_analyzer Works None 80 words c) as [[code|x] c']; [|discriminate].
      destruct Hrun as (text & -> & -> & Hout). exists r, text. exact (conj Hr (conj eq_refl (conj eq_refl Hout))).
Defined.
