(* ===== verification/Target.v ===== *)
(** * The target process

    [capture/collector/src/pydump/target.py]: which process is dumped, the CPython
    version it runs and the Agent that fits it.  The [/proc] files and Docker's
    answers are parameters. *)
From stdpp Require Import base tactics numbers list gmap strings.
From Stdlib Require Import Strings.Byte.
From S2P Require Import Prelude PyData Struct Text StrOps Floats Paths Errors Json JsonParse.

(** ** The operating system *)

(** [/proc/<pid>]: what reading its files gives *)
Record Proc := mkProc {
  p_exists : bool;
  p_status : result exc bytes;
  p_maps : result exc bytes;
  p_exe : result exc str;
  p_header : result exc bytes;
}.

(** A finished child process, or what kept it from finishing *)
Record Completed := mkCompleted { returncode : Z; stdout : str; stderr : str }.

(** The lines of an open text file: decoding is strict. *)
Definition text_lines (contents : result exc bytes) : result exc (list str) :=
  bs ← contents;
  match utf8_decode_strict bs with
  | Some text => mret (file_lines (universal_newlines text))
  | None => Err UnicodeDecodeError
  end.

(** [except PermissionError as error: raise PydumpError(message) from error] *)
Definition explain_permission {A} (message : str) (r : result exc A) : result exc A :=
  match r with Err (PermissionError _) => Err (PydumpError message) | _ => r end.

Record Target := mkTarget { host_pid : Z; namespace_pid : Z; python_minor : Z * Z }.

(** ** Versions in file names *)

(** [pattern.search(text)]: the leftmost position where the pattern matches *)
Fixpoint search {A} (match_at : str → option A) (s : str) : option A :=
  match match_at s with
  | Some a => Some a
  | None => match s with [] => None | _ :: s => search match_at s end
  end.

(** [[0-9]+], as many as there are *)
Definition digits_prefix (s : str) : option (str * str) :=
  match take_while is_digit s with [] => None | ds => Some (ds, drop_while is_digit s) end.

(** What may follow [\.so]: [(?:\.|$)] *)
Definition dot_or_end (s : str) : bool :=
  match s with
  | [] => true
  | c :: s => (c =? 46) || ((c =? 10) && bool_decide (s = []))
  end.

(** [.*\.so(?:\.|$)] *)
Fixpoint shared_object (s : str) : bool :=
  (starts_with (lit ".so") s && dot_or_end (drop 3 s))
  || match s with c :: s => negb (c =? 10) && shared_object s | [] => false end.

(** [_PYTHON_LIBRARY]: the digits of the minor version, at this position *)
Definition python_library (s : str) : option str :=
  if starts_with (lit "libpython3.") s then
    '(ds, rest) ← digits_prefix (drop 11 s); if shared_object rest then Some ds else None
  else None.

(** [_PYTHON_EXECUTABLE]: after all digits comes the end or something else. *)
Definition python_executable (s : str) : option str :=
  if starts_with (lit "python3.") s then fst <$> digits_prefix (drop 8 s) else None.

(** The group is ["3."] and the digits: the two integers it is split into *)
Definition version_of (candidate : str) : option (Z * Z) :=
  (λ ds, (3, digits_value_of ds)) <$>
  match search python_library candidate with
  | Some ds => Some ds
  | None => search python_executable (path_name candidate)
  end.

Definition dotted (v : Z * Z) : str := dec_string v.1 ++ lit "." ++ dec_string v.2.

(** Tuples of two integers, compared *)
Definition pair_leb (v w : Z * Z) : bool := lex_Z fst (λ v w, v.2 <=? w.2) v w.

Section Inspect.
Context `{Unicode} `{Interpreter} (procs : Z → Proc).

(** *** Lines of [/proc/<pid>/status] *)

(** [int(line.split()[-1])] *)
Definition last_int (line : str) : result exc Z :=
  match last (split line) with
  | None => Err IndexError
  | Some word => or_value_error (int_of_str word)
  end.

Fixpoint owner_fields (lines : list str) (uid gid : option Z) : result exc (option Z * option Z) :=
  match lines with
  | [] => mret (uid, gid)
  | line :: lines =>
      if starts_with (lit "Uid:") line then u ← last_int line; owner_fields lines (Some u) gid
      else if starts_with (lit "Gid:") line then g ← last_int line; owner_fields lines uid (Some g)
      else owner_fields lines uid gid
  end.

(** [Target.fs_owner] *)
Definition fs_owner (t : Target) : result exc (Z * Z) :=
  lines ← text_lines (p_status (procs (host_pid t)));
  '(uid, gid) ← owner_fields lines None None;
  match uid, gid with
  | Some uid, Some gid => mret (uid, gid)
  | _, _ => Err (PydumpError (lit "cannot determine filesystem owner for process " ++ dec_string (host_pid t)))
  end.

(** [Target.root] *)
Definition root (t : Target) : str := lit "/proc/" ++ dec_string (host_pid t) ++ lit "/root".

Fixpoint namespace_field (lines : list str) : result exc (option Z) :=
  match lines with
  | [] => mret None
  | line :: lines => if starts_with (lit "NStgid:") line then Some <$> last_int line else namespace_field lines
  end.

Definition pid_in_own_namespace (pid : Z) : result exc Z :=
  found ← explain_permission
            (lit "cannot read process " ++ dec_string pid ++ lit "; try running as the target user or root")
            (lines ← text_lines (p_status (procs pid)); namespace_field lines);
  match found with
  | Some n => mret n
  | None => Err (PydumpError (lit "cannot determine PID namespace ID for process " ++ dec_string pid))
  end.

(** *** The version *)

(** [line.split(maxsplit=5)[-1].strip()] for the lines that have a slash *)
Definition mapped_file (line : str) : option str :=
  if contains (lit "/") line then strip <$> last (split_max 5 line) else None.

Definition candidates (pid : Z) : result exc (list str) :=
  exe ← p_exe (procs pid);
  lines ← text_lines (p_maps (procs pid));
  mret (exe :: omap mapped_file lines).

Definition versions_found (names : list str) : gset (Z * Z) := list_to_set (omap version_of names).

Definition detect_python_minor (pid : Z) : result exc (Z * Z) :=
  names ← explain_permission
            (lit "cannot inspect process " ++ dec_string pid ++ lit "; try running as the target user or root")
            (candidates pid);
  match elements (versions_found names) with
  | [version] =>
      if pair_leb (3, 10) version then mret version
      else Err (PydumpError (lit "CPython " ++ dotted version ++ lit " is unsupported; pydump requires 3.10+"))
  | versions =>
      let rendered := join (lit ", ") (dotted <$> py_sort pair_leb versions) in
      Err (PydumpError (lit "cannot uniquely detect target CPython minor version; found "
                        ++ if bool_decide (rendered = []) then lit "none" else rendered))
  end.

(** *** Docker *)

(** [value[key]] of what JSON gives, for a text key *)
Definition item_named (v : json_value) (key : str) : result exc json_value :=
  match v with
  | JObject members => or_key_error (dict_get members key)
  | _ => Err TypeError
  end.

(** [value[0]] *)
Definition item_first (v : json_value) : result exc json_value :=
  match v with
  | JList [] | JString [] => Err IndexError
  | JList (item :: _) => mret item
  | JString (c :: _) => mret (JString [c])
  | JObject _ => Err KeyError
  | _ => Err TypeError
  end.

(** [except (IndexError, KeyError, TypeError, ValueError, json.JSONDecodeError)] *)
Definition malformed (e : exc) : bool :=
  is_ValueError e || match e with IndexError | KeyError | TypeError => true | _ => false end.

(** [state["Status"] != "running"] *)
Definition is_running (status : json_value) : bool :=
  match status with JString s => bool_decide (s = lit "running") | _ => false end.

(** [shutil.which("docker")] and [docker inspect container], a [TimeoutExpired]
    or [OSError] among its results *)
Context (which_docker : option str) (docker_inspect : str → str → result exc Completed).

Definition container_pid (container : str) (output : str) : result exc Z :=
  inspected ← json_loads output;
  first ← item_first inspected;
  state ← item_named first (lit "State");
  status ← item_named state (lit "Status");
  if is_running status then pid ← item_named state (lit "Pid"); int_of_json pid
  else Err (PydumpError (lit "Docker container " ++ repr_str container ++ lit " is not running")).

Definition docker_pid (container : str) : result exc Z :=
  match which_docker with
  | None => Err (PydumpError (lit "docker executable was not found"))
  | Some docker =>
      process ← docker_inspect docker container;
      if negb (returncode process =? 0) then
        Err (PydumpError (lit "docker inspect " ++ repr_str container ++ lit " failed: " ++ strip (stderr process)))
      else
        match container_pid container (stdout process) with
        | Err e =>
            if malformed e
            then Err (PydumpError (lit "docker inspect returned an unexpected result for " ++ repr_str container))
            else Err e
        | r => r
        end
  end.

Definition resolve_target (pid : option Z) (docker_container : option str) : result exc Target :=
  host_pid ← match docker_container with
             | Some container => Some <$> docker_pid container
             | None => mret pid
             end;
  match host_pid with
  | None => Err (PydumpError (lit "invalid target PID None"))
  | Some host_pid =>
      if host_pid <=? 0 then Err (PydumpError (lit "invalid target PID " ++ dec_string host_pid))
      else if p_exists (procs host_pid) then
        namespace_pid ← pid_in_own_namespace host_pid;
        python_minor ← detect_python_minor host_pid;
        mret (mkTarget host_pid namespace_pid python_minor)
      else Err (PydumpError (lit "target process " ++ dec_string host_pid ++ lit " does not exist"))
  end.

(** ** The Agent *)

(** [is_file] tells whether the library is there, [pointer_size] is
    [struct.calcsize("P")]. *)
Definition verify_agent (is_file : Path → bool) (pointer_size : Z) (agent : Path) (target : Target) : result exc unit :=
  if negb (is_file agent) then Err (PydumpError (lit "agent library " ++ path_str agent ++ lit " does not exist"))
  else
    let expected := dotted (python_minor target) in
    if negb (contains (lit "agent-" ++ expected ++ lit "-") agent.2) then
      Err (PydumpError (lit "agent " ++ repr_str agent.2 ++ lit " does not identify target CPython " ++ expected
                        ++ lit "; use an agent built for the target minor"))
    else if pointer_size =? 8 then mret tt
    else Err (PydumpError (lit "only 64-bit Collector processes are supported")).
End Inspect.
