(* ===== verification/Targets.v ===== *)
(** * Finding the target: properties

    The version patterns against their declarative meaning, the uniqueness of
    the detected version, Docker's answers, and which Agents are accepted. *)
From stdpp Require Import base tactics numbers list gmap strings.
From Stdlib Require Import Strings.Byte Sorting.Sorted.
From S2P Require Import Prelude PyData Struct Text StrOps Floats Paths Errors Json JsonParse JsonRoundTrip Target.

(** ** Searching *)

Lemma contains_app p s : contains p s = true ↔ ∃ pre post, s = pre ++ p ++ post.
Proof.
  induction s as [|c s IH]; cbn [contains]; rewrite orb_true_iff, starts_with_app.
  - split.
    + intros [[t Ht]|H]; [by exists [], t|done].
    + intros (pre & post & E). left. destruct pre as [|d pre]; [by exists post|done].
  - rewrite IH. split.
    + intros [[t Ht]|(pre & post & ->)]; [by exists [], t|by exists (c :: pre), post].
    + intros (pre & post & E). destruct pre as [|d pre]; [left; by exists post|].
      right. injection E as <- ->. by exists pre, post.
Qed.

Section Search.
Context {A : Type} (match_at : str → option A).

(** A match at a position *)
Definition match_pos (s : str) (pos : nat) (a : A) : Prop := (pos ≤ length s)%nat ∧ match_at (drop pos s) = Some a.

Lemma search_spec s a :
  search match_at s = Some a ↔
  ∃ pos, match_pos s pos a ∧ ∀ pos' a', match_pos s pos' a' → (pos ≤ pos')%nat.
Proof.
  unfold match_pos. induction s as [|c s IH]; cbn [search].
  - split.
    + intros H. exists 0%nat. split; [|intros; lia]. cbn. split; [lia|by destruct (match_at [])].
    + intros (pos & [Hl Hp] & _). cbn in Hl. replace pos with 0%nat in Hp by lia. cbn in Hp. by rewrite Hp.
  - destruct (match_at (c :: s)) as [b|] eqn:Hb.
    + split.
      * intros [= <-]. exists 0%nat. split; [|intros; lia]. split; [lia|done].
      * intros (pos & [Hl Hp] & Hmin). specialize (Hmin 0%nat b ltac:(split; [lia|done])).
        replace pos with 0%nat in Hp by lia. cbn in Hp. congruence.
    + rewrite IH. split.
      * intros (pos & [Hl Hp] & Hmin). exists (S pos). split; [split; [cbn; lia|done]|].
        intros [|pos'] a' [Hl' Hp']; [cbn in Hp'; congruence|].
        cbn in Hl', Hp'. specialize (Hmin pos' a' ltac:(split; [lia|done])). lia.
      * intros ([|pos] & [Hl Hp] & Hmin); [cbn in Hp; congruence|]. cbn in Hl, Hp. exists pos.
        split; [split; [lia|done]|]. intros pos' a' [Hl' Hp'].
        specialize (Hmin (S pos') a' ltac:(split; [cbn; lia|done])). lia.
Qed.
End Search.

Lemma take_drop_while P s : take_while P s ++ drop_while P s = s.
Proof. induction s as [|c s IH]; cbn; [done|]. destruct (P c); cbn; [by rewrite IH|done]. Qed.

Lemma take_while_all P s : Forall (λ c, P c = true) (take_while P s).
Proof. induction s as [|c s IH]; cbn; [constructor|]. destruct (P c) eqn:Hc; [by constructor|constructor]. Qed.

(** The text goes on with no further digit. *)
Definition no_digit (s : str) : Prop := match s with c :: _ => is_digit c = false | [] => True end.

Lemma drop_while_no_digit s : no_digit (drop_while is_digit s).
Proof. induction s as [|c s IH]; cbn; [done|]. by destruct (is_digit c) eqn:Hc. Qed.

Lemma digits_unique ds rest :
  Forall (λ c, is_digit c = true) ds → no_digit rest →
  take_while is_digit (ds ++ rest) = ds ∧ drop_while is_digit (ds ++ rest) = rest.
Proof.
  intros Hds Hr. induction Hds as [|c ds Hc Hds [IH1 IH2]].
  - destruct rest as [|c rest]; [done|]. cbn in Hr |- *. by rewrite Hr.
  - cbn. rewrite Hc. cbn. by rewrite IH1, IH2.
Qed.

Lemma digits_prefix_spec s ds rest :
  digits_prefix s = Some (ds, rest) ↔
  s = ds ++ rest ∧ ds ≠ [] ∧ Forall (λ c, is_digit c = true) ds ∧ no_digit rest.
Proof.
  unfold digits_prefix. split.
  - pose proof (take_while_all is_digit s) as Ha. pose proof (take_drop_while is_digit s) as E.
    pose proof (drop_while_no_digit s). destruct (take_while is_digit s) as [|c t]; [done|].
    by intros [= <- <-].
  - intros (-> & Hne & Hds & Hr). destruct (digits_unique ds rest Hds Hr) as [-> ->].
    by destruct ds.
Qed.

Lemma shared_object_spec s :
  shared_object s = true ↔
  ∃ mid post, s = mid ++ lit ".so" ++ post ∧ 10 ∉ mid ∧ (post = [] ∨ post = [10] ∨ ∃ q, post = 46 :: q).
Proof.
  assert (∀ t, dot_or_end t = true ↔ t = [] ∨ t = [10] ∨ ∃ q, t = 46 :: q) as Hend.
  { intros [|c t]; cbn; [naive_solver|]. rewrite orb_true_iff, andb_true_iff, !Z.eqb_eq, bool_decide_eq_true.
    naive_solver. }
  induction s as [|c s IH]; cbn [shared_object]; rewrite orb_true_iff, !andb_true_iff, starts_with_app, Hend.
  - split; [by intros [[[t Ht] _]|?]|]. intros (mid & post & E & _). by destruct mid.
  - rewrite IH, negb_true_iff, Z.eqb_neq. split.
    + intros [[[t Ht] He]|(Hc & mid & post & -> & Hm & Hp)].
      * exists [], t. rewrite Ht in He |- *. split; [done|]. split; [by intros ?%elem_of_nil|done].
      * exists (c :: mid), post. split; [done|]. split; [|done]. intros [E|?]%elem_of_cons; congruence.
    + intros (mid & post & E & Hm & Hp). destruct mid as [|d mid].
      * left. cbn [app] in E. rewrite E. split; [by exists post|done].
      * right. injection E as <- ->. apply not_elem_of_cons in Hm as [Hc Hm]. split; [congruence|]. by exists mid, post.
Qed.

(** ** The version patterns *)

(** [libpython3\.<ds>], no more digits, and later in the line [.so] before a dot
    or the end *)
Definition library_match (s : str) (pos : nat) (ds : str) : Prop :=
  ∃ pre rest, s = pre ++ lit "libpython3." ++ ds ++ rest ∧ length pre = pos ∧
    ds ≠ [] ∧ Forall (λ c, is_digit c = true) ds ∧ no_digit rest ∧
    ∃ mid post, rest = mid ++ lit ".so" ++ post ∧ 10 ∉ mid ∧ (post = [] ∨ post = [10] ∨ ∃ q, post = 46 :: q).

(** [python3\.<ds>] and no more digits *)
Definition executable_match (s : str) (pos : nat) (ds : str) : Prop :=
  ∃ pre rest, s = pre ++ lit "python3." ++ ds ++ rest ∧ length pre = pos ∧
    ds ≠ [] ∧ Forall (λ c, is_digit c = true) ds ∧ no_digit rest.

Definition leftmost (match_ : nat → str → Prop) (ds : str) : Prop :=
  ∃ pos, match_ pos ds ∧ ∀ pos' ds', match_ pos' ds' → (pos ≤ pos')%nat.

Lemma match_pos_pre {A} (f : str → option A) s pos a :
  match_pos f s pos a ↔ ∃ pre t, s = pre ++ t ∧ length pre = pos ∧ f t = Some a.
Proof.
  split.
  - intros [Hl Hf]. exists (take pos s), (drop pos s). rewrite take_drop, length_take. split_and!; [done|lia|done].
  - intros (pre & t & -> & <- & Hf). split; [rewrite length_app; lia|]. by rewrite drop_app_length.
Qed.

Lemma library_match_pos s pos ds : match_pos python_library s pos ds ↔ library_match s pos ds.
Proof.
  rewrite match_pos_pre. unfold library_match, python_library. split.
  - intros (pre & t & -> & Hl & Hf). destruct (starts_with _ t) eqn:Hs; [|done].
    apply starts_with_app in Hs as [u ->]. change (drop 11 (lit "libpython3." ++ u)) with u in Hf.
    destruct (digits_prefix u) as [[ds' rest]|] eqn:Hd; [|done]. cbn in Hf.
    destruct (shared_object rest) eqn:Hso; [|done]. injection Hf as <-.
    apply digits_prefix_spec in Hd as (-> & ? & ? & ?). apply shared_object_spec in Hso.
    exists pre, rest. split_and!; done.
  - intros (pre & rest & -> & Hl & Hne & Hds & Hr & Hso). eexists pre, _. split; [done|]. split; [done|].
    rewrite (proj2 (starts_with_app _ _)) by by eexists.
    change (drop 11 (lit "libpython3." ++ ?u)) with u.
    rewrite (proj2 (digits_prefix_spec _ ds rest)) by done. cbn.
    by rewrite (proj2 (shared_object_spec rest)).
Qed.

Lemma executable_match_pos s pos ds : match_pos python_executable s pos ds ↔ executable_match s pos ds.
Proof.
  rewrite match_pos_pre. unfold executable_match, python_executable. split.
  - intros (pre & t & -> & Hl & Hf). destruct (starts_with _ t) eqn:Hs; [|done].
    apply starts_with_app in Hs as [u ->]. change (drop 8 (lit "python3." ++ u)) with u in Hf.
    destruct (digits_prefix u) as [[ds' rest]|] eqn:Hd; [|done]. injection Hf as <-.
    apply digits_prefix_spec in Hd as (-> & ? & ? & ?). exists pre, rest. split_and!; done.
  - intros (pre & rest & -> & Hl & Hne & Hds & Hr). eexists pre, _. split; [done|]. split; [done|].
    rewrite (proj2 (starts_with_app _ _)) by by eexists.
    change (drop 8 (lit "python3." ++ ?u)) with u.
    by rewrite (proj2 (digits_prefix_spec _ ds rest)).
Qed.

Lemma search_leftmost {A} (f : str → option A) (m : str → nat → A → Prop) s a :
  (∀ pos b, match_pos f s pos b ↔ m s pos b) →
  search f s = Some a ↔ ∃ pos, m s pos a ∧ ∀ pos' b, m s pos' b → (pos ≤ pos')%nat.
Proof. intros Hm. rewrite search_spec. setoid_rewrite Hm. done. Qed.

Lemma search_none {A} (f : str → option A) s : search f s = None ↔ ∀ pos a, ¬ match_pos f s pos a.
Proof.
  split.
  - induction s as [|c s IH]; cbn [search]; intros H pos a [Hl Hp].
    + rewrite drop_nil in Hp. by rewrite Hp in H.
    + destruct (f (c :: s)) eqn:Hf; [done|]. destruct pos as [|pos]; [cbn in Hp; congruence|].
      apply (IH H pos a). split; [cbn in Hl; lia|done].
  - intros H. destruct (search f s) as [a|] eqn:E; [|done]. apply search_spec in E as (pos & Hp & _).
    by destruct (H pos a).
Qed.

(** C33: the two version patterns mean what they say. A mapped file names CPython
    3.x exactly when its path has, at the leftmost place, [libpython3.x], all
    digits taken, with [.so] further on in the same line; or no such place, and
    its last component has [python3.x]. *)
Theorem version_of_spec c v :
  version_of c = Some v ↔
  ∃ ds, v = (3, digits_value_of ds) ∧
    (leftmost (library_match c) ds ∨
     ((∀ pos ds', ¬ library_match c pos ds') ∧ leftmost (executable_match (path_name c)) ds)).
Proof.
  unfold version_of, leftmost.
  assert (∀ ds, search python_library c = Some ds ↔ leftmost (library_match c) ds) as Hlib.
  { intros ds. apply (search_leftmost python_library (λ s, library_match s)). intros. apply library_match_pos. }
  assert (∀ ds, search python_executable (path_name c) = Some ds ↔ leftmost (executable_match (path_name c)) ds) as Hexe.
  { intros ds. apply (search_leftmost python_executable (λ s, executable_match s)). intros. apply executable_match_pos. }
  destruct (search python_library c) as [ds|] eqn:E.
  - assert (leftmost (library_match c) ds) as Hds by by apply Hlib. split.
    + intros [= <-]. exists ds. auto.
    + intros (ds' & -> & [H|[Hno _]]); cbn.
      * apply Hlib in H. congruence.
      * destruct Hds as (pos & Hm & _). by destruct (Hno pos ds).
  - assert (∀ pos ds', ¬ library_match c pos ds') as Hno.
    { intros pos ds' Hm%library_match_pos. rewrite search_none in E. by apply (E pos ds'). }
    split.
    + intros H. destruct (search python_executable (path_name c)) as [ds|]; [|done]. injection H as <-.
      exists ds. split; [done|]. right. split; [done|]. by apply Hexe.
    + intros (ds & -> & [(pos & Hm & _)|[_ H]]); [by destruct (Hno pos ds)|]. apply Hexe in H. by rewrite H.
Qed.

Example version_examples :
  omap version_of
    [lit "/usr/lib/x86_64-linux-gnu/libpython3.11.so.1.0"; lit "/usr/bin/python3.12 (deleted)";
     lit "/opt/python3.9/bin/tool"; lit "/lib/libpython3.10.a/libpython3.13d.so"; lit "[heap]"; lit "/usr/lib/libpython3.so"]
  = [(3, 11); (3, 12); (3, 10)].
Proof. vm_compute. reflexivity. Qed.

(** ** Detection *)

Section Detection.
Context `{Unicode} `{Interpreter} (procs : Z → Proc).

Lemma elem_of_versions names v : v ∈ versions_found names ↔ ∃ c, c ∈ names ∧ version_of c = Some v.
Proof. unfold versions_found. rewrite elem_of_list_to_set, list_elem_of_omap. naive_solver. Qed.

(** [version >= (3, 10)] *)
Definition supported (v : Z * Z) : Prop := 3 < v.1 ∨ v.1 = 3 ∧ 10 <= v.2.

Lemma pair_leb_supported v : pair_leb (3, 10) v = true ↔ supported v.
Proof.
  destruct v as [a b]. unfold pair_leb, lex_Z, supported. cbn [fst snd].
  destruct (Z.eqb_spec 3 a); rewrite ?Z.leb_le, ?Z.ltb_lt; lia.
Qed.

(** The one version all candidates name *)
Definition only_version (names : list str) (v : Z * Z) : Prop :=
  (∃ c, c ∈ names ∧ version_of c = Some v) ∧ ∀ c w, c ∈ names → version_of c = Some w → w = v.

Lemma only_version_elements names v : only_version names v ↔ elements (versions_found names) = [v].
Proof.
  split.
  - intros [Hex Hall]. replace (versions_found names) with ({[v]} : gset (Z * Z)); [apply elements_singleton|].
    apply set_eq. intros w. rewrite elem_of_singleton, elem_of_versions. naive_solver.
  - intros E. assert (∀ w, w ∈ versions_found names ↔ w = v) as Hv
      by (intros w; rewrite <- elem_of_elements, E; apply list_elem_of_singleton).
    setoid_rewrite elem_of_versions in Hv. split; [by apply Hv|]. intros c w Hc Hw. apply Hv. eauto.
Qed.

(** What is said when the files do not name one version *)
Definition not_unique (names : list str) (message : str) : Prop :=
  ∃ versions, NoDup versions ∧ StronglySorted (λ v w, v.1 < w.1 ∨ v.1 = w.1 ∧ v.2 <= w.2) versions ∧
    (∀ v, v ∈ versions ↔ ∃ c, c ∈ names ∧ version_of c = Some v) ∧
    length versions ≠ 1%nat ∧
    message = lit "cannot uniquely detect target CPython minor version; found "
              ++ match versions with [] => lit "none" | _ => join (lit ", ") (dotted <$> versions) end.

Lemma join_dotted_nil (vs : list (Z * Z)) : join (lit ", ") (dotted <$> vs) = [] ↔ vs = [].
Proof.
  split; [|by intros ->]. destruct vs as [|v vs]; [done|]. intros E. exfalso.
  assert (dotted v ≠ []) as Hne.
  { unfold dotted. change (lit ".") with [46]. by destruct (dec_string v.1). }
  destruct vs; cbn in E; [done|]. by apply app_nil in E as [? _].
Qed.

Lemma versions_sorted (l : list (Z * Z)) :
  StronglySorted (λ v w, v.1 < w.1 ∨ v.1 = w.1 ∧ v.2 <= w.2) (py_sort pair_leb l).
Proof.
  assert (∀ v w, pair_leb v w = true ↔ v.1 < w.1 ∨ v.1 = w.1 ∧ v.2 <= w.2) as Hle.
  { intros [a b] [c d]. unfold pair_leb, lex_Z. cbn [fst snd].
    destruct (Z.eqb_spec a c); rewrite ?Z.leb_le, ?Z.ltb_lt; lia. }
  assert (StronglySorted (λ v w, pair_leb v w = true) (py_sort pair_leb l)) as Hs.
  { apply py_sort_sorted. constructor; intros; rewrite !Hle in *; lia. }
  induction Hs as [|v vs Hs IH Hv]; constructor; [done|]. eapply Forall_impl; [exact Hv|]. intros w. apply Hle.
Qed.

Lemma detect_run pid names :
  candidates procs pid = Ok names →
  match detect_python_minor procs pid with
  | Ok v => only_version names v ∧ supported v
  | Err e =>
      (∃ v, only_version names v ∧ ¬ supported v ∧
         e = PydumpError (lit "CPython " ++ dotted v ++ lit " is unsupported; pydump requires 3.10+")) ∨
      (∃ message, e = PydumpError message ∧ not_unique names message)
  end.
Proof.
  intros Hc. unfold detect_python_minor. rewrite Hc. cbn [explain_permission mbind result_bind].
  pose proof (only_version_elements names) as Hv.
  assert (length (elements (versions_found names)) ≠ 1%nat → not_unique names
    (lit "cannot uniquely detect target CPython minor version; found "
     ++ let rendered := join (lit ", ") (dotted <$> py_sort pair_leb (elements (versions_found names))) in
        if bool_decide (rendered = []) then lit "none" else rendered)) as Hmany.
  { intros Hl. exists (py_sort pair_leb (elements (versions_found names))).
    assert (py_sort pair_leb (elements (versions_found names)) ≡ₚ elements (versions_found names)) as Hp
      by apply py_sort_perm.
    split; [rewrite Hp; apply NoDup_elements|]. split; [apply versions_sorted|].
    split; [intros v; by rewrite Hp, elem_of_elements, elem_of_versions|].
    split; [by rewrite Hp|]. f_equal. cbv zeta.
    pose proof (join_dotted_nil (py_sort pair_leb (elements (versions_found names)))) as Hnil.
    case_bool_decide as E; [by rewrite (proj1 Hnil E)|]. destruct (py_sort _ _); [by destruct E|done]. }
  destruct (elements (versions_found names)) as [|v [|w vs]] eqn:E.
  - right. eexists. split; [reflexivity|]. by apply Hmany.
  - destruct (pair_leb (3, 10) v) eqn:Hs.
    + split; [by apply Hv|by apply pair_leb_supported].
    + left. exists v. split; [by apply Hv|]. split; [rewrite <- pair_leb_supported; congruence|done].
  - right. eexists. split; [reflexivity|]. by apply Hmany.
Qed.

(** C32: version detection. When the executable link and the memory map of the
    process can be read, the detected version is the only one that the link and
    the files mapped name, if it is at least 3.10; an older one, several or none
    are a [PydumpError] that says so. Where the process may not be inspected the
    [PermissionError] becomes a [PydumpError] that names the process; every other
    error of reading passes: an [OSError], or the [UnicodeDecodeError] of a map
    with a file name that is no UTF-8. *)
Theorem detect_python_minor_correct pid :
  let failed (e : exc) := match e with
    | PermissionError _ => PydumpError (lit "cannot inspect process " ++ dec_string pid
                                        ++ lit "; try running as the target user or root")
    | _ => e
    end in
  match p_exe (procs pid), p_maps (procs pid) with
  | Err e, _ => detect_python_minor procs pid = Err (failed e)
  | Ok _, Err e => detect_python_minor procs pid = Err (failed e)
  | Ok exe, Ok maps =>
      match utf8_decode_strict maps with
      | None => detect_python_minor procs pid = Err UnicodeDecodeError
      | Some text =>
          let names := exe :: omap mapped_file (file_lines (universal_newlines text)) in
          (∀ v, detect_python_minor procs pid = Ok v ↔ only_version names v ∧ supported v) ∧
          ∀ e, detect_python_minor procs pid = Err e →
            (∃ v, only_version names v ∧ ¬ supported v ∧
               e = PydumpError (lit "CPython " ++ dotted v ++ lit " is unsupported; pydump requires 3.10+")) ∨
            (∃ message, e = PydumpError message ∧ not_unique names message)
      end
  end.
Proof.
  cbv zeta. assert (∀ e, candidates procs pid = Err e → detect_python_minor procs pid = Err (match e with
    | PermissionError _ => PydumpError (lit "cannot inspect process " ++ dec_string pid
                                        ++ lit "; try running as the target user or root")
    | _ => e end)) as Herr.
  { intros e He. unfold detect_python_minor. rewrite He. by destruct e. }
  unfold candidates, text_lines in Herr.
  destruct (p_exe (procs pid)) as [exe|e] eqn:Hexe; [|by apply Herr].
  destruct (p_maps (procs pid)) as [maps|e] eqn:Hmaps; [|by apply Herr].
  destruct (utf8_decode_strict maps) as [text|] eqn:Htext.
  2: { apply (Herr UnicodeDecodeError). cbn [mbind result_bind]. by rewrite Htext. }
  clear Herr. set (names := exe :: _).
  assert (candidates procs pid = Ok names) as Hc.
  { unfold candidates, text_lines. rewrite Hexe, Hmaps. cbn [mbind result_bind]. by rewrite Htext. }
  pose proof (detect_run pid names Hc) as Hd. split.
  - intros v. destruct (detect_python_minor procs pid) as [w|e].
    + destruct Hd as [H1 H2]. split; [by intros [= <-]|]. intros [Hv _].
      apply only_version_elements in H1, Hv. congruence.
    + split; [done|]. intros [Hv Hs]. exfalso. apply only_version_elements in Hv as Hvs.
      destruct Hd as [(w & Hw%only_version_elements & Hns & _)|(m & _ & versions & Hnd & _ & Hall & Hl & _)];
        [congruence|].
      assert (versions ≡ₚ elements (versions_found names)) as Hp.
      { apply NoDup_Permutation; [done|apply NoDup_elements|]. intros x. by rewrite Hall, elem_of_elements, elem_of_versions. }
      rewrite Hvs in Hp. apply Hl. by rewrite Hp.
  - intros e He. by rewrite He in Hd.
Qed.

(** *** The process *)

(** The lines of the status file say what the kernel promises: numbers behind
    [NStgid:]. *)
Definition status_readable (pid : Z) : Prop :=
  ∃ lines found, text_lines (p_status (procs pid)) = Ok lines ∧ namespace_field lines = Ok found.

Lemma pid_in_own_namespace_error pid e :
  status_readable pid → pid_in_own_namespace procs pid = Err e → is_PydumpError e = true.
Proof.
  intros (lines & found & Hl & Hf). unfold pid_in_own_namespace. rewrite Hl. cbn [mbind result_bind].
  rewrite Hf. cbn. destruct found; [done|]. by intros [= <-].
Qed.

(** A resolved target is a process that exists, with a positive PID, the
    number of its own PID namespace, and the only CPython version, 3.10 or newer,
    its files name. What goes wrong with a process that can be read is reported
    as a [PydumpError]. *)
Lemma resolve_target_correct which inspect pid :
  match resolve_target procs which inspect (Some pid) None with
  | Ok t =>
      host_pid t = pid ∧ 0 < pid ∧ p_exists (procs pid) = true ∧
      pid_in_own_namespace procs pid = Ok (namespace_pid t) ∧
      ∃ names, candidates procs pid = Ok names ∧ only_version names (python_minor t) ∧ supported (python_minor t)
  | Err e =>
      status_readable pid → is_ok (candidates procs pid) = true → is_PydumpError e = true
  end.
Proof.
  unfold resolve_target. cbn [mbind result_bind mret result_ret].
  destruct (Z.leb_spec pid 0) as [Hp|Hp]; [done|]. destruct (p_exists (procs pid)) eqn:He; [|done].
  destruct (pid_in_own_namespace procs pid) as [n|e] eqn:Hn; cbn [mbind result_bind].
  - destruct (candidates procs pid) as [names|e'] eqn:Hc.
    + pose proof (detect_run pid names Hc) as Hd.
      destruct (detect_python_minor procs pid) as [v|e]; cbn [mbind result_bind mret result_ret].
      * cbn [host_pid namespace_pid python_minor]. split_and!; try done. exists names. by destruct Hd.
      * by destruct Hd as [(? & _ & _ & ->)|(? & -> & _)].
    + unfold detect_python_minor. rewrite Hc. destruct e'; cbn; done.
  - intros Hr _. by apply (pid_in_own_namespace_error pid).
Qed.
End Detection.

(** ** Docker *)

Section Docker.
Context `{Unicode} `{Interpreter} (docker : str) (inspect : str → str → result exc Completed).

Abbreviation docker_pid := (docker_pid (Some docker) inspect).

(** The state of the first container in a document *)
Definition state_of (v : json_value) (state : list (str * json_value)) : Prop :=
  ∃ members more, v = JList (JObject members :: more) ∧ dict_get members (lit "State") = Some (JObject state).

Definition not_running (container : str) : exc :=
  PydumpError (lit "Docker container " ++ repr_str container ++ lit " is not running").
Definition unexpected_answer (container : str) : exc :=
  PydumpError (lit "docker inspect returned an unexpected result for " ++ repr_str container).

Lemma is_running_iff status : is_running status = true ↔ status = JString (lit "running").
Proof. destruct status; cbn; try done. rewrite bool_decide_eq_true. split; congruence. Qed.

(** Reading the PID out of the document: the PID, the status, or an error that
    is answered *)
Lemma container_pid_spec container output v :
  json_loads output = Ok v →
  match container_pid container output with
  | Ok n => ∃ state pid, state_of v state ∧ dict_get state (lit "Status") = Some (JString (lit "running")) ∧
      dict_get state (lit "Pid") = Some pid ∧ int_of_json pid = Ok n
  | Err e =>
      (e = not_running container ∧ ∃ state status, state_of v state ∧
         dict_get state (lit "Status") = Some status ∧ status ≠ JString (lit "running")) ∨
      (malformed e = true ∧ ∀ state, state_of v state → dict_get state (lit "Status") = None ∨
         dict_get state (lit "Status") = Some (JString (lit "running")) ∧
         ∀ pid, dict_get state (lit "Pid") = Some pid → int_of_json pid = Err e) ∨
      (e = OverflowError ∧ ∃ state negative, state_of v state ∧
         dict_get state (lit "Status") = Some (JString (lit "running")) ∧
         dict_get state (lit "Pid") = Some (JFloat (Infinity negative)))
  end.
Proof.
  intros Hj. unfold container_pid. rewrite Hj. cbn [mbind result_bind].
  assert (∀ e : exc, malformed e = true → (∀ state, ¬ state_of v state) →
    (malformed e = true ∧ ∀ state, state_of v state → dict_get state (lit "Status") = None ∨
         dict_get state (lit "Status") = Some (JString (lit "running")) ∧
         ∀ pid, dict_get state (lit "Pid") = Some pid → int_of_json pid = Err e)) as Hno.
  { intros e He Hn. split; [done|]. intros state Hst. by destruct (Hn state). }
  destruct (item_first v) as [first|e] eqn:Hf; cbn [mbind result_bind].
  2: { right. left. apply Hno; [destruct v as [| | | |[]|[]|]; cbn in Hf; try done; by injection Hf as <-|].
       intros state (members & more & -> & _). done. }
  destruct (item_named first (lit "State")) as [state|e] eqn:Hs; cbn [mbind result_bind].
  2: { right. left. apply Hno.
       - destruct first as [| | | | | |ms]; cbn in Hs; try by injection Hs as <-.
         destruct (dict_get ms (lit "State")); [done|]. by injection Hs as <-.
       - intros state (members & more & -> & Hget). injection Hf as <-. cbn [item_named] in Hs. by rewrite Hget in Hs. }
  assert (∀ st, state = JObject st → state_of v st) as Hst.
  { intros st ->. destruct v as [| | | |[]|[|w more]|]; cbn in Hf; try done; injection Hf as <-; try done.
    destruct w as [| | | | | |ms]; try done. cbn [item_named] in Hs. apply or_key_error_Ok in Hs. by exists ms, more. }
  assert (∀ st, state_of v st → state = JObject st) as Hts.
  { intros st (members & more & -> & Hget). injection Hf as <-. cbn [item_named] in Hs. rewrite Hget in Hs.
    by injection Hs as <-. }
  destruct (item_named state (lit "Status")) as [status|e] eqn:Hstat; cbn [mbind result_bind].
  2: { right. left. split.
       - destruct state as [| | | | | |ms]; cbn in Hstat; try by injection Hstat as <-.
         destruct (dict_get ms (lit "Status")); [done|]. by injection Hstat as <-.
       - intros st Hst'%Hts. subst state. cbn [item_named] in Hstat. left. by destruct (dict_get st (lit "Status")). }
  destruct state as [| | | | | |st]; cbn [item_named] in Hstat; try done. apply or_key_error_Ok in Hstat.
  specialize (Hst st eq_refl). destruct (is_running status) eqn:Hrun.
  2: { left. split; [done|]. exists st, status. split; [done|]. split; [done|]. intros Hr%is_running_iff. congruence. }
  apply is_running_iff in Hrun as ->. cbn [item_named].
  destruct (dict_get st (lit "Pid")) as [pid|] eqn:Hpid; cbn [or_key_error mbind result_bind].
  2: { right. left. split; [done|]. intros st' Ht%Hts. injection Ht as <-. right. split; [done|]. by rewrite Hpid. }
  destruct (int_of_json pid) as [n|e] eqn:Hint; [by exists st, pid|]. right.
  destruct (int_of_json_raises pid e Hint) as [He|[->| ->]].
  - left. split; [unfold malformed; by rewrite He|]. intros st' Ht%Hts. injection Ht as <-. right.
    split; [done|]. rewrite Hpid. by intros ? [= <-].
  - left. split; [done|]. intros st' Ht%Hts. injection Ht as <-. right. split; [done|]. rewrite Hpid. by intros ? [= <-].
  - right. split; [done|]. destruct pid as [|b|m|[neg m q|neg|]|t|l|ms]; cbn in Hint; try done; [|by destruct (int_of_str t)].
    by exists st, neg.
Qed.

(** C35: a container's process. [docker inspect] that cannot be run or times out
    passes its error on; one that fails is a [PydumpError] with its message. Of the
    document it prints, in whatever layout, only the state of the first entry
    counts: for a running container its PID, as [int] reads it, is the answer, and
    for any other status the answer is a [PydumpError] that says so. Everything
    else, text that is no JSON included, is a [PydumpError] for an unexpected
    result; but an infinite PID is an [OverflowError], and a document that nests
    too deep for the JSON parser a [RecursionError]. *)
Theorem docker_pid_correct container :
  match inspect docker container with
  | Err e => docker_pid container = Err e
  | Ok process =>
      if returncode process =? 0 then
        match json_loads (stdout process) with
        | Err e => docker_pid container
                   = Err (match e with RecursionError => RecursionError | _ => unexpected_answer container end)
        | Ok v =>
            (∀ state status, state_of v state → dict_get state (lit "Status") = Some status →
               (status = JString (lit "running") → ∀ pid n, dict_get state (lit "Pid") = Some pid →
                  int_of_json pid = Ok n → docker_pid container = Ok n) ∧
               (status ≠ JString (lit "running") → docker_pid container = Err (not_running container))) ∧
            (∀ n, docker_pid container = Ok n → ∃ state pid, state_of v state ∧
               dict_get state (lit "Status") = Some (JString (lit "running")) ∧
               dict_get state (lit "Pid") = Some pid ∧ int_of_json pid = Ok n) ∧
            (∀ e, docker_pid container = Err e →
               e = not_running container ∨ e = unexpected_answer container ∨
               e = OverflowError ∧ ∃ state negative, state_of v state ∧
                 dict_get state (lit "Pid") = Some (JFloat (Infinity negative)))
        end
      else docker_pid container
           = Err (PydumpError (lit "docker inspect " ++ repr_str container ++ lit " failed: " ++ strip (stderr process)))
  end.
Proof.
  unfold docker_pid. destruct (inspect docker container) as [process|e]; [|done]. cbn [mbind result_bind].
  destruct (Z.eqb_spec (returncode process) 0) as [Hz|Hz]; cbn [negb]; [|done].
  destruct (json_loads (stdout process)) as [v|e] eqn:Hj.
  2: { unfold container_pid. rewrite Hj. cbn [mbind result_bind].
       destruct (json_loads_raises _ e Hj) as [He|[-> _]]; [|done].
       assert (malformed e = true) as -> by (unfold malformed; by rewrite He). by destruct e. }
  pose proof (container_pid_spec container _ v Hj) as Hspec.
  assert (∀ s1 s2, state_of v s1 → state_of v s2 → s1 = s2) as Huniq.
  { intros s1 s2 (m1 & r1 & -> & H1) (m2 & r2 & [= <- <-] & H2). congruence. }
  destruct (container_pid container (stdout process)) as [n|e].
  - destruct Hspec as (st & pid & Hst & Hrun & Hpid & Hint). split_and!; [|by intros ? [= <-]; exists st, pid|done].
    intros st' status Hst' Hs. pose proof (Huniq _ _ Hst Hst') as <-. split; [|intros []; congruence].
    intros _ pid' n' Hp' Hn'. congruence.
  - destruct Hspec as [(-> & st & status & Hst & Hs & Hne)|[(Hm & Hall)|(-> & st & neg & Hst & Hrun & Hpid)]].
    + change (malformed (not_running container)) with false. cbv iota. split_and!; [|done|intros e [= <-]; by left].
      intros st' status' Hst' Hs'. pose proof (Huniq _ _ Hst Hst') as <-. split; [congruence|done].
    + rewrite Hm. split_and!; [|done|intros e' [= <-]; by right; left].
      intros st status Hst Hs. destruct (Hall st Hst) as [Hs'|[Hs' Hp]]; [congruence|]. split.
      * intros _ pid n Hpid Hint. rewrite (Hp pid Hpid) in Hint. done.
      * intros []. congruence.
    + change (malformed OverflowError) with false. cbv iota. split_and!; [|done|intros e [= <-]; right; right; eauto].
      intros st' status' Hst' Hs'. pose proof (Huniq _ _ Hst Hst') as <-. split; [|intros []; congruence].
      intros _ pid n Hp Hn. rewrite Hpid in Hp. injection Hp as <-. done.
Qed.
End Docker.

(** A document as [docker inspect] prints it *)
Definition inspected : str := quoted
"[
    {
        ~Id~: ~4f66ad9a0b2e~,
        ~State~: {
            ~Status~: ~running~,
            ~Running~: true,
            ~Pid~: 4711,
            ~StartedAt~: ~2026-08-13T12:00:00.5Z~
        },
        ~HostConfig~: { ~CpuShares~: 0.5 }
    }
]
".

#[local] Existing Instances ascii_only default_limits.

Lemma docker_pid_correct_witness :
  let inspect := λ _ _, Ok (mkCompleted 0 inspected []) in
  docker_pid (Some (lit "/usr/bin/docker")) inspect (lit "web") = Ok 4711.
Proof.
  cbv zeta. pose proof (docker_pid_correct (lit "/usr/bin/docker") (λ _ _, Ok (mkCompleted 0 inspected [])) (lit "web")) as H.
  cbn [returncode stdout] in H. change (0 =? 0) with true in H. cbv iota in H.
  destruct (json_loads inspected) as [v|e] eqn:E; [|vm_compute in E; discriminate].
  vm_compute in E. injection E as <-. destruct H as (Hrun & _).
  eapply Hrun; [eexists _, _; split; [reflexivity|vm_compute; reflexivity]|vm_compute; reflexivity|reflexivity
    |vm_compute; reflexivity|reflexivity].
Defined.

(** ** The Agent that fits *)

Lemma app_sep_inj (c : Z) (a b x y : str) : c ∉ a → c ∉ x → a ++ c :: b = x ++ c :: y → a = x ∧ b = y.
Proof.
  revert x. induction a as [|d a IH]; intros [|e x] Ha Hx E; cbn in E.
  - by injection E as ->.
  - injection E as -> _. by destruct Hx; left.
  - injection E as -> _. by destruct Ha; left.
  - injection E as -> E. apply not_elem_of_cons in Ha as [_ Ha], Hx as [_ Hx].
    by destruct (IH x Ha Hx E) as [-> ->].
Qed.

Lemma dec_string_chars n c : 0 <= n → c ∈ dec_string n → is_digit c = true.
Proof.
  intros Hn Hc. unfold dec_string in Hc. rewrite (proj2 (Z.ltb_ge _ _)) in Hc by done.
  destruct (format_nat_digits n Hn) as [Hd _]. by apply (proj1 (Forall_forall _ _) Hd).
Qed.

(** A version as the interpreter numbers them *)
Definition version_wf (v : Z * Z) : Prop := 0 <= v.1 ∧ 0 <= v.2.

Lemma dotted_chars v c : version_wf v → c ∈ dotted v → is_digit c = true ∨ c = 46.
Proof.
  intros [H1 H2]. unfold dotted. rewrite !elem_of_app. change (lit ".") with [46].
  rewrite list_elem_of_singleton. intros [Hc|[Hc|Hc]]; [|by right|]; apply dec_string_chars in Hc; auto.
Qed.

Lemma dotted_inj v w : version_wf v → version_wf w → dotted v = dotted w → v = w.
Proof.
  intros [Hv1 Hv2] [Hw1 Hw2] E. unfold dotted in E. change (lit ".") with [46] in E. cbn [app] in E.
  assert (∀ n, 0 <= n → 46 ∉ dec_string n) as Hno by (intros n Hn Hc; by apply dec_string_chars in Hc).
  apply app_sep_inj in E as [E1 E2]; [|by apply Hno|by apply Hno].
  apply dec_string_inj in E1, E2; try done. destruct v, w; cbn in *; congruence.
Qed.

Lemma contains_skip c p l s : Forall (λ d, d ≠ c) l → contains (c :: p) (l ++ s) = contains (c :: p) s.
Proof.
  induction 1 as [|d l Hd Hl IH]; [done|]. cbn [app contains starts_with].
  rewrite (proj2 (Z.eqb_neq c d)) by congruence. done.
Qed.

Lemma contains_prefix p q s : contains p s = false → contains (p ++ q) s = false.
Proof.
  intros Hp. destruct (contains (p ++ q) s) eqn:E; [|done]. apply contains_app in E as (pre & post & ->).
  rewrite (proj2 (contains_app p _)) in Hp; [done|]. exists pre, (q ++ post). by rewrite <- app_assoc.
Qed.

(** Which library names identify a version *)
Lemma agent_name_fits v w rest :
  version_wf v → version_wf w → contains (lit "agent-") rest = false →
  contains (lit "agent-" ++ dotted v ++ lit "-") (lit "pydump-agent-" ++ dotted w ++ lit "-" ++ rest)
  = bool_decide (v = w).
Proof.
  intros Hv Hw Hrest. change (lit "pydump-agent-") with (lit "pydump-" ++ 97 :: lit "gent-").
  change (lit "agent-") with (97 :: lit "gent-") in *. rewrite <- !app_assoc. cbn [app].
  rewrite contains_skip by (repeat (constructor; [done|]); constructor). cbn [contains].
  rewrite (app_assoc (lit "gent-") (dotted w)), (app_assoc _ (lit "-") rest), contains_skip.
  2:{ rewrite !Forall_app. split_and!; try (repeat (constructor; [done|]); constructor).
      apply Forall_forall. intros c Hc. apply (dotted_chars w c Hw) in Hc as [Hc| ->]; [|done]. by intros ->. }
  change (97 :: lit "gent-" ++ dotted v ++ lit "-") with ((97 :: lit "gent-") ++ (dotted v ++ lit "-")).
  rewrite (contains_prefix _ _ _ Hrest), orb_false_r.
  apply eq_true_iff_eq. rewrite bool_decide_eq_true, starts_with_app. change (lit "-") with [45].
  assert (∀ u, version_wf u → 45 ∉ dotted u) as Hdash
    by (intros u Hu Hc; apply (dotted_chars u) in Hc as [?|?]; done).
  split.
  - intros [t E]. rewrite <- !app_assoc in E. cbn [app] in E. injection E as E.
    apply app_sep_inj in E as [E _]; [|by apply Hdash|by apply Hdash]. symmetry in E. by apply dotted_inj in E.
  - intros ->. exists rest. by rewrite <- !app_assoc.
Qed.

(** A process whose name is no UTF-8 text: the exception is none of the program's. *)
Example undecodable_name :
  let proc := mkProc true (Ok (utf8_encode (lit "Name:	") ++ [xff; x0a] ++ utf8_encode (lit "NStgid:	9	1" ++ [10])))
                (Ok []) (Ok (lit "/usr/bin/python3.11")) (Ok []) in
  @resolve_target ascii_only default_limits (λ _, proc) None (λ _ _, Err KeyError) (Some 9) None = Err UnicodeDecodeError.
Proof. vm_compute. reflexivity. Qed.
