(* ===== verification/LoaderModel.v ===== *)
(** * Agent loaders: data and environment

    [capture/collector/src/pydump/loader/model.py], [environment.py] and
    [install.py].  The operating system is an interface: what its files say, and
    what the processes started on it do. *)
From stdpp Require Import base tactics numbers list gmap strings.
From Stdlib Require Import Strings.Byte.
From S2P Require Import Prelude PyData Struct Text StrOps Floats Paths Digest Errors Target.

(** ** The operating system *)

(** A command to run: its arguments, the content of the command file among them,
    the environment when it is not inherited, and the seconds it may take *)
Record Command := mkCommand {
  argv : list str;
  command_file : option str;
  env : option (dict str str);
  time_limit : float;
}.

(** [run] gives the finished process, or an [OSError] or [TimeoutExpired].
    Executables are named by the text of their paths. *)
Class OperatingSystem : Type := {
  platform : str;
  uname_machine : str;
  uname_release : str;
  procs : Z → Proc;
  environ : dict str str;
  which : str → option str;
  is_file : str → bool;
  access_x : str → bool;
  resolve : str → str;
  run_command : Command → result exc Completed;
}.

(** ** [model.py] *)

Inductive LoaderKind := AUTO | GDB | PTRACE.

#[export] Instance LoaderKind_eq_dec : EqDecision LoaderKind.
Proof. solve_decision. Defined.

(** [kind.value] *)
Definition kind_value (k : LoaderKind) : str :=
  match k with AUTO => lit "auto" | GDB => lit "gdb" | PTRACE => lit "ptrace" end.

Record LoadRequest := mkLoadRequest {
  target : Target;
  agent_target_path : str;
  socket_target_path : str;
  nonce : bytes;
  timeout : float;
}.

Record LoaderProbe := mkLoaderProbe { probe_kind : LoaderKind; available : bool; detail : str }.

(** The loaders, [GdbLoader] and [PydumpLoader] *)
Inductive AgentLoader :=
| GdbLoader (executable machine : str)
| PydumpLoader (executable : str).

Definition loader_kind (l : AgentLoader) : LoaderKind :=
  match l with GdbLoader _ _ => GDB | PydumpLoader _ => PTRACE end.

Definition loader_executable (l : AgentLoader) : str :=
  match l with GdbLoader e _ | PydumpLoader e => e end.

(** ** [environment.py] *)

Record TargetEnvironment := mkTargetEnvironment { machine : str; libc : str; kernel_release : str }.

Definition _ELF_MACHINE : dict Z str := [(62, lit "x86_64"); (183, lit "aarch64")].
Definition _MACHINE_ALIASES : dict str str := [(lit "amd64", lit "x86_64"); (lit "arm64", lit "aarch64")].

(** [bs[i]], for an index in range *)
Definition byte_at (i : nat) (bs : bytes) : Z := default 0 (byte_val <$> bs !! i).

(** [int.from_bytes(header[18:20], "little")] *)
Definition elf_machine (header : bytes) : Z := byte_at 18 header + 256 * byte_at 19 header.

Definition _parse_machine (pid : Z) (header : bytes) : result exc str :=
  if (blen header <? 20) || bool_decide (take 4 header ≠ [x7f; x45; x4c; x46]) then
    Err (PydumpError (lit "target process " ++ dec_string pid ++ lit " executable is not an ELF binary"))
  else if negb (byte_at 4 header =? 2) || negb (byte_at 5 header =? 1) then
    Err (PydumpError (lit "target process " ++ dec_string pid ++ lit " must use a little-endian 64-bit ELF executable"))
  else
    match dict_get _ELF_MACHINE (elf_machine header) with
    | None => Err (PydumpError (lit "target process " ++ dec_string pid ++ lit " uses an unsupported ELF architecture"))
    | Some machine => mret machine
    end.

Definition _classify_libc (maps : str) : str :=
  if contains (lit "ld-musl-") maps || contains (lit "libc.musl-") maps then lit "musl"
  else if contains (lit "libc.so.6") maps || contains (lit "ld-linux-") maps then lit "glibc"
  else lit "unknown libc".

(** [except OSError as error: raise PydumpError(f"{message}: {error}") from error] *)
Definition explain_os_error {A} (message : str) (r : result exc A) : result exc A :=
  match r with
  | Err e => if is_OSError e then Err (PydumpError (message ++ lit ": " ++ exc_text e)) else Err e
  | _ => r
  end.

Section Environment.
Context `{OperatingSystem}.

Definition _target_machine (pid : Z) : result exc str :=
  header ← explain_os_error (lit "cannot read executable for target process " ++ dec_string pid) (p_header (procs pid));
  _parse_machine pid (take 20 header).

Definition _target_libc (pid : Z) : result exc str :=
  maps ← explain_os_error (lit "cannot inspect libc for target process " ++ dec_string pid) (p_maps (procs pid));
  mret (_classify_libc (universal_newlines (utf8_decode_replace maps))).

Definition host_machine : str := default uname_machine (dict_get _MACHINE_ALIASES uname_machine).

Definition inspect_target_environment (t : Target) : result exc TargetEnvironment :=
  if bool_decide (platform ≠ lit "linux") then
    Err (PydumpError (lit "live capture loaders are supported only on Linux"))
  else
    machine ← _target_machine (host_pid t);
    if bool_decide (machine ≠ host_machine) then
      Err (PydumpError (lit "target process " ++ dec_string (host_pid t) ++ lit " is " ++ machine
                        ++ lit ", but the Collector is " ++ host_machine
                        ++ lit "; loaders must run on the target architecture"))
    else
      libc ← _target_libc (host_pid t);
      if bool_decide (libc ≠ lit "glibc") then
        Err (PydumpError (lit "target process " ++ dec_string (host_pid t) ++ lit " uses " ++ libc
                          ++ lit "; pydump loaders currently require glibc"))
      else mret (mkTargetEnvironment machine libc uname_release).
End Environment.

(** ** [install.py] *)

(** How copying goes: to the end, or to an [OSError] after some bytes *)
Inductive copying := Copies | Stops (written : nat) (reason : str).

(** The name of the library in the target's [/tmp], without its suffix *)
Definition agent_stem (contents : bytes) : str :=
  lit "pydump-agent-" ++ py_prefix 16 (bytes_hex (sha256 contents)).

Definition host_library (t : Target) (contents : bytes) : Path := (root t ++ lit "/tmp", agent_stem contents ++ lit ".so").
Definition partial_library (t : Target) (contents : bytes) : Path :=
  (root t ++ lit "/tmp", agent_stem contents ++ lit ".partial").

(** [install_agent(target, source)]: the library's host path and target path *)
Definition install_agent (c : copying) (t : Target) (source : Path) : M Files exc (Path * str) := λ files,
  match files !! source with
  | None => (Err (OSError (lit "No such file or directory")), files)
  | Some contents =>
      let target_path := lit "/tmp/" ++ agent_stem contents ++ lit ".so" in
      let host_path := host_library t contents in
      let temporary := partial_library t contents in
      match files !! host_path with
      | Some _ => (Ok (host_path, target_path), files)
      | None =>
          match c with
          | Copies => (Ok (host_path, target_path), <[host_path := contents]> (delete temporary files))
          | Stops n reason => (Err (OSError reason), <[temporary := take n contents]> files)
          end
      end
  end.
