(* ===== verification/Loader.v ===== *)
(** * Agent loaders

    [capture/collector/src/pydump/loader/ptrace.py], [gdb.py] and [selection.py]:
    the commands and the GDB script that start the Agent, how their outcome is
    read, the probes, and the choice between the two loaders. *)
From stdpp Require Import base tactics numbers list gmap strings.
From Stdlib Require Import Strings.Byte.
From S2P Require Import Prelude PyData Struct Text StrOps Floats Paths Errors Target LoaderModel.

Definition _AGENT_STARTED_MARKER : str := lit "PYDUMP_AGENT_STARTED=0".

(** [marker in {line.strip() for line in output.splitlines()}] *)
Definition has_line (marker output : str) : bool :=
  existsb (λ line, bool_decide (strip line = marker)) (splitlines output).

(** ** [ptrace.py] *)

Module Ptrace.
Section Ptrace.
Context `{OperatingSystem}.

Definition _BUNDLED_NAMES : dict str str :=
  [(lit "x86_64", lit "pydump-loader-linux-x86_64"); (lit "aarch64", lit "pydump-loader-linux-aarch64")].

Definition command (executable : str) (request : LoadRequest) : Command :=
  mkCommand
    [executable; lit "--pid"; dec_string (host_pid (target request)); lit "--agent"; agent_target_path request;
     lit "--socket"; socket_target_path request; lit "--nonce"; bytes_hex (nonce request);
     lit "--timeout"; format_general (timeout request) ++ lit "s"]
    None None (float_add (timeout request) (float_of_Z 2)).

(** [PydumpLoader.start] *)
Definition start (executable : str) (request : LoadRequest) : result exc unit :=
  let pid := dec_string (host_pid (target request)) in
  match run_command (command executable request) with
  | Err (TimeoutExpired _) =>
      Err (PydumpError (lit "pydump-loader for PID " ++ pid ++ lit " timed out after " ++ format_general (timeout request) ++ lit "s"))
  | Err e => Err e
  | Ok process =>
      let output := strip (stdout process) in
      if negb (returncode process =? 0) then
        let detail := if bool_decide (output = []) then lit "pydump-loader returned no diagnostic" else output in
        Err (PydumpError (lit "pydump-loader failed for PID " ++ pid ++ lit " with code "
                          ++ dec_string (returncode process) ++ lit ": " ++ detail))
      else if has_line _AGENT_STARTED_MARKER output then mret tt
      else Err (PydumpError (lit "pydump-loader did not confirm Agent start for PID " ++ pid
                             ++ if bool_decide (output = []) then [] else lit ": " ++ output))
  end.

(** [package] is the directory of the loader package. *)
Definition candidate (package machine : str) (executable : option str) : LoaderProbe + option str :=
  match executable with
  | Some path => inr (Some path)
  | None =>
      match dict_get environ (lit "PYDUMP_LOADER") with
      | Some (c :: configured) => inr (Some (path_text (c :: configured)))
      | _ =>
          match dict_get _BUNDLED_NAMES machine with
          | None => inl (mkLoaderProbe PTRACE false (lit "unsupported architecture " ++ machine))
          | Some name =>
              let bundled := package ++ lit "/bin/" ++ name in
              inr (if is_file bundled then Some bundled else None)
          end
      end
  end.

Definition probe (package machine : str) (executable : option str) : LoaderProbe * option AgentLoader :=
  match candidate package machine executable with
  | inl failed => (failed, None)
  | inr None => (mkLoaderProbe PTRACE false (lit "no bundled pydump-loader"), None)
  | inr (Some candidate) =>
      if negb (is_file candidate) then (mkLoaderProbe PTRACE false (candidate ++ lit " does not exist"), None)
      else if negb (access_x candidate) then
        (mkLoaderProbe PTRACE false (candidate ++ lit " is not executable"), None)
      else
        let resolved := resolve candidate in
        (mkLoaderProbe PTRACE true resolved, Some (PydumpLoader resolved))
  end.
End Ptrace.
End Ptrace.

(** ** [gdb.py] *)

Module Gdb.
(** The helper process as the probe sees it: whether it writes a line in time and
    which, and what waiting for it gives, the first time and after [kill]. *)
Record Helper := mkHelper {
  h_pid : Z;
  h_ready : bool;
  h_line : str;
  h_communicate : result exc str * result exc str;
  h_wait : result exc unit * result exc unit;
}.

(** What is done to it *)
Inductive signal := Terminate | Kill | Reaped.
Abbreviation P := (M (list signal) exc).

Definition act (a : signal) : P unit := modify (λ log, log ++ [a]).

Section Gdb.
Context `{OperatingSystem}.

Definition _FIRST_ARGUMENT_REGISTER : dict str str := [(lit "x86_64", lit "$rdi"); (lit "aarch64", lit "$x0")].
Definition _PROBE_TIMEOUT_SECONDS : Z := 10.
Definition _PROBE_OK_MARKER : str := lit "PYDUMP_GDB_INFERIOR_CALL_OK".

(** [value.replace("\\", "\\\\").replace('"', '\\"')] *)
Definition _gdb_string (value : str) : str := replace [34] [92; 34] (replace [92] [92; 92] value).

Definition script_lines (register : str) (request : LoadRequest) : list str :=
  [lit "set debuginfod enabled off";
   lit "set unwindonsignal on";
   lit "set scheduler-locking off";
   lit "set architecture auto";
   lit "tbreak PyCallable_Check if " ++ register ++ lit " == 0";
   lit "set $pydump_pending=(int)Py_AddPendingCall((int (*)(void *))PyCallable_Check, (void *)0)";
   lit "if $pydump_pending != 0";
   quoted "  printf ~PYDUMP_PENDING_CALL_FAILED: %d\n~, $pydump_pending";
   lit "  quit 80";
   lit "end";
   lit "continue";
   quoted "set $pydump_agent=(void*)dlopen(~" ++ _gdb_string (agent_target_path request) ++ quoted "~, 2)";
   lit "if $pydump_agent == 0";
   quoted "  printf ~PYDUMP_DLOPEN_FAILED: %s\n~, (char*)dlerror()";
   lit "  quit 81";
   lit "end";
   quoted "set $pydump_start=(void*)dlsym($pydump_agent, ~pydump_start~)";
   lit "if $pydump_start == 0";
   quoted "  printf ~PYDUMP_DLSYM_FAILED: %s\n~, (char*)dlerror()";
   lit "  quit 82";
   lit "end";
   quoted "set $pydump_rc=(int)((int (*)(char*, char*))$pydump_start)(~" ++ _gdb_string (socket_target_path request)
     ++ quoted "~, ~" ++ bytes_hex (nonce request) ++ quoted "~)";
   quoted "printf ~PYDUMP_AGENT_STARTED=%d\n~, $pydump_rc";
   lit "if $pydump_rc != 0";
   quoted "  printf ~PYDUMP_START_FAILED: %d\n~, $pydump_rc";
   lit "  quit 83";
   lit "end";
   lit "detach";
   lit "quit"].

Definition script (register : str) (request : LoadRequest) : str := join [10] (script_lines register request).

Definition command_prefix (executable : str) (request : LoadRequest) : list str :=
  let pid := dec_string (host_pid (target request)) in
  [executable; lit "--batch"; lit "--nx"; lit "--nw"; lit "--readnow"; lit "-iex";
   lit "set sysroot /proc/" ++ pid ++ lit "/root"; lit "-p"; pid].

(** [_gdb_environment()] *)
Definition _gdb_environment : dict str str :=
  filter (λ e, e.1 ≠ lit "PYTHONIOENCODING" ∧ e.1 ≠ lit "PYTHONPATH") environ.

Definition is_failure_line (line : str) : bool :=
  contains (lit "extended state status") line || contains (lit "gdb.error:") line
  || (contains (lit "PYDUMP_") line && contains (lit "FAILED") line).

Definition _gdb_failure_detail (output fallback : str) : str :=
  match List.find is_failure_line (splitlines output) with Some line => strip line | None => fallback end.

(** [shlex.join] *)
Definition is_shell_safe (c : Z) : bool :=
  is_digit c || ((65 <=? c) && (c <=? 90)) || ((97 <=? c) && (c <=? 122))
  || existsb (λ d, c =? d) (lit "_@%+=:,./-").

Definition shlex_quote (s : str) : str :=
  match s with
  | [] => lit "''"
  | _ => if forallb is_shell_safe s then s else lit "'" ++ replace (lit "'") (quoted "'~'~'") s ++ lit "'"
  end.

Definition shlex_join (words : list str) : str := join (lit " ") (shlex_quote <$> words).

(** [GdbLoader.start]; [temporary] is the name of the command file. *)
Definition start (temporary executable machine : str) (request : LoadRequest) : result exc unit :=
  let pid := dec_string (host_pid (target request)) in
  argument_register ← or_key_error (dict_get _FIRST_ARGUMENT_REGISTER machine);
  let prefix := command_prefix executable request in
  match run_command (mkCommand (prefix ++ [lit "-x"; temporary])
                       (Some (script argument_register request ++ [10])) (Some _gdb_environment)
                       (timeout request)) with
  | Err (TimeoutExpired _) =>
      Err (PydumpError (lit "GDB loader for PID " ++ pid ++ lit " timed out after " ++ format_general (timeout request) ++ lit "s"))
  | Err e => Err e
  | Ok process =>
      let output := strip (stdout process) in
      if negb (returncode process =? 0) then
        Err (PydumpError (lit "GDB loader failed for PID " ++ pid ++ lit " with code "
                          ++ dec_string (returncode process) ++ lit ": "
                          ++ _gdb_failure_detail output (lit "GDB returned no diagnostic") ++ [10]
                          ++ lit "Command: " ++ shlex_join (prefix ++ [lit "-x"; lit "<temporary-command-file>"])
                          ++ [10; 10] ++ lit "GDB output:" ++ [10] ++ output))
      else if has_line _AGENT_STARTED_MARKER output then mret tt
      else Err (PydumpError (lit "GDB loader did not confirm Agent start for PID " ++ pid ++ lit ": "
                             ++ _gdb_failure_detail output (lit "GDB returned no Agent start marker")
                             ++ if bool_decide (output = []) then [] else [10; 10] ++ lit "GDB output:" ++ [10] ++ output))
  end.

(** *** The disposable inferior *)

(** [helper.communicate] and [helper.wait] reap the process when they return. *)
Definition reaping {A} (r : result exc A) : P A := a ← lift r; act Reaped;; mret a.

Definition _helper_failure (helper : Helper) : P str :=
  act Terminate;;
  text ← match (h_communicate helper).1 with
         | Err (TimeoutExpired _) => act Kill;; reaping (h_communicate helper).2
         | r => reaping r
         end;
  mret (match last (splitlines (strip text)) with
        | Some line => line
        | None => lit "disposable Python helper did not become ready"
        end).

Definition probe_script : str :=
  join [10]
    [lit "set scheduler-locking off";
     lit "set $pydump_probe=(int)Py_AddPendingCall((int (*)(void *))PyCallable_Check, (void *)0)";
     quoted "printf ~" ++ _PROBE_OK_MARKER ++ quoted "=%d\n~, $pydump_probe";
     lit "detach";
     lit "quit"].

Definition inferior_call (temporary executable : str) (helper : Helper) : result exc (option str) :=
  match run_command (mkCommand [executable; lit "--batch"; lit "--nx"; lit "--nw"; lit "--readnow"; lit "-p";
                                dec_string (h_pid helper); lit "-x"; temporary]
                       (Some (probe_script ++ [10])) (Some _gdb_environment) (float_of_Z _PROBE_TIMEOUT_SECONDS)) with
  | Err (TimeoutExpired _) => mret (Some (lit "timed out after " ++ dec_string _PROBE_TIMEOUT_SECONDS ++ lit "s"))
  | Err e => Err e
  | Ok process =>
      mret (if negb (returncode process =? 0) then
              Some (_gdb_failure_detail (stdout process) (lit "exited with code " ++ dec_string (returncode process)))
            else if has_line (_PROBE_OK_MARKER ++ lit "=0") (stdout process) then None
            else Some (lit "GDB returned no successful inferior-call marker"))
  end.

Definition _probe_disposable_inferior (temporary executable : str) (helper : Helper) : P (option str) :=
  finally
    (if negb (h_ready helper) || bool_decide (strip (h_line helper) ≠ lit "PYDUMP_GDB_PROBE_READY")
     then detail ← _helper_failure helper; mret (Some detail)
     else lift (inferior_call temporary executable helper))
    (act Terminate;;
     match (h_wait helper).1 with
     | Err (TimeoutExpired _) => act Kill;; reaping (h_wait helper).2
     | r => reaping r
     end).

(** *** The probe *)

Definition candidate (executable : option str) : option str :=
  match executable with
  | Some path => Some path
  | None =>
      match dict_get environ (lit "PYDUMP_GDB") with
      | Some (c :: configured) => Some (path_text (c :: configured))
      | _ => path_text <$> which (lit "gdb")
      end
  end.

Definition unavailable (detail : str) : LoaderProbe * option AgentLoader := (mkLoaderProbe GDB false detail, None).

(** [probe_gdb_loader] *)
Definition probe (temporary : str) (helper : Helper) (executable : option str) (machine : str)
  : P (LoaderProbe * option AgentLoader) :=
  match dict_get _FIRST_ARGUMENT_REGISTER machine with
  | None => mret (unavailable (lit "unsupported architecture " ++ machine))
  | Some _ =>
      match candidate executable with
      | None => mret (unavailable (lit "gdb executable was not found"))
      | Some candidate =>
          if negb (is_file candidate) || negb (access_x candidate) then
            mret (unavailable (candidate ++ lit " is not executable"))
          else
            let resolved := resolve candidate in
            match run_command (mkCommand [resolved; lit "--batch"; lit "--nx"; lit "--version"] None None (float_of_Z 5)) with
            | Err e =>
                if is_OSError e || match e with TimeoutExpired _ => true | _ => false end
                then mret (unavailable (lit "gdb probe failed: " ++ exc_text e))
                else raise e
            | Ok process =>
                if negb (returncode process =? 0) then
                  mret (unavailable (lit "gdb probe exited with code " ++ dec_string (returncode process)))
                else
                  inferior_error ← _probe_disposable_inferior temporary resolved helper;
                  mret (match inferior_error with
                        | Some error => unavailable (lit "gdb disposable inferior call failed: " ++ error)
                        | None => (mkLoaderProbe GDB true resolved, Some (GdbLoader resolved machine))
                        end)
            end
      end
  end.
End Gdb.
End Gdb.

(** ** [selection.py] *)

Section Selection.
Context `{OperatingSystem} (package temporary : str) (helper : Gdb.Helper).

(** [loader.start(request)] *)
Definition loader_start (l : AgentLoader) (request : LoadRequest) : result exc unit :=
  match l with
  | GdbLoader executable machine => Gdb.start temporary executable machine request
  | PydumpLoader executable => Ptrace.start executable request
  end.

(** A probe with its loader, when there is one to return *)
Definition usable (p : LoaderProbe * option AgentLoader) : option AgentLoader :=
  if available p.1 then p.2 else None.

Definition probe_detail (p : LoaderProbe * option AgentLoader) : str :=
  kind_value (probe_kind p.1) ++ lit ": " ++ detail p.1.

Definition no_loader (t : Target) (environment : TargetEnvironment) (kind : LoaderKind) : str :=
  lit "no usable " ++ kind_value kind ++ lit " loader for PID " ++ dec_string (host_pid t)
  ++ lit " (" ++ machine environment ++ lit ", " ++ libc environment ++ lit ", kernel " ++ kernel_release environment
  ++ lit "): ".

(** The second half: the other loader's probe, and the error that lists all *)
Definition select_ptrace (t : Target) (environment : TargetEnvironment) (kind : LoaderKind)
    (pydump_loader : option str) (probes : list (LoaderProbe * option AgentLoader)) : Gdb.P AgentLoader :=
  let ptrace_probe := if bool_decide (kind ≠ GDB)
                      then Some (Ptrace.probe package (machine environment) pydump_loader) else None in
  match ptrace_probe ≫= usable with
  | Some loader => mret loader
  | None =>
      let detail := join (lit "; ") (probe_detail <$> probes ++ option_list ptrace_probe) in
      raise (PydumpError (no_loader t environment kind ++ detail))
  end.

(** The probes, in order, until one gives a loader *)
Definition select_from (t : Target) (environment : TargetEnvironment) (kind : LoaderKind)
    (gdb pydump_loader : option str) : Gdb.P AgentLoader :=
  if bool_decide (kind ≠ PTRACE) then
    gdb_probe ← Gdb.probe temporary helper gdb (machine environment);
    match usable gdb_probe with
    | Some loader => mret loader
    | None => select_ptrace t environment kind pydump_loader [gdb_probe]
    end
  else select_ptrace t environment kind pydump_loader [].

Definition select_loader (t : Target) (kind : LoaderKind) (gdb pydump_loader : option str) : Gdb.P AgentLoader :=
  environment ← lift (inspect_target_environment t);
  select_from t environment kind gdb pydump_loader.
End Selection.
