(* ===== verification/Loaders.v ===== *)
(** * Agent loaders: properties

    The GDB script quotes what it is given, a loader succeeds exactly when the
    Agent confirmed its start, the probe leaves no helper behind, the choice
    between the loaders, the environment check and the installation. *)
From stdpp Require Import base tactics numbers list gmap strings.
From Stdlib Require Import Strings.Byte.
From S2P Require Import Prelude PyData Struct Text StrOps Floats Paths Digest Errors Target LoaderModel Loader.

(** ** The GDB script *)

(** Replacing one character is a map. *)
Lemma replace_char (c : Z) new s : replace [c] new s = s ≫= λ d, if d =? c then new else [d].
Proof.
  unfold replace. induction s as [|d s IH]; [done|]. cbn [replace_from starts_with length Nat.sub].
  rewrite andb_true_r, IH, (Z.eqb_sym c d). cbn. by destruct (d =? c).
Qed.

Definition escape_c (c : Z) : str :=
  if c =? 92 then [92; 92] else if c =? 34 then [92; 34] else [c].

(** A string literal as GDB's expression parser reads it, after the opening
    quote: its characters and what follows the closing quote. A line ends it. *)
Fixpoint c_literal (s : str) : option (str * str) :=
  match s with
  | [] => None
  | c :: s' =>
      if c =? 34 then Some ([], s')
      else if c =? 10 then None
      else if c =? 92 then
        match s' with
        | d :: s'' => if (d =? 92) || (d =? 34) then prod_map (cons d) id <$> c_literal s'' else None
        | [] => None
        end
      else prod_map (cons c) id <$> c_literal s'
  end.

Lemma gdb_string_cons c s : Gdb._gdb_string (c :: s) = escape_c c ++ Gdb._gdb_string s.
Proof.
  unfold Gdb._gdb_string. rewrite !replace_char. unfold escape_c. cbn.
  destruct (Z.eqb_spec c 92) as [->|Hc]; [done|]. cbn. by destruct (c =? 34).
Qed.

Lemma c_literal_gdb_string value rest :
  10 ∉ value → c_literal (Gdb._gdb_string value ++ 34 :: rest) = Some (value, rest).
Proof.
  induction value as [|c value IH]; intros Hn; [done|]. apply not_elem_of_cons in Hn as [Hc Hn].
  rewrite gdb_string_cons, <- app_assoc. unfold escape_c.
  destruct (Z.eqb_spec c 92) as [->|H92]; [cbn; by rewrite IH|].
  destruct (Z.eqb_spec c 34) as [->|H34]; [cbn; by rewrite IH|].
  cbn [app c_literal]. rewrite (proj2 (Z.eqb_neq _ _) H34), (proj2 (Z.eqb_neq c 10)) by congruence.
  rewrite (proj2 (Z.eqb_neq _ _) H92), IH by done. done.
Qed.

(** Lines without line feeds are found again in the joined text. *)
Lemma split_char_from_app c part l s :
  c ∉ l → split_char_from c part (l ++ c :: s) = (reverse part ++ l) :: split_char c s.
Proof.
  revert part. induction l as [|d l IH]; intros part Hl; cbn [app split_char_from].
  - rewrite Z.eqb_refl. by rewrite app_nil_r.
  - apply not_elem_of_cons in Hl as [Hd Hl]. rewrite (proj2 (Z.eqb_neq d c)) by congruence.
    rewrite IH by done. by rewrite reverse_cons, <- app_assoc.
Qed.

Lemma split_char_from_end c part l : c ∉ l → split_char_from c part l = [reverse part ++ l].
Proof.
  revert part. induction l as [|d l IH]; intros part Hl; cbn [split_char_from]; [by rewrite app_nil_r|].
  apply not_elem_of_cons in Hl as [Hd Hl]. rewrite (proj2 (Z.eqb_neq d c)) by congruence.
  rewrite IH by done. by rewrite reverse_cons, <- app_assoc.
Qed.

Lemma split_join c lines :
  lines ≠ [] → Forall (λ l, c ∉ l) lines → split_char c (join [c] lines) = lines.
Proof.
  intros Hne Hl. unfold split_char. induction Hl as [|l lines Hl Hls IH]; [done|]. cbn [join].
  destruct lines as [|l' lines]; [by rewrite split_char_from_end|].
  cbn [app]. rewrite split_char_from_app by done. cbn [reverse rev_append app]. f_equal. by apply IH.
Qed.

Definition one_line (s : str) : bool := forallb (λ c, negb (c =? 10)) s.

Lemma one_line_spec s : one_line s = true ↔ 10 ∉ s.
Proof.
  unfold one_line. induction s as [|c s IH]; [split; [by intros _ ?%elem_of_nil|done]|]. cbn. rewrite andb_true_iff, IH, not_elem_of_cons.
  rewrite negb_true_iff, Z.eqb_neq. naive_solver.
Qed.

Lemma one_line_app s t : one_line (s ++ t) = one_line s && one_line t.
Proof. apply forallb_app. Qed.

Lemma one_line_gdb_string s : one_line s = true → one_line (Gdb._gdb_string s) = true.
Proof.
  induction s as [|c s IH]; [done|]. rewrite gdb_string_cons, one_line_app. cbn [one_line forallb].
  intros [Hc Hs]%andb_true_iff. rewrite (IH Hs), andb_true_r. unfold escape_c. do 2 (case_match; [done|]).
  cbn. by rewrite Hc.
Qed.

Lemma one_line_hex bs : one_line (bytes_hex bs) = true.
Proof.
  induction bs as [|b bs IH]; [done|].
  change (bytes_hex (b :: bs)) with ([hex_digit (byte_val b / 16); hex_digit (byte_val b mod 16)] ++ bytes_hex bs).
  rewrite one_line_app, IH, andb_true_r. unfold one_line, hex_digit. cbn [forallb].
  pose proof (byte_val_range b). pose proof (Z.div_pos (byte_val b) 16). pose proof (Z.mod_pos_bound (byte_val b) 16).
  destruct (Z.ltb_spec (byte_val b / 16) 10), (Z.ltb_spec (byte_val b mod 16) 10); lia.
Qed.

(** C18: the GDB script is what it is meant to be, whatever the paths are, as
    long as they hold no line feed: GDB reads exactly the 29 commands of the
    source, and in the calls of [dlopen] and [pydump_start] exactly the Agent's
    path, the socket's path and the nonce: quotes and backslashes in a path
    cannot end its literal. *)
Theorem gdb_script_safe register request :
  one_line register = true → one_line (agent_target_path request) = true →
  one_line (socket_target_path request) = true →
  split_char 10 (Gdb.script register request) = Gdb.script_lines register request ∧
  length (Gdb.script_lines register request) = 29%nat ∧
  (∃ argument, Gdb.script_lines register request !! 11%nat
               = Some (quoted "set $pydump_agent=(void*)dlopen(~" ++ argument) ∧
     c_literal argument = Some (agent_target_path request, lit ", 2)")) ∧
  (∃ arguments, Gdb.script_lines register request !! 21%nat
                = Some (quoted "set $pydump_rc=(int)((int (*)(char*, char*))$pydump_start)(~" ++ arguments) ∧
     c_literal arguments = Some (socket_target_path request, quoted ", ~" ++ bytes_hex (nonce request) ++ quoted "~)")).
Proof.
  intros Hr Ha Hs. split_and!.
  - apply split_join; [done|].
    assert (Forall (λ l, one_line l = true) (Gdb.script_lines register request)) as Hl.
    { unfold Gdb.script_lines. repeat (constructor; [|]); try constructor; try reflexivity.
      - rewrite !one_line_app, Hr. reflexivity.
      - rewrite !one_line_app, one_line_gdb_string by done. reflexivity.
      - rewrite !one_line_app, one_line_gdb_string, one_line_hex by done. reflexivity. }
    eapply Forall_impl; [exact Hl|]. intros l. apply one_line_spec.
  - reflexivity.
  - eexists. split; [reflexivity|]. change (quoted "~, 2)") with (34 :: lit ", 2)").
    apply c_literal_gdb_string. by apply one_line_spec.
  - eexists. split; [reflexivity|].
    change (quoted "~, ~" ++ ?h) with (34 :: (quoted ", ~" ++ h)).
    apply c_literal_gdb_string. by apply one_line_spec.
Qed.

(** ** Starting the Agent *)

Section Properties.
Context `{OperatingSystem}.

Definition start_command (temporary : str) (l : AgentLoader) (request : LoadRequest) : Command :=
  match l with
  | GdbLoader executable machine =>
      mkCommand (Gdb.command_prefix executable request ++ [lit "-x"; temporary])
        (Some (Gdb.script (default [] (dict_get Gdb._FIRST_ARGUMENT_REGISTER machine)) request ++ [10]))
        (Some Gdb._gdb_environment) (timeout request)
  | PydumpLoader executable => Ptrace.command executable request
  end.

(** The loaders [probe_gdb_loader] makes have a machine they know. *)
Definition loader_known (l : AgentLoader) : Prop :=
  match l with GdbLoader _ machine => is_Some (dict_get Gdb._FIRST_ARGUMENT_REGISTER machine) | PydumpLoader _ => True end.

(** The Agent confirmed: a line that says so, and nothing went wrong *)
Definition confirmed (process : Completed) : Prop :=
  returncode process = 0 ∧ ∃ line, line ∈ splitlines (strip (stdout process)) ∧ strip line = _AGENT_STARTED_MARKER.

Lemma has_line_spec marker output :
  has_line marker output = true ↔ ∃ line, line ∈ splitlines output ∧ strip line = marker.
Proof.
  unfold has_line. rewrite existsb_exists. setoid_rewrite bool_decide_eq_true.
  by setoid_rewrite list_elem_of_In.
Qed.

Definition loader_name (l : AgentLoader) : str :=
  match l with GdbLoader _ _ => lit "GDB loader" | PydumpLoader _ => lit "pydump-loader" end.

(** How a finished or unfinished run is read, by either loader *)
Lemma start_outcome temporary l request :
  loader_known l →
  let pid := dec_string (host_pid (target request)) in
  match run_command (start_command temporary l request) with
  | Ok process =>
      if returncode process =? 0 then
        if has_line _AGENT_STARTED_MARKER (strip (stdout process))
        then loader_start temporary l request = Ok tt
        else ∃ detail, loader_start temporary l request
          = Err (PydumpError (loader_name l ++ lit " did not confirm Agent start for PID " ++ pid ++ detail))
      else ∃ detail, loader_start temporary l request
        = Err (PydumpError (loader_name l ++ lit " failed for PID " ++ pid ++ lit " with code "
                            ++ dec_string (returncode process) ++ lit ": " ++ detail))
  | Err e => loader_start temporary l request = Err (match e with
      | TimeoutExpired _ => PydumpError (loader_name l ++ lit " for PID " ++ pid ++ lit " timed out after "
                                         ++ format_general (timeout request) ++ lit "s")
      | _ => e end)
  end.
Proof.
  destruct l as [executable machine|executable]; cbn [loader_known loader_start start_command loader_name].
  - intros [register Hr]. unfold Gdb.start. rewrite Hr. cbn [or_key_error mbind result_bind default].
    destruct (run_command _) as [process|e]; [|by destruct e].
    destruct (returncode process =? 0); cbn [negb]; [|by eexists]. destruct (has_line _ _); [done|by eexists].
  - intros _. unfold Ptrace.start. destruct (run_command _) as [process|e]; [|by destruct e].
    destruct (returncode process =? 0); cbn [negb]; [|by eexists]. destruct (has_line _ _); [done|by eexists].
Qed.

(** C17: a loader reports success exactly when its process ended with code 0 and
    printed the Agent's confirmation as a line of its own. A process that runs out
    of time is a [PydumpError] that names the process and the time it had, one that
    failed a [PydumpError] with its code, and one that says nothing a [PydumpError]
    that says so; only a command that could not be run at all raises what the
    system raised. *)
Theorem loader_start_confirmed temporary l request :
  loader_known l →
  let run := run_command (start_command temporary l request) in
  let start := loader_start temporary l request in
  let pid := dec_string (host_pid (target request)) in
  (start = Ok tt ↔ ∃ process, run = Ok process ∧ confirmed process) ∧
  (∀ process, run = Ok process → returncode process ≠ 0 → ∃ detail,
     start = Err (PydumpError (loader_name l ++ lit " failed for PID " ++ pid ++ lit " with code "
                               ++ dec_string (returncode process) ++ lit ": " ++ detail))) ∧
  (∀ process, run = Ok process → returncode process = 0 → ¬ confirmed process → ∃ detail,
     start = Err (PydumpError (loader_name l ++ lit " did not confirm Agent start for PID " ++ pid ++ detail))) ∧
  (∀ e, run = Err e →
     start = Err (match e with
                  | TimeoutExpired _ => PydumpError (loader_name l ++ lit " for PID " ++ pid ++ lit " timed out after "
                                                     ++ format_general (timeout request) ++ lit "s")
                  | _ => e
                  end)).
Proof.
  intros Hl. cbv zeta. pose proof (start_outcome temporary l request Hl) as Ho. unfold confirmed.
  destruct (run_command (start_command temporary l request)) as [process|e].
  - destruct (Z.eqb_spec (returncode process) 0) as [Hz|Hz]; cbn [andb] in Ho.
    + destruct (has_line _ _) eqn:Hm.
      * apply has_line_spec in Hm. rewrite Ho. split_and!; [|by intros ? [= <-]| |done].
        -- split; [|done]. intros _. by exists process.
        -- intros ? [= <-] _ Hn. by destruct Hn.
      * assert (¬ ∃ line, line ∈ splitlines (strip (stdout process)) ∧ strip line = _AGENT_STARTED_MARKER) as Hn
          by (rewrite <- has_line_spec; congruence).
        destruct Ho as [detail ->]. split_and!; [|by intros ? [= <-]| |done].
        -- split; [done|]. intros (? & [= <-] & _ & ?). done.
        -- intros ? [= <-] _ _. by exists detail.
    + destruct Ho as [detail ->]. split_and!; [| |by intros ? [= <-]|done].
      * split; [done|]. intros (? & [= <-] & ? & _). done.
      * intros ? [= <-] _. by exists detail.
  - rewrite Ho. split_and!; [split; [by destruct e|naive_solver]|done|done|]. by intros ? [= <-].
Qed.

(** ** The helper of the probe *)

(** How putting the helper down must end: the first wait reaps it, or raises an
    error of its own; when it runs out of time the helper is killed, and then
    waited for once more. *)
Definition ended (helper : Gdb.Helper) (signals : list Gdb.signal) (failed : option exc) : Prop :=
  match Gdb.h_wait helper with
  | (Ok _, _) => signals = [Gdb.Reaped] ∧ failed = None
  | (Err (TimeoutExpired _), Ok _) => signals = [Gdb.Kill; Gdb.Reaped] ∧ failed = None
  | (Err (TimeoutExpired _), Err e) => signals = [Gdb.Kill] ∧ failed = Some e
  | (Err e, _) => signals = [] ∧ failed = Some e
  end.

Lemma reaping_run {A} (r : result exc A) log :
  Gdb.reaping r log = match r with Ok a => (Ok a, log ++ [Gdb.Reaped]) | Err e => (Err e, log) end.
Proof. by destruct r. Qed.

(** The [finally] block: the helper is told to end, and waited for. *)
Definition put_down (helper : Gdb.Helper) : Gdb.P unit :=
  Gdb.act Gdb.Terminate;;
  match (Gdb.h_wait helper).1 with
  | Err (TimeoutExpired _) => Gdb.act Gdb.Kill;; Gdb.reaping (Gdb.h_wait helper).2
  | r => Gdb.reaping r
  end.

Lemma put_down_run helper log :
  ∃ failed signals, ended helper signals failed ∧
    put_down helper log = (match failed with Some e => Err e | None => Ok tt end, log ++ Gdb.Terminate :: signals).
Proof.
  unfold put_down, ended. erewrite bind_ok by reflexivity.
  destruct (Gdb.h_wait helper) as [[[]|e] after]; cbn [fst snd].
  - rewrite reaping_run. exists None, [Gdb.Reaped]. by rewrite <- app_assoc.
  - destruct e; try (rewrite reaping_run; by eexists (Some _), []).
    erewrite bind_ok by reflexivity. rewrite reaping_run. destruct after as [[]|e].
    + exists None, [Gdb.Kill; Gdb.Reaped]. by rewrite <- !app_assoc.
    + exists (Some e), [Gdb.Kill]. by rewrite <- app_assoc.
Qed.

(** What goes before only adds to the log. *)
Lemma helper_failure_log helper log :
  ∃ r before, Gdb._helper_failure helper log = (r, log ++ before).
Proof.
  unfold Gdb._helper_failure. erewrite bind_ok by reflexivity.
  assert (∀ A (r : result exc A) l, ∃ r' before, Gdb.reaping r l = (r', l ++ before)) as Hreap.
  { intros A r l. rewrite reaping_run. destruct r; eexists _, _; [done|by rewrite app_nil_r]. }
  set (m := match (Gdb.h_communicate helper).1 with
            | Err (TimeoutExpired _) => Gdb.act Gdb.Kill;; Gdb.reaping (Gdb.h_communicate helper).2
            | r => Gdb.reaping r end).
  assert (∀ l, ∃ r' before, m l = (r', l ++ before)) as Hm.
  { intros l. subst m. destruct (Gdb.h_communicate helper) as [first after]; cbn [fst snd].
    destruct first as [t|e]; [apply Hreap|]. destruct e; try apply Hreap.
    erewrite bind_ok by reflexivity. destruct (Hreap _ after (l ++ [Gdb.Kill])) as (r' & b & ->).
    eexists _, (Gdb.Kill :: b). by rewrite <- app_assoc. }
  destruct (Hm (log ++ [Gdb.Terminate])) as (r & b & E). destruct r as [t|e].
  - erewrite bind_ok by exact E. eexists _, (Gdb.Terminate :: b). by rewrite <- app_assoc.
  - erewrite bind_err by exact E. eexists _, (Gdb.Terminate :: b). by rewrite <- app_assoc.
Qed.

(** C36: the probe of GDB leaves no helper process behind. However the helper and
    GDB behave, the helper is told to end after everything else, and then waited
    for. When it has not ended in time it is killed and waited for again, so that a
    helper deaf to the first signal is reaped too. Only an error of waiting itself
    can leave it: one that is no time-out the first time, or any after the kill;
    that error is what the probe then raises. *)
Theorem probe_reaps_helper temporary executable helper log :
  ∃ before signals r,
    Gdb._probe_disposable_inferior temporary executable helper log
    = (r, log ++ before ++ Gdb.Terminate :: signals) ∧
    match Gdb.h_wait helper with
    | (Ok _, _) => signals = [Gdb.Reaped]
    | (Err (TimeoutExpired _), Ok _) => signals = [Gdb.Kill; Gdb.Reaped]
    | (Err (TimeoutExpired _), Err e) => signals = [Gdb.Kill] ∧ r = Err e
    | (Err e, _) => signals = [] ∧ r = Err e
    end.
Proof.
  change (Gdb._probe_disposable_inferior temporary executable helper)
    with (finally
      (if negb (Gdb.h_ready helper) || bool_decide (strip (Gdb.h_line helper) ≠ lit "PYDUMP_GDB_PROBE_READY")
       then detail ← Gdb._helper_failure helper; mret (Some detail)
       else lift (Gdb.inferior_call temporary executable helper)) (put_down helper)).
  match goal with |- context [finally ?b _] => set (body := b) end.
  assert (∃ r before, body log = (r, log ++ before)) as (r & before & E).
  { subst body. destruct (_ || _).
    - destruct (helper_failure_log helper log) as (r & b & E). exists (Some <$> r), b.
      destruct r; [by rewrite (bind_ok _ _ _ _ _ E)|by rewrite (bind_err _ _ _ _ _ E)].
    - eexists _, []. unfold lift. by rewrite app_nil_r. }
  unfold finally. rewrite E. destruct (put_down_run helper (log ++ before)) as (failed & signals & Hend & ->).
  unfold ended in Hend. exists before, signals. rewrite app_assoc.
  destruct (Gdb.h_wait helper) as [[[]|[]] [[]|e]]; destruct Hend as [-> ->]; by eexists.
Qed.

(** ** The environment *)

(** A little-endian 64-bit ELF header for a machine *)
Definition elf_header (header : bytes) (m : str) : Prop :=
  (20 ≤ length header)%nat ∧ take 4 header = [x7f; x45; x4c; x46] ∧
  header !! 4%nat = Some x02 ∧ header !! 5%nat = Some x01 ∧
  header !! 19%nat = Some x00 ∧
  (m = lit "x86_64" ∧ header !! 18%nat = Some x3e ∨ m = lit "aarch64" ∧ header !! 18%nat = Some xb7).

(** The two bytes of the machine field *)
Lemma elf_machine_byte header b :
  (20 ≤ length header)%nat →
  elf_machine header = byte_val b ↔ header !! 19%nat = Some x00 ∧ header !! 18%nat = Some b.
Proof.
  intros Hl. unfold elf_machine, byte_at.
  destruct (lookup_lt_is_Some_2 header 18%nat ltac:(lia)) as [c ->].
  destruct (lookup_lt_is_Some_2 header 19%nat ltac:(lia)) as [d ->]. cbn [fmap option_fmap option_map default id].
  pose proof (byte_val_range b). pose proof (byte_val_range c). pose proof (byte_val_range d). split.
  - intros E. assert (byte_val d = byte_val x00) as ->%byte_val_inj by (change (byte_val x00) with 0; lia).
    change (byte_val x00) with 0 in E. replace c with b; [done|]. apply byte_val_inj. lia.
  - intros [[= ->] [= ->]]. change (byte_val x00) with 0. lia.
Qed.

Lemma byte_at_iff i header b :
  (i < length header)%nat → byte_at i header = byte_val b ↔ header !! i = Some b.
Proof.
  intros Hi. unfold byte_at. destruct (lookup_lt_is_Some_2 header i Hi) as [c ->]. cbn. split.
  - intros ->%byte_val_inj. done.
  - by intros [= ->].
Qed.

Lemma parse_machine_spec pid header m :
  _parse_machine pid header = Ok m ↔ elf_header header m.
Proof.
  unfold _parse_machine, elf_header, blen. destruct (Z.ltb_spec (Z.of_nat (length header)) 20) as [Hl|Hl]; cbn [orb].
  { split; [done|lia]. }
  case_bool_decide as Hm; [naive_solver|].
  rewrite <- (byte_at_iff 4 header x02), <- (byte_at_iff 5 header x01) by lia.
  change (byte_val x02) with 2. change (byte_val x01) with 1.
  destruct (Z.eqb_spec (byte_at 4 header) 2); cbn [negb orb]; [|naive_solver].
  destruct (Z.eqb_spec (byte_at 5 header) 1); cbn [negb orb]; [|naive_solver].
  pose proof (elf_machine_byte header x3e ltac:(lia)) as H62. pose proof (elf_machine_byte header xb7 ltac:(lia)) as H183.
  change (byte_val x3e) with 62 in H62. change (byte_val xb7) with 183 in H183.
  assert (20 ≤ length header)%nat by lia. unfold _ELF_MACHINE. cbn [dict_get].
  destruct (decide (elf_machine header = 62)) as [E|E1].
  { apply H62 in E as [H19 H18]. split; [intros [= <-]; auto 10|]. rewrite H18. naive_solver. }
  destruct (decide (elf_machine header = 183)) as [E|E2].
  { apply H183 in E as [H19 H18]. split; [intros [= <-]; auto 10|]. rewrite H18. naive_solver. }
  split; [done|]. naive_solver.
Qed.

(** The mapped files say glibc, and not musl. *)
Definition uses_glibc (maps : bytes) : Prop :=
  let text := universal_newlines (utf8_decode_replace maps) in
  (contains (lit "libc.so.6") text = true ∨ contains (lit "ld-linux-") text = true) ∧
  contains (lit "ld-musl-") text = false ∧ contains (lit "libc.musl-") text = false.

Lemma classify_libc_glibc maps :
  _classify_libc (universal_newlines (utf8_decode_replace maps)) = lit "glibc" ↔ uses_glibc maps.
Proof.
  unfold uses_glibc, _classify_libc. set (text := universal_newlines _).
  destruct (contains (lit "ld-musl-") text), (contains (lit "libc.musl-") text),
    (contains (lit "libc.so.6") text), (contains (lit "ld-linux-") text); cbn; naive_solver.
Qed.

Lemma parse_machine_error pid header e : _parse_machine pid header = Err e → is_PydumpError e = true.
Proof. unfold _parse_machine. repeat case_match; try done; by intros [= <-]. Qed.

Lemma explain_error_spec {A} message e :
  ∃ e', @explain_os_error A message (Err e) = Err e' ∧ (is_PydumpError e' = true ∨ e' = e ∧ is_OSError e = false).
Proof. cbn. destruct (is_OSError e) eqn:He; eexists; split; [done|by left|done|by right]. Qed.

(** C30: a target is accepted exactly when the Collector runs on Linux, the
    target's executable is a little-endian 64-bit ELF file for the Collector's own
    architecture, x86-64 or AArch64 under any of its names, and the target maps
    glibc and no musl; everything else is a [PydumpError], an unreadable [/proc]
    file included. *)
Theorem inspect_target_environment_correct t :
  match inspect_target_environment t with
  | Ok environment =>
      platform = lit "linux" ∧ kernel_release environment = uname_release ∧ machine environment = host_machine ∧
      ∃ header maps, p_header (procs (host_pid t)) = Ok header ∧ p_maps (procs (host_pid t)) = Ok maps ∧
        elf_header (take 20 header) (machine environment) ∧ uses_glibc maps
  | Err e =>
      (is_PydumpError e = true ∨
       is_OSError e = false ∧ (p_header (procs (host_pid t)) = Err e ∨ p_maps (procs (host_pid t)) = Err e)) ∧
      ∀ header maps m, platform = lit "linux" → p_header (procs (host_pid t)) = Ok header →
        p_maps (procs (host_pid t)) = Ok maps → elf_header (take 20 header) m → m = host_machine →
        ¬ uses_glibc maps
  end.
Proof.
  unfold inspect_target_environment. case_bool_decide as Hp; [split; [by left|done]|].
  unfold _target_machine, _target_libc.
  destruct (p_header (procs (host_pid t))) as [header|e] eqn:Hh.
  2:{ destruct (explain_error_spec (A := bytes) (lit "cannot read executable for target process " ++ dec_string (host_pid t)) e)
        as (e' & -> & He). split; [|done]. cbn. destruct He as [?|[-> ?]]; [by left|by right; auto]. }
  cbn [explain_os_error mbind result_bind].
  destruct (_parse_machine (host_pid t) (take 20 header)) as [m|e] eqn:Hm; cbn [mbind result_bind].
  2:{ split; [left; by apply (parse_machine_error (host_pid t) (take 20 header))|].
      intros h maps m _ [= <-] _ Hel%(parse_machine_spec (host_pid t)). congruence. }
  pose proof (proj1 (parse_machine_spec _ _ _) Hm) as Hel.
  case_bool_decide as Hhost.
  { split; [by left|]. intros h maps m' _ [= <-] _ Hel'%(parse_machine_spec (host_pid t)). congruence. }
  destruct (p_maps (procs (host_pid t))) as [maps|e] eqn:Hmaps.
  2:{ destruct (explain_error_spec (A := bytes) (lit "cannot inspect libc for target process " ++ dec_string (host_pid t)) e)
        as (e' & -> & He). split; [|done]. cbn. destruct He as [?|[-> ?]]; [by left|by right; auto]. }
  cbn [explain_os_error mbind result_bind mret result_ret]. case_bool_decide as Hl.
  - split; [by left|]. intros h maps' m' _ _ [= <-] _ _ Hg%classify_libc_glibc. done.
  - cbn [kernel_release machine]. split_and!; try done. exists header, maps. split_and!; try done.
    by apply classify_libc_glibc.
Qed.

(** ** Choosing *)

(** A file that can be run, and is what the loader runs *)
Definition runnable (l : AgentLoader) : Prop :=
  ∃ path, is_file path = true ∧ access_x path = true ∧ loader_executable l = resolve path.

(** A probe and its loader agree. *)
Definition probe_ok (kind : LoaderKind) (p : LoaderProbe * option AgentLoader) : Prop :=
  probe_kind p.1 = kind ∧
  match p.2 with
  | Some l => available p.1 = true ∧ loader_kind l = kind ∧ loader_known l ∧ runnable l ∧
              detail p.1 = loader_executable l
  | None => available p.1 = false
  end.

Lemma ptrace_probe_ok package machine executable : probe_ok PTRACE (Ptrace.probe package machine executable).
Proof.
  unfold Ptrace.probe. destruct (Ptrace.candidate package machine executable) as [failed|[path|]] eqn:E; [| |done].
  - unfold Ptrace.candidate in E. repeat case_match; try done; by injection E as <-.
  - destruct (is_file path) eqn:Hf; cbn [negb]; [|done]. destruct (access_x path) eqn:Hx; cbn [negb]; [|done].
    split; [done|]. cbn. split_and!; try done. by exists path.
Qed.

Lemma gdb_probe_ok temporary helper executable machine log p log' :
  Gdb.probe temporary helper executable machine log = (Ok p, log') → probe_ok GDB p.
Proof.
  unfold Gdb.probe. destruct (dict_get Gdb._FIRST_ARGUMENT_REGISTER machine) as [r|] eqn:Hr; [|by intros [= <- _]].
  destruct (Gdb.candidate executable) as [path|]; [|by intros [= <- _]].
  destruct (is_file path) eqn:Hf; cbn [negb orb]; [|by intros [= <- _]].
  destruct (access_x path) eqn:Hx; cbn [negb]; [|by intros [= <- _]].
  destruct (run_command _) as [process|e]; [|destruct (_ || _); [by intros [= <- _]|done]].
  destruct (negb _); [by intros [= <- _]|]. intros (error & s & _ & H1)%bind_inv. injection H1 as <- _.
  destruct error; [done|]. split; [done|]. cbn. split_and!; try done. by exists path.
Qed.

Lemma usable_ok kind p : probe_ok kind p → usable p = p.2.
Proof. destruct p as [q [l|]]; intros [_ Ho]; unfold usable; cbn in *; [by destruct Ho as [-> _]|by rewrite Ho]. Qed.

Lemma select_ptrace_run package t environment kind pydump_loader probes log :
  let ptrace := Ptrace.probe package (machine environment) pydump_loader in
  match select_ptrace package t environment kind pydump_loader probes log with
  | (Ok l, log') => kind ≠ GDB ∧ ptrace.2 = Some l ∧ loader_known l ∧ runnable l ∧ loader_kind l = PTRACE ∧ log' = log
  | (Err e, log') =>
      (kind ≠ GDB → available ptrace.1 = false) ∧ log' = log ∧
      e = PydumpError (no_loader t environment kind
            ++ join (lit "; ") (probe_detail <$> probes ++ if decide (kind = GDB) then [] else [ptrace]))
  end.
Proof.
  cbv zeta. unfold select_ptrace. pose proof (ptrace_probe_ok package (machine environment) pydump_loader) as Hok.
  set (ptrace := Ptrace.probe package (machine environment) pydump_loader) in *.
  pose proof (usable_ok _ _ Hok) as Hu. destruct Hok as [Hk Ho]. case_bool_decide as Hg; cbn [mbind option_bind].
  - rewrite Hu. destruct (ptrace.2) as [l|]; cbn; [|by rewrite decide_False].
    by destruct Ho as (_ & ? & ? & ? & _).
  - rewrite decide_True by (by destruct (decide (kind = GDB))). by split_and!.
Qed.

(** *** What a probe finds out *)

(** The file a loader is looked for under: the one that was named, else the one
    the environment names, else the fallback *)
Definition looked_for (named : option str) (variable : str) (fallback : option str) (path : str) : Prop :=
  named = Some path ∨
  named = None ∧
    ((∃ text, dict_get environ variable = Some text ∧ text ≠ [] ∧ path = path_text text) ∨
     (dict_get environ variable = None ∨ dict_get environ variable = Some []) ∧ fallback = Some path).

(** Nothing to look for *)
Definition not_named (named : option str) (variable : str) : Prop :=
  named = None ∧ (dict_get environ variable = None ∨ dict_get environ variable = Some []).

Definition bundled_loader (package machine : str) : str :=
  package ++ lit "/bin/pydump-loader-linux-" ++ machine.

(** Why the bundled loader cannot be used *)
Inductive ptrace_reason (package machine : str) (named : option str) : str → Prop :=
| no_bundled_architecture :
    not_named named (lit "PYDUMP_LOADER") → machine ≠ lit "x86_64" → machine ≠ lit "aarch64" →
    ptrace_reason package machine named (lit "unsupported architecture " ++ machine)
| no_bundled_file :
    not_named named (lit "PYDUMP_LOADER") → is_file (bundled_loader package machine) = false →
    ptrace_reason package machine named (lit "no bundled pydump-loader")
| loader_missing path :
    looked_for named (lit "PYDUMP_LOADER") (Some (bundled_loader package machine)) path → is_file path = false →
    ptrace_reason package machine named (path ++ lit " does not exist")
| loader_not_executable path :
    looked_for named (lit "PYDUMP_LOADER") (Some (bundled_loader package machine)) path →
    is_file path = true → access_x path = false →
    ptrace_reason package machine named (path ++ lit " is not executable").

(** Why GDB cannot be used *)
Inductive gdb_reason (temporary : str) (helper : Gdb.Helper) (named : option str) (machine : str)
    (log : list Gdb.signal) : str → Prop :=
| gdb_architecture :
    machine ≠ lit "x86_64" → machine ≠ lit "aarch64" →
    gdb_reason temporary helper named machine log (lit "unsupported architecture " ++ machine)
| gdb_missing :
    not_named named (lit "PYDUMP_GDB") → which (lit "gdb") = None →
    gdb_reason temporary helper named machine log (lit "gdb executable was not found")
| gdb_not_executable path :
    looked_for named (lit "PYDUMP_GDB") (path_text <$> which (lit "gdb")) path →
    is_file path = false ∨ access_x path = false →
    gdb_reason temporary helper named machine log (path ++ lit " is not executable")
| gdb_not_run path e :
    looked_for named (lit "PYDUMP_GDB") (path_text <$> which (lit "gdb")) path →
    run_command (mkCommand [resolve path; lit "--batch"; lit "--nx"; lit "--version"] None None (float_of_Z 5)) = Err e →
    gdb_reason temporary helper named machine log (lit "gdb probe failed: " ++ exc_text e)
| gdb_failed path process :
    looked_for named (lit "PYDUMP_GDB") (path_text <$> which (lit "gdb")) path →
    run_command (mkCommand [resolve path; lit "--batch"; lit "--nx"; lit "--version"] None None (float_of_Z 5)) = Ok process →
    returncode process ≠ 0 →
    gdb_reason temporary helper named machine log (lit "gdb probe exited with code " ++ dec_string (returncode process))
| gdb_no_call path reason log' :
    looked_for named (lit "PYDUMP_GDB") (path_text <$> which (lit "gdb")) path →
    Gdb._probe_disposable_inferior temporary (resolve path) helper log = (Ok (Some reason), log') →
    gdb_reason temporary helper named machine log (lit "gdb disposable inferior call failed: " ++ reason).

Lemma bundled_names_get machine :
  match dict_get Ptrace._BUNDLED_NAMES machine with
  | Some name => lit "/bin/" ++ name = lit "/bin/pydump-loader-linux-" ++ machine
  | None => machine ≠ lit "x86_64" ∧ machine ≠ lit "aarch64"
  end.
Proof.
  unfold Ptrace._BUNDLED_NAMES. cbn [dict_get]. case_decide as H1; [by rewrite H1|].
  by case_decide as H2; [rewrite H2|].
Qed.

Lemma ptrace_probe_reason package machine named :
  available (Ptrace.probe package machine named).1 = false →
  ptrace_reason package machine named (detail (Ptrace.probe package machine named).1).
Proof.
  unfold Ptrace.probe. destruct (Ptrace.candidate package machine named) as [failed|[path|]] eqn:E.
  - intros _. unfold Ptrace.candidate in E. destruct named as [path|]; [done|].
    pose proof (bundled_names_get machine) as Hb.
    destruct (dict_get environ _) as [[|c text]|] eqn:He; try done;
      (destruct (dict_get Ptrace._BUNDLED_NAMES machine); [done|]; injection E as <-;
       destruct Hb; apply no_bundled_architecture; [unfold not_named; auto|done|done]).
  - assert (looked_for named (lit "PYDUMP_LOADER") (Some (bundled_loader package machine)) path) as Hp.
    { unfold Ptrace.candidate in E. unfold looked_for. destruct named as [p|]; [left; congruence|]. right. split; [done|].
      pose proof (bundled_names_get machine) as Hb. unfold bundled_loader.
      destruct (dict_get environ _) as [[|c text]|] eqn:He.
      2: { left. injection E as <-. by eexists. }
      all: right; split; [by auto|]; destruct (dict_get Ptrace._BUNDLED_NAMES machine); [|done];
           destruct (is_file _); [|done]; rewrite <- Hb; congruence. }
    destruct (is_file path) eqn:Hf; cbn [negb]; [|intros _; by apply loader_missing].
    destruct (access_x path) eqn:Hx; [done|]. intros _. by apply loader_not_executable.
  - intros _. unfold Ptrace.candidate in E. destruct named as [path|]; [done|].
    pose proof (bundled_names_get machine) as Hb.
    destruct (dict_get environ _) as [[|c text]|] eqn:He; try done;
      (destruct (dict_get Ptrace._BUNDLED_NAMES machine); [|done]; rewrite Hb in E;
       destruct (is_file _) eqn:Hf; [done|]; apply no_bundled_file; [unfold not_named; auto|done]).
Qed.

Lemma gdb_probe_reason temporary helper named machine log p log' :
  Gdb.probe temporary helper named machine log = (Ok p, log') → available p.1 = false →
  gdb_reason temporary helper named machine log (detail p.1).
Proof.
  unfold Gdb.probe. destruct (dict_get Gdb._FIRST_ARGUMENT_REGISTER machine) as [r|] eqn:Hr.
  2: { intros [= <- _] _. unfold Gdb._FIRST_ARGUMENT_REGISTER in Hr. cbn [dict_get] in Hr.
       repeat case_decide; try done. by apply gdb_architecture. }
  destruct (Gdb.candidate named) as [path|] eqn:Hc.
  2: { intros [= <- _] _. unfold Gdb.candidate in Hc. destruct named; [done|]. apply gdb_missing.
       - split; [done|]. destruct (dict_get environ _) as [[|]|]; auto. done.
       - destruct (dict_get environ _) as [[|]|]; try done; by destruct (which _). }
  assert (looked_for named (lit "PYDUMP_GDB") (path_text <$> which (lit "gdb")) path) as Hp.
  { unfold Gdb.candidate in Hc. unfold looked_for. destruct named as [q|]; [left; congruence|]. right. split; [done|].
    destruct (dict_get environ _) as [[|c text]|] eqn:He; [right; by auto| |right; by auto].
    left. injection Hc as <-. by eexists. }
  destruct (is_file path) eqn:Hf; cbn [negb orb]; [|intros [= <- _] _; apply gdb_not_executable; auto].
  destruct (access_x path) eqn:Hx; cbn [negb]; [|intros [= <- _] _; apply gdb_not_executable; auto].
  destruct (run_command _) as [process|e] eqn:Hrun.
  2: { destruct (_ || _); [|done]. intros [= <- _] _. by eapply gdb_not_run. }
  destruct (Z.eqb_spec (returncode process) 0); cbn [negb]; [|intros [= <- _] _; by eapply gdb_failed].
  intros (error & s & E & H1)%bind_inv Ha. injection H1 as <- _.
  destruct error as [reason|]; [|done]. by eapply gdb_no_call.
Qed.

(** C16: the choice of a loader. What is chosen can be run, is of the kind that was
    asked for, and with [auto] it is GDB unless GDB's probe found it unusable;
    GDB is not even tried when the other loader is asked for. When nothing is
    chosen, the environment was refused, or GDB's probe raised, or the error names
    the process and its environment and lists each loader tried, GDB first, with
    the reason its own probe gave, and that reason is true. *)
Theorem select_loader_correct package temporary helper t kind gdb pydump_loader log :
  match select_loader package temporary helper t kind gdb pydump_loader log with
  | (Ok l, log') =>
      loader_known l ∧ runnable l ∧ (kind = GDB → loader_kind l = GDB) ∧ (kind = PTRACE → loader_kind l = PTRACE ∧ log' = log) ∧
      ∃ environment, inspect_target_environment t = Ok environment ∧
        (kind = AUTO → loader_kind l = PTRACE →
         ∃ p, Gdb.probe temporary helper gdb (machine environment) log = (Ok p, log') ∧ available p.1 = false)
  | (Err e, log') =>
      inspect_target_environment t = Err e ∨
      ∃ environment, inspect_target_environment t = Ok environment ∧
        let no_usable (name : str) (reasons : str) := PydumpError (lit "no usable " ++ name ++ lit " loader for PID "
              ++ dec_string (host_pid t) ++ lit " (" ++ machine environment ++ lit ", " ++ libc environment ++ lit ", kernel "
              ++ kernel_release environment ++ lit "): " ++ reasons) in
        let gdb_found (reason : str) := ∃ p, Gdb.probe temporary helper gdb (machine environment) log = (Ok p, log') ∧
              available p.1 = false ∧ detail p.1 = reason ∧ gdb_reason temporary helper gdb (machine environment) log reason in
        let ptrace_found (reason : str) :=
              let p := Ptrace.probe package (machine environment) pydump_loader in
              available p.1 = false ∧ detail p.1 = reason ∧ ptrace_reason package (machine environment) pydump_loader reason in
        kind ≠ PTRACE ∧ Gdb.probe temporary helper gdb (machine environment) log = (Err e, log') ∨
        match kind with
        | GDB => ∃ reason, gdb_found reason ∧ e = no_usable (lit "gdb") (lit "gdb: " ++ reason)
        | PTRACE => ∃ reason, ptrace_found reason ∧ log' = log ∧ e = no_usable (lit "ptrace") (lit "ptrace: " ++ reason)
        | AUTO => ∃ reason1 reason2, gdb_found reason1 ∧ ptrace_found reason2 ∧
            e = no_usable (lit "auto") (lit "gdb: " ++ reason1 ++ lit "; ptrace: " ++ reason2)
        end
  end.
Proof.
  unfold select_loader. destruct (inspect_target_environment t) as [environment|e] eqn:Henv.
  2:{ erewrite bind_err by reflexivity. by left. }
  erewrite bind_ok by reflexivity. unfold select_from.
  pose proof (ptrace_probe_reason package (machine environment) pydump_loader) as Hreason.
  pose proof (ptrace_probe_ok package (machine environment) pydump_loader) as [Hpk _].
  case_bool_decide as Hk.
  - destruct (Gdb.probe temporary helper gdb (machine environment) log) as [[p|e] log'] eqn:Hg.
    2:{ erewrite bind_err by exact Hg. right. exists environment. split; [done|]. by left. }
    erewrite bind_ok by exact Hg. apply gdb_probe_ok in Hg as Hp. rewrite (usable_ok _ _ Hp).
    destruct Hp as [Hgk Hgo]. destruct (p.2) as [l|].
    + destruct Hgo as (_ & Hlk & Hkn & Hrun & _). cbn [mret M_ret]. split_and!; try done.
      exists environment. split; [done|]. by rewrite Hlk.
    + pose proof (gdb_probe_reason _ _ _ _ _ _ _ Hg Hgo) as Hgr.
      pose proof (select_ptrace_run package t environment kind pydump_loader [p] log') as Hs. cbv zeta in Hs.
      destruct (select_ptrace package t environment kind pydump_loader [p] log') as [[l|e] log''].
      * destruct Hs as (Hng & _ & ? & ? & Hlk & ->). split_and!; try done. exists environment. split; [done|]. by exists p.
      * destruct Hs as (Hf & -> & ->). right. exists environment. split; [done|]. right. unfold no_loader, probe_detail.
        destruct kind; [rewrite decide_False by done|rewrite decide_True by done|done].
        -- exists (detail p.1), (detail (Ptrace.probe package (machine environment) pydump_loader).1).
           split; [by exists p|]. specialize (Hf ltac:(done)). split; [auto|]. cbn. rewrite Hgk, Hpk. cbn.
           by rewrite <- !app_assoc.
        -- exists (detail p.1). split; [by exists p|]. cbn. rewrite Hgk. cbn. by rewrite <- !app_assoc.
  - assert (kind = PTRACE) as -> by (by destruct kind).
    pose proof (select_ptrace_run package t environment PTRACE pydump_loader [] log) as Hs. cbv zeta in Hs.
    destruct (select_ptrace package t environment PTRACE pydump_loader [] log) as [[l|e] log'].
    + destruct Hs as (_ & _ & ? & ? & Hlk & ->). split_and!; try done. by exists environment.
    + destruct Hs as (Hf & -> & ->). right. exists environment. split; [done|]. right.
      specialize (Hf ltac:(done)). unfold no_loader, probe_detail. rewrite decide_False by done.
      eexists. split; [by split_and!; [| |apply Hreason]|]. split; [done|]. cbn. rewrite Hpk. cbn. by rewrite <- !app_assoc.
Qed.

End Properties.

(** ** Installing *)

Lemma partial_ne t contents : partial_library t contents ≠ host_library t contents.
Proof. intros [= E%app_inv_head]. done. Qed.

(** C31: installing the Agent. The library appears in the target's [/tmp] under a
    name made of its digest, at the path the target sees it by, whole or not at
    all: a copy that fails leaves at most a partial file under another name. Only
    that file and the library change; a library that is there already is left as
    it is, and installing again changes nothing. *)
Theorem install_agent_correct c t source contents files :
  files !! source = Some contents → source ≠ partial_library t contents →
  match install_agent c t source files with
  | (Ok (host_path, target_path), files') =>
      host_path = host_library t contents ∧ path_str host_path = root t ++ target_path ∧
      files' !! host_path = Some (default contents (files !! host_path)) ∧
      (∀ p, p ≠ host_path → p ≠ partial_library t contents → files' !! p = files !! p) ∧
      ∀ c', install_agent c' t source files' = (Ok (host_path, target_path), files')
  | (Err e, files') =>
      is_OSError e = true ∧ files !! host_library t contents = None ∧
      ∀ p, p ≠ partial_library t contents → files' !! p = files !! p
  end.
Proof.
  intros Hs Hne. unfold install_agent. rewrite Hs.
  assert (path_str (host_library t contents) = root t ++ lit "/tmp/" ++ agent_stem contents ++ lit ".so") as Hp
    by (unfold host_library; rewrite (path_str_in _ _ 112) by (done || by rewrite last_app); by rewrite <- !app_assoc).
  destruct (files !! host_library t contents) as [old|] eqn:Hh.
  - split_and!; [done|done|by rewrite Hh|done|]. intros c'. by rewrite Hs, Hh.
  - destruct c as [|n reason].
    + assert (<[host_library t contents:=contents]> (delete (partial_library t contents) files) !! source = Some contents) as Hs'.
      { destruct (decide (source = host_library t contents)) as [->|Hd]; [by rewrite lookup_insert_eq|].
        by rewrite lookup_insert_ne, lookup_delete_ne by congruence. }
      split_and!; [done|done|by rewrite lookup_insert_eq, Hh| |].
      * intros p H1 H2. by rewrite lookup_insert_ne, lookup_delete_ne by congruence.
      * intros c'. rewrite Hs'. by rewrite lookup_insert_eq.
    + split_and!; [done|done|]. intros p H1. by rewrite lookup_insert_ne by congruence.
Qed.

Lemma install_copies t source contents files :
  files !! source = Some contents →
  ∃ host target_path files', install_agent Copies t source files = (Ok (host, target_path), files').
Proof. intros Hs. unfold install_agent. rewrite Hs. destruct (files !! host_library t contents); do 3 eexists; reflexivity. Qed.

Lemma other_directory t (dir name : str) contents :
  dir ≠ root t ++ lit "/tmp" → (dir, name) ≠ partial_library t contents.
Proof. intros Hd [= E _]. by destruct Hd. Qed.

(** ** A concrete system *)

Module LoaderExample.
Definition elf : bytes := [x7f; x45; x4c; x46; x02; x01; x01; x00; x00; x00; x00; x00; x00; x00; x00; x00; x03; x00; x3e; x00].

(** [/proc] of a process that runs CPython 3.11 *)
Definition proc : Proc :=
  mkProc true
    (Ok (utf8_encode (lit "Name:	app" ++ [10] ++ lit "NStgid:	4711	7" ++ [10] ++ lit "Uid:	0	1000	0	1000" ++ [10]
         ++ lit "Gid:	0	0	0	100" ++ [10])))
    (Ok (utf8_encode (lit "55-56 r-xp 0 08:01 42   /usr/bin/python3.11" ++ [10]
         ++ lit "70-71 r-xp 0 08:01 43   /usr/lib/libpython3.11.so.1.0" ++ [10]
         ++ lit "72-73 r-xp 0 08:01 44   /usr/lib/libc.so.6" ++ [10] ++ lit "7f-80 rw-p 0 0 0  [heap]" ++ [10])))
    (Ok (lit "/usr/bin/python3.11")) (Ok elf).

(** Linux on x86-64 with a GDB that works; every loader confirms. *)
#[export] Instance linux : OperatingSystem := {|
  platform := lit "linux"; uname_machine := lit "x86_64"; uname_release := lit "6.1";
  procs := λ pid, if pid =? 4711 then proc else mkProc false (Err KeyError) (Err KeyError) (Err KeyError) (Err KeyError);
  environ := [(lit "PYTHONPATH", lit "/x"); (lit "HOME", lit "/root")];
  which := λ name, if bool_decide (name = lit "gdb") then Some (lit "/usr/bin/gdb") else None;
  is_file := λ _, true; access_x := λ _, true; resolve := λ p, p;
  run_command := λ _, Ok (mkCompleted 0 (lit "warning: x" ++ [10] ++ lit " PYDUMP_AGENT_STARTED=0 " ++ [13; 10]
                                         ++ lit "PYDUMP_GDB_INFERIOR_CALL_OK=0" ++ [10]) []) |}.

Definition the_target : Target := mkTarget 4711 7 (3, 11).
Definition request : LoadRequest :=
  mkLoadRequest the_target (quoted "/tmp/a~\b.so") (lit "/tmp/s.sock") [x0f] (float_of_Z 30).
Definition helper : Gdb.Helper := Gdb.mkHelper 9 true (lit "PYDUMP_GDB_PROBE_READY" ++ [10]) (Ok [], Ok []) (Ok tt, Ok tt).
End LoaderExample.

#[local] Existing Instance LoaderExample.linux.

Example example_target :
  @resolve_target ascii_only default_limits procs None (λ _ _, Err KeyError) (Some 4711) None = Ok LoaderExample.the_target ∧
  @fs_owner ascii_only procs LoaderExample.the_target = Ok (1000, 100).
Proof. split; vm_compute; reflexivity. Qed.

Example example_loader :
  select_loader (lit "/pkg/loader") (lit "/tmp/x.gdb") LoaderExample.helper LoaderExample.the_target AUTO None None []
  = (Ok (GdbLoader (lit "/usr/bin/gdb") (lit "x86_64")), [Gdb.Terminate; Gdb.Reaped]).
Proof. vm_compute. reflexivity. Qed.

(** Go's durations have no exponent. *)
Example example_timeout_text :
  last (argv (Ptrace.command (lit "/x")
    (mkLoadRequest LoaderExample.the_target [] [] [] (float_of_Z 1000000)))) = Some (lit "1e+06s").
Proof. vm_compute. reflexivity. Qed.

Example example_literal :
  Gdb.script_lines (lit "$rdi") LoaderExample.request !! 11%nat
  = Some (quoted "set $pydump_agent=(void*)dlopen(~/tmp/a\~\\b.so~, 2)").
Proof. vm_compute. reflexivity. Qed.

Lemma gdb_script_safe_witness :
  split_char 10 (Gdb.script (lit "$rdi") LoaderExample.request) = Gdb.script_lines (lit "$rdi") LoaderExample.request.
Proof.
  destruct (gdb_script_safe (lit "$rdi") LoaderExample.request) as [H _]; [reflexivity|reflexivity|reflexivity|exact H].
Defined.

Lemma loader_start_confirmed_witness :
  loader_start (lit "/tmp/x.gdb") (GdbLoader (lit "/usr/bin/gdb") (lit "x86_64")) LoaderExample.request = Ok tt.
Proof.
  apply (loader_start_confirmed (lit "/tmp/x.gdb") (GdbLoader (lit "/usr/bin/gdb") (lit "x86_64")) LoaderExample.request).
  - eexists. reflexivity.
  - eexists. split; [reflexivity|]. split; [reflexivity|]. exists (lit " PYDUMP_AGENT_STARTED=0 ").
    split; [|reflexivity]. apply (bool_decide_unpack _). vm_compute. exact I.
Defined.

Lemma install_agent_correct_witness :
  let source := (lit "/opt", lit "agent.so") in
  let files := {[source := [x61; x62; x63]]} in
  ∃ host target_path files',
    install_agent Copies LoaderExample.the_target source files = (Ok (host, target_path), files') ∧
    files' !! host = Some [x61; x62; x63] ∧
    install_agent (Stops 1 (lit "disk full")) LoaderExample.the_target source files' = (Ok (host, target_path), files').
Proof.
  cbv zeta. set (files := {[(lit "/opt", lit "agent.so") := [x61; x62; x63]]} : Files).
  assert (lit "/opt" ≠ root LoaderExample.the_target ++ lit "/tmp") as Hdir by (vm_compute; discriminate).
  pose proof (install_agent_correct Copies LoaderExample.the_target (lit "/opt", lit "agent.so") [x61; x62; x63] files
                (lookup_singleton_eq _ _) (other_directory _ _ _ _ Hdir)) as Hc.
  destruct (install_copies LoaderExample.the_target (lit "/opt", lit "agent.so") [x61; x62; x63] files
              (lookup_singleton_eq _ _)) as (host & target_path & files' & E).
  rewrite E in Hc. destruct Hc as (Hh & _ & Hf & _ & Hagain).
  exists host, target_path, files'. split; [exact E|]. split; [|apply Hagain].
  rewrite Hf, Hh. unfold files. rewrite lookup_singleton_ne; [reflexivity|]. intros Heq.
  apply Hdir. exact (f_equal fst Heq).
Defined.
