(* ===== verification/CaptureCli.v ===== *)
(** * The capture command

    [capture/collector/src/pydump/cli.py]: the argument parser, finding the target, its Agent and a loader, waiting for the Agent to connect while the
    loader works in its own thread, the session, and the exit codes.  What the
    machine does is the [Surroundings]. *)
From stdpp Require Import base tactics numbers list gmap strings.
From Stdlib Require Import Strings.Byte.
From S2P Require Import Prelude PyData Struct Text StrOps Floats Paths Errors ArgParse Protocol CaptureModel HeapWriter Collector.
From S2P Require Import Target LoaderModel Loader.

(** ** Arguments *)

Record Arguments := mkArguments {
  a_pid : option Z;
  a_docker_container : option str;
  a_file : Path;
  a_str_repr_len : Z;
  a_no_attribute : bool;
  a_agent : option Path;
  a_loader : LoaderKind;
  a_gdb : option str;
  a_pydump_loader : option str;
  a_timeout : float;
}.

(** [_str_repr_length] *)
Definition _str_repr_length `{Unicode} (value : str) : result exc Z :=
  parsed ← or_value_error (int_of_str value);
  if parsed <? -1 then Err (ArgumentTypeError (lit "string preview length must be -1 or non-negative"))
  else mret parsed.

(** [LoaderKind(value)] *)
Definition loader_kind_of (value : str) : option LoaderKind :=
  List.find (λ k, bool_decide (kind_value k = value)) [AUTO; GDB; PTRACE].

(** What [parse_args] returns; the two reserved flags are not kept, nothing reads
    them. *)
Record Namespace := mkNamespace {
  n_pid : option Z;
  n_docker_container : option str;
  n_file : option Path;
  n_str_repr_len : Z;
  n_no_attribute : bool;
  n_agent : option Path;
  n_loader : str;
  n_gdb : option str;
  n_pydump_loader : option str;
  n_timeout : float;
}.

(** The defaults *)
Definition defaults : Namespace :=
  mkNamespace None None None 1000 false None (kind_value AUTO) None None (float_of_Z 30).

Section Setters.
Context (n : Namespace).

Definition set_pid (v : Z) : Namespace :=
  mkNamespace (Some v) (n_docker_container n) (n_file n) (n_str_repr_len n) (n_no_attribute n) (n_agent n) (n_loader n)
    (n_gdb n) (n_pydump_loader n) (n_timeout n).
Definition set_docker_container (v : str) : Namespace :=
  mkNamespace (n_pid n) (Some v) (n_file n) (n_str_repr_len n) (n_no_attribute n) (n_agent n) (n_loader n)
    (n_gdb n) (n_pydump_loader n) (n_timeout n).
Definition set_file (v : Path) : Namespace :=
  mkNamespace (n_pid n) (n_docker_container n) (Some v) (n_str_repr_len n) (n_no_attribute n) (n_agent n) (n_loader n)
    (n_gdb n) (n_pydump_loader n) (n_timeout n).
Definition set_str_repr_len (v : Z) : Namespace :=
  mkNamespace (n_pid n) (n_docker_container n) (n_file n) v (n_no_attribute n) (n_agent n) (n_loader n)
    (n_gdb n) (n_pydump_loader n) (n_timeout n).
Definition set_no_attribute : Namespace :=
  mkNamespace (n_pid n) (n_docker_container n) (n_file n) (n_str_repr_len n) true (n_agent n) (n_loader n)
    (n_gdb n) (n_pydump_loader n) (n_timeout n).
Definition set_agent (v : Path) : Namespace :=
  mkNamespace (n_pid n) (n_docker_container n) (n_file n) (n_str_repr_len n) (n_no_attribute n) (Some v) (n_loader n)
    (n_gdb n) (n_pydump_loader n) (n_timeout n).
Definition set_loader (v : str) : Namespace :=
  mkNamespace (n_pid n) (n_docker_container n) (n_file n) (n_str_repr_len n) (n_no_attribute n) (n_agent n) v
    (n_gdb n) (n_pydump_loader n) (n_timeout n).
Definition set_gdb (v : str) : Namespace :=
  mkNamespace (n_pid n) (n_docker_container n) (n_file n) (n_str_repr_len n) (n_no_attribute n) (n_agent n) (n_loader n)
    (Some v) (n_pydump_loader n) (n_timeout n).
Definition set_pydump_loader (v : str) : Namespace :=
  mkNamespace (n_pid n) (n_docker_container n) (n_file n) (n_str_repr_len n) (n_no_attribute n) (n_agent n) (n_loader n)
    (n_gdb n) (Some v) (n_timeout n).
Definition set_timeout_seconds (v : float) : Namespace :=
  mkNamespace (n_pid n) (n_docker_container n) (n_file n) (n_str_repr_len n) (n_no_attribute n) (n_agent n) (n_loader n)
    (n_gdb n) (n_pydump_loader n) v.
End Setters.

Section Parser.
Context `{Unicode}.

(** [type=int], [type=float] and [choices=[kind.value for kind in LoaderKind]] *)
Definition int_value (s : str) : result exc Z := or_value_error (int_of_str s).
Definition float_value (s : str) : result exc float :=
  match float_of_str s with Some x => mret x | None => Err (ValueError (lit "could not convert string to float")) end.
Definition loader_value (s : str) : result exc str :=
  if bool_decide (s ∈ kind_value <$> [AUTO; GDB; PTRACE]) then mret s
  else Err (ArgumentTypeError (lit "invalid choice")).

(** An option that converts its value and stores it *)
Definition storing {A} (convert : str → result exc A) (set : Namespace → A → Namespace) : action Namespace :=
  Store (λ s, (λ v n, set n v) <$> convert s).

Definition the_pid : argument Namespace := mkArgument [lit "--pid"; lit "-p"] (storing int_value set_pid).
Definition the_docker_container : argument Namespace :=
  mkArgument [lit "--docker-container"] (storing mret set_docker_container).
Definition the_file : argument Namespace := mkArgument [lit "--file"; lit "-f"] (storing (mret ∘ path_of) set_file).
Definition the_str_repr_len : argument Namespace :=
  mkArgument [lit "--str-repr-len"] (storing _str_repr_length set_str_repr_len).
Definition the_no_attribute : argument Namespace := mkArgument [lit "--no-attribute"] (StoreTrue set_no_attribute).
Definition the_agent : argument Namespace := mkArgument [lit "--agent"] (storing (mret ∘ path_of) set_agent).
Definition the_loader : argument Namespace := mkArgument [lit "--loader"] (storing loader_value set_loader).
Definition the_gdb : argument Namespace := mkArgument [lit "--gdb"] (storing (mret ∘ path_text) set_gdb).
Definition the_pydump_loader : argument Namespace :=
  mkArgument [lit "--pydump-loader"] (storing (mret ∘ path_text) set_pydump_loader).
Definition the_timeout : argument Namespace := mkArgument [lit "--timeout"] (storing float_value set_timeout_seconds).

(** [parser()] *)
Definition parser : ArgParse.parser Namespace :=
  mkParser false
    [help_argument; mkArgument [lit "--version"] Version; the_pid; the_docker_container; the_file; the_str_repr_len;
     the_no_attribute; mkArgument [lit "--ignore-compatibility-checks"] (StoreTrue id);
     mkArgument [lit "--force-shadow"] (StoreTrue id); the_agent; the_loader; the_gdb; the_pydump_loader; the_timeout]
    [[lit "--pid"; lit "--docker-container"]]
    [[lit "--pid"; lit "--docker-container"]; [lit "--file"]]
    None.

(** The namespace as [run] reads it *)
Definition arguments_of (n : Namespace) : result stop Arguments :=
  match n_file n, loader_kind_of (n_loader n) with
  | Some file, Some loader =>
      mret (mkArguments (n_pid n) (n_docker_container n) file (n_str_repr_len n) (n_no_attribute n) (n_agent n) loader
              (n_gdb n) (n_pydump_loader n) (n_timeout n))
  | None, _ => Err (Raises TypeError)
  | _, None => Err (Raises (ValueError (lit "not a valid LoaderKind")))
  end.

(** [parser().parse_args()], on the words after the program's name *)
Definition parse (argv : list str) : result stop Arguments := n ← parse_args parser argv defaults; arguments_of n.
End Parser.

(** ** The machine *)

(** What one [accept] comes to *)
Inductive acceptance := Connects | TimesOut | Breaks (reason : str) | Interrupted.

(** What it raises where it neither connects nor times out *)
Definition broken (a : acceptance) : option exc :=
  match a with
  | Breaks reason => Some (OSError reason)
  | Interrupted => Some KeyboardInterrupt
  | _ => None
  end.

Record Surroundings := mkSurroundings {
  docker : option str;
  docker_inspect : str → str → result exc Completed;
  package : str;               (** the directory of the loader package *)
  agents : str;                (** the directory of the bundled Agents *)
  path_exists : str → bool;
  pointer_size : Z;            (** [struct.calcsize("P")] *)
  command_file_name : str;     (** the temporary name of GDB's command file *)
  gdb_helper : Gdb.Helper;
  copy : copying;
  entropy : bytes;             (** [os.urandom(16)] *)
  temporary_directory : result exc str;   (** the random name [mkdtemp] takes, or its error *)
  prepare_socket : result exc unit;       (** [chown], [chmod], [bind] and [listen] *)
  attach_started : Z;          (** the clock, in nanoseconds: when the loader's thread starts, *)
  monotonic : nat → Z;         (** at the head of each round, *)
  session_started : Z;         (** when the connection is there, *)
  readings : Readings;         (** during the session, *)
  progress_clock : nat → Z;    (** at each report of progress, *)
  saved : Z;                   (** and at the end *)
  incoming : nat → acceptance; (** each round's [accept] *)
  finished : nat → bool;       (** has the loader's thread ended when a round ends? *)
  finished_after : bool;       (** and [arguments.timeout] after the session? *)
  created_at : str;
  storage : Disk;
  ru_maxrss : Z;
}.

(** What the command works on: the Collector's world, the temporary directories
    and standard output *)
Record Host := mkHost { world : World; directories : list str; printed : str }.

Module Cli.
Abbreviation R := (M Host exc).

Definition print (line : str) : R unit := modify (λ h, mkHost (world h) (directories h) (printed h ++ line ++ [10])).

Definition on_files {A} (m : M Files exc A) : R A := λ h,
  let '(r, fs) := m (files (world h)) in (r, mkHost (set_files fs (world h)) (directories h) (printed h)).

(** [with tempfile.TemporaryDirectory(...) as host_temp: body] *)
Definition with_directory {A} (name : result exc str) (parent : str) (body : str → R A) : R A :=
  name ← lift name;
  let host_temp := parent ++ lit "/" ++ name in
  modify (λ h, mkHost (world h) (host_temp :: directories h) (printed h));;
  finally (body name)
    (modify (λ h, mkHost (world h) (filter (λ d, d ≠ host_temp) (directories h)) (printed h))).

Section Run.
Context `{SetOrder} `{Unicode} `{Interpreter} `{OperatingSystem} (e : Surroundings).

(** [_bundled_agent] *)
Definition bundled_name (version : Z * Z) : str :=
  lit "pydump-agent-" ++ dotted version ++ lit "-" ++ uname_machine ++ lit ".so".

Definition _bundled_agent (version : Z * Z) : result exc Path :=
  let name := bundled_name version in
  if path_exists e (agents e ++ lit "/" ++ name) then mret (agents e, name)
  else Err (PydumpError (lit "no bundled agent " ++ name ++ lit "; pass --agent with a matching build")).

(** *** Waiting for the Agent *)

Definition poll : Z := 100000000.

(** [if loader_error: raise loader_error[0]] *)
Definition raise_loader_error (loader_error : option exc) : result exc unit :=
  match loader_error with Some error => Err error | None => mret tt end.

(** [socket.settimeout(x)] *)
Definition set_timeout (x : float) : result exc unit :=
  match float_mul x (float_of_Z 1000000000) with
  | NaN => Err (ValueError (lit "Invalid value NaN (not a number)"))
  | Infinity _ => Err OverflowError
  | Finite negative m e =>
      if (2 ^ 63 <? m * 2 ^ Z.max 0 e) then Err OverflowError
      else if (nanoseconds x <? 0) || (2 ^ 63 - 1 <? nanoseconds x) then Err (ValueError (lit "Timeout value out of range"))
      else mret tt
  end.

(** The loop around [accept]: the round that got the connection. [outcome] is
    what the loader's thread ends with.  The deadline is computed in whole
    nanoseconds; the doubles of the source differ from it by their rounding. *)
Fixpoint accept_loop (args : Arguments) (t : Target) (outcome : option exc) (fuel : nat) (round : nat) : result exc nat :=
  match fuel with
  | O => Err OutOfFuel
  | S fuel =>
      let remaining := attach_started e + nanoseconds (a_timeout args) - monotonic e round in
      if remaining <=? 0 then
        raise_loader_error outcome;;
        Err (PydumpError (lit "agent for PID " ++ dec_string (host_pid t) ++ lit " did not connect within "
                          ++ format_general (a_timeout args) ++ lit "s"))
      else
        match incoming e round with
        | Connects => mret round
        | Breaks reason => Err (OSError reason)
        | Interrupted => Err KeyboardInterrupt
        | TimesOut =>
            raise_loader_error (if finished e round then outcome else None);;
            accept_loop args t outcome fuel (S round)
        end
  end.

(** One round per poll, one for what is left, one to find the time is up *)
Definition rounds (args : Arguments) : nat := S (S (Z.to_nat (nanoseconds (a_timeout args) / poll))).

(** *** The session *)

Definition request_for (args : Arguments) (t : Target) (agent_target_path directory : str) : LoadRequest :=
  mkLoadRequest t agent_target_path (lit "/tmp/" ++ directory ++ lit "/collector.sock") (entropy e) (a_timeout args).

(** What the thread [load_agent] leaves in [loader_error] *)
Definition loader_error (loader : AgentLoader) (request : LoadRequest) : option exc :=
  match loader_start (command_file_name e) loader request with Ok _ => None | Err error => Some error end.

Definition batch_size : Z := 256.

(** *** Output *)

(** The callback [progress] *)
Definition progress_line (i : nat) (done remain : Z) : str :=
  format_fixed 2 (seconds_between (r_started (readings e)) (progress_clock e i)) ++ lit " seconds passed, " ++ dec_string done
  ++ lit " objects done, " ++ dec_string remain ++ lit " remain (more may be added)" ++ [13].

Definition progress_text (calls : list (Z * Z)) : str :=
  concat (imap (λ i '(done, remain), progress_line i done remain) calls).

(** [collector.capture(connection, arguments.file)], with what it prints *)
Definition capture_session (self : Collector) (output : Path) : R (Path * Z) := λ h,
  let '(r, w) := capture self (created_at e) (storage e) output (world h) in
  (r, mkHost w (directories h) (printed h ++ progress_text (drop (length (w_progress (world h))) (w_progress w)))).

(** [n / d] of two integers, [d] positive *)
Definition divided (n d : Z) : float := round_quotient (n <? 0) (Z.abs n) d.
Definition mebibyte : Z := Z.shiftl 1 20.

Definition object_rate (stats : CaptureStats) : float :=
  let seconds := objects_seconds (readings e) in
  if float_true seconds then float_div (float_of_Z (object_count stats)) seconds else float_of_Z 0.

Definition wire_rate (stats : CaptureStats) : float :=
  let pause := target_pause_seconds (readings e) in
  if float_true pause then float_div (float_div (float_of_Z (wire_received_bytes stats)) pause) (float_of_Z mebibyte)
  else float_of_Z 0.

Definition profile_line (attach_seconds : float) : str :=
  let seconds x := format_fixed 2 x ++ lit "s" in
  lit "Capture profile: attach=" ++ seconds attach_seconds
  ++ lit ", hello-wait=" ++ seconds (hello_wait_seconds (readings e))
  ++ lit ", setup=" ++ seconds (setup_seconds (readings e))
  ++ lit ", roots=" ++ seconds (roots_seconds (readings e))
  ++ lit ", objects=" ++ seconds (objects_seconds (readings e))
  ++ lit ", target-pause" ++ [0x2248] ++ seconds (target_pause_seconds (readings e))
  ++ lit ", finalize=" ++ seconds (artifact_finalize_seconds (readings e)).

Definition throughput_line (stats : CaptureStats) : str :=
  lit "Capture throughput: " ++ format_grouped 0 (object_rate stats) ++ lit " objects/s, "
  ++ format_fixed 1 (wire_rate stats) ++ lit " MiB/s wire, "
  ++ grouped (referent_count stats) ++ lit " referents, "
  ++ grouped (wire_received_frames stats) ++ lit " received frames, "
  ++ grouped (wire_sent_frames stats) ++ lit " sent frames, " ++ grouped (bulk_records stats) ++ lit " bulk records".

Definition peaks_line (stats : CaptureStats) : str :=
  lit "Collector peaks: pending=" ++ grouped (pending_peak stats) ++ lit ", scheduled=" ++ grouped (scheduled_peak stats)
  ++ lit ", max-rss=" ++ format_fixed 1 (divided (_max_rss_bytes platform (ru_maxrss e)) mebibyte)
  ++ lit " MiB, artifact=" ++ format_fixed 1 (divided (artifact_bytes stats) mebibyte) ++ lit " MiB".

Definition _print_stats (stats : CaptureStats) (attach_seconds : float) : R unit :=
  print (profile_line attach_seconds);;
  print (throughput_line stats);;
  print (peaks_line stats).

(** *** What happens in the temporary directory *)

Definition session (args : Arguments) (t : Target) (loader : AgentLoader) (request : LoadRequest) : R Path :=
  '(uid, gid) ← lift (fs_owner procs t);
  lift (prepare_socket e);;
  lift (set_timeout (a_timeout args));;
  let outcome := loader_error loader request in
  _ ← lift (accept_loop args t outcome (rounds args) 0);
  self ← lift (new_collector (nonce request) (a_str_repr_len args) (negb (a_no_attribute args)) batch_size true);
  '(path, count) ← capture_session self (a_file args);
  lift (raise_loader_error (if finished_after e then outcome else None));;
  print [];;
  print (lit "Heap file saved: " ++ path_str path ++ lit " (" ++ dec_string count ++ lit " objects, "
         ++ format_fixed 2 (seconds_between (session_started e) (saved e)) ++ lit "s)");;
  h ← get;
  _print_stats (w_stats (world h)) (seconds_between (attach_started e) (session_started e));;
  mret path.

(** [run(arguments)] *)
Definition run (args : Arguments) : R Path :=
  t ← lift (resolve_target procs (docker e) (docker_inspect e) (a_pid args) (a_docker_container args));
  agent ← lift (match a_agent args with Some agent => mret agent | None => _bundled_agent (python_minor t) end);
  lift (verify_agent (is_file ∘ path_str) (pointer_size e) agent t);;
  loader ← lift (select_loader (package e) (command_file_name e) (gdb_helper e) t (a_loader args)
                   (a_gdb args) (a_pydump_loader args) []).1;
  '(_, agent_target_path) ← on_files (install_agent (copy e) t agent);
  print (lit "Loader: " ++ kind_value (loader_kind loader) ++ lit " (" ++ loader_executable loader ++ lit ")");;
  with_directory (temporary_directory e) (root t ++ lit "/tmp") (λ directory,
    session args t loader (request_for args t agent_target_path directory)).
End Run.

(** ** [main] *)

(** How the process ends: its exit code and its last words, those of the parser
    left out, or a traceback *)
Inductive ending :=
| Exit (code : Z) (message : str)
| ParserExit (code : Z)
| Traceback (error : exc).

Definition main (outcome : result exc Path) : ending :=
  match outcome with
  | Ok _ => Exit 0 []
  | Err KeyboardInterrupt => Exit 130 (lit "pydump interrupted")
  | Err error => if is_PydumpError error then Exit 1 (lit "pydump failed: " ++ exc_text error) else Traceback error
  end.

(** The program: [main] with its command line *)
Definition pydump `{SetOrder} `{Unicode} `{Interpreter} `{OperatingSystem} (e : Surroundings) (argv : list str) (h : Host) : ending * Host :=
  match parse argv with
  | Ok args => let '(r, h) := run e args h in (main r, h)
  | Err (Exits code) => (ParserExit code, h)
  | Err (Raises error) => (main (Err error), h)
  end.
End Cli.
