(* ===== verification/CaptureParser.v ===== *)
(** * The capture command's parser: properties

    Which command lines are accepted, what the arguments then satisfy, and that
    every arguments can be given on a command line. *)
From stdpp Require Import base tactics numbers list gmap strings.
From S2P Require Import Prelude PyData Struct Text StrOps Floats Paths Errors ArgParse LoaderModel CaptureCli.

Section Parsing.
Context `{Unicode}.

(** ** What the parser accepts *)

(** What holds of the namespace and the options seen at every moment *)
Record parsing_wf (st : parsing Namespace) : Prop := {
  wf_pid : is_Some (n_pid (namespace st)) ↔ lit "--pid" ∈ seen st;
  wf_docker : is_Some (n_docker_container (namespace st)) ↔ lit "--docker-container" ∈ seen st;
  wf_one : ¬ (lit "--pid" ∈ seen st ∧ lit "--docker-container" ∈ seen st);
  wf_file : is_Some (n_file (namespace st)) ↔ lit "--file" ∈ seen st;
  wf_len : -1 <= n_str_repr_len (namespace st);
  wf_loader : n_loader (namespace st) ∈ kind_value <$> [AUTO; GDB; PTRACE];
}.

Definition asks (s : str) : bool := existsb (λ name, starts_with name s) [lit "-h"; lit "--help"; lit "--version"].

(** Ways for the parser to end the process on the words [argv] *)
Definition stops (argv : list str) (e : stop) : Prop :=
  e = Exits 2 ∨ (e = Exits 0 ∧ ∃ s, s ∈ argv ∧ asks s = true).

Lemma storing_keeps {A} argv a (convert : str → result exc A) set option_string explicit next st :
  act a = storing convert set →
  (∀ v, match convert v with
        | Ok x => conflicts parser a st = false → parsing_wf (mkParsing (set (namespace st) x) (name_of a :: seen st) (extras st))
        | Err e => refuses e = true
        end) →
  keeps parsing_wf (stops argv) fst (take_option parser a option_string explicit next st).
Proof.
  intros Ha Hc. eapply take_option_value; [exact Ha|by left|]. intros v. specialize (Hc v).
  cbv beta. destruct (convert v); exact Hc.
Qed.

(** An option that exits, whatever is in its word *)
Lemma exiting_keeps argv s a option_string explicit next st :
  act a = Help ∨ act a = Version → s ∈ argv → asks s = true →
  keeps parsing_wf (stops argv) fst (take_option parser a option_string explicit next st).
Proof.
  intros Ha Hs Hasks. assert (takes_value a = None) as Hv by (unfold takes_value; by destruct Ha as [-> | ->]).
  assert (∀ flags st, take_flags parser (a :: flags) st = Err (Exits 0)) as Hexit
    by (intros; cbn; unfold take_flag; by destruct Ha as [-> | ->]).
  assert (stops argv (Exits 0)) as H0 by (right; split; [done|by exists s]).
  assert (stops argv (Exits 2)) as H2 by by left.
  unfold take_option. rewrite Hv. destruct explicit as [tail|].
  - destruct (_ || _); [exact H2|]. destruct (tail_options parser tail) as [[flags [[b ex]|]]|]; [| |exact H2].
    + destruct (negb _); [exact H2|]. rewrite Hexit. exact H0.
    + rewrite Hexit. exact H0.
  - pose proof (Hexit [] st) as He. cbn [take_flags] in He. destruct (take_flag parser a st) as [st'|e]; [done|].
    injection He as ->. exact H0.
Qed.

(** A long option without a value *)
Lemma flag_keeps argv a f option_string explicit next st :
  act a = StoreTrue f → take 2 option_string = lit "--" →
  (conflicts parser a st = false → parsing_wf (mkParsing (f (namespace st)) (name_of a :: seen st) (extras st))) →
  keeps parsing_wf (stops argv) fst (take_option parser a option_string explicit next st).
Proof.
  intros Ha Hlong Hwf. unfold take_option, takes_value, take_flag. rewrite Ha, Hlong.
  destruct explicit; [by left|]. destruct (conflicts parser a st); [by left|]. by apply Hwf.
Qed.

(** An option was seen; the group's other one was not. *)
Lemma wf_seen st n name :
  parsing_wf st →
  (is_Some (n_pid n) ↔ name = lit "--pid" ∨ is_Some (n_pid (namespace st))) →
  (is_Some (n_docker_container n) ↔ name = lit "--docker-container" ∨ is_Some (n_docker_container (namespace st))) →
  (is_Some (n_file n) ↔ name = lit "--file" ∨ is_Some (n_file (namespace st))) →
  (name = lit "--pid" → lit "--docker-container" ∉ seen st) →
  (name = lit "--docker-container" → lit "--pid" ∉ seen st) →
  -1 <= n_str_repr_len n → n_loader n ∈ kind_value <$> [AUTO; GDB; PTRACE] →
  parsing_wf (mkParsing n (name :: seen st) (extras st)).
Proof.
  intros [Hp Hd Ho Hf _ _] Hp' Hd' Hf' Hxp Hxd Hlen Hload.
  assert (lit "--pid" ≠ lit "--docker-container") as Hne by done.
  constructor; cbn [namespace seen]; rewrite ?elem_of_cons; [| | | |done|done]; [naive_solver..|].
  all: naive_solver congruence.
Qed.

(** Options that store something else than the target or the file *)
Lemma wf_other st n name :
  parsing_wf st → name ∉ [lit "--pid"; lit "--docker-container"; lit "--file"] →
  n_pid n = n_pid (namespace st) → n_docker_container n = n_docker_container (namespace st) → n_file n = n_file (namespace st) →
  -1 <= n_str_repr_len n → n_loader n ∈ kind_value <$> [AUTO; GDB; PTRACE] →
  parsing_wf (mkParsing n (name :: seen st) (extras st)).
Proof.
  rewrite !not_elem_of_cons. intros Hwf (Hp & Hd & Hf & _) E1 E2 E3 ? ?.
  apply wf_seen; rewrite ?E1, ?E2, ?E3; naive_solver.
Qed.

Lemma take_option_keeps argv s a option_string explicit next st :
  s ∈ argv → word_ok parser (s, Flag (Some a) option_string explicit) → parsing_wf st →
  keeps parsing_wf (stops argv) fst (take_option parser a option_string explicit next st).
Proof.
  intros Hs (Ha & Hname & Hword) Hwf. specialize (Hword eq_refl). cbn [fst] in Hword.
  assert (∀ name, name ∈ [lit "-h"; lit "--help"; lit "--version"] → option_string = name → asks s = true) as Hasks.
  { intros name Hin ->. unfold asks. apply existsb_exists. exists name. split; [by apply list_elem_of_In|done]. }
  pose proof (wf_len _ Hwf) as Hlen. pose proof (wf_loader _ Hwf) as Hload.
  assert (∀ x : str, x ∉ [lit "--pid"; lit "--docker-container"; lit "--file"] ↔
          bool_decide (x ∈ [lit "--pid"; lit "--docker-container"; lit "--file"]) = false) as Hother
    by (intros; by rewrite bool_decide_eq_false).
  cbn [arguments parser] in Ha. repeat apply elem_of_cons in Ha as [->|Ha]; [..|by apply not_elem_of_nil in Ha].
  all: try (cbn [option_strings help_argument] in Hname; repeat apply elem_of_cons in Hname as [->|Hname];
    [..|by apply not_elem_of_nil in Hname];
    (apply exiting_keeps with s; [by (left + right)|done|eapply Hasks; [|reflexivity]; set_solver])).
  all: try (apply list_elem_of_singleton in Hname as ->; eapply flag_keeps;
    [reflexivity|reflexivity|intros _; apply wf_other; [done|apply Hother; vm_compute; reflexivity|done..]]).
  all: eapply storing_keeps; [reflexivity|intros v].
  - unfold int_value. destruct (int_of_str v) as [x|]; [|done]. intros Hc.
    eapply no_conflict with (other := lit "--docker-container") in Hc; [|by left|by left|by right; left|done].
    apply wf_seen; try done; naive_solver.
  - intros Hc. eapply no_conflict with (other := lit "--pid") in Hc; [|by left|by right; left|by left|done].
    apply wf_seen; try done; naive_solver.
  - intros _. apply wf_seen; try done; naive_solver.
  - unfold _str_repr_length. destruct (int_of_str v) as [x|]; [|done]. cbn [or_value_error mbind result_bind].
    destruct (Z.ltb_spec x (-1)); [done|]. intros _. apply wf_other; [done|apply Hother; vm_compute; reflexivity|done..].
  - intros _. apply wf_other; [done|apply Hother; vm_compute; reflexivity|done..].
  - unfold loader_value. case_bool_decide; [|done]. intros _.
    apply wf_other; [done|apply Hother; vm_compute; reflexivity|done..].
  - intros _. apply wf_other; [done|apply Hother; vm_compute; reflexivity|done..].
  - intros _. apply wf_other; [done|apply Hother; vm_compute; reflexivity|done..].
  - unfold float_value. destruct (float_of_str v); [|done]. intros _.
    apply wf_other; [done|apply Hother; vm_compute; reflexivity|done..].
Qed.

(** C14: the parser takes every command line to arguments, or ends the process:
    with code 2, or with code 0 when a word asks for the help or the version.
    Arguments that are accepted name exactly one target, by PID or by container,
    and bound the previews by -1 from below; that there is a file and a known
    loader is part of their type. A timeout the socket refuses is accepted here. *)
Theorem accepted_arguments argv :
  match parse argv with
  | Ok args => (is_Some (a_pid args) ↔ a_docker_container args = None) ∧ -1 <= a_str_repr_len args
  | Err e => stops argv e
  end.
Proof.
  unfold parse, parse_args, parse_known_args.
  destruct (classify_all parser argv) as [ws|] eqn:Hws; [|by left].
  apply classify_all_ok in Hws as [<- Hok]. cbn [mbind result_bind mret result_ret].
  assert (keeps parsing_wf (stops ws.*1) id (consume parser 0 ws (mkParsing defaults [] false))) as Hkeeps.
  { apply consume_keeps.
    - done.
    - by intros ? [].
    - intros s a name explicit next st Hin Hst. apply take_option_keeps with s; [|by rewrite Forall_forall in Hok; apply Hok|done].
      apply list_elem_of_fmap. by exists (s, Flag (Some a) name explicit).
    - constructor; cbn; set_solver by (by vm_compute). }
  destruct (consume parser 0 ws _) as [st|e]; [|exact Hkeeps]. cbn [mbind result_bind].
  destruct (forallb _ _) eqn:Hreq; [|by left]. cbn [mbind result_bind mret result_ret].
  destruct (extras st); [by left|]. cbn [mbind result_bind mret result_ret].
  destruct Hkeeps as [Hp Hd Ho Hf Hlen Hload]. cbn [id] in *.
  change (required parser) with [[lit "--pid"; lit "--docker-container"]; [lit "--file"]] in Hreq.
  cbn [forallb existsb] in Hreq.
  rewrite !andb_true_iff, !orb_true_iff, !bool_decide_eq_true in Hreq.
  destruct Hreq as (Htarget & [Hfile|] & _); [|done]. apply Hf in Hfile as [file Hfile].
  unfold arguments_of. rewrite Hfile.
  assert (is_Some (loader_kind_of (n_loader (namespace st)))) as [k Hk].
  { apply elem_of_cons in Hload as [->|[->|[->|[]%not_elem_of_nil]%elem_of_cons]%elem_of_cons]; by eexists. }
  rewrite Hk. cbn [a_pid a_docker_container a_str_repr_len]. split; [|done].
  rewrite eq_None_not_Some, Hp, Hd. destruct Htarget as [?|[?|?]]; [tauto|tauto|done].
Qed.
(** ** Command lines for given arguments *)

Section Given.
Context (joined : str → bool) (timeout_text : str) (args : Arguments).

(** The words for one option; [joined] tells which options have their value in the
    same word. *)
Definition option_of (o v : str) : list str := option_words (joined o) o v.
Definition optional_of {A} (o : str) (show : A → str) (x : option A) : list str :=
  match x with Some v => option_of o (show v) | None => [] end.

Definition words_of : list str :=
  optional_of (lit "--pid") dec_string (a_pid args)
  ++ optional_of (lit "--docker-container") id (a_docker_container args)
  ++ option_of (lit "--file") (path_str (a_file args))
  ++ option_of (lit "--str-repr-len") (dec_string (a_str_repr_len args))
  ++ (if a_no_attribute args then [lit "--no-attribute"] else [])
  ++ optional_of (lit "--agent") path_str (a_agent args)
  ++ option_of (lit "--loader") (kind_value (a_loader args))
  ++ optional_of (lit "--gdb") id (a_gdb args)
  ++ optional_of (lit "--pydump-loader") id (a_pydump_loader args)
  ++ option_of (lit "--timeout") timeout_text.

(** A value in a word of its own does not start with a dash. *)
Definition fits (o v : str) : Prop := joined o || plain_value v = true.

(** Exactly one target; paths that are normal; a text for the timeout *)
Record given : Prop := {
  g_target : is_Some (a_pid args) ↔ a_docker_container args = None;
  g_len : -1 <= a_str_repr_len args;
  g_file : path_of (path_str (a_file args)) = a_file args;
  g_agent : ∀ p, a_agent args = Some p → path_of (path_str p) = p;
  g_gdb : ∀ s, a_gdb args = Some s → path_text s = s;
  g_pydump_loader : ∀ s, a_pydump_loader args = Some s → path_text s = s;
  g_timeout : float_of_str timeout_text = Some (a_timeout args);
  g_fits :
    (∀ n, a_pid args = Some n → fits (lit "--pid") (dec_string n)) ∧
    (∀ s, a_docker_container args = Some s → fits (lit "--docker-container") s) ∧
    fits (lit "--file") (path_str (a_file args)) ∧
    fits (lit "--str-repr-len") (dec_string (a_str_repr_len args)) ∧
    (∀ p, a_agent args = Some p → fits (lit "--agent") (path_str p)) ∧
    (∀ s, a_gdb args = Some s → fits (lit "--gdb") s) ∧
    (∀ s, a_pydump_loader args = Some s → fits (lit "--pydump-loader") s) ∧
    fits (lit "--timeout") timeout_text;
}.

Lemma reads_storing {A} (a : argument Namespace) o (convert : str → result exc A) set v x n l argv :
  find_option parser o = Some a → name_ok o = true → name_of a = o → act a = storing convert set → fits o v →
  convert v = Ok x → conflicts parser a (mkParsing n l false) = false →
  reads parser (option_of o v ++ argv) (mkParsing n l false) = reads parser argv (mkParsing (set n x) (o :: l) false).
Proof.
  intros Hf Ho <- Ha Hfit Hx Hc. unfold option_of. eapply reads_option; [reflexivity|done|done|exact Ha|done|].
  unfold take_value. cbv beta. rewrite Hx. cbn [fmap result_fmap]. by rewrite Hc.
Qed.

Definition optionally {A N} (set : N → A → N) (x : option A) (n : N) : N :=
  match x with Some v => set n v | None => n end.

Lemma reads_optional {A} (a : argument Namespace) o (show : A → str) (convert : str → result exc A) set x n l argv :
  find_option parser o = Some a → name_ok o = true → name_of a = o → act a = storing convert set →
  (∀ v, x = Some v → fits o (show v) ∧ convert (show v) = Ok v ∧ conflicts parser a (mkParsing n l false) = false) →
  reads parser (optional_of o show x ++ argv) (mkParsing n l false)
  = reads parser argv (mkParsing (optionally set x n) (optionally (λ l _, o :: l) x l) false).
Proof.
  intros Hf Ho Hn Ha Hx. destruct x as [v|]; [|done]. destruct (Hx v eq_refl) as (Hfit & Hv & Hc).
  by apply (reads_storing a o convert set (show v) v n l argv).
Qed.

Lemma reads_no_attribute (b : bool) n l argv :
  reads parser ((if b then [lit "--no-attribute"] else []) ++ argv) (mkParsing n l false)
  = reads parser argv (mkParsing (if b then set_no_attribute n else n) (if b then lit "--no-attribute" :: l else l) false).
Proof. destruct b; [|done]. by apply (reads_flag parser (lit "--no-attribute") the_no_attribute set_no_attribute). Qed.

Lemma loader_kind_value k : loader_kind_of (kind_value k) = Some k.
Proof. by destruct k. Qed.

Lemma loader_value_ok k : loader_value (kind_value k) = Ok (kind_value k).
Proof. by destruct k. Qed.

Lemma kind_fits k : fits (lit "--loader") (kind_value k).
Proof. unfold fits. apply orb_true_iff. right. by destruct k. Qed.

Lemma int_value_ok n : int_value (dec_string n) = Ok n.
Proof. unfold int_value. by rewrite int_of_dec_string. Qed.

Lemma str_repr_length_ok n : -1 <= n → _str_repr_length (dec_string n) = Ok n.
Proof.
  intros Hn. unfold _str_repr_length. rewrite int_of_dec_string. cbn [or_value_error mbind result_bind].
  by rewrite (proj2 (Z.ltb_ge _ _)) by lia.
Qed.

(** C15: every arguments can be given on a command line. For arguments with exactly
    one target, previews of at least -1 characters, normal paths and a text for
    the timeout, the words of their options, each with its value in the same word
    or in the next, where it must not look like an option, are parsed to exactly
    these arguments. *)
Theorem arguments_roundtrip : given → parse words_of = Ok args.
Proof.
  intros [Ht Hlen Hfile Hagent Hgdb Hloader Htime (F1 & F2 & F3 & F4 & F5 & F6 & F7 & F8)].
  unfold parse, parse_args. rewrite parse_known_args_reads. unfold words_of, defaults.
  rewrite (reads_optional the_pid _ dec_string int_value set_pid) by
    first [reflexivity|intros v Hv; split_and!; [by apply F1|apply int_value_ok|reflexivity]].
  rewrite (reads_optional the_docker_container _ id mret set_docker_container) by
    first [reflexivity|intros v Hv; split_and!; [by apply F2|done|];
           destruct (a_pid args); [rewrite (proj1 Ht) in Hv by done; done|reflexivity]].
  rewrite (reads_storing the_file _ (mret ∘ path_of) set_file _ (a_file args)) by
    first [reflexivity|done|cbn; by rewrite Hfile].
  rewrite (reads_storing the_str_repr_len _ _str_repr_length set_str_repr_len _ (a_str_repr_len args)) by
    first [reflexivity|done|by apply str_repr_length_ok].
  rewrite reads_no_attribute.
  rewrite (reads_optional the_agent _ path_str (mret ∘ path_of) set_agent) by
    first [reflexivity|intros v Hv; split_and!; [by apply F5|cbn; by rewrite Hagent|reflexivity]].
  rewrite (reads_storing the_loader _ loader_value set_loader _ (kind_value (a_loader args))) by
    first [reflexivity|apply kind_fits|apply loader_value_ok].
  rewrite (reads_optional the_gdb _ id (mret ∘ path_text) set_gdb) by
    first [reflexivity|intros v Hv; split_and!; [by apply F6|cbn; by rewrite Hgdb|reflexivity]].
  rewrite (reads_optional the_pydump_loader _ id (mret ∘ path_text) set_pydump_loader) by
    first [reflexivity|intros v Hv; split_and!; [by apply F7|cbn; by rewrite Hloader|reflexivity]].
  rewrite <- (app_nil_r (option_of (lit "--timeout") timeout_text)).
  rewrite (reads_storing the_timeout _ float_value set_timeout_seconds _ (a_timeout args)) by
    first [reflexivity|done|unfold float_value; by rewrite Htime].
  change (reads parser [] ?st) with (@Ok stop _ st). cbn [mbind result_bind].
  destruct args as [pid docker file len no_attribute agent loader gdb pydump_loader timeout].
  cbn [a_pid a_docker_container a_file a_str_repr_len a_no_attribute a_agent a_loader a_gdb a_pydump_loader a_timeout] in *.
  destruct pid as [pid|], docker as [docker|]; [by specialize (proj1 Ht (ltac:(by eexists)))| | |by destruct (proj2 Ht eq_refl)].
  all: destruct no_attribute, agent, gdb, pydump_loader, loader; reflexivity.
Qed.
End Given.
End Parsing.

(** ** Concrete command lines *)

Module ParserExample.
#[local] Existing Instance ascii_only.

Definition args : Arguments :=
  mkArguments None (Some (lit "-web")) (lit "/data", lit "heap file") (-1) true (Some (lit "agents", lit "pydump-agent-3.12.so"))
    PTRACE None (Some (lit "/opt/pydump-loader")) (float_of_decimal false 25 (-1)).

Definition joined (o : str) : bool := negb (bool_decide (o = lit "--file")).

Definition timeout_text : str := lit "2.5".
End ParserExample.

#[local] Existing Instance ascii_only.

Lemma arguments_roundtrip_witness :
  parse (lit <$> ["--docker-container=-web"; "--file"; "/data/heap file"; "--str-repr-len=-1"; "--no-attribute";
                  "--agent=agents/pydump-agent-3.12.so"; "--loader=ptrace"; "--pydump-loader=/opt/pydump-loader";
                  "--timeout=2.5"]%string) = Ok ParserExample.args.
Proof.
  apply (arguments_roundtrip ParserExample.joined ParserExample.timeout_text ParserExample.args). constructor.
  - cbn. split; [by intros [? ?]|done].
  - cbn. lia.
  - vm_compute. reflexivity.
  - intros p [= <-]. vm_compute. reflexivity.
  - done.
  - intros s [= <-]. vm_compute. reflexivity.
  - vm_compute. reflexivity.
  - split_and!; try done; intros s [= <-]; vm_compute; reflexivity.
Defined.

(** Both targets, a missing file, a value that is taken for an option, an
    abbreviation, an unknown loader *)
Example refused_lines :
  forallb (λ argv, bool_decide (is_ok (parse (lit <$> argv)) = false))
    [["--pid=1"; "--docker-container=x"; "--file=f"]; ["--pid=1"]; ["-p1"; "--file"; "-x"]; ["-p1"; "--fil=f"];
     ["-p1"; "-ff"; "--loader=lldb"]; ["-p1"; "-ff"; "--str-repr-len"; "-2"]; ["-p1"; "-ff"; "--"; "x"]]%string = true ∧
  parse (lit <$> ["-p1"; "-h"; "--nonsense"]%string) = Err (Exits 0).
Proof. split; vm_compute; reflexivity. Qed.

Example short_line :
  parse (lit <$> ["-fheap.pyheap"; "-p=12"; "--str-repr-len"; "-1"; "--pid"; "13"]%string)
  = Ok (mkArguments (Some 13) None ([], lit "heap.pyheap") (-1) false None AUTO None None (float_of_Z 30)).
Proof. vm_compute. reflexivity. Qed.
