(* ===== verification/CaptureCommand.v ===== *)
(** * The capture command: properties

    Waiting for the Agent ends in time and reports the loader's own failure; the
    bundled Agent fits; whatever happens, the files, the temporary directory and
    the exit code are accounted for. *)
From stdpp Require Import base tactics numbers list gmap strings.
From Stdlib Require Import Strings.Byte.
From S2P Require Import Prelude PyData Struct Text StrOps Floats Paths Digest Errors ArgParse Protocol CaptureModel HeapWriter Artifact.
From S2P Require Import Collector Capture Conforming SmallTarget Delivery Target Targets LoaderModel Loader Loaders CaptureCli.

Import Cli.

(** ** Waiting *)

Section Accepting.
Context (e : Surroundings) (args : Arguments) (t : Target) (outcome : option exc).

Definition remaining (round : nat) : Z := attach_started e + nanoseconds (a_timeout args) - monotonic e round.

(** [accept] waits as long as it was told to: the shorter of a poll and what is
    left. *)
Definition clock_advances : Prop :=
  attach_started e <= monotonic e 0 ∧
  ∀ round, 0 < remaining round → incoming e round = TimesOut →
    monotonic e round + Z.min poll (remaining round) <= monotonic e (S round).

Lemma poll_pos : 0 < poll.
Proof. done. Qed.

(** Rounds enough for what remains *)
Lemma accept_loop_ends fuel round :
  clock_advances →
  (if remaining round <=? 0 then 1 else 2 + remaining round / poll) <= Z.of_nat fuel →
  outcome ≠ Some OutOfFuel →
  accept_loop e args t outcome fuel round ≠ Err OutOfFuel.
Proof.
  intros (_ & Hclock) Hf Hout. pose proof poll_pos as Hpoll. revert round Hf. induction fuel as [|fuel IH]; intros round Hf.
  { exfalso. destruct (Z.leb_spec (remaining round) 0); [lia|].
    pose proof (Z.div_pos (remaining round) poll). lia. }
  cbn [accept_loop]. fold (remaining round). destruct (Z.leb_spec (remaining round) 0) as [Hr|Hr].
  { destruct outcome as [x|]; [|done]. cbn. congruence. }
  destruct (incoming e round) eqn:Hin; [done| |done..].
  assert (accept_loop e args t outcome fuel (S round) ≠ Err OutOfFuel) as Hnext.
  { apply IH. pose proof (Hclock round Hr Hin) as Hc. unfold remaining in *.
    set (r := attach_started e + nanoseconds (a_timeout args) - monotonic e round) in *.
    set (r' := attach_started e + nanoseconds (a_timeout args) - monotonic e (S round)) in *.
    destruct (Z.leb_spec r' 0); [pose proof (Z.div_pos r poll); lia|].
    assert (r' <= r - poll) as Hle by lia.
    assert (r' / poll <= (r + (-1) * poll) / poll) as Hd by (apply Z.div_le_mono; lia).
    rewrite Z.div_add in Hd by lia. lia. }
  destruct (finished e round); [|exact Hnext]. destruct outcome as [x|]; [cbn; congruence|exact Hnext].
Qed.

Lemma rounds_enough : clock_advances →
  (if remaining 0 <=? 0 then 1 else 2 + remaining 0 / poll) <= Z.of_nat (rounds args).
Proof.
  intros (Hstart & _). pose proof poll_pos as Hpoll. unfold rounds. destruct (Z.leb_spec (remaining 0) 0); [lia|].
  assert (remaining 0 / poll <= nanoseconds (a_timeout args) / poll) as Hle
    by (apply Z.div_le_mono; [done|unfold remaining; lia]).
  pose proof (Z.div_pos (remaining 0) poll). lia.
Qed.

(** What the loop's result says about the rounds *)
Lemma accept_loop_result fuel round :
  match accept_loop e args t outcome fuel round with
  | Ok n =>
      (round ≤ n)%nat ∧ incoming e n = Connects ∧ 0 < remaining n ∧
      ∀ i, (round ≤ i < n)%nat → incoming e i = TimesOut ∧ (finished e i = true → outcome = None)
  | Err error =>
      outcome = Some error ∨
      (outcome = None ∧ is_PydumpError error = true ∧ ∃ n, (round ≤ n)%nat ∧ remaining n <= 0 ∧
         ∀ i, (round ≤ i < n)%nat → incoming e i = TimesOut) ∨
      (∃ n, broken (incoming e n) = Some error) ∨
      error = OutOfFuel
  end.
Proof.
  revert round. induction fuel as [|fuel IH]; intros round; cbn [accept_loop]; [by do 3 right|].
  fold (remaining round). destruct (Z.leb_spec (remaining round) 0) as [Hr|Hr].
  { destruct outcome as [x|]; cbn; [by left|]. right. left. split_and!; [done|done|].
    exists round. split_and!; [lia|done|intros; lia]. }
  destruct (incoming e round) as [| |reason|] eqn:Hin.
  - cbn. split_and!; [lia|done|done|intros; lia].
  - specialize (IH (S round)). destruct (finished e round) eqn:Hf, outcome as [x|] eqn:Ho; cbn [raise_loader_error mbind result_bind];
      try (by left).
    all: destruct (accept_loop e args t _ fuel (S round)) as [n|error].
    all: try (destruct IH as (Hn & Hc & Hrem & Hall); split_and!; [lia|done|done|];
      intros i Hi; destruct (decide (i = round)) as [->|]; [split; [done|congruence]|apply Hall; lia]).
    all: destruct IH as [IH|[(Ho' & Hp & n & Hn & Hrem & Hall)|IH]]; [by left| |by do 2 right].
    all: right; left; split_and!; [done|done|]; exists n; split_and!; [lia|done|];
      intros i Hi; destruct (decide (i = round)) as [->|]; [done|apply Hall; lia].
  - right. right. left. exists round. by rewrite Hin.
  - right. right. left. exists round. by rewrite Hin.
Qed.

(** C13: waiting for the Agent. When the clock advances while [accept] waits, the
    loop ends within two rounds more than there are polls in the timeout. It ends
    with a connection made before the deadline, no failure of the loader having
    been seen; with the loader's own error; with the generic timeout only when
    the deadline has passed and the loader ended without one; or with what broke
    [accept]. *)
Theorem accept_loop_correct :
  clock_advances → outcome ≠ Some OutOfFuel →
  match accept_loop e args t outcome (rounds args) 0 with
  | Ok n =>
      incoming e n = Connects ∧ monotonic e n < attach_started e + nanoseconds (a_timeout args) ∧
      ∀ i, (i < n)%nat → incoming e i = TimesOut ∧ (finished e i = true → outcome = None)
  | Err error =>
      outcome = Some error ∨
      (outcome = None ∧ is_PydumpError error = true ∧
       ∃ n, attach_started e + nanoseconds (a_timeout args) <= monotonic e n ∧ ∀ i, (i < n)%nat → incoming e i = TimesOut) ∨
      ∃ n, broken (incoming e n) = Some error
  end.
Proof.
  intros Hclock Hout. pose proof (accept_loop_ends (rounds args) 0 Hclock (rounds_enough Hclock) Hout) as Hends.
  pose proof (accept_loop_result (rounds args) 0) as Hr. unfold remaining in Hr.
  destruct (accept_loop e args t outcome (rounds args) 0) as [n|error].
  - destruct Hr as (_ & Hc & Hrem & Hall). split_and!; [done|lia|]. intros i Hi. apply Hall. lia.
  - destruct Hr as [Hr|[(Ho & Hp & n & _ & Hrem & Hall)|[Hr| ->]]]; [by left| |by do 2 right|done].
    right. left. split_and!; [done|done|]. exists n. split; [lia|]. intros i Hi. apply Hall. lia.
Qed.
End Accepting.

(** ** The bundled Agent *)

(** C34: the Agent that comes with the Collector for a version is accepted for a
    target of that minor version, and for no other. *)
Theorem bundled_agent_fits `{Unicode} `{OperatingSystem} e version agent t :
  version_wf version → version_wf (python_minor t) → contains (lit "agent-") (uname_machine ++ lit ".so") = false →
  _bundled_agent e version = Ok agent → is_file (path_str agent) = true → pointer_size e = 8 →
  verify_agent (is_file ∘ path_str) (pointer_size e) agent t = Ok tt ↔ python_minor t = version.
Proof.
  intros Hv Ht Hm. unfold _bundled_agent. destruct (path_exists _ _); [|done]. intros [= <-] Hf Hp.
  unfold verify_agent. cbn [compose fst snd]. rewrite Hf, Hp. cbn [negb]. unfold bundled_name.
  rewrite agent_name_fits by done. case_bool_decide as E; cbn [negb]; [by split|]. by split.
Qed.

(** ** The whole command *)

Section Running.
Context `{SetOrder} `{Unicode} `{Interpreter} `{OperatingSystem} (e : Surroundings) (args : Arguments).

(** The Collector [run] makes *)
Definition collector : Collector :=
  mkCollector (entropy e) (a_str_repr_len args) (negb (a_no_attribute args)) batch_size true.

(** An artifact was delivered to [path] among the files [fs]. *)
Definition delivered (fs fs' : Files) (path : Path) : Prop :=
  available_output_path (storage e) fs (a_file args) = Ok path ∧ path_taken (storage e) fs path = false ∧
  ∃ contents, validate_artifact (path_str (temporary_path collector path)) contents = Ok tt ∧
    fs' = <[path := contents]> fs.

(** What the session does to the files *)
Lemma session_files t loader request h :
  nonce request = entropy e →
  let '(r, h') := session e args t loader request h in
  directories h' = directories h ∧
  match r with
  | Ok path => delivered (files (world h)) (files (world h')) path ∧
               (finished_after e = true → loader_error e loader request = None)
  | Err error =>
      files (world h') = files (world h) ∨
      (∃ path, available_output_path (storage e) (files (world h)) (a_file args) = Ok path ∧
         abandoned (storage e) (temporary_path collector path) (files (world h)) (files (world h'))) ∨
      (∃ path, delivered (files (world h)) (files (world h')) path ∧
         finished_after e = true ∧ loader_error e loader request = Some error)
  end.
Proof.
  intros Hn. unfold session. destruct (fs_owner procs t) as [[uid gid]|err]; [|by split; [|left]].
  erewrite bind_ok by reflexivity. destruct (prepare_socket e) as [[]|err]; [|by split; [|left]].
  erewrite bind_ok by reflexivity. destruct (set_timeout (a_timeout args)) as [[]|err]; [|by split; [|left]].
  erewrite bind_ok by reflexivity. set (outcome := loader_error e loader request).
  destruct (accept_loop e args t outcome (rounds args) 0) as [n|err]; [|by split; [|left]].
  erewrite bind_ok by reflexivity. unfold new_collector. rewrite Hn.
  destruct (length (entropy e) =? NONCE_SIZE)%nat; [|by split; [|left]].
  erewrite bind_ok by reflexivity. fold collector.
  pose proof (capture_run collector (created_at e) (storage e) (a_file args) (world h)) as Hc.
  destruct (capture collector (created_at e) (storage e) (a_file args) (world h))
    as [[[path count]|err] w'] eqn:Hcap.
  - erewrite bind_ok by (unfold capture_session; rewrite Hcap; reflexivity). cbv beta iota.
    destruct Hc as (Hav & Hfree & s & _ & Hv & Hfiles).
    assert (delivered (files (world h)) (files w') path) as Hd by (split; [done|]; split; [done|]; by eexists).
    destruct (finished_after e) eqn:Hfin; [destruct outcome as [x|] eqn:Hout|].
    + split; [done|]. right. right. by exists path.
    + by split.
    + by split.
  - erewrite bind_err by (unfold capture_session; rewrite Hcap; reflexivity). cbn [directories world].
    destruct Hc as (_ & path & Hav & Hfiles). split; [done|]. right. left. by exists path.
Qed.

(** The files the installation may change *)
Definition installed (fs fs' : Files) : Prop :=
  fs' = fs ∨ ∃ t contents, resolve_target procs (docker e) (docker_inspect e) (a_pid args) (a_docker_container args) = Ok t ∧
    ∀ p, p ≠ host_library t contents → p ≠ partial_library t contents → fs' !! p = fs !! p.

Lemma install_files t source fs :
  resolve_target procs (docker e) (docker_inspect e) (a_pid args) (a_docker_container args) = Ok t →
  installed fs (install_agent (copy e) t source fs).2.
Proof.
  intros Ht. unfold install_agent. destruct (fs !! source) as [contents|]; [|by left].
  destruct (fs !! host_library t contents); [by left|]. right. exists t, contents. split; [done|].
  intros p Hp1 Hp2. destruct (copy e); cbn; [by rewrite lookup_insert_ne, lookup_delete_ne by congruence|].
  by rewrite lookup_insert_ne by congruence.
Qed.

Lemma filter_head_only (x : str) l : x ∉ l → filter (λ d, d ≠ x) (x :: l) = l.
Proof.
  intros Hx. rewrite filter_cons_False by auto. induction l as [|d l IH]; [done|].
  apply not_elem_of_cons in Hx as [Hd Hl]. by rewrite filter_cons_True, IH by auto.
Qed.

(** C12: what the command leaves behind. The temporary directory is gone in every
    case. Of the files only the installed library, whole or partial, in the
    target's [/tmp] may differ, and the artifact: success means that exactly one
    validated artifact was delivered to a free path, and that no failure of the
    loader was seen; an error leaves no artifact, unless it is the loader's own,
    seen after the artifact had been delivered, which is then kept; the partial
    artifact is left only where it cannot be removed. *)
Theorem run_files h :
  (∀ name parent, temporary_directory e = Ok name → parent ++ lit "/" ++ name ∉ directories h) →
  let '(r, h') := run e args h in
  directories h' = directories h ∧
  ∃ fs, installed (files (world h)) fs ∧
    match r with
    | Ok path => delivered fs (files (world h')) path
    | Err error =>
        files (world h') = fs ∨
        (∃ path, available_output_path (storage e) fs (a_file args) = Ok path ∧
           abandoned (storage e) (temporary_path collector path) fs (files (world h'))) ∨
        (∃ path t loader log target_path name,
           resolve_target procs (docker e) (docker_inspect e) (a_pid args) (a_docker_container args) = Ok t ∧
           select_loader (package e) (command_file_name e) (gdb_helper e) t (a_loader args) (a_gdb args)
             (a_pydump_loader args) [] = (Ok loader, log) ∧
           temporary_directory e = Ok name ∧ delivered fs (files (world h')) path ∧
           loader_start (command_file_name e) loader (request_for e args t target_path name) = Err error)
    end.
Proof.
  intros Hfresh. unfold run.
  assert (∀ err, directories h = directories h ∧ ∃ fs, installed (files (world h)) fs ∧
    (files (world h) = fs ∨
     (∃ path, available_output_path (storage e) fs (a_file args) = Ok path ∧
        abandoned (storage e) (temporary_path collector path) fs (files (world h))) ∨
     ∃ path t loader log target_path name,
        resolve_target procs (docker e) (docker_inspect e) (a_pid args) (a_docker_container args) = Ok t ∧
        select_loader (package e) (command_file_name e) (gdb_helper e) t (a_loader args) (a_gdb args)
          (a_pydump_loader args) [] = (Ok loader, log) ∧
        temporary_directory e = Ok name ∧ delivered fs (files (world h)) path ∧
        loader_start (command_file_name e) loader (request_for e args t target_path name) = Err err)) as Hearly.
  { intros err. split; [done|]. exists (files (world h)). split; [by left|by left]. }
  destruct (resolve_target _ _ _ _ _) as [t|err] eqn:Ht; [|apply Hearly].
  erewrite bind_ok by reflexivity.
  destruct (match a_agent args with Some agent => mret agent | None => _bundled_agent e (python_minor t) end)
    as [agent|err]; [|apply Hearly].
  erewrite bind_ok by reflexivity.
  destruct (verify_agent _ _ _ _) as [[]|err]; [|apply Hearly]. erewrite bind_ok by reflexivity.
  destruct (select_loader _ _ _ _ _ _ _ _) as [[loader|err] log] eqn:Hselect; [|apply Hearly].
  erewrite bind_ok by reflexivity.
  pose proof (install_files t agent (files (world h)) Ht) as Hi.
  destruct (install_agent (copy e) t agent (files (world h))) as [[[host tp]|err] fs] eqn:Hinst; cbn [snd] in Hi.
  2:{ erewrite bind_err by (unfold on_files; rewrite Hinst; reflexivity). cbn. split; [done|]. exists fs.
      split; [done|by left]. }
  erewrite bind_ok by (unfold on_files; rewrite Hinst; reflexivity). cbv beta iota.
  erewrite bind_ok by reflexivity. unfold with_directory.
  destruct (temporary_directory e) as [name|err] eqn:Htemp.
  2:{ erewrite bind_err by reflexivity. cbn. split; [done|]. exists fs. split; [done|by left]. }
  erewrite bind_ok by reflexivity. cbv beta zeta. erewrite bind_ok by reflexivity.
  set (h1 := mkHost _ (_ :: _) _).
  pose proof (session_files t loader (request_for e args t tp name) h1 eq_refl) as Hs.
  unfold finally. destruct (session e args t loader (request_for e args t tp name) h1) as [r h2].
  destruct Hs as [Hdirs Hs]. cbn [world directories modify files set_files] in *.
  assert (filter (λ d, d ≠ (root t ++ lit "/tmp") ++ lit "/" ++ name) (directories h2) = directories h) as Hd.
  { rewrite Hdirs. apply filter_head_only. by apply Hfresh. }
  split; [exact Hd|]. exists fs. split; [exact Hi|]. destruct r as [path|error].
  - by destruct Hs.
  - destruct Hs as [Hs|[Hs|(path & Hdel & _ & Herr)]]; [by left|by right; left|].
    right. right. exists path, t, loader, log, tp, name. do 4 (split; [done|]).
    unfold loader_error in Herr. destruct (loader_start _ _ _); congruence.
Qed.

(** Surroundings in which nothing fails before the session: the target, the Agent,
    the loader and the directory are there, the loader starts the Agent, and the
    Agent connects before the deadline. *)
Record ready (h : Host) (fs : Files) (round : nat) : Prop := {
  ready_run : ∃ t agent loader log host target_path name owner,
    resolve_target procs (docker e) (docker_inspect e) (a_pid args) (a_docker_container args) = Ok t ∧
    match a_agent args with Some agent => mret agent | None => _bundled_agent e (python_minor t) end = Ok agent ∧
    verify_agent (is_file ∘ path_str) (pointer_size e) agent t = Ok tt ∧
    select_loader (package e) (command_file_name e) (gdb_helper e) t (a_loader args) (a_gdb args)
      (a_pydump_loader args) [] = (Ok loader, log) ∧
    install_agent (copy e) t agent (files (world h)) = (Ok (host, target_path), fs) ∧
    temporary_directory e = Ok name ∧ fs_owner procs t = Ok owner ∧ prepare_socket e = Ok tt ∧ set_timeout (a_timeout args) = Ok tt ∧
    loader_start (command_file_name e) loader (request_for e args t target_path name) = Ok tt;
  ready_entropy : length (entropy e) = NONCE_SIZE;
  ready_round : (round < rounds args)%nat ∧ incoming e round = Connects ∧ 0 < remaining e args round ∧
    ∀ i, (i < round)%nat → incoming e i = TimesOut ∧ 0 < remaining e args i;
}.

Lemma accept_connects t fuel first round :
  incoming e round = Connects → 0 < remaining e args round → (first ≤ round < first + fuel)%nat →
  (∀ i, (first ≤ i < round)%nat → incoming e i = TimesOut ∧ 0 < remaining e args i) →
  accept_loop e args t None fuel first = Ok round.
Proof.
  intros Hc Hr. revert first. induction fuel as [|fuel IH]; intros first Hf Hall; [lia|]. cbn [accept_loop].
  fold (remaining e args first). destruct (decide (first = round)) as [->|Hne].
  - rewrite Hc. by rewrite (proj2 (Z.leb_gt _ _)) by done.
  - destruct (Hall first ltac:(lia)) as [Hin Hrem]. rewrite Hin, (proj2 (Z.leb_gt _ _)) by done.
    assert (accept_loop e args t None fuel (S first) = Ok round) as E
      by (apply IH; [lia|intros; apply Hall; lia]).
    by destruct (finished e first).
Qed.

(** In such surroundings the command comes down to the session's delivery. *)
Lemma run_ready h fs round final count w' :
  ready h fs round →
  capture collector (created_at e) (storage e) (a_file args) (set_files fs (world h))
  = (Ok (final, count), w') →
  ∃ h', run e args h = (Ok final, h') ∧ world h' = w'.
Proof.
  intros [(t & agent & loader & log & host & tp & name & [uid gid] & Ht & Ha & Hv & Hl & Hi & Hd & Ho & Hp & Hst & Hs) Hn Hr] Hcap.
  destruct Hr as (Hround & Hconn & Hrem & Hall).
  unfold run. rewrite Ht. erewrite bind_ok by reflexivity. rewrite Ha. erewrite bind_ok by reflexivity. rewrite Hv. erewrite bind_ok by reflexivity.
  rewrite Hl. erewrite bind_ok by reflexivity.
  erewrite bind_ok by (unfold on_files; rewrite Hi; reflexivity). cbv beta iota.
  erewrite bind_ok by reflexivity. unfold with_directory. rewrite Hd.
  erewrite bind_ok by reflexivity. cbv beta zeta. erewrite bind_ok by reflexivity.
  set (h1 := mkHost _ (_ :: _) _).
  assert (∃ h2, session e args t loader (request_for e args t tp name) h1 = (Ok final, h2) ∧ world h2 = w') as (h2 & Hsess & Hw).
  { unfold session. rewrite Ho. erewrite bind_ok by reflexivity. cbv beta iota. rewrite Hp.
    erewrite bind_ok by reflexivity. rewrite Hst. erewrite bind_ok by reflexivity. unfold loader_error. rewrite Hs. cbv zeta.
    erewrite bind_ok by (unfold lift; rewrite (accept_connects t (rounds args) 0 round Hconn Hrem);
      [reflexivity|lia|intros i Hi'; apply Hall; lia]).
    unfold new_collector. cbn [nonce request_for]. rewrite Hn, Nat.eqb_refl. erewrite bind_ok by reflexivity.
    fold collector. erewrite bind_ok by (unfold capture_session; cbn [world h1]; rewrite Hcap; reflexivity).
    destruct (finished_after e); cbn; by eexists. }
  unfold finally. rewrite Hsess. cbn. eexists. by split.
Qed.

(** The program then ends well, and has delivered what the session wrote. *)
Lemma program_delivers argv h fs round final n s :
  parse argv = Ok args → ready h fs round → open_error (storage e) = None → replace_error (storage e) = None →
  available_output_path (storage e) fs (a_file args) = Ok final → path_taken (storage e) fs (temporary_path collector final) = false →
  CollectorOps._capture collector (created_at e)
    (fresh_session collector (storage e)
       (mkWorld fs (w_channel (world h)) new_capture_stats (w_warnings (world h)) (w_progress (world h)))) = (Ok n, s) →
  validate_artifact (path_str (temporary_path collector final)) (f_data (_file (writer s))) = Ok tt →
  (pydump e argv h).1 = Exit 0 [] ∧
  files (world (pydump e argv h).2) = <[final := f_data (_file (writer s))]> fs ∧
  w_channel (world (pydump e argv h).2) = channel s.
Proof.
  intros Hargs Hready Hopen Hreplace Hfinal Htemp Hs Hv.
  destruct (capture_delivers collector (created_at e) (storage e) (a_file args)
              (set_files fs (world h)) final n s _ Hopen Hreplace Hfinal Htemp Hs eq_refl Hv) as (w' & Hcap & Hfiles & Hchannel).
  destruct (run_ready h fs round final _ w' Hready Hcap) as (h' & Hrun' & Hw).
  unfold pydump. rewrite Hargs, Hrun'. cbn [fst snd]. split; [done|]. by rewrite Hw, Hfiles, Hchannel.
Qed.

(** C1: the whole way, from the command line on. In surroundings in which the
    target, an Agent that fits, a loader and the Agent's connection are there in
    time, and with an Agent that answers each message as the protocol asks over
    any finite heap, however it cuts its stream, the program ends with exit code
    0. It has sent the Agent the options it was given, a request for each batch of
    the objects reachable from the roots and the well-known types, each of them
    once, and the end; and has written the artifact of exactly these objects; no
    other file differs from what the installation left. *)
Theorem run_delivers argv h fs folders round target A addresses root_lists U final :
  parse argv = Ok args → ready h fs round → storage e = working folders →
  conforming collector target A addresses root_lists U →
  available_output_path (storage e) fs (a_file args) = Ok final →
  path_taken (storage e) fs (temporary_path collector final) = false →
  let batches := session_batches collector target addresses root_lists U in
  let addrs := concat batches in
    NoDup addrs ∧ (∀ x, x ∈ addrs ↔ reach target (session_roots addresses root_lists) x) ∧
    ∃ options, decode_options options = Ok (a_str_repr_len args, negb (a_no_attribute args)) ∧
    (connected A (length (session_messages options batches)) (w_channel (world h)) →
     (pydump e argv h).1 = Exit 0 [] ∧
     outbox (_socket (w_channel (world (pydump e argv h).2)))
     = outbox (_socket (w_channel (world h))) ++ wire_of (session_messages options batches) ∧
     files (world (pydump e argv h).2)
     = <[final := Artifact.artifact_bytes (created_at e) (0 <=? a_str_repr_len args) (known_of addresses) []
                    (target <$> addrs) (session_types addresses (target <$> addrs))]> fs).
Proof.
  intros Hargs Hready Hdisk Hc Hfinal Htemp.
  destruct (conforming_session collector (created_at e) (0 <=? a_str_repr_len args) true target A addresses
              root_lists U Hc) as (_ & Hnd & Hall & options & Hopt & Hrun).
  cbv zeta. split; [done|]. split; [done|]. exists options. split; [done|]. intros Hconn.
  destruct (Hrun (fresh_session collector (working folders) (mkWorld fs (w_channel (world h)) new_capture_stats
              (w_warnings (world h)) (w_progress (world h))))) as (s & Hs & Hsent & Hbytes); [done..|].
  rewrite <- Hdisk in Hs. rewrite <- Hbytes.
  destruct (program_delivers argv h fs round final _ s Hargs Hready ltac:(by rewrite Hdisk) ltac:(by rewrite Hdisk)
              Hfinal Htemp Hs) as (Hexit & Hfiles & Hchannel).
  { rewrite Hbytes. apply validate_artifact_bytes. }
  split; [done|]. split; [|done]. by rewrite Hchannel.
Qed.
End Running.

(** ** A concrete run *)

Module RunExample.
#[local] Existing Instances elements_order ascii_only default_limits LoaderExample.linux.

(** The batches of the session with the command's batch size *)
Definition batches : list (list Z) := SmallTarget.Example.example_batches batch_size.

(** The clock during the session *)
Definition readings : Readings :=
  mkReadings 5220000000 5230000000 5250000000 5280000000 5420000000 5430000000 5460000000 5470000000.

(** The third round gets the connection. *)
Definition surroundings : Surroundings :=
  mkSurroundings None (λ _ _, Err KeyError) (lit "/pkg/loader") (lit "/pkg/agents") (λ _, true) 8
    (lit "/tmp/pydump-gdb-x.gdb") LoaderExample.helper Copies (replicate NONCE_SIZE x07) (Ok (lit "pydump-abc")) (Ok tt)
    5000000000 (λ round, 5000000007 + 100000000 * Z.of_nat round) 5210000000 readings (λ _, 5400000000) 5500000000
    (λ round, if (round =? 2)%nat then Connects else TimesOut) (λ _, false) true
    SmallTarget.Example.now (working {[(lit "/", lit "tmp")]}) 20480.

Definition args : Arguments :=
  mkArguments (Some 4711) None (lit "/tmp", lit "heap.pyheap") 64 false None AUTO None None (float_of_Z 30).

Definition agent_file : Path := (lit "/pkg/agents", bundled_name (3, 11)).

Definition host : Host :=
  mkHost
    (mkWorld {[agent_file := [x7f; x45; x4c; x46]]}
       (SmallTarget.Example.channel_for 3) new_capture_stats [] [])
    [lit "/tmp/other"] [].

(** The files once the library is installed *)
Definition with_library : Files := (install_agent Copies LoaderExample.the_target agent_file (files (world host))).2.

Lemma target_resolves :
  resolve_target procs None (λ _ _, Err KeyError) (Some 4711) None = Ok LoaderExample.the_target.
Proof. vm_compute. reflexivity. Qed.

Lemma host_ready : ready surroundings args host with_library 2.
Proof.
  constructor.
  - destruct (install_agent Copies LoaderExample.the_target agent_file (files (world host))) as [[[lib tp]|x] fs] eqn:E.
    + exists LoaderExample.the_target, agent_file, (GdbLoader (lit "/usr/bin/gdb") (lit "x86_64")),
        [Gdb.Terminate; Gdb.Reaped], lib, tp, (lit "pydump-abc"), (1000, 100).
      split; [exact target_resolves|]. split; [reflexivity|]. split; [vm_compute; reflexivity|].
      split; [vm_compute; reflexivity|]. split; [unfold with_library; rewrite E; exact E|].
      by repeat split.
    + exfalso. destruct (install_copies LoaderExample.the_target agent_file [x7f; x45; x4c; x46] (files (world host))
                           (lookup_singleton_eq _ _)) as (? & ? & ? & E'). congruence.
  - reflexivity.
  - split; [vm_compute; lia|]. split; [reflexivity|]. split; [vm_compute; reflexivity|].
    intros i Hi. destruct i as [|[|i]]; [| |lia]; split; [reflexivity|vm_compute; reflexivity..].
Qed.
End RunExample.

Import RunExample.
#[local] Existing Instances elements_order ascii_only default_limits LoaderExample.linux.

(** The command line *)
Definition the_words : list str := lit <$> ["-p"; "4711"; "--file=/tmp/heap.pyheap"; "--str-repr-len"; "64"]%string.

Lemma words_parse : parse the_words = Ok args.
Proof. vm_compute. reflexivity. Qed.

Example run_example :
  let '(r, h) := pydump surroundings the_words host in
  r = Exit 0 [] ∧ directories h = [lit "/tmp/other"] ∧
  option_map (λ bs, is_ok (HeapReader.load_heap bs)) (files (world h) !! a_file args) = Some true ∧
  splitlines (printed h)
  = [lit "Loader: gdb (/usr/bin/gdb)";
     lit "0.18 seconds passed, 14 objects done, 0 remain (more may be added)";
     lit "Heap file saved: /tmp/heap.pyheap (14 objects, 0.29s)";
     lit "Capture profile: attach=0.21s, hello-wait=0.01s, setup=0.02s, roots=0.03s, objects=0.14s, target-pause" ++ [0x2248]
       ++ lit "0.20s, finalize=0.03s";
     lit "Capture throughput: 100 objects/s, 0.0 MiB/s wire, 2 referents, 36 received frames, 3 sent frames, 0 bulk records";
     lit "Collector peaks: pending=14, scheduled=14, max-rss=20.0 MiB, artifact=0.0 MiB"].
Proof. vm_compute. repeat split. Qed.

(** An output path that names a directory is numbered like one that names a file. *)
Example directory_example :
  let h := (pydump surroundings (lit <$> ["-p"; "4711"; "-f"; "/tmp"]%string) host).2 in
  is_Some (files (world h) !! (lit "/", lit "tmp.0")) ∧
  (splitlines (printed h)) !! 2%nat = Some (lit "Heap file saved: /tmp.0 (14 objects, 0.29s)").
Proof. vm_compute. eauto. Qed.

(** An interrupt while the command waits: exit code 130, and the temporary
    directory is gone. *)
Example interrupted_example :
  let interrupted := mkSurroundings (docker surroundings) (docker_inspect surroundings) (package surroundings)
    (agents surroundings) (path_exists surroundings) (pointer_size surroundings) (command_file_name surroundings)
    (gdb_helper surroundings) (copy surroundings) (entropy surroundings) (temporary_directory surroundings)
    (prepare_socket surroundings) (attach_started surroundings) (monotonic surroundings) (session_started surroundings)
    (CaptureCli.readings surroundings) (progress_clock surroundings) (saved surroundings)
    (λ round, if (round =? 1)%nat then Interrupted else TimesOut) (finished surroundings) (finished_after surroundings)
    (created_at surroundings) (storage surroundings) (ru_maxrss surroundings) in
  let '(r, h) := pydump interrupted the_words host in
  r = Exit 130 (lit "pydump interrupted") ∧ directories h = directories host ∧ files (world h) !! a_file args = None.
Proof. vm_compute. auto. Qed.

(** A timeout the socket refuses ends the command with a traceback. *)
Definition timeout_ending (text : string) : ending :=
  (pydump surroundings (the_words ++ [lit "--timeout"; lit text]) host).1.

Example refused_timeouts :
  map timeout_ending ["-1"; "nan"; "inf"; "1e10"]%string
  = [Traceback (ValueError (lit "Timeout value out of range"));
     Traceback (ValueError (lit "Invalid value NaN (not a number)")); Traceback OverflowError; Traceback OverflowError].
Proof. vm_compute. reflexivity. Qed.

Lemma with_library_elsewhere p : p.1 ≠ root LoaderExample.the_target ++ lit "/tmp" → with_library !! p = files (world host) !! p.
Proof.
  intros Hp. destruct (install_files surroundings args LoaderExample.the_target agent_file (files (world host)) target_resolves)
    as [E|(t & contents & Ht & Hother)].
  - unfold with_library. change (copy surroundings) with Copies in E. by rewrite E.
  - pose proof (eq_trans (eq_sym target_resolves) Ht) as [= <-]. apply Hother; intros ->; by destruct Hp.
Qed.

Lemma final_free : available_output_path (storage surroundings) with_library (a_file args) = Ok (a_file args).
Proof.
  unfold available_output_path, path_taken. rewrite with_library_elsewhere; [|vm_compute; discriminate].
  vm_compute. reflexivity.
Qed.

Lemma temporary_free :
  path_taken (storage surroundings) with_library (temporary_path (collector surroundings args) (a_file args)) = false.
Proof. unfold path_taken. rewrite with_library_elsewhere; [|vm_compute; discriminate]. vm_compute. reflexivity. Qed.

Lemma run_delivers_witness :
  (pydump surroundings the_words host).1 = Exit 0 [] ∧
  ∃ addrs options, length addrs = 14%nat ∧ NoDup addrs ∧
    (∀ x, x ∈ addrs ↔ reach SmallTarget.Example.target (session_roots SmallTarget.Example.addresses [[0x2000; 0]]) x) ∧
    outbox (_socket (w_channel (world (pydump surroundings the_words host).2)))
    = wire_of (session_messages options [addrs]) ∧
    files (world (pydump surroundings the_words host).2) !! a_file args
    = Some (Artifact.artifact_bytes SmallTarget.Example.now true (known_of SmallTarget.Example.addresses) []
              (SmallTarget.Example.target <$> addrs)
              (session_types SmallTarget.Example.addresses (SmallTarget.Example.target <$> addrs))).
Proof.
  destruct (run_delivers surroundings args the_words host with_library {[(lit "/", lit "tmp")]} 2
              SmallTarget.Example.target SmallTarget.Example.agent
              SmallTarget.Example.addresses [[0x2000; 0]] (list_to_set SmallTarget.Example.reachable)
              (lit "/tmp", lit "heap.pyheap")) as (Hnd & Hreach & options & _ & Hrun).
  - exact words_parse.
  - exact host_ready.
  - reflexivity.
  - apply SmallTarget.Example.conforming_with; [reflexivity|vm_compute; discriminate].
  - exact final_free.
  - exact temporary_free.
  - change (session_batches (collector surroundings args) SmallTarget.Example.target SmallTarget.Example.addresses
              [[0x2000; 0]] (list_to_set SmallTarget.Example.reachable)) with batches in *.
    assert (batches = [concat batches]) as Hone by (vm_compute; reflexivity).
    destruct Hrun as (Hexit & Hsent & Hfiles).
    { rewrite Hone. exact (SmallTarget.Example.channel_connected 3). }
    split; [exact Hexit|].
    exists (concat batches), options. split; [vm_compute; reflexivity|]. split; [exact Hnd|]. split; [exact Hreach|].
    split; [rewrite Hone in Hsent at 1; exact Hsent|].
    rewrite Hfiles. apply lookup_insert_eq.
Defined.

Lemma run_files_witness : directories (run surroundings args host).2 = directories host.
Proof.
  pose proof (run_files surroundings args host) as Hr.
  destruct (run surroundings args host) as [r h']. destruct Hr as [Hd _]; [|exact Hd].
  intros name parent [= <-] Hin. apply list_elem_of_singleton in Hin.
  apply (f_equal length) in Hin. rewrite !length_app in Hin.
  change (length (lit "/tmp/other")) with 10%nat in Hin. change (length (lit "pydump-abc")) with 10%nat in Hin.
  change (length (lit "/")) with 1%nat in Hin. lia.
Defined.

Lemma accept_loop_correct_witness :
  accept_loop surroundings args LoaderExample.the_target None (rounds args) 0 = Ok 2%nat ∧
  ∀ i, (i < 2)%nat → incoming surroundings i = TimesOut.
Proof.
  pose proof (accept_loop_correct surroundings args LoaderExample.the_target None) as Hr.
  assert (accept_loop surroundings args LoaderExample.the_target None (rounds args) 0 = Ok 2%nat) as E
    by (vm_compute; reflexivity).
  rewrite E in Hr. split; [exact E|]. intros i Hi. apply Hr; [|discriminate|exact Hi].
  split; [vm_compute; discriminate|]. intros round Hrem _. unfold remaining. cbn -[Z.of_nat Z.mul].
  change poll with 100000000. lia.
Defined.

Lemma bundled_agent_fits_witness :
  verify_agent (is_file ∘ path_str) 8 agent_file LoaderExample.the_target = Ok tt.
Proof.
  apply (bundled_agent_fits surroundings (3, 11) agent_file LoaderExample.the_target); try reflexivity;
    split; discriminate.
Defined.
