(* ===== verification/Pipeline.v ===== *)
(** * From the target to the report

    Capture and analyzer put together: what the capture program leaves on disk
    the analyzer loads, and what it loads is the reachable part of the target's
    heap. *)
From stdpp Require Import base tactics numbers list gmap sets fin_sets strings.
From S2P Require Import Prelude PyData Struct Text StrOps Paths Errors Protocol CaptureModel HeapWriter Artifact.
From S2P Require Import Collector Capture Conforming SmallTarget RoundTrip Delivery Target LoaderModel Loader CaptureCli.
From S2P Require Import Loaders CaptureCommand.
From S2P Require HeapModel HeapReader LoadedHeap RetainedModel Retained Report Reports ReportText Cache AnalyzerCli.
From S2P Require Json JsonParse.
Import CollectorOps.

(** ** What a conforming session records is readable *)

Lemma described_address len obj frames obj' :
  described len obj frames obj' → address obj' = address obj.
Proof.
  induction 1 as [obj f _|obj f l fs obj' _ _ _ IH|obj f l fs obj' _ _ _ IH|obj f l fs obj' _ _ _ IH
    |obj f fs obj' _ _ IH|obj f fs obj' _ _ IH]; rewrite ?IH; try done.
  unfold default_repr. by destruct (_ && _).
Qed.

Lemma answers_address target A self a : answers target A self a → address (target a) = a.
Proof.
  intros [(f & b & k & parts & _ & _ & _ & <- & _ & Hd) _]. by apply described_address in Hd.
Qed.

Section Recorded.
Context `{SetOrder} (self : Collector) (target : Z → HeapObject) (A : Agent).
Context (addresses : list Z) (root_lists : list (list Z)) (U : gset Z).
Context (conforms : conforming self target A addresses root_lists U).
Context (addrs : list Z) (once : NoDup addrs).
Context (all : ∀ x, x ∈ addrs ↔ reach target (session_roots addresses root_lists) x).

Lemma recorded_address a : a ∈ addrs → address (target a) = a.
Proof. intros Ha%all. by eapply answers_address, (cf_answers _ _ _ _ _ _ conforms). Qed.

Lemma recorded_addresses : address <$> (target <$> addrs) = addrs.
Proof.
  rewrite <- list_fmap_compose. rewrite <- (list_fmap_id addrs) at 2. apply list_fmap_ext.
  intros i a Ha%list_elem_of_lookup_2. by apply recorded_address.
Qed.

Lemma recorded_limits : within_limits (known_of addresses) [] (target <$> addrs) (session_types addresses (target <$> addrs)).
Proof.
  pose proof conforms as [_ _ Haddr Hcount Hans _ _ Hfin Hsmall _ _]. constructor.
  - by apply known_of_ok.
  - done.
  - constructor.
  - assert (length addrs <= size U)%nat as Hlen.
    { rewrite <- (size_list_to_set (C:=gset Z) addrs once). apply subseteq_size.
      intros x Hx%elem_of_list_to_set. by apply Hfin, all. }
    unfold u32, blen. rewrite length_fmap. lia.
  - apply Forall_forall. intros obj (a & -> & Ha)%list_elem_of_fmap. by apply Hans, all.
  - apply (conforming_types self target A addresses root_lists U); [done|]. intros a. apply all.
Qed.

Lemma session_types_named objs obj : obj ∈ objs → type_address obj ∈ (session_types addresses objs).*1.
Proof.
  unfold session_types. induction objs as [|o objs IH] using rev_ind; [by intros ?%elem_of_nil|].
  rewrite foldl_app. cbn [foldl]. intros [Ho|Ho%list_elem_of_singleton]%elem_of_app; apply dict_set_keys.
  - right. by apply IH.
  - left. by subst.
Qed.

Lemma recorded_consistent :
  (∀ a, a ∈ addrs → kind_agrees (known_of addresses) (target a)) →
  consistent (known_of addresses) (target <$> addrs) (session_types addresses (target <$> addrs)).
Proof.
  intros Hk. constructor.
  - apply Forall_forall. intros obj (a & -> & Ha)%list_elem_of_fmap. by apply Hk.
  - by rewrite recorded_addresses.
  - apply session_types_wf.
  - apply Forall_forall. intros obj. apply session_types_named.
Qed.
End Recorded.

(** ** The loaded heap *)

(** The analyzer's object for a recorded one *)
Definition records (obj : HeapObject) (o : HeapModel.HeapObject) : Prop :=
  HeapModel.address o = address obj ∧ HeapModel.type_address o = type_address obj ∧
  HeapModel.size o = stored_size obj ∧ HeapModel.referents o = referents obj ∪ content_addresses obj ∧
  HeapModel.content o = content_back obj.

Section Back.
Context (created : str) (wsr : bool) (known : dict str Z) (threads : list HeapThread) (objs : list HeapObject)
  (types : dict Z str).
Abbreviation heap := (heap_back created wsr known threads objs types).

Lemma back_keys : dict_keys (HeapModel.objects heap) = address <$> objs.
Proof. apply length_object_back. Qed.

Lemma back_records obj :
  NoDup (address <$> objs) → obj ∈ objs →
  ∃ o, dict_get (HeapModel.objects heap) (address obj) = Some o ∧ records obj o.
Proof.
  intros Hnd (pre & post & E)%list_elem_of_split. eexists.
  split; [exact (objects_back_get wsr known objs _ pre obj post E Hnd)|]. done.
Qed.

Lemma back_sizes n : HeapModel.size <$> dict_values (objects_back wsr known objs n) = stored_size <$> objs.
Proof. revert n. induction objs as [|obj l IH]; intros n; [done|]. cbn. f_equal. apply IH. Qed.

Lemma back_total : RetainedModel.total_heap_size heap = zsum (stored_size <$> objs).
Proof. unfold RetainedModel.total_heap_size. f_equal. apply back_sizes. Qed.
End Back.

(** ** The whole way *)

Section Pipeline.
Context `{SetOrder} `{Unicode} `{Interpreter} `{OperatingSystem} (e : Surroundings) (args : Arguments).
Context (d : Cache.disk) (cache_dir : option str) (terminal_columns : Z).

Abbreviation analyzer := (AnalyzerCli.Cli.pydump_analyzer d cache_dir terminal_columns).

(** What the analyzer makes of the file [final]: the heap it loads, the retained
    sizes it calculates and the report it builds *)
Record analysed (target : Z → HeapObject) (addrs : list Z) (final : Path) (fs : Files)
    (contents : bytes) (heap : HeapModel.Heap) (retained : RetainedModel.RetainedHeap) (report : Json.json) : Prop := {
  an_file : fs !! final = Some contents;
  an_loaded : HeapReader.load_heap contents = Ok heap;
  an_addresses : dict_keys (HeapModel.objects heap) = addrs;
  an_objects : ∀ a, a ∈ addrs → ∃ o, dict_get (HeapModel.objects heap) a = Some o ∧ records (target a) o;
  an_total : RetainedModel.total_heap_size heap = zsum (stored_size <$> (target <$> addrs));
  an_calculated : RetainedModel.calculate_retained heap = Ok retained;
  an_retains : ∀ a, a ∈ addrs → ∃ v, RetainedModel.get_for_object retained a = Some v ∧ Retained.retains heap a v;
  an_report : Report.build_heap_analysis contents heap None 100 = Ok report;
  an_reads_back : JsonParse.json_loads (Json.dumps_indented report ++ [10]) = Ok (Json.value_of report);
  an_summary : ∀ argv c, AnalyzerCli.files c = fs → AnalyzerCli.Cli.parse argv = Ok (AnalyzerCli.Cli.Summary final) →
    analyzer argv c = (Ok 0, AnalyzerCli.mkConsole (AnalyzerCli.out c ++ Json.dumps_indented report ++ [10]) fs);
  an_retained : Cache.load (Cache.mkCache final cache_dir) fs = Ok None →
    ∀ argv c top_n format, AnalyzerCli.files c = fs →
      AnalyzerCli.Cli.parse argv = Ok (AnalyzerCli.Cli.RetainedHeapCommand final top_n format) →
      ∃ fs', (∀ p, fs' !! p ≠ fs !! p → Cache.path (Cache.mkCache final cache_dir) fs = Ok p) ∧
        let '(result, c') := analyzer argv c in
        ∃ text, c' = AnalyzerCli.mkConsole (AnalyzerCli.out c ++ text) fs' ∧
          match result with
          | Ok code => code = 0 ∧
              AnalyzerCli.retained_output terminal_columns contents heap retained top_n format text
          | Err stopped => stopped = ArgParse.Raises RecursionError ∧
              ∃ a o, dict_get (HeapModel.objects heap) a = Some o ∧ LoadedHeap.too_deep heap o
          end;
}.

Lemma artifact_analysed created wsr known target addrs types final fs :
  within_limits known [] (target <$> addrs) types → consistent known (target <$> addrs) types →
  (∀ a, a ∈ addrs → address (target a) = a) → address <$> (target <$> addrs) = addrs →
  fs !! final = Some (Artifact.artifact_bytes created wsr known [] (target <$> addrs) types) →
  ∃ contents heap retained report, analysed target addrs final fs contents heap retained report.
Proof.
  intros Hwl Hco Haddr Haddrs Hf. set (contents := Artifact.artifact_bytes _ _ _ _ _ _) in *.
  set (heap := heap_back created wsr known [] (target <$> addrs) types).
  assert (HeapReader.load_heap contents = Ok heap) as Hload by (by apply load_heap_artifact).
  pose proof (LoadedHeap.load_heap_yields contents) as Hwf. rewrite Hload in Hwf. destruct Hwf as [Hwf _].
  assert (∀ t x, t ∈ HeapModel.threads heap → x ∈ HeapModel.thread_locals t → Retained.mentioned heap x) as Hlocals
    by (by intros t x ?%elem_of_nil).
  destruct (Retained.calculate_spec heap (LoadedHeap.hw_objects _ Hwf) Hlocals) as (r & Hr & Hobjects & _).
  destruct (Reports.report_total heap Hwf contents 100) as [report Hreport].
  exists contents, heap, r, report.
  assert (dict_keys (HeapModel.objects heap) = addrs) as Hkeys by (unfold heap; by rewrite back_keys).
  constructor; try done.
  - intros a Ha. destruct (back_records created wsr known [] (target <$> addrs) types (target a)) as (o & Ho & Hrec);
      [apply (co_addresses _ _ _ Hco)|by apply list_elem_of_fmap_2|].
    exists o. by rewrite (Haddr a Ha) in Ho.
  - apply back_total.
  - intros a Ha. apply Hobjects. by rewrite Hkeys.
  - by apply (ReportText.report_reads_back heap Hwf contents None 100).
  - intros argv c <- Hargs. rewrite (AnalyzerCli.program_runs _ _ _ _ _ _ Hargs).
    by rewrite (AnalyzerCli.summary_runs d cache_dir terminal_columns final contents heap report).
  - intros Hcold argv c top_n format <- Hargs. rewrite (AnalyzerCli.program_runs _ _ _ _ _ _ Hargs).
    pose proof (AnalyzerCli.accepted_commands argv) as Hn. rewrite Hargs in Hn.
    destruct (AnalyzerCli.retained_runs d cache_dir terminal_columns final contents heap c top_n format)
      as (r' & fs' & Hr' & Hother & Hrun); [done..|]. rewrite Hr in Hr'. injection Hr' as <-.
    exists fs'. split; [done|].
    destruct (AnalyzerCli.Cli.main _ _ _ _ _) as [[code|x] c']; [done|].
    destruct Hrun as (text & -> & -> & Hdeep). by exists text.
Qed.

(** C2: the way from the target to the report. In surroundings that are ready and
    with an Agent that answers each message as the protocol asks, and reports for
    each object the kind of its type, the capture program requests the reachable
    objects and delivers a file from which the analyzer loads exactly them, each
    with the type, the size, the contents and the referents the Agent described.
    The summary of that file prints the report of this heap, the total size is that
    of the reachable objects, and every reachable object has its retained size.
    Without a cached result the retained-heap command, in either format, changes
    nothing but its cache and prints the retained sizes of this heap with exit code
    0, unless the text of an object in it nests deeper than the interpreter lets
    it, which is a [RecursionError]. *)
Theorem capture_then_analyze argv h fs folders round target A addresses root_lists U final :
  parse argv = Ok args → ready e args h fs round → storage e = working folders →
  conforming (collector e args) target A addresses root_lists U →
  (∀ a, reach target (session_roots addresses root_lists) a → kind_agrees (known_of addresses) (target a)) →
  available_output_path (storage e) fs (a_file args) = Ok final →
  path_taken (storage e) fs (temporary_path (collector e args) final) = false →
  let batches := session_batches (collector e args) target addresses root_lists U in
  let addrs := concat batches in
    NoDup addrs ∧ (∀ x, x ∈ addrs ↔ reach target (session_roots addresses root_lists) x) ∧
    ∃ options, decode_options options = Ok (a_str_repr_len args, negb (a_no_attribute args)) ∧
    (connected A (length (session_messages options batches)) (w_channel (world h)) →
     (Cli.pydump e argv h).1 = Cli.Exit 0 [] ∧
     outbox (_socket (w_channel (world (Cli.pydump e argv h).2)))
     = outbox (_socket (w_channel (world h))) ++ wire_of (session_messages options batches) ∧
     ∃ contents heap retained report,
       analysed target addrs final (files (world (Cli.pydump e argv h).2)) contents heap retained report).
Proof.
  intros Hargs Hready Hdisk Hc Hkind Hfinal Htemp.
  destruct (conforming_session (collector e args) (created_at e) (0 <=? a_str_repr_len args) true target A addresses
              root_lists U Hc) as (_ & Hnd & Hall & options & Hopt & Hrun).
  cbv zeta. split; [done|]. split; [done|]. exists options. split; [done|]. intros Hconn.
  destruct (Hrun (fresh_session (collector e args) (working folders) (mkWorld fs (w_channel (world h)) new_capture_stats
              (w_warnings (world h)) (w_progress (world h))))) as (s & Hs & Hsent & Hbytes); [done..|].
  rewrite <- Hdisk in Hs.
  destruct (program_delivers e args argv h fs round final _ s Hargs Hready ltac:(by rewrite Hdisk)
              ltac:(by rewrite Hdisk) Hfinal Htemp Hs) as (Hexit & Hfiles & Hchannel).
  { rewrite Hbytes. apply validate_artifact_bytes. }
  split; [done|]. split; [by rewrite Hchannel|]. rewrite Hfiles, Hbytes. set (addrs := concat _) in *.
  eapply artifact_analysed; [| | | |apply lookup_insert_eq].
  - by eapply recorded_limits.
  - eapply recorded_consistent; [done..|]. intros a Ha. by apply Hkind, Hall.
  - intros a Ha. by eapply recorded_address.
  - by eapply recorded_addresses.
Qed.
End Pipeline.

(** ** The small target, all the way *)

Import RunExample.
#[local] Existing Instances elements_order StrOps.ascii_only default_limits LoaderExample.linux.

(** The analyzer's command lines *)
Definition summary_words : list str := lit <$> ["summary"; "--file"; "/tmp/heap.pyheap"]%string.
Definition retained_words : list str := lit <$> ["retained-heap"; "-f"; "/tmp/heap.pyheap"; "-n2"]%string.

Lemma target_kinds a :
  reach SmallTarget.Example.target (session_roots SmallTarget.Example.addresses [[0x2000; 0]]) a →
  kind_agrees (known_of SmallTarget.Example.addresses) (SmallTarget.Example.target a).
Proof.
  intros Ha%SmallTarget.Example.reach_reachable. revert a Ha. apply Forall_forall.
  apply (bool_decide_unpack _). vm_compute. exact I.
Qed.

Definition console (fs : Files) : AnalyzerCli.Console := AnalyzerCli.mkConsole [] fs.

Lemma summary_parse : AnalyzerCli.Cli.parse summary_words = Ok (AnalyzerCli.Cli.Summary (a_file args)).
Proof. vm_compute. reflexivity. Qed.

Lemma retained_parse :
  AnalyzerCli.Cli.parse retained_words
  = Ok (AnalyzerCli.Cli.RetainedHeapCommand (a_file args) 2 AnalyzerCli.Cli.Text).
Proof. vm_compute. reflexivity. Qed.

Lemma cold_cache :
  Cache.load (Cache.mkCache (a_file args) None) (files (world (Cli.pydump surroundings the_words host).2)) = Ok None.
Proof. vm_compute. reflexivity. Qed.

(** The list holds itself and the type [list], which nothing else mentions but
    itself as a type: it retains both. *)
Example retained_heap_example :
  let fs := files (world (Cli.pydump surroundings the_words host).2) in
  StrOps.splitlines (AnalyzerCli.out (AnalyzerCli.Cli.pydump_analyzer Cache.Works None 80 retained_words (console fs)).2)
  = [lit "Retained heap for objects:";
     lit "Address         | Object type     | Retained heap size | String representation  ";
     replicate 80 0x2D;
     lit "8192            | list            |                472 | [[...], <type at 0x1000";
     lit "4108            | type            |                400 | <type at 0x100c>       ";
     []; lit "Retained heap for threads:";
     lit "Thread                                             | Retained heap size";
     replicate 71 0x2D;
     []; lit "Total heap size: 5272 bytes"].
Proof. vm_compute. reflexivity. Qed.

Lemma retained_succeeds :
  (AnalyzerCli.Cli.pydump_analyzer Cache.Works None 80 retained_words
     (console (files (world (Cli.pydump surroundings the_words host).2)))).1 = Ok 0.
Proof. vm_compute. reflexivity. Qed.

Lemma capture_then_analyze_witness :
  let fs := files (world (Cli.pydump surroundings the_words host).2) in
  (Cli.pydump surroundings the_words host).1 = Cli.Exit 0 [] ∧
  ∃ contents heap retained report text fs',
    fs !! a_file args = Some contents ∧ HeapReader.load_heap contents = Ok heap ∧
    dict_keys (HeapModel.objects heap) = concat batches ∧
    RetainedModel.total_heap_size heap = zsum (stored_size <$> (SmallTarget.Example.target <$> concat batches)) ∧
    AnalyzerCli.Cli.pydump_analyzer Cache.Works None 80 summary_words (console fs)
    = (Ok 0, AnalyzerCli.mkConsole (Json.dumps_indented report ++ [10]) fs) ∧
    AnalyzerCli.Cli.pydump_analyzer Cache.Works None 80 retained_words (console fs)
    = (Ok 0, AnalyzerCli.mkConsole text fs') ∧
    AnalyzerCli.retained_output 80 contents heap retained 2 AnalyzerCli.Cli.Text text.
Proof.
  cbv zeta. set (fs := files _).
  destruct (capture_then_analyze surroundings args Cache.Works None 80 the_words host with_library {[(lit "/", lit "tmp")]} 2
              SmallTarget.Example.target SmallTarget.Example.agent
              SmallTarget.Example.addresses [[0x2000; 0]] (list_to_set SmallTarget.Example.reachable)
              (a_file args)) as (_ & _ & options & _ & Hrun).
  - exact words_parse.
  - exact host_ready.
  - reflexivity.
  - apply SmallTarget.Example.conforming_with; [reflexivity|vm_compute; discriminate].
  - exact target_kinds.
  - exact final_free.
  - exact temporary_free.
  - change (session_batches (collector surroundings args) SmallTarget.Example.target SmallTarget.Example.addresses
              [[0x2000; 0]] (list_to_set SmallTarget.Example.reachable)) with batches in *.
    assert (batches = [concat batches]) as Hone by (vm_compute; reflexivity).
    destruct Hrun as (Hexit & _ & contents & heap & r & report & Han).
    { rewrite Hone. exact (SmallTarget.Example.channel_connected 3). }
    fold fs in Han. split; [exact Hexit|].
    destruct (an_retained _ _ _ _ _ _ _ _ _ _ _ Han cold_cache retained_words (console fs) 2 AnalyzerCli.Cli.Text
                eq_refl retained_parse) as (fs' & _ & Hretained).
    pose proof retained_succeeds as Hok. fold fs in Hok.
    destruct (AnalyzerCli.Cli.pydump_analyzer Cache.Works None 80 retained_words (console fs)) as [result c'] eqn:E.
    cbn [fst] in Hok. subst result. destruct Hretained as (text & -> & _ & Htext).
    exists contents, heap, r, report, text, fs'.
    split; [exact (an_file _ _ _ _ _ _ _ _ _ _ _ Han)|]. split; [exact (an_loaded _ _ _ _ _ _ _ _ _ _ _ Han)|].
    split; [exact (an_addresses _ _ _ _ _ _ _ _ _ _ _ Han)|]. split; [exact (an_total _ _ _ _ _ _ _ _ _ _ _ Han)|].
    split; [exact (an_summary _ _ _ _ _ _ _ _ _ _ _ Han summary_words (console fs) eq_refl summary_parse)|].
    split; [reflexivity|exact Htext].
Defined.
